(* ===== verification/_CoqProject ===== *)
-Q . S2P
Prelude.v
Result.v
CxxString.v
Buffer.v
BufferProofs.v
Config.v
ConfigLoad.v
LoadBalancer.v
LoadBalancerProofs.v
ConfigProofs.v
World.v
Fd.v
UpstreamPool.v
UpstreamPoolProofs.v
Http1.v
Http1Proofs.v
Huffman.v
HuffmanProofs.v
Hpack.v
HpackProofs.v
Http2.v
Http2Proofs.v
Forward.v
ForwardProofs.v
Log.v
EventLoop.v
LoopEpoll.v
LoopKqueue.v
Tls.v
TlsFallback.v
TlsBoring.v
Client.v
ClientProofs.v
Server.v
TlsProofs.v
Progress.v
LoopProofs.v
ServerInv.v
ServerProofs.v
RequestProofs.v
Main.v
MainProofs.v
