(* ===== verification/Prelude.v ===== *)
(** * uproxy: a verification library

    uproxy is a reverse proxy.  [main] reads a configuration, opens a log and
    runs a [ProxyServer]: an event loop delivers accepted sockets, client
    events and a timer; client bytes, decrypted when the connection is TLS, go
    through an HTTP/1.1 parser or an HTTP/2 connection; a balancer picks an
    upstream, a pool gives a connection to it, the request is written and the
    response read; the answer is queued and sent to the client.

    How the code is modelled:

    Pure functions are functions.  A function that may fail returns a
    [Result]; one that changes state is a function of the state, in the monad
    [M] of Result.v.  Integers are [Z] with the wrap-around of their C++ type
    written out ([u32], [u64], [i32]); bytes are [Byte.byte].  System calls go
    through a [World] (World.v): the calls made so far and the answers still
    to come.  Every theorem quantifies over the answers, so it holds for every
    behaviour of the kernel and of the peers, including short writes,
    interrupted calls and errors.

    Each component is one file with the code and one with its proofs:

    - Result, CxxString: [Result<T>], [Error]; the C++ string functions used
      (result.h, result.cpp and the standard library).
    - Buffer, BufferProofs: [RingBuffer] and the interface [BufferOps] with
      the contract [BufferSpec] (buffer.h, buffer.cpp).  All clients are
      written over the interface and proved over the contract.
    - Config, ConfigLoad, ConfigProofs: configuration file, command line and
      validation (config.h, config.cpp).
    - LoadBalancer, LoadBalancerProofs: smooth weighted round robin
      (load_balancer.h, load_balancer.cpp).
    - World, Fd: system calls and [Uniquefd] (fd.h, fd.cpp).
    - UpstreamPool, UpstreamPoolProofs: connection pools as critical sections
      and as a step relation over any number of threads (upstream_pool.h,
      upstream_pool.cpp).
    - Http1, Http1Proofs: parser and serializer (http1.h, http1.cpp).
    - Huffman, HuffmanProofs, Hpack, HpackProofs: header compression (hpack.h,
      hpack.cpp, hpack_huffman_table.h).
    - Http2, Http2Proofs: frames and the connection (http2.h, http2.cpp).
    - Forward, ForwardProofs: the functions of proxy.cpp that talk to
      upstreams ([wait_fd], [write_all], [response_complete],
      [read_response], [forward_http1]).
    - Log: the logger (log.h, log.cpp).
    - EventLoop, LoopEpoll, LoopKqueue, LoopProofs: the abstract class, its
      contract [EventLoopSpec] and both implementations (event_loop.h,
      event_loop_epoll.cpp, event_loop_kqueue.cpp).
    - Tls, TlsFallback, TlsBoring, TlsProofs: the interface, its contract
      [TlsSpec] and both builds of tls.cpp.  BoringSSL is a parameter
      ([SslLib]) with its documented behaviour as laws ([SslSpec]);
      TlsProofs has an instance that shows that the laws can hold.
    - Client, ClientProofs: [ClientConn] and moving bytes to and from a client
      ([flush_tls_ciphertext], [read_client_input], [write_client_output]).
    - Progress: every operation only makes further calls.
    - Server, ServerInv, ServerProofs, RequestProofs: [ProxyServer], over any
      buffer, TLS implementation and event loop (proxy.h, proxy.cpp).
    - Main, MainProofs: main.cpp, and a complete execution.

    What the theorems show:

    - Buffers: the circular buffer refines a queue of bytes.
    - Messages: what an accepted request satisfies; that a forwarded request
      is read back as the same request; the exact completion rule of
      responses; round trips of HPACK and Huffman coding; the frames of an
      HTTP/2 request, whoever wrote them, are delivered as that request; each
      stream is reported once, and only after its headers and its end;
      decoding arbitrary bytes is safe and ends.
    - Upstreams: requests are written completely or not reported as written,
      responses are what was received, and reading stops only for a reason;
      a response is read from the connection its request was written to; a
      failed connect closes its socket; the balancer is exact over a cycle and
      smooth in between; the count of a pool is that of its connections.
    - Clients: output is conserved, plaintext and ciphertext; a request of an
      announced length is answered in the event that completes it; connections are isolated from each other, stored under
      their own descriptors and closed when they go; TLS negotiation.
    - The program: start-up accepts only usable configurations; what a
      configuration file means; the serving loop is the loop of the code and
      stops without error only when the flag was seen set; a clean stop has
      closed every client that was accepted; what the exit status says.  That
      the flag is set one day is up to the system and is not claimed.
    - Defects, stated and proved as the code behaves: pools that lose a slot
      for every failed attempt or whose count wraps, closed connections taken
      for an empty answer, header blocks that are refused because they arrive
      in two pieces, header fields that are refused or misread although
      valid, responses that are lost, and HTTP/2 requests that become two
      HTTP/1.1 requests.

    Bounds:

    Recursion that is not structural takes a bound.  Loops over system calls
    are bounded by the number of answers left: each turn takes one, and a call
    without an answer fails with an error no loop retries, so a run of any
    length is covered by a script that is long enough.  Loops over data are
    bounded by its length.  The theorems show that the bounds are not what
    ends the loops ([serve_loop_exact], [process_takes_all_frames],
    [write_all_delivers], [client_output_conserved] and the lemmas named
    [_fuel] and [_more]).  [BUF_LIMIT] is the size below which the arithmetic
    of the buffer does not overflow.

    Not modelled:

    - BoringSSL, the kernel and [inet_pton]: parameters, see above.
    - Signal handlers: a store to [g_shutdown] is an answer to the next load;
      a load without an answer sees the flag not set.
    - Destructors at the end of the process, and memory exhaustion.
    - Members of classes that no function reads, such as [current_req],
      [up_rbuf] and [request_at_ms] of [ClientConn].
    - The order in which an [unordered_map] is traversed is the order of
      [map_to_list]; no theorem depends on it.
    - Tests, fuzzers and build files. *)

From stdpp Require Import prelude gmap countable numbers.
From Stdlib Require Import Strings.Byte ZArith Lia.
From Stdlib Require String.
Export String.StringSyntax.

#[global] Open Scope Z_scope.
#[global] Open Scope list_scope.

(** ** Bytes

    [unsigned char] and [char] are [Byte.byte]; [std::string],
    [std::string_view], [std::vector<unsigned char>] and
    [std::span<const unsigned char>] are lists of them. *)

Abbreviation byte := Byte.byte.
Abbreviation bytes := (list Byte.byte).

(** The value of an [unsigned char] as an integer. *)
Definition b2z (b : byte) : Z := Z.of_N (Byte.to_N b).

(** [static_cast<unsigned char>(z)]: reduction modulo 256. *)
Definition z2b (z : Z) : byte :=
  match Byte.of_N (Z.to_N (z mod 256)) with
  | Some b => b
  | None => Byte.x00
  end.

#[global] Arguments Byte.eqb : simpl never.

#[global] Instance byte_eq_dec : EqDecision byte := Byte.byte_eq_dec.

#[global] Instance byte_countable : Countable byte.
Proof.
  refine (inj_countable Byte.to_N Byte.of_N _).
  intros b. apply Byte.of_to_N.
Defined.

(** A string literal of the source. *)
Definition str (s : String.string) : bytes := String.list_byte_of_string s.
Arguments str s%_string_scope : simpl never.

(** [size()] of a string, vector or span, as the integer the code computes with. *)
Definition len {A} (l : list A) : Z := Z.of_nat (length l).

(** ** Fixed-width unsigned arithmetic: the wrap-around is explicit. *)

Definition u8 (z : Z) : Z := z mod 2 ^ 8.
Definition u16 (z : Z) : Z := z mod 2 ^ 16.
Definition u32 (z : Z) : Z := z mod 2 ^ 32.
Definition u64 (z : Z) : Z := z mod 2 ^ 64.

(** Two's-complement value of the low 32 (64) bits, the conversion to
    [int32_t] ([int64_t]). *)
Definition i32 (z : Z) : Z := (z + 2 ^ 31) mod 2 ^ 32 - 2 ^ 31.
Definition i64 (z : Z) : Z := (z + 2 ^ 63) mod 2 ^ 64 - 2 ^ 63.

(** Bounds of the types the code compares against. *)
Definition UINT32_MAX : Z := 2 ^ 32 - 1.
Definition UINT64_MAX : Z := 2 ^ 64 - 1.
Definition INT64_MAX : Z := 2 ^ 63 - 1.
Definition INT32_MAX : Z := 2 ^ 31 - 1.

(** ** Automation *)

Create HintDb uproxy.
Create Rewrite HintDb uplen.

(** Case analysis on the scrutinee of the innermost match or if of the goal,
    remembering the equation. *)
Ltac dmatch :=
  match goal with
  | |- context [match ?x with _ => _ end] =>
      lazymatch x with context [match _ with _ => _ end] => fail | _ => idtac end;
      destruct x eqn:?
  end.

Ltac dmatch_in H :=
  match type of H with
  | context [match ?x with _ => _ end] =>
      lazymatch x with context [match _ with _ => _ end] => fail | _ => idtac end;
      destruct x eqn:?
  end.

(** Boolean comparisons of the code turned into arithmetic facts. *)
Ltac zbool :=
  repeat match goal with
  | H : (_ <? _) = true |- _ => apply Z.ltb_lt in H
  | H : (_ <? _) = false |- _ => apply Z.ltb_ge in H
  | H : (_ <=? _) = true |- _ => apply Z.leb_le in H
  | H : (_ <=? _) = false |- _ => apply Z.leb_gt in H
  | H : (_ =? _) = true |- _ => apply Z.eqb_eq in H
  | H : (_ =? _) = false |- _ => apply Z.eqb_neq in H
  | H : (_ >? _) = true |- _ => rewrite Z.gtb_ltb in H; apply Z.ltb_lt in H
  | H : (_ >? _) = false |- _ => rewrite Z.gtb_ltb in H; apply Z.ltb_ge in H
  | H : (_ >=? _) = true |- _ => rewrite Z.geb_leb in H; apply Z.leb_le in H
  | H : (_ >=? _) = false |- _ => rewrite Z.geb_leb in H; apply Z.leb_gt in H
  | H : bool_decide _ = true |- _ => apply bool_decide_eq_true in H
  | H : bool_decide _ = false |- _ => apply bool_decide_eq_false in H
  | H : (_ && _)%bool = true |- _ => apply andb_true_iff in H; destruct H
  | H : (_ || _)%bool = false |- _ => apply orb_false_iff in H; destruct H
  | H : Byte.eqb _ _ = true |- _ => apply Byte.byte_dec_bl in H
  | H : negb _ = true |- _ => apply negb_true_iff in H
  | H : negb _ = false |- _ => apply negb_false_iff in H
  end.

(** [lia] after turning lengths into integers. *)
Ltac len_simpl :=
  unfold len in *;
  repeat rewrite ?length_app, ?length_take, ?length_drop, ?length_cons, ?length_nil,
    ?length_replicate in *.
Ltac len_lia := len_simpl; lia.

(** ** Lemmas on bytes and machine integers *)

Lemma b2z_range b : 0 <= b2z b < 256.
Proof. unfold b2z. pose proof (Byte.to_N_bounded b). lia. Qed.

Lemma b2z_z2b z : b2z (z2b z) = z mod 256.
Proof.
  unfold z2b, b2z. pose proof (Z.mod_pos_bound z 256 ltac:(lia)).
  destruct (Byte.of_N _) eqn:E.
  - apply Byte.to_of_N in E. rewrite E. lia.
  - apply Byte.of_N_None_iff in E. lia.
Qed.

Lemma z2b_b2z b : z2b (b2z b) = b.
Proof.
  unfold z2b. rewrite Z.mod_small by apply b2z_range.
  unfold b2z. rewrite N2Z.id. by rewrite Byte.of_to_N.
Qed.

Lemma b2z_inj a b : b2z a = b2z b -> a = b.
Proof. intros H. rewrite <- (z2b_b2z a), <- (z2b_b2z b). by rewrite H. Qed.

Lemma b2z_z2b_small z : 0 <= z < 256 -> b2z (z2b z) = z.
Proof. intros H. rewrite b2z_z2b. by apply Z.mod_small. Qed.

Lemma byte_eqb_eq a b : Byte.eqb a b = true <-> a = b.
Proof. split; [apply Byte.byte_dec_bl|apply Byte.byte_dec_lb]. Qed.

Lemma byte_eqb_refl a : Byte.eqb a a = true.
Proof. by apply byte_eqb_eq. Qed.

Lemma byte_eqb_neq a b : Byte.eqb a b = false <-> a <> b.
Proof. rewrite <- byte_eqb_eq. by destruct (Byte.eqb a b). Qed.

(** To check a decidable fact of every byte, evaluate it on the 256 of them. *)
Definition all_bytes : bytes := map (fun n => z2b (Z.of_nat n)) (seq 0 256).

Lemma all_bytes_complete b : b ∈ all_bytes.
Proof.
  unfold all_bytes. apply list_elem_of_In, in_map_iff.
  exists (Z.to_nat (b2z b)). pose proof (b2z_range b). split.
  - rewrite Z2Nat.id by lia. apply z2b_b2z.
  - apply in_seq. lia.
Qed.

Lemma byte_forallb (f : byte -> bool) :
  forallb f all_bytes = true -> forall b, f b = true.
Proof.
  intros H b. rewrite forallb_forall in H. apply H.
  apply list_elem_of_In, all_bytes_complete.
Qed.

(** Two boolean tests of a byte imply each other: checked by evaluation. *)
Lemma byte_implb (f g : byte -> bool) :
  forallb (fun b => implb (f b) (g b)) all_bytes = true ->
  forall b, f b = true -> g b = true.
Proof.
  intros H b Hf. pose proof (byte_forallb _ H b) as Hb. cbn in Hb.
  rewrite Hf in Hb. done.
Qed.

Lemma u64_small z : 0 <= z < 2 ^ 64 -> u64 z = z.
Proof. apply Z.mod_small. Qed.

Lemma u32_small z : 0 <= z < 2 ^ 32 -> u32 z = z.
Proof. apply Z.mod_small. Qed.

Lemma u32_range z : 0 <= u32 z < 2 ^ 32.
Proof. apply Z.mod_pos_bound. lia. Qed.

Lemma u64_range z : 0 <= u64 z < 2 ^ 64.
Proof. apply Z.mod_pos_bound. lia. Qed.

Lemma i64_small z : - 2 ^ 63 <= z < 2 ^ 63 -> i64 z = z.
Proof. intros H. unfold i64. rewrite Z.mod_small; lia. Qed.

Lemma i32_small z : - 2 ^ 31 <= z < 2 ^ 31 -> i32 z = z.
Proof. intros H. unfold i32. rewrite Z.mod_small; lia. Qed.

(** Reduction of a position that has moved by less than one turn. *)
Lemma mod_once x c : 0 <= x < 2 * c -> x mod c = if x <? c then x else x - c.
Proof.
  intros H. destruct (Z.ltb_spec x c).
  - apply Z.mod_small. lia.
  - symmetry. apply (Z.mod_unique_pos x c 1); lia.
Qed.

(** ** Lemmas on lengths and slices *)

Lemma len_nonneg {A} (l : list A) : 0 <= len l.
Proof. unfold len. lia. Qed.

Lemma len_app {A} (l k : list A) : len (l ++ k) = len l + len k.
Proof. len_lia. Qed.

Lemma len_nil {A} : len (@nil A) = 0.
Proof. done. Qed.

Lemma len_cons {A} (x : A) l : len (x :: l) = 1 + len l.
Proof. len_lia. Qed.

Lemma len_0_nil {A} (l : list A) : len l = 0 -> l = [].
Proof. destruct l; [done|]. rewrite len_cons. pose proof (len_nonneg l). lia. Qed.

Lemma take_drop_split {A} (n m : nat) (l : list A) :
  (n <= m)%nat -> take n l ++ take (m - n) (drop n l) = take m l.
Proof.
  intros H. rewrite <- (take_drop n (take m l)) at 1.
  f_equal.
  - rewrite take_take. f_equal. lia.
  - rewrite take_drop_commute. repeat f_equal. lia.
Qed.

#[export] Hint Rewrite @len_app @len_nil @len_cons : uplen.
#[export] Hint Resolve len_nonneg b2z_range u32_range u64_range : uproxy.
