(* ===== verification/Result.v ===== *)
(** * Errors and the [Result] type (src/include/uproxy/result.h, src/src/result.cpp)

    [Result<T>] holds either a value or an [Error]; the two private optionals
    of the class are one sum here, since every constructor of the class fills
    exactly one of them.  [Result<void>] is [Result unit]. *)

From stdpp Require Import prelude.
From S2P Require Import Prelude.

Inductive ErrCode :=
  | Ok_ | SysError | WouldBlock | EOF_ | HttpMalformed | Http2Protocol | HpackError
  | ConfigSyntax | ConfigInvalid | TlsHandshake | TlsIO | NoUpstream | Timeout_.

#[global] Instance ErrCode_eq_dec : EqDecision ErrCode.
Proof. solve_decision. Defined.

Record Error := mkError {
  code : ErrCode;
  sys_errno : Z;
  msg : bytes;
}.

#[global] Instance Error_eq_dec : EqDecision Error.
Proof. solve_decision. Defined.

Inductive Result (A : Type) :=
  | Ok (a : A)
  | Err (e : Error).
Arguments Ok {A} a.
Arguments Err {A} e.

(** [Error::from_errno]: the current [errno] is an argument. *)
Definition from_errno (errno : Z) (ctx : bytes) : Error := mkError SysError errno ctx.

Definition from_code (c : ErrCode) (m : bytes) : Error := mkError c 0 m.

Definition is_ok {A} (r : Result A) : bool := match r with Ok _ => true | Err _ => false end.
Definition is_err {A} (r : Result A) : bool := negb (is_ok r).

Definition and_then {A B} (r : Result A) (f : A -> Result B) : Result B :=
  match r with Ok a => f a | Err e => Err e end.

Definition map_ok {A B} (r : Result A) (f : A -> B) : Result B :=
  match r with Ok a => Ok (f a) | Err e => Err e end.

Definition or_else {A} (r : Result A) (f : Error -> Result A) : Result A :=
  match r with Ok a => Ok a | Err e => f e end.

Definition code_name (c : ErrCode) : bytes :=
  match c with
  | Ok_ => str "ok"
  | SysError => str "sys_error"
  | WouldBlock => str "would_block"
  | EOF_ => str "eof"
  | HttpMalformed => str "http_malformed"
  | Http2Protocol => str "http2_protocol"
  | HpackError => str "hpack_error"
  | ConfigSyntax => str "config_syntax"
  | ConfigInvalid => str "config_invalid"
  | TlsHandshake => str "tls_handshake"
  | TlsIO => str "tls_io"
  | NoUpstream => str "no_upstream"
  | Timeout_ => str "timeout"
  end.

(** [Error::to_string]; [strerror] is the C library's table of messages. *)
Definition error_to_string (strerror : Z -> bytes) (e : Error) : bytes :=
  code_name (code e)
  ++ (if bool_decide (msg e = []) then [] else str ": " ++ msg e)
  ++ (if bool_decide (code e = SysError) then str ": " ++ strerror (sys_errno e) else []).

(** ** Stateful fallible code

    A C++ function that mutates an object of type [S] through a reference and
    returns [Result<A>] is a function [S -> Result A * S]: the state comes back
    on the error paths too, as it does in the code. *)

Definition M (S A : Type) : Type := S -> Result A * S.

Definition ret {S A} (a : A) : M S A := fun s => (Ok a, s).

Definition fail_with {S A} (e : Error) : M S A := fun s => (Err e, s).

(** [auto r = m; if (r.is_err()) return err(r.error()); k(r.value())]. *)
Definition bind {S A B} (m : M S A) (k : A -> M S B) : M S B :=
  fun s => match m s with
           | (Ok a, s') => k a s'
           | (Err e, s') => (Err e, s')
           end.

Declare Scope result_scope.
Delimit Scope result_scope with res.
Notation "'let!' x ':=' m 'in' k" := (bind m (fun x => k))
  (at level 10, x binder, m at level 100, k at level 200) : result_scope.
Notation "m1 ;;; m2" := (bind m1 (fun _ => m2))
  (at level 199, m2 at level 200, right associativity) : result_scope.
#[global] Open Scope result_scope.

Lemma bind_ok {S A B} (m : M S A) (k : A -> M S B) s a s' :
  m s = (Ok a, s') -> bind m k s = k a s'.
Proof. unfold bind. by intros ->. Qed.

Lemma bind_err {S A B} (m : M S A) (k : A -> M S B) s e s' :
  m s = (Err e, s') -> bind m k s = (Err e, s').
Proof. unfold bind. by intros ->. Qed.

(** A successful sequence is two successful steps. *)
Lemma bind_inv_ok {S A B} (m : M S A) (k : A -> M S B) s b s' :
  bind m k s = (Ok b, s') -> exists a s1, m s = (Ok a, s1) /\ k a s1 = (Ok b, s').
Proof. unfold bind. destruct (m s) as [[a|e] s1]; [eauto|congruence]. Qed.

Lemma bind_assoc {S A B C} (m : M S A) (f : A -> M S B) (g : B -> M S C) s :
  bind (bind m f) g s = bind m (fun a => bind (f a) g) s.
Proof. unfold bind. by destruct (m s) as [[a|e] s1]. Qed.
