(* ===== verification/CxxString.v ===== *)
(** * The C++ string library as the sources use it

    [std::string_view::find], the [<cctype>] predicates in the C locale,
    [std::from_chars] and the integer formatting of [std::to_string],
    [operator<<] and [%zx].  A position in a string that exists in memory is a
    [nat]: it is bounded by that string's length. *)

From stdpp Require Import prelude.
From S2P Require Import Prelude.

(** ** Searching *)

Fixpoint starts_with (pat s : bytes) : bool :=
  match pat, s with
  | [], _ => true
  | p :: pat', c :: s' => Byte.eqb p c && starts_with pat' s'
  | _ :: _, [] => false
  end.

(** [s.find(pat)]; [None] is [npos]. *)
Fixpoint find_sub (pat s : bytes) : option nat :=
  if starts_with pat s then Some 0%nat
  else match s with
       | [] => None
       | _ :: s' => S <$> find_sub pat s'
       end.

(** [s.find(pat, pos)]. *)
Definition find_from (pat s : bytes) (pos : nat) : option nat :=
  if (length s <? pos)%nat then None else (Nat.add pos) <$> find_sub pat (drop pos s).

(** [s.find(c)] and [s.find(c, pos)] for a character. *)
Definition find_char (c : byte) (s : bytes) : option nat := find_sub [c] s.
Definition find_char_from (c : byte) (s : bytes) (pos : nat) : option nat := find_from [c] s pos.

(** [s.substr(pos, n)] for positions the code has checked. *)
Definition substr (s : bytes) (pos n : nat) : bytes := take n (drop pos s).

Definition CR : byte := Byte.x0d.
Definition LF : byte := Byte.x0a.
Definition SP : byte := Byte.x20.
Definition HTAB : byte := Byte.x09.
Definition CRLF : bytes := [CR; LF].

(** ** <cctype>, C locale *)

Definition isdigit (c : byte) : bool := (48 <=? b2z c) && (b2z c <=? 57).
Definition isupper (c : byte) : bool := (65 <=? b2z c) && (b2z c <=? 90).
Definition islower (c : byte) : bool := (97 <=? b2z c) && (b2z c <=? 122).
Definition isalnum (c : byte) : bool := isdigit c || isupper c || islower c.
Definition isspace (c : byte) : bool := (b2z c =? 32) || ((9 <=? b2z c) && (b2z c <=? 13)).
Definition tolower (c : byte) : byte := if isupper c then z2b (b2z c + 32) else c.

(** ** <charconv> *)

Inductive errc := ErrcNone | ErrcInvalid | ErrcRange.

(** The value of a digit in the given base, letters of either case. *)
Definition digit_val (base : Z) (c : byte) : option Z :=
  let v := if isdigit c then b2z c - 48
           else if islower c then b2z c - 87
           else if isupper c then b2z c - 55
           else base in
  if v <? base then Some v else None.

(** The longest prefix of digits: its value and its length. *)
Fixpoint scan_digits (base acc : Z) (s : bytes) : Z * nat :=
  match s with
  | [] => (acc, 0%nat)
  | c :: s' =>
      match digit_val base c with
      | None => (acc, 0%nat)
      | Some d => let '(v, n) := scan_digits base (acc * base + d) s' in (v, S n)
      end
  end.

(** [std::from_chars(first, last, out, base)] into an unsigned type whose
    largest value is [max]: the error code, the value stored on success and
    the distance [ptr - first]. *)
Definition from_chars (base max : Z) (s : bytes) : errc * Z * nat :=
  match scan_digits base 0 s with
  | (_, O) => (ErrcInvalid, 0, O)
  | (v, n) => if max <? v then (ErrcRange, 0, n) else (ErrcNone, v, n)
  end.

(** The signed variant for [int]: an optional minus sign. *)
Definition from_chars_int (s : bytes) : errc * Z * nat :=
  match s with
  | c :: s' =>
      if Byte.eqb c Byte.x2d then
        match from_chars 10 (2 ^ 31) s' with
        | (ErrcInvalid, _, _) => (ErrcInvalid, 0, O)
        | (ec, v, n) => (ec, - v, S n)
        end
      else from_chars 10 INT32_MAX s
  | [] => (ErrcInvalid, 0, O)
  end.

(** The callers accept a number only when it fills the whole text:
    [ec != std::errc() || ptr != last] is the rejection. *)
Definition whole_number (r : errc * Z * nat) (s : bytes) : option Z :=
  match r with
  | (ErrcNone, v, n) => if (n =? length s)%nat then Some v else None
  | _ => None
  end.

(** ** Integer formatting *)

Definition digit_char (d : Z) : byte := if d <? 10 then z2b (48 + d) else z2b (87 + d).

Fixpoint format_aux (fuel : nat) (base z : Z) (acc : bytes) : bytes :=
  match fuel with
  | O => acc
  | S fuel' =>
      let acc' := digit_char (z mod base) :: acc in
      if z <? base then acc' else format_aux fuel' base (z / base) acc'
  end.

(** Digits of a non-negative integer, most significant first; the number of
    binary digits bounds the number of digits in any base of at least two. *)
Definition format_nat (base z : Z) : bytes := format_aux (S (Z.to_nat (Z.log2 z))) base z [].

Definition to_string (z : Z) : bytes :=
  if z <? 0 then Byte.x2d :: format_nat 10 (- z) else format_nat 10 z.

(** [%zx]. *)
Definition to_hex (z : Z) : bytes := format_nat 16 z.

(** ** Lemmas: searching *)

Lemma starts_with_spec pat s : starts_with pat s = true <-> exists t, s = pat ++ t.
Proof.
  revert s; induction pat as [|p pat IH]; intros s; cbn.
  { split; [by exists s | done]. }
  destruct s as [|c s]; [split; [done | by intros [t Ht]]|].
  rewrite andb_true_iff, IH. split.
  - intros [Hc [t ->]]. apply Byte.byte_dec_bl in Hc. subst. by exists t.
  - intros [t Ht]. injection Ht as -> ->. split; [by apply Byte.byte_dec_lb | by exists t].
Qed.

Lemma starts_with_app pat t : starts_with pat (pat ++ t) = true.
Proof. apply starts_with_spec. by exists t. Qed.

Lemma find_sub_unfold pat s :
  find_sub pat s =
  if starts_with pat s then Some 0%nat
  else match s with [] => None | _ :: s' => S <$> find_sub pat s' end.
Proof. by destruct s. Qed.

(** What a successful search says: the pattern is there and nowhere earlier. *)
Lemma find_sub_Some pat s i :
  find_sub pat s = Some i ->
  (i <= length s)%nat /\ starts_with pat (drop i s) = true /\
  forall j, (j < i)%nat -> starts_with pat (drop j s) = false.
Proof.
  revert i; induction s as [|c s IH]; intros i; rewrite find_sub_unfold;
    destruct (starts_with pat _) eqn:E; intros H.
  - injection H as <-. cbn. repeat split; [lia|done|lia].
  - done.
  - injection H as <-. repeat split; [cbn; lia|done|lia].
  - apply fmap_Some in H as (k & Hk & ->). destruct (IH _ Hk) as (H1 & H2 & H3).
    cbn. repeat split; [lia|done|]. intros [|j] Hj; cbn; [done|]. apply H3. lia.
Qed.

Lemma find_sub_None pat s :
  find_sub pat s = None -> forall j, starts_with pat (drop j s) = false.
Proof.
  induction s as [|c s IH]; rewrite find_sub_unfold; destruct (starts_with pat _) eqn:E; intros H j;
    try done.
  - by rewrite drop_nil.
  - apply fmap_None in H. destruct j; [done|]. by apply IH.
Qed.

(** Splitting the text at the first occurrence. *)
Lemma find_sub_split pat s i :
  find_sub pat s = Some i -> s = take i s ++ pat ++ drop (i + length pat) s.
Proof.
  intros H. apply find_sub_Some in H as (Hi & Hs & _).
  apply starts_with_spec in Hs as [t Ht].
  rewrite <- drop_drop, Ht, drop_app_length, <- Ht. by rewrite take_drop.
Qed.

(** The first character of the pattern does not occur in [a]: the search
    skips [a]. *)
Lemma find_sub_skip p pat a s :
  p ∉ a -> find_sub (p :: pat) (a ++ s) = (Nat.add (length a)) <$> find_sub (p :: pat) s.
Proof.
  intros Ha. induction a as [|c a IH]; cbn [app length].
  - by destruct (find_sub _ s).
  - rewrite find_sub_unfold. cbn [starts_with].
    destruct (Byte.eqb p c) eqn:E; [apply Byte.byte_dec_bl in E; set_solver|].
    cbn. rewrite IH by set_solver. by destruct (find_sub _ s).
Qed.

Lemma find_sub_here pat s : find_sub pat (pat ++ s) = Some 0%nat.
Proof. rewrite find_sub_unfold. by rewrite starts_with_app. Qed.

Lemma find_sub_first p pat a s :
  p ∉ a -> find_sub (p :: pat) (a ++ (p :: pat) ++ s) = Some (length a).
Proof.
  intros Ha. rewrite find_sub_skip by done. rewrite find_sub_here. cbn. f_equal. lia.
Qed.

Lemma find_sub_absent p pat s : p ∉ s -> find_sub (p :: pat) s = None.
Proof.
  intros H. rewrite <- (app_nil_r s). rewrite find_sub_skip by done.
  rewrite find_sub_unfold. done.
Qed.

Lemma find_char_None c s : find_char c s = None -> c ∉ s.
Proof.
  unfold find_char. intros H Hin. apply list_elem_of_lookup in Hin as [i Hi].
  pose proof (find_sub_None _ _ H i) as Hn.
  rewrite (drop_S _ c) in Hn by done. cbn in Hn.
  by rewrite (Byte.byte_dec_lb eq_refl) in Hn.
Qed.

Lemma find_char_Some c s i :
  find_char c s = Some i -> s = take i s ++ (c :: drop (S i) s) /\ (c ∉ take i s) /\ (i < length s)%nat.
Proof.
  unfold find_char. intros H. pose proof (find_sub_split _ _ _ H) as Hs.
  apply find_sub_Some in H as (Hi & Hc & Hbefore). cbn in Hs. split_and!.
  - by rewrite Nat.add_1_r in Hs.
  - intros Hin. apply list_elem_of_lookup in Hin as [j Hj].
    pose proof (lookup_lt_Some _ _ _ Hj). rewrite length_take in H.
    rewrite lookup_take_lt in Hj by lia.
    specialize (Hbefore j ltac:(lia)). rewrite (drop_S _ c) in Hbefore by done. cbn in Hbefore.
    by rewrite (Byte.byte_dec_lb eq_refl) in Hbefore.
  - destruct (decide (i < length s)%nat); [done|].
    rewrite drop_ge in Hc by lia. done.
Qed.

(** ** Lemmas: case conversion *)

Lemma tolower_idemp c : tolower (tolower c) = tolower c.
Proof.
  apply Byte.byte_dec_bl.
  apply (byte_forallb (fun c => Byte.eqb (tolower (tolower c)) (tolower c))).
  vm_compute. reflexivity.
Qed.

Lemma isupper_tolower c : isupper (tolower c) = false.
Proof.
  apply negb_true_iff. apply (byte_forallb (fun c => negb (isupper (tolower c)))).
  vm_compute. reflexivity.
Qed.

(** ** Lemmas: numbers *)

Lemma digit_val_char base d :
  2 <= base <= 16 -> 0 <= d < base -> digit_val base (digit_char d) = Some d.
Proof.
  intros Hb Hd. unfold digit_val, digit_char.
  destruct (Z.ltb_spec d 10) as [Hlt|Hge].
  - replace (isdigit (z2b (48 + d))) with true.
    + rewrite b2z_z2b_small by lia. replace (48 + d - 48) with d by lia.
      by destruct (Z.ltb_spec d base); [|lia].
    + unfold isdigit. rewrite b2z_z2b_small by lia. lia.
  - replace (isdigit (z2b (87 + d))) with false
      by (unfold isdigit; rewrite b2z_z2b_small by lia; lia).
    replace (islower (z2b (87 + d))) with true
      by (unfold islower; rewrite b2z_z2b_small by lia; lia).
    rewrite b2z_z2b_small by lia. replace (87 + d - 87) with d by lia.
    by destruct (Z.ltb_spec d base); [|lia].
Qed.

(** The value of a digit string, and scanning it. *)
Definition all_digits (base : Z) (s : bytes) : Prop := Forall (fun c => is_Some (digit_val base c)) s.

Lemma scan_digits_app base acc s t :
  all_digits base s ->
  scan_digits base acc (s ++ t) =
  let '(v, n) := scan_digits base acc s in
  let '(w, m) := scan_digits base v t in (w, (n + m)%nat).
Proof.
  intros H. revert acc; induction H as [|c s [d Hd] Hs IH]; intros acc; cbn.
  - by destruct (scan_digits base acc t).
  - rewrite Hd, IH. destruct (scan_digits base _ s) as [v n].
    by destruct (scan_digits base v t).
Qed.

Lemma scan_digits_length base acc s : all_digits base s -> (scan_digits base acc s).2 = length s.
Proof.
  intros H. revert acc; induction H as [|c s [d Hd] Hs IH]; intros acc; cbn; [done|].
  rewrite Hd. specialize (IH (acc * base + d)). destruct (scan_digits base _ s). cbn in *. lia.
Qed.

Lemma scan_digits_bound base acc s : (snd (scan_digits base acc s) <= length s)%nat.
Proof.
  revert acc; induction s as [|c s IH]; intros acc; cbn; [lia|].
  destruct (digit_val base c) as [d|]; cbn; [|lia].
  specialize (IH (acc * base + d)). destruct (scan_digits _ _ s). cbn in *. lia.
Qed.

(** Formatting produces the digits of the number: the accumulator is only
    prepended to. *)
Lemma format_aux_spec base fuel z acc :
  2 <= base <= 16 -> 0 <= z -> z < 2 ^ Z.of_nat fuel ->
  exists ds, format_aux fuel base z acc = ds ++ acc /\ all_digits base ds /\
    scan_digits base 0 ds = (z, length ds) /\ (ds = [] -> fuel = O).
Proof.
  intros Hb. revert z acc; induction fuel as [|fuel IH]; intros z acc Hz Hf.
  { exists []. cbn in *. repeat split; try done; [constructor|f_equal; lia]. }
  assert (Hd : digit_val base (digit_char (z mod base)) = Some (z mod base))
    by (apply digit_val_char; [lia|apply Z.mod_pos_bound; lia]).
  cbn [format_aux]. destruct (Z.ltb_spec z base).
  - exists [digit_char (z mod base)]. repeat split; [by repeat econstructor| |done].
    cbn. rewrite Hd. f_equal. rewrite Z.mod_small by lia. lia.
  - destruct (IH (z / base) (digit_char (z mod base) :: acc)) as (ds & Heq & Hall & Hscan & _).
    + apply Z.div_pos; lia.
    + rewrite Nat2Z.inj_succ, Z.pow_succ_r in Hf by lia.
      apply Z.div_lt_upper_bound; [lia|]. nia.
    + exists (ds ++ [digit_char (z mod base)]). rewrite Heq, <- app_assoc. repeat split.
      * apply Forall_app. split; [done|]. by repeat econstructor.
      * rewrite scan_digits_app, Hscan by done. cbn. rewrite Hd. len_simpl. f_equal.
        pose proof (Z.div_mod z base ltac:(lia)). lia.
      * by destruct ds.
Qed.

Lemma format_nat_spec base z :
  2 <= base <= 16 -> 0 <= z ->
  all_digits base (format_nat base z) /\ scan_digits base 0 (format_nat base z) = (z, length (format_nat base z))
  /\ format_nat base z <> [].
Proof.
  intros Hb Hz. unfold format_nat.
  destruct (format_aux_spec base (S (Z.to_nat (Z.log2 z))) z []) as (ds & -> & H1 & H2 & H3);
    [done|done| |].
  - destruct (Z.eq_dec z 0) as [->|]; [done|].
    rewrite Nat2Z.inj_succ, Z2Nat.id by apply Z.log2_nonneg.
    apply Z.log2_spec. lia.
  - rewrite app_nil_r. split_and!; [done|done|]. intros ->. by specialize (H3 eq_refl).
Qed.

(** Reading back a formatted number. *)
Lemma from_chars_format base max z :
  2 <= base <= 16 -> 0 <= z <= max ->
  from_chars base max (format_nat base z) = (ErrcNone, z, length (format_nat base z)).
Proof.
  intros Hb Hz. destruct (format_nat_spec base z) as (_ & Hs & Hne); [lia..|].
  unfold from_chars. rewrite Hs.
  destruct (length (format_nat base z)) eqn:E; [by apply nil_length_inv in E|].
  by destruct (Z.ltb_spec max z); [lia|].
Qed.

Lemma whole_number_format base max z :
  2 <= base <= 16 -> 0 <= z <= max ->
  whole_number (from_chars base max (format_nat base z)) (format_nat base z) = Some z.
Proof. intros. rewrite from_chars_format by done. cbn. by rewrite Nat.eqb_refl. Qed.

(** The characters of a formatted number. *)
Lemma all_digits_elem base s c : all_digits base s -> c ∈ s -> is_Some (digit_val base c).
Proof. intros H Hc. unfold all_digits in H. rewrite Forall_forall in H. by apply H. Qed.

Lemma to_string_digit z c : 0 <= z -> c ∈ to_string z -> isdigit c = true.
Proof.
  intros Hz Hc. unfold to_string in Hc. destruct (Z.ltb_spec z 0); [lia|].
  destruct (format_nat_spec 10 z) as (Hall & _); [lia..|].
  eapply (byte_implb (fun c => match digit_val 10 c with Some _ => true | None => false end));
    [vm_compute; reflexivity|].
  destruct (all_digits_elem _ _ _ Hall Hc) as [? ->]. done.
Qed.

(** ** Lemmas: searching in concatenations *)

Lemma starts_with_app_l pat s t :
  (length pat <= length s)%nat -> starts_with pat (s ++ t) = starts_with pat s.
Proof.
  revert s; induction pat as [|p pat IH]; intros [|c s] H; cbn in *; try done; [lia|].
  rewrite IH by lia. done.
Qed.

Lemma starts_with_length pat s : starts_with pat s = true -> (length pat <= length s)%nat.
Proof. intros [t ->]%starts_with_spec. rewrite length_app. lia. Qed.

(** A first occurrence is determined by what it says. *)
Lemma find_sub_intro pat s i :
  starts_with pat (drop i s) = true ->
  (forall j, (j < i)%nat -> starts_with pat (drop j s) = false) -> find_sub pat s = Some i.
Proof.
  revert i; induction s as [|c s IH]; intros i Hi Hb; rewrite find_sub_unfold.
  - rewrite drop_nil in Hi. rewrite Hi. destruct i; [done|]. specialize (Hb 0%nat ltac:(lia)). cbn in Hb. congruence.
  - destruct i as [|i]; [cbn in Hi; by rewrite Hi|].
    pose proof (Hb 0%nat ltac:(lia)) as H0. cbn in H0. rewrite H0.
    rewrite (IH i); [done|done|]. intros j Hj. apply (Hb (S j)). lia.
Qed.

(** More text after a match does not move it. *)
Lemma find_sub_app_l pat s t i : find_sub pat s = Some i -> find_sub pat (s ++ t) = Some i.
Proof.
  intros H. apply find_sub_Some in H as (Hi & Hs & Hb). apply starts_with_length in Hs as Hl.
  rewrite length_drop in Hl. apply find_sub_intro.
  - rewrite drop_app_le by lia. rewrite starts_with_app_l by (rewrite length_drop; lia). done.
  - intros j Hj. rewrite drop_app_le by lia. rewrite starts_with_app_l by (rewrite length_drop; lia).
    by apply Hb.
Qed.

Lemma find_sub_length pat s i : find_sub pat s = Some i -> (i + length pat <= length s)%nat.
Proof.
  intros H. apply find_sub_Some in H as (Hi & Hs & _). apply starts_with_length in Hs.
  rewrite length_drop in Hs. lia.
Qed.

(** Line ends: the first CRLF after text without a line feed is the one that
    follows it. *)
Lemma starts_with_CRLF s : starts_with CRLF s = true <-> s !! 0%nat = Some CR /\ s !! 1%nat = Some LF.
Proof.
  destruct s as [|a [|b s]]; cbn; rewrite ?andb_false_r, ?andb_true_r; try (split; [done|by intros []]).
  rewrite andb_true_iff. split.
  - intros [Ha Hb]. apply Byte.byte_dec_bl in Ha, Hb. by subst.
  - intros [Ha Hb]. simplify_eq. by rewrite !byte_eqb_refl.
Qed.

Lemma find_CRLF_first a s : LF ∉ a -> find_sub CRLF (a ++ CRLF ++ s) = Some (length a).
Proof.
  intros Ha. apply find_sub_intro.
  - by rewrite drop_app_length.
  - intros j Hj. apply not_true_iff_false. rewrite starts_with_CRLF, !lookup_drop.
    intros [_ H1]. destruct (decide (j + 1 < length a)%nat).
    + rewrite lookup_app_l in H1 by done. apply Ha. by eapply list_elem_of_lookup_2.
    + rewrite lookup_app_r in H1 by lia. replace (j + 1 - length a)%nat with 0%nat in H1 by lia. done.
Qed.

(** No line feed before the first line end, when every line feed follows a
    carriage return, is what the scan for bare line feeds gives. *)
Lemma find_CRLF_no_LF s i :
  find_sub CRLF s = Some i ->
  (forall j, s !! j = Some LF -> exists k, j = S k /\ s !! k = Some CR) -> LF ∉ take i s.
Proof.
  intros H Hcr Hin. apply find_sub_Some in H as (Hi & _ & Hb).
  apply list_elem_of_lookup in Hin as [j Hj]. pose proof (lookup_lt_Some _ _ _ Hj) as Hlt.
  rewrite length_take in Hlt. rewrite lookup_take_lt in Hj by lia.
  destruct (Hcr j Hj) as (k & -> & Hk). specialize (Hb k ltac:(lia)).
  apply not_true_iff_false in Hb. apply Hb, starts_with_CRLF. rewrite !lookup_drop.
  by rewrite Nat.add_0_r, Nat.add_1_r.
Qed.

(** The length of a formatted number. *)
Lemma format_aux_length base fuel z acc k :
  2 <= base -> 0 <= z < base ^ Z.of_nat (S k) ->
  (length (format_aux fuel base z acc) <= length acc + S k)%nat.
Proof.
  intros Hb. revert z acc k; induction fuel as [|fuel IH]; intros z acc k Hz; cbn [format_aux]; [lia|].
  destruct (Z.ltb_spec z base); [cbn; lia|].
  destruct k as [|k]; [rewrite Z.pow_1_r in Hz; lia|].
  etrans; [apply (IH _ _ k)|cbn; lia]. rewrite Nat2Z.inj_succ, Z.pow_succ_r in Hz by lia. split.
  - apply Z.div_pos; lia.
  - apply Z.div_lt_upper_bound; lia.
Qed.

Lemma to_hex_length z : 0 <= z <= UINT64_MAX -> (length (to_hex z) <= 16)%nat.
Proof.
  intros Hz. unfold to_hex, format_nat. etrans; [apply (format_aux_length 16 _ z [] 15); unfold UINT64_MAX in *|]; cbn; lia.
Qed.

(** No occurrence starts inside [a]: the search continues behind it. *)
Lemma find_sub_behind pat a s :
  (forall j, (j < length a)%nat -> starts_with pat (drop j (a ++ s)) = false) ->
  find_sub pat (a ++ s) = (Nat.add (length a)) <$> find_sub pat s.
Proof.
  induction a as [|c a IH]; intros H; cbn [app length].
  - by destruct (find_sub pat s).
  - rewrite find_sub_unfold. pose proof (H 0%nat ltac:(cbn; lia)) as H0. cbn in H0. rewrite H0.
    rewrite IH; [by destruct (find_sub pat s)|]. intros j Hj. apply (H (S j)). cbn. lia.
Qed.

(** A number accepted by [whole_number] is in the range of its type. *)
Lemma digit_val_range base c d : digit_val base c = Some d -> 0 <= d < base.
Proof.
  unfold digit_val, isdigit, islower, isupper. intros H. repeat (dmatch_in H); simplify_eq; zbool; lia.
Qed.

Lemma scan_digits_nonneg base acc s : 0 <= acc -> 0 <= (scan_digits base acc s).1.
Proof.
  revert acc; induction s as [|c s IH]; intros acc Ha; cbn [scan_digits]; [done|].
  destruct (digit_val base c) as [d|] eqn:E; [|done]. apply digit_val_range in E.
  specialize (IH (acc * base + d) ltac:(nia)). by destruct (scan_digits base (acc * base + d) s).
Qed.

Lemma whole_number_range base max s n :
  whole_number (from_chars base max s) s = Some n -> 0 <= n <= max.
Proof.
  unfold whole_number, from_chars. pose proof (scan_digits_nonneg base 0 s ltac:(lia)).
  destruct (scan_digits base 0 s) as [v [|k]]; [done|]. cbn in *.
  destruct (Z.ltb_spec max v); [done|]. destruct (S k =? length s)%nat; intros; simplify_eq. lia.
Qed.

(** The search continues behind a separator. *)
Lemma find_char_from_here c a b s :
  c ∉ b -> find_char_from c (a ++ c :: b ++ s) (length a + 1) =
           (fun k => (length a + 1 + k)%nat) <$> find_char c (b ++ s).
Proof.
  intros Hb. unfold find_char_from, find_from. rewrite length_app. cbn [length].
  destruct (Nat.ltb_spec (length a + S (length (b ++ s))) (length a + 1)); [lia|].
  rewrite <- drop_drop, drop_app_length. done.
Qed.
