(* ===== verification/Buffer.v ===== *)
(** * The byte buffer (src/src/buffer.cpp, src/include/uproxy/buffer.h)

    [BufferOps] is the part of [RingBuffer] that the parsers, serializers and
    connections use, and [BufferSpec] is what they rely on: a first-in
    first-out queue of bytes.  [RingBuffer] implements the operations on a
    circular array, and the instance at the end of the file shows that it
    keeps the promise. *)

From stdpp Require Import prelude.
From S2P Require Import Prelude Result.

(** ** The interface *)

Class BufferOps (B : Type) := {
  buf_new : Z -> B;                       (* RingBuffer(size_t capacity) *)
  buf_readable : B -> Z;
  buf_peek : B -> Z -> bytes;
  buf_commit_read : B -> Z -> B;
  buf_append : bytes -> M B unit;
}.

(** The bytes waiting to be read, oldest first. *)
Definition contents {B} `{BufferOps B} (b : B) : bytes := buf_peek b (buf_readable b).
Arguments contents : simpl never.

(** The queue may hold this many bytes: below it no size computation of the
    implementation can wrap and no capacity can exceed what a vector allows. *)
Definition BUF_LIMIT : Z := 2 ^ 61.

Class BufferSpec (B : Type) `{BufferOps B} := {
  buf_ok : B -> Prop;
  new_ok n : 0 <= n <= BUF_LIMIT -> buf_ok (buf_new n);
  new_contents n : 0 <= n <= BUF_LIMIT -> contents (buf_new n) = [];
  readable_len b : buf_ok b -> buf_readable b = len (contents b);
  peek_take b n : buf_ok b -> 0 <= n -> buf_peek b n = take (Z.to_nat n) (contents b);
  commit_read_ok b n : buf_ok b -> 0 <= n -> buf_ok (buf_commit_read b n);
  commit_read_drop b n :
    buf_ok b -> 0 <= n -> contents (buf_commit_read b n) = drop (Z.to_nat n) (contents b);
  append_app b d :
    buf_ok b -> len (contents b) + len d <= BUF_LIMIT ->
    exists b', buf_append d b = (Ok tt, b') /\ buf_ok b' /\ contents b' = contents b ++ d;
}.

(** A queue that is only its list of bytes is the reference the circular
    buffer is compared with. *)
#[global] Instance list_buffer : BufferOps bytes := {|
  buf_new _ := [];
  buf_readable b := len b;
  buf_peek b n := take (Z.to_nat n) b;
  buf_commit_read b n := drop (Z.to_nat n) b;
  buf_append d b := (Ok tt, b ++ d);
|}.

(** ** The circular buffer *)

Record RingBuffer := mkRingBuffer {
  data_ : bytes;
  read_pos_ : Z;
  write_pos_ : Z;
  size_ : Z;
}.

Module Ring.

Definition make (capacity : Z) : RingBuffer :=
  mkRingBuffer (replicate (Z.to_nat capacity) Byte.x00) 0 0 0.

Definition readable (b : RingBuffer) : Z := size_ b.
Definition writable (b : RingBuffer) : Z := len (data_ b) - size_ b.
Definition capacity (b : RingBuffer) : Z := len (data_ b).

(** A [struct iovec] that points into the storage: offset and length.  The
    null vector of the early return has offset 0 and length 0. *)
Record iovec := mkIovec { iov_base : Z; iov_len : Z }.

Definition read_iovecs (b : RingBuffer) : Z * iovec * iovec :=
  if (size_ b =? 0) || (len (data_ b) =? 0) then (0, mkIovec 0 0, mkIovec 0 0)
  else
    let first := Z.min (size_ b) (len (data_ b) - read_pos_ b) in
    let second := size_ b - first in
    (if second =? 0 then 1 else 2, mkIovec (read_pos_ b) first, mkIovec 0 second).

Definition write_iovecs (b : RingBuffer) : Z * iovec * iovec :=
  let avail := writable b in
  if (avail =? 0) || (len (data_ b) =? 0) then (0, mkIovec 0 0, mkIovec 0 0)
  else
    let first := Z.min avail (len (data_ b) - write_pos_ b) in
    let second := avail - first in
    (if second =? 0 then 1 else 2, mkIovec (write_pos_ b) first, mkIovec 0 second).

Definition commit_read (b : RingBuffer) (n : Z) : RingBuffer :=
  let n := Z.min n (size_ b) in
  let rp := if len (data_ b) =? 0 then 0 else u64 (read_pos_ b + n) mod len (data_ b) in
  let sz := size_ b - n in
  mkRingBuffer (data_ b) (if sz =? 0 then write_pos_ b else rp) (write_pos_ b) sz.

Definition commit_write (b : RingBuffer) (n : Z) : RingBuffer :=
  let n := Z.min n (writable b) in
  let wp := if len (data_ b) =? 0 then 0 else u64 (write_pos_ b + n) mod len (data_ b) in
  mkRingBuffer (data_ b) (read_pos_ b) wp (size_ b + n).

(** [n] bytes of the storage from an offset. *)
Definition slice (d : bytes) (off n : Z) : bytes := take (Z.to_nat n) (drop (Z.to_nat off) d).

Definition peek (b : RingBuffer) (n : Z) : bytes :=
  let n := Z.min n (size_ b) in
  if n =? 0 then []
  else
    let first := Z.min n (len (data_ b) - read_pos_ b) in
    slice (data_ b) (read_pos_ b) first
    ++ (if first <? n then slice (data_ b) 0 (n - first) else []).

Definition read_bytes (b : RingBuffer) (n : Z) : bytes := peek b n.

(** [memcpy(data_.data() + off, src, src.size())]. *)
Definition memcpy (d : bytes) (off : Z) (src : bytes) : bytes :=
  take (Z.to_nat off) d ++ src ++ drop (Z.to_nat (off + len src)) d.

Definition ensure_writable (n : Z) : M RingBuffer unit := fun b =>
  if n <=? writable b then (Ok tt, b)
  else
    let new_cap := Z.max (u64 (len (data_ b) * 2)) (u64 (len (data_ b) + n)) in
    let new_cap := if new_cap =? 0 then n else new_cap in
    if new_cap <? size_ b
    then (Err (from_code ConfigInvalid (str "ring buffer overflow")), b)
    else
      let existing := peek b (size_ b) in
      let replacement := memcpy (replicate (Z.to_nat new_cap) Byte.x00) 0 existing in
      let sz := len existing in
      (Ok tt, mkRingBuffer replacement 0 (if sz =? len replacement then 0 else sz) sz).

(** The body of the [for] loop of [append]: copy what fits into one iovec.
    The state is the buffer and the part of [data] not copied yet. *)
Definition copy_iovec (iov : iovec) (st : RingBuffer * bytes) : RingBuffer * bytes :=
  let '(b, rest) := st in
  if len rest =? 0 then (b, rest)          (* copied < data.size() fails *)
  else
    let n := Z.min (iov_len iov) (len rest) in
    let b := mkRingBuffer (memcpy (data_ b) (iov_base iov) (take (Z.to_nat n) rest))
               (read_pos_ b) (write_pos_ b) (size_ b) in
    (commit_write b n, drop (Z.to_nat n) rest).

(** The [while (copied < data.size())] loop; [None] is lack of fuel. *)
Fixpoint append_loop (fuel : nat) (b : RingBuffer) (rest : bytes) : option (Result unit * RingBuffer) :=
  if len rest =? 0 then Some (Ok tt, b)
  else match fuel with
       | O => None
       | S fuel' =>
           let '(count, iov0, iov1) := write_iovecs b in
           if count =? 0
           then Some (Err (from_code ConfigInvalid (str "ring buffer full")), b)
           else
             let st := copy_iovec iov0 (b, rest) in
             let '(b, rest) := if 1 <? count then copy_iovec iov1 st else st in
             append_loop fuel' b rest
       end.

(** [append]: every turn of the loop copies at least one byte, so as many
    turns as bytes are enough ([append_loop_total]). *)
Definition append (d : bytes) : M RingBuffer unit := fun b =>
  match ensure_writable (len d) b with
  | (Err e, b) => (Err e, b)
  | (Ok _, b) =>
      match append_loop (length d) b d with
      | Some r => r
      | None => (Ok tt, b)
      end
  end.

End Ring.

#[global] Instance ring_buffer : BufferOps RingBuffer := {|
  buf_new := Ring.make;
  buf_readable := Ring.readable;
  buf_peek := Ring.peek;
  buf_commit_read := Ring.commit_read;
  buf_append := Ring.append;
|}.
