(* ===== verification/BufferProofs.v ===== *)
(** * Correctness of the circular buffer

    The representation invariant of [RingBuffer], the queue it stands for, and
    the instance of [BufferSpec] that the rest of the library builds on. *)

From stdpp Require Import prelude.
From S2P Require Import Prelude Result Buffer.

Import Ring.

(** ** The representation invariant *)

(** Positions are inside the storage, the write position is the read position
    advanced by the number of stored bytes, and the capacity leaves room for
    the size computations. *)
Definition ring_ok (b : RingBuffer) : Prop :=
  0 <= size_ b <= capacity b /\ capacity b <= 2 * BUF_LIMIT /\
  if capacity b =? 0 then read_pos_ b = 0 /\ write_pos_ b = 0
  else 0 <= read_pos_ b < capacity b /\ write_pos_ b = (read_pos_ b + size_ b) mod capacity b.

(** The storage cell of the [i]-th waiting byte. *)
Definition cell (b : RingBuffer) (i : nat) : option byte :=
  data_ b !! Z.to_nat ((read_pos_ b + Z.of_nat i) mod capacity b).

Lemma ring_ok_bounds b :
  ring_ok b -> 0 <= read_pos_ b /\ 0 <= write_pos_ b /\ 0 <= size_ b <= capacity b /\
    capacity b <= 2 * BUF_LIMIT /\ read_pos_ b <= capacity b /\
    (0 < capacity b -> read_pos_ b < capacity b /\ write_pos_ b < capacity b).
Proof.
  intros (Hs & Hc & Hp). destruct (Z.eqb_spec (capacity b) 0); [lia|].
  destruct Hp as [Hr ->]. pose proof (Z.mod_pos_bound (read_pos_ b + size_ b) (capacity b)). lia.
Qed.

(** [peek] reads the cells in order. *)
Lemma length_peek b n : ring_ok b -> 0 <= n <= size_ b -> length (peek b n) = Z.to_nat n.
Proof.
  intros Hok Hn. pose proof (ring_ok_bounds b Hok) as Hb. unfold peek, slice, capacity in *.
  rewrite Z.min_l by lia. destruct (Z.eqb_spec n 0); [subst; done|].
  destruct (Z.ltb_spec (Z.min n (len (data_ b) - read_pos_ b)) n); len_lia.
Qed.

Lemma peek_lookup b n i :
  ring_ok b -> 0 <= n <= size_ b -> (i < Z.to_nat n)%nat -> peek b n !! i = cell b i.
Proof.
  intros Hok Hn Hi. pose proof (ring_ok_bounds b Hok) as Hb. unfold peek, slice, cell, capacity in *.
  rewrite Z.min_l by lia. destruct (Z.eqb_spec n 0); [lia|].
  rewrite mod_once by lia. unfold len in *.
  destruct (Z.ltb_spec (read_pos_ b + Z.of_nat i) (Z.of_nat (length (data_ b)))).
  - rewrite lookup_app_l by len_lia.
    rewrite lookup_take_lt, lookup_drop by lia. f_equal. lia.
  - destruct (Z.ltb_spec (Z.min n (Z.of_nat (length (data_ b)) - read_pos_ b)) n); [|lia].
    rewrite lookup_app_r by len_lia. rewrite lookup_take_lt, lookup_drop by len_lia.
    f_equal. len_lia.
Qed.

(** Two views of the queue are equal when they have the same length and the
    same cells. *)
Lemma ring_contents_ext b l :
  ring_ok b -> len l = size_ b ->
  (forall i, (i < length l)%nat -> l !! i = cell b i) -> contents b = l.
Proof.
  intros Hok Hl Hc. unfold contents; cbn. unfold readable.
  pose proof (ring_ok_bounds b Hok).
  assert (Hlen : length (peek b (size_ b)) = length l) by (rewrite length_peek by (done || lia); len_lia).
  apply list_eq_same_length with (n := length l); [done|done|].
  intros i x y Hi Hx Hy. rewrite peek_lookup in Hx by (done || len_lia).
  rewrite Hc in Hy by done. congruence.
Qed.

Lemma ring_contents_lookup b i :
  ring_ok b -> (i < Z.to_nat (size_ b))%nat -> contents b !! i = cell b i.
Proof.
  intros Hok Hi. unfold contents; cbn. unfold readable.
  apply peek_lookup; [done| |done]. pose proof (ring_ok_bounds b Hok). lia.
Qed.

Lemma ring_contents_len b : ring_ok b -> len (contents b) = size_ b.
Proof.
  intros Hok. unfold contents; cbn. unfold readable, len.
  pose proof (ring_ok_bounds b Hok). rewrite length_peek by (done || lia). lia.
Qed.

(** ** Reading *)

Lemma ring_peek_take b n :
  ring_ok b -> 0 <= n -> peek b n = take (Z.to_nat n) (contents b).
Proof.
  intros Hok Hn. pose proof (ring_ok_bounds b Hok).
  assert (Hpk : peek b n = peek b (Z.min n (size_ b)))
    by (unfold peek; by rewrite (Z.min_l (Z.min n (size_ b)) (size_ b)) by lia).
  pose proof (ring_contents_len b Hok) as Hl.
  rewrite Hpk. apply list_eq_same_length with (n := Z.to_nat (Z.min n (size_ b))).
  - len_lia.
  - rewrite length_peek by (done || lia). done.
  - intros i x y Hi. rewrite peek_lookup by (done || lia).
    rewrite lookup_take_lt by lia. rewrite ring_contents_lookup by (done || lia). congruence.
Qed.

(** When the storage empties, both positions already agree: the reset of the
    read position in [commit_read] changes nothing. *)
Lemma commit_read_pos b n :
  ring_ok b -> 0 < capacity b -> 0 <= n ->
  read_pos_ (commit_read b n) = (read_pos_ b + Z.min n (size_ b)) mod capacity b.
Proof.
  intros Hok Hc Hn. pose proof (ring_ok_bounds b Hok) as Hb.
  unfold commit_read. cbn. fold (capacity b).
  assert (Hu : u64 (read_pos_ b + Z.min n (size_ b)) = read_pos_ b + Z.min n (size_ b))
    by (apply u64_small; unfold BUF_LIMIT in *; lia).
  destruct (Z.eqb_spec (capacity b) 0) as [?|_]; [lia|]. rewrite Hu.
  destruct (Z.eqb_spec (size_ b - Z.min n (size_ b)) 0) as [He|]; [|done].
  destruct Hok as (_ & _ & Hp). destruct (Z.eqb_spec (capacity b) 0); [lia|].
  destruct Hp as [_ ->]. f_equal. lia.
Qed.

Lemma ring_commit_read_ok b n : ring_ok b -> 0 <= n -> ring_ok (commit_read b n).
Proof.
  intros Hok Hn. pose proof (ring_ok_bounds b Hok) as Hb.
  pose proof Hok as (Hs & Hc & Hp). unfold ring_ok.
  change (capacity (commit_read b n)) with (capacity b).
  change (size_ (commit_read b n)) with (size_ b - Z.min n (size_ b)).
  change (write_pos_ (commit_read b n)) with (write_pos_ b).
  split; [lia|]. split; [done|].
  destruct (Z.eqb_spec (capacity b) 0) as [E|E].
  - split; [|lia]. unfold commit_read. cbn. unfold capacity in E. rewrite E. cbn.
    destruct (_ =? 0); lia.
  - rewrite commit_read_pos by (done || lia).
    split; [apply Z.mod_pos_bound; lia|]. destruct Hp as [_ ->].
    rewrite Zplus_mod_idemp_l. f_equal. lia.
Qed.

Lemma ring_commit_read_drop b n :
  ring_ok b -> 0 <= n -> contents (commit_read b n) = drop (Z.to_nat n) (contents b).
Proof.
  intros Hok Hn. pose proof (ring_ok_bounds b Hok) as Hb.
  pose proof (ring_contents_len b Hok) as Hl.
  apply ring_contents_ext; [by apply ring_commit_read_ok| |].
  - change (size_ (commit_read b n)) with (size_ b - Z.min n (size_ b)). len_lia.
  - intros i Hi. rewrite length_drop in Hi. unfold len in Hl.
    rewrite lookup_drop, ring_contents_lookup by (done || lia).
    unfold cell. change (capacity (commit_read b n)) with (capacity b).
    change (data_ (commit_read b n)) with (data_ b).
    rewrite commit_read_pos by (done || lia).
    rewrite Zplus_mod_idemp_l. do 3 f_equal. lia.
Qed.

(** ** Writing *)

Lemma memcpy_length d off src :
  0 <= off -> off + len src <= len d -> length (memcpy d off src) = length d.
Proof. intros. unfold memcpy. len_lia. Qed.

Lemma memcpy_lookup d off src j :
  0 <= off -> off + len src <= len d ->
  memcpy d off src !! j =
  if decide (off <= Z.of_nat j < off + len src) then src !! (j - Z.to_nat off)%nat else d !! j.
Proof.
  intros Ho Hl. unfold memcpy. case_decide as Hj.
  - rewrite lookup_app_r by len_lia. rewrite lookup_app_l by len_lia. f_equal. len_lia.
  - destruct (decide (Z.of_nat j < off)).
    + rewrite lookup_app_l by len_lia. by rewrite lookup_take_lt by len_lia.
    + rewrite lookup_app_r by len_lia. rewrite lookup_app_r by len_lia.
      rewrite lookup_drop. f_equal. len_lia.
Qed.

(** Storing bytes at the write position and committing them extends the
    queue. *)
Definition store (b : RingBuffer) (src : bytes) : RingBuffer :=
  commit_write (mkRingBuffer (memcpy (data_ b) (write_pos_ b) src)
                  (read_pos_ b) (write_pos_ b) (size_ b)) (len src).

Lemma store_fields b src :
  ring_ok b -> 0 < capacity b -> len src <= capacity b - write_pos_ b -> len src <= writable b ->
  data_ (store b src) = memcpy (data_ b) (write_pos_ b) src /\
  read_pos_ (store b src) = read_pos_ b /\ size_ (store b src) = size_ b + len src /\
  capacity (store b src) = capacity b /\
  write_pos_ (store b src) = (write_pos_ b + len src) mod capacity b.
Proof.
  intros Hok Hc Hw Ha. pose proof (ring_ok_bounds b Hok) as Hb.
  assert (Hlen : len (memcpy (data_ b) (write_pos_ b) src) = capacity b)
    by (unfold len; rewrite memcpy_length; unfold capacity, len in *; lia).
  unfold store, commit_write, writable, capacity in *. cbn. rewrite Hlen.
  pose proof (len_nonneg src).
  rewrite Z.min_l by lia. destruct (Z.eqb_spec (len (data_ b)) 0); [lia|].
  rewrite u64_small by (unfold BUF_LIMIT in *; lia). done.
Qed.

Lemma store_ok b src :
  ring_ok b -> 0 < capacity b -> len src <= capacity b - write_pos_ b -> len src <= writable b ->
  ring_ok (store b src).
Proof.
  intros Hok Hc Hw Ha. pose proof (len_nonneg src).
  destruct (store_fields b src Hok Hc Hw Ha) as (_ & Hr & Hs & Hcap & Hwp).
  unfold writable in Ha. fold (capacity b) in Ha. destruct Hok as (Hs0 & Hc0 & Hp).
  unfold ring_ok. rewrite Hr, Hs, Hcap, Hwp.
  destruct (Z.eqb_spec (capacity b) 0); [lia|]. destruct Hp as [Hr0 ->].
  split; [lia|]. split; [done|]. split; [done|]. rewrite Zplus_mod_idemp_l. f_equal. lia.
Qed.

Lemma store_contents b src :
  ring_ok b -> 0 < capacity b -> len src <= capacity b - write_pos_ b -> len src <= writable b ->
  contents (store b src) = contents b ++ src.
Proof.
  intros Hok Hc Hw Ha. pose proof (len_nonneg src). pose proof (ring_ok_bounds b Hok) as Hb.
  destruct (store_fields b src Hok Hc Hw Ha) as (Hd & Hr & Hs & Hcap & Hwp).
  pose proof (ring_contents_len b Hok) as Hl.
  apply ring_contents_ext; [by apply store_ok|by rewrite len_app, Hs, Hl|].
  intros i Hi. unfold cell. rewrite Hd, Hr, Hcap.
  unfold writable in Ha. fold (capacity b) in Ha.
  assert (Hi' : Z.of_nat i < size_ b + len src) by (rewrite <- Hl; len_lia).
  rewrite memcpy_lookup by (unfold capacity in *; lia).
  assert (Hpos := Z.mod_pos_bound (read_pos_ b + Z.of_nat i) (capacity b) Hc).
  rewrite Z2Nat.id by lia.
  assert (Hwpos : write_pos_ b = (read_pos_ b + size_ b) mod capacity b).
  { destruct Hok as (_ & _ & Hp). destruct (Z.eqb_spec (capacity b) 0); [lia|]. tauto. }
  rewrite (mod_once (read_pos_ b + Z.of_nat i)) in * by lia.
  rewrite (mod_once (read_pos_ b + size_ b)) in Hwpos by lia.
  destruct (decide (Z.of_nat i < size_ b)) as [Hlt|Hge].
  - rewrite lookup_app_l by len_lia. rewrite ring_contents_lookup by (done || lia).
    unfold cell. rewrite (mod_once (read_pos_ b + Z.of_nat i)) by lia.
    rewrite decide_False; [done|].
    destruct (Z.ltb_spec (read_pos_ b + Z.of_nat i) (capacity b)),
      (Z.ltb_spec (read_pos_ b + size_ b) (capacity b)); lia.
  - rewrite lookup_app_r by len_lia. rewrite decide_True; [f_equal; len_simpl|];
    destruct (Z.ltb_spec (read_pos_ b + Z.of_nat i) (capacity b)),
      (Z.ltb_spec (read_pos_ b + size_ b) (capacity b)); lia.
Qed.

Lemma copy_iovec_store iov b rest :
  iov_base iov = write_pos_ b -> 0 < len rest -> 0 <= iov_len iov ->
  copy_iovec iov (b, rest) =
  (store b (take (Z.to_nat (Z.min (iov_len iov) (len rest))) rest),
   drop (Z.to_nat (Z.min (iov_len iov) (len rest))) rest).
Proof.
  intros Hb Hr Hi. unfold copy_iovec, store. destruct (Z.eqb_spec (len rest) 0); [lia|].
  rewrite Hb. do 2 f_equal. len_lia.
Qed.

(** The free space as the scatter list describes it: the first region starts
    at the write position, the second one, if any, at the start of the
    storage. *)
Lemma write_iovecs_spec b :
  ring_ok b -> 0 < writable b ->
  exists n iov0 iov1, write_iovecs b = (n, iov0, iov1) /\
    iov_base iov0 = write_pos_ b /\ 0 < iov_len iov0 <= capacity b - write_pos_ b /\
    iov_len iov0 <= writable b /\ 0 < capacity b /\
    ((n = 1 /\ iov_len iov0 = writable b) \/
     (n = 2 /\ iov_base iov1 = 0 /\ iov_len iov0 = capacity b - write_pos_ b /\
      iov_len iov1 = writable b - iov_len iov0)).
Proof.
  intros Hok Hw. pose proof (ring_ok_bounds b Hok) as Hb. unfold write_iovecs.
  unfold writable, capacity in *.
  destruct (Z.eqb_spec (len (data_ b) - size_ b) 0); [lia|].
  destruct (Z.eqb_spec (len (data_ b)) 0); [lia|]. cbn [orb].
  eexists _, _, _. split; [reflexivity|]. cbn.
  destruct (Z.eqb_spec
    (len (data_ b) - size_ b - Z.min (len (data_ b) - size_ b) (len (data_ b) - write_pos_ b)) 0); lia.
Qed.

(** One turn of the loop, with room for all the remaining bytes, copies them
    all. *)
Lemma append_turn b rest n iov0 iov1 :
  ring_ok b -> 0 < len rest <= writable b -> write_iovecs b = (n, iov0, iov1) ->
  let st := copy_iovec iov0 (b, rest) in
  exists b', (if 1 <? n then copy_iovec iov1 st else st) = (b', []) /\ ring_ok b' /\
    contents b' = contents b ++ rest.
Proof.
  intros Hok Hl Hw st. destruct (write_iovecs_spec b) as (n' & i0 & i1 & E & Hb0 & Hl0 & Ha0 & Hc & Hn);
    [done|lia|]. rewrite Hw in E. simplify_eq. unfold st. clear st.
  rewrite copy_iovec_store by (done || lia).
  set (k := Z.min (iov_len i0) (len rest)). set (src := take (Z.to_nat k) rest).
  assert (Hsrc : len src = k) by (unfold src, k; len_lia).
  destruct (store_fields b src) as (_ & _ & Hs & Hcap & Hwp); [done|done|lia|lia|].
  assert (Hok1 : ring_ok (store b src)) by (apply store_ok; (done || lia)).
  assert (Hct : contents (store b src) = contents b ++ src) by (apply store_contents; (done || lia)).
  destruct Hn as [[-> He]|(-> & Hb1 & He & Hl1)]; cbn [Z.ltb Z.compare Pos.compare Pos.compare_cont].
  - exists (store b src). rewrite drop_ge by (unfold k; len_lia).
    split_and!; [done|done|]. rewrite Hct. f_equal. unfold src. apply take_ge. unfold k. len_lia.
  - destruct (decide (len rest <= iov_len i0)) as [Hle|Hgt].
    { exists (store b src). rewrite drop_ge by (unfold k; len_lia).
      split_and!; [done|done|]. rewrite Hct. f_equal. unfold src. apply take_ge. unfold k. len_lia. }
    assert (Hk : k = iov_len i0) by (unfold k; lia).
    assert (Hrest : len (drop (Z.to_nat k) rest) = len rest - k) by len_lia.
    assert (Hwp0 : write_pos_ (store b src) = 0)
      by (rewrite Hwp, Hsrc, Hk, He; replace (write_pos_ b + _) with (capacity b) by lia;
          apply Z_mod_same_full).
    assert (Hwr : writable (store b src) = writable b - k)
      by (unfold writable; fold (capacity (store b src)); rewrite Hcap, Hs, Hsrc; unfold capacity; lia).
    rewrite copy_iovec_store by (rewrite ?Hwp0; lia).
    rewrite Hrest, (drop_ge (drop _ _)), (take_ge (drop _ _)) by len_lia.
    eexists. split; [done|].
    pose proof (ring_ok_bounds b Hok).
    split; [apply store_ok|rewrite store_contents]; rewrite ?Hcap, ?Hwp0, ?Hrest; try (done || lia).
    + unfold writable, capacity in *; lia.
    + rewrite Hct, <- app_assoc. f_equal. apply take_drop.
    + unfold writable, capacity in *; lia.
Qed.

(** The loop terminates within its fuel and appends everything. *)
Lemma append_loop_total b rest fuel :
  ring_ok b -> len rest <= writable b -> (length rest <= fuel)%nat ->
  exists b', append_loop fuel b rest = Some (Ok tt, b') /\ ring_ok b' /\ contents b' = contents b ++ rest.
Proof.
  intros Hok Hw Hf. pose proof (len_nonneg rest).
  destruct (decide (len rest = 0)) as [E|E].
  { apply len_0_nil in E. subst. exists b. rewrite app_nil_r. by destruct fuel. }
  destruct fuel as [|fuel]; [len_lia|]. cbn [append_loop].
  destruct (Z.eqb_spec (len rest) 0); [done|].
  destruct (write_iovecs_spec b) as (n' & i0 & i1 & Hwi & _ & _ & _ & _ & Hn); [done|lia|].
  destruct (append_turn b rest _ _ _ Hok ltac:(lia) Hwi) as (b' & Ht & Hok' & Hc').
  rewrite Hwi. destruct (Z.eqb_spec n' 0); [lia|]. cbn zeta in Ht. rewrite Ht.
  exists b'. by destruct fuel.
Qed.

Lemma ensure_writable_ok b n :
  ring_ok b -> 0 <= n -> size_ b + n <= BUF_LIMIT ->
  exists b', ensure_writable n b = (Ok tt, b') /\ ring_ok b' /\ contents b' = contents b /\
    n <= writable b'.
Proof.
  intros Hok Hn Hl. pose proof (ring_ok_bounds b Hok) as Hb. unfold ensure_writable.
  destruct (Z.leb_spec n (writable b)); [by exists b|].
  assert (Hc : len (data_ b) < BUF_LIMIT) by (unfold writable in *; lia).
  unfold capacity in Hb. unfold writable in *.
  rewrite !u64_small by (unfold BUF_LIMIT in *; lia).
  set (nc := Z.max (len (data_ b) * 2) (len (data_ b) + n)).
  destruct (Z.eqb_spec nc 0); [lia|]. destruct (Z.ltb_spec nc (size_ b)); [lia|].
  change (peek b (size_ b)) with (contents b). pose proof (ring_contents_len b Hok) as Hcl.
  rewrite !Hcl.
  assert (Hrl : len (memcpy (replicate (Z.to_nat nc) Byte.x00) 0 (contents b)) = nc)
    by (unfold len; rewrite memcpy_length; len_lia).
  rewrite !Hrl. destruct (Z.eqb_spec (size_ b) nc); [lia|].
  set (b' := mkRingBuffer _ _ _ _).
  assert (Hok' : ring_ok b').
  { unfold ring_ok, capacity. subst b'; cbn. rewrite Hrl.
    destruct (Z.eqb_spec nc 0); [lia|]. rewrite Z.mod_small by lia. lia. }
  exists b'. split_and!; [done|done| |].
  - apply ring_contents_ext; [done|done|]. intros i Hi.
    unfold cell, capacity. subst b'; cbn. rewrite Hrl.
    change (0 + Z.of_nat i) with (Z.of_nat i). rewrite Z.mod_small, Nat2Z.id by len_lia.
    rewrite memcpy_lookup by len_lia. rewrite decide_True by len_lia.
    f_equal. lia.
  - subst b'; cbn. rewrite Hrl. lia.
Qed.

Lemma ensure_writable_capacity b n b' :
  ring_ok b -> 0 <= n -> size_ b + n <= BUF_LIMIT -> ensure_writable n b = (Ok tt, b') ->
  capacity b <= capacity b' <= capacity b + Z.max (capacity b) n.
Proof.
  intros Hok Hn Hl E. pose proof (ring_ok_bounds b Hok) as Hb. unfold ensure_writable in E.
  destruct (Z.leb_spec n (writable b)); [simplify_eq; lia|].
  unfold capacity, writable in *.
  rewrite !u64_small in E by (unfold BUF_LIMIT in *; lia).
  destruct (Z.eqb_spec (Z.max (len (data_ b) * 2) (len (data_ b) + n)) 0); [lia|].
  destruct (Z.ltb_spec (Z.max (len (data_ b) * 2) (len (data_ b) + n)) (size_ b)); [lia|].
  simplify_eq. cbn. change (peek b (size_ b)) with (contents b).
  pose proof (ring_contents_len b Hok). unfold len in *. rewrite memcpy_length; len_lia.
Qed.

Lemma ring_append_app b d :
  ring_ok b -> len (contents b) + len d <= BUF_LIMIT ->
  exists b', append d b = (Ok tt, b') /\ ring_ok b' /\ contents b' = contents b ++ d.
Proof.
  intros Hok Hl. rewrite ring_contents_len in Hl by done.
  destruct (ensure_writable_ok b (len d) Hok) as (b1 & E1 & Hok1 & Hc1 & Hw1);
    [apply len_nonneg|lia|].
  destruct (append_loop_total b1 d (length d)) as (b2 & E2 & Hok2 & Hc2); [done|done|done|].
  exists b2. unfold append. rewrite E1, E2. split_and!; [done|done|]. by rewrite Hc2, Hc1.
Qed.

Lemma ring_make_ok n : 0 <= n <= BUF_LIMIT -> ring_ok (make n).
Proof.
  intros Hn. unfold ring_ok, make, capacity. cbn.
  assert (Hl : len (replicate (Z.to_nat n) Byte.x00) = n) by len_lia. rewrite Hl.
  destruct (Z.eqb_spec n 0); [lia|]. rewrite Z.mod_small by lia. lia.
Qed.

#[global] Instance ring_buffer_spec : BufferSpec RingBuffer := {|
  buf_ok := ring_ok;
  new_ok := ring_make_ok;
  new_contents _ _ := eq_refl;
  readable_len b Hok := eq_sym (ring_contents_len b Hok);
  peek_take := ring_peek_take;
  commit_read_ok := ring_commit_read_ok;
  commit_read_drop := ring_commit_read_drop;
  append_app := ring_append_app;
|}.

(** The reference queue: its contents are the list itself. *)
Lemma list_contents (b : bytes) : contents b = b.
Proof. unfold contents; cbn. apply take_ge. len_lia. Qed.

#[global] Instance list_buffer_spec : BufferSpec bytes.
Proof.
  refine {| buf_ok _ := True |}; intros; rewrite ?list_contents; try done.
  exists (b ++ d). by rewrite list_contents.
Defined.

(** ** Serializers: what a computation writes

    [writes m d]: on every buffer with room for [d], [m] succeeds and appends
    exactly [d].  The serializers of the components are described this way. *)

Definition writes {B} `{BufferSpec B} (m : M B unit) (d : bytes) : Prop :=
  forall b, buf_ok b -> len (contents b) + len d <= BUF_LIMIT ->
  exists b', m b = (Ok tt, b') /\ buf_ok b' /\ contents b' = contents b ++ d.

Section Writes.
Context {B : Type} `{BufferSpec B}.

Lemma writes_append d : writes (B := B) (buf_append d) d.
Proof. intros b Hb Hl. by apply append_app. Qed.

Lemma writes_ret : writes (B := B) (ret tt) [].
Proof. intros b Hb Hl. exists b. by rewrite app_nil_r. Qed.

Lemma writes_seq (m1 m2 : M B unit) d1 d2 :
  writes m1 d1 -> writes m2 d2 -> writes (m1 ;;; m2) (d1 ++ d2).
Proof.
  intros H1 H2 b Hb Hl. rewrite len_app in Hl. pose proof (len_nonneg d2).
  destruct (H1 b Hb ltac:(lia)) as (b1 & E1 & Hb1 & C1).
  destruct (H2 b1 Hb1) as (b2 & E2 & Hb2 & C2); [rewrite C1, len_app; lia|].
  exists b2. rewrite (bind_ok _ _ _ _ _ E1). split_and!; [done|done|]. by rewrite C2, C1, app_assoc.
Qed.
End Writes.

#[export] Hint Resolve writes_append writes_ret writes_seq : uproxy.

(** ** Scripts of operations: the refinement theorem *)

Inductive buf_op :=
  | OpAppend (d : bytes)
  | OpCommitRead (n : Z)
  | OpPeek (n : Z)
  | OpReadable.

Inductive buf_obs :=
  | ObsResult (r : Result unit)
  | ObsBytes (d : bytes)
  | ObsSize (n : Z)
  | ObsNothing.

Definition run_op {B} `{BufferOps B} (o : buf_op) (b : B) : buf_obs * B :=
  match o with
  | OpAppend d => let '(r, b') := buf_append d b in (ObsResult r, b')
  | OpCommitRead n => (ObsNothing, buf_commit_read b n)
  | OpPeek n => (ObsBytes (buf_peek b n), b)
  | OpReadable => (ObsSize (buf_readable b), b)
  end.

Fixpoint run_ops {B} `{BufferOps B} (os : list buf_op) (b : B) : list buf_obs * B :=
  match os with
  | [] => ([], b)
  | o :: os' =>
      let '(x, b1) := run_op o b in
      let '(xs, b2) := run_ops os' b1 in (x :: xs, b2)
  end.

(** Arguments are sizes, and [n] bytes already stored plus everything the
    script appends stay within the limit. *)
Fixpoint script_ok (n : Z) (os : list buf_op) : Prop :=
  match os with
  | [] => n <= BUF_LIMIT
  | OpAppend d :: os' => script_ok (n + len d) os'
  | OpCommitRead k :: os' | OpPeek k :: os' => 0 <= k /\ script_ok n os'
  | OpReadable :: os' => script_ok n os'
  end.

Lemma script_ok_bound n os : script_ok n os -> n <= BUF_LIMIT.
Proof.
  revert n; induction os as [|[d|k|k|] os IH]; intros n; cbn; try lia; try (intros [_ H]; auto); auto.
  intros H. apply IH in H. pose proof (len_nonneg d). lia.
Qed.

Lemma script_ok_mono n m os : m <= n -> script_ok n os -> script_ok m os.
Proof.
  revert n m; induction os as [|[d|k|k|] os IH]; intros n m Hm; cbn; try lia.
  - apply IH. lia.
  - intros [? H]. eauto.
  - intros [? H]. eauto.
  - eauto.
Qed.

(** Any implementation of the interface behaves as the list of bytes. *)
Lemma spec_refines_list {B} `{BufferSpec B} (os : list buf_op) (b : B) :
  buf_ok b -> script_ok (len (contents b)) os ->
  let '(xs, b') := run_ops os b in
  let '(ys, l') := run_ops os (contents b) in
  xs = ys /\ buf_ok b' /\ contents b' = l'.
Proof.
  revert b; induction os as [|o os IH]; intros b Hok Hs; [done|].
  cut (exists x b1, run_op o b = (x, b1) /\ buf_ok b1 /\ script_ok (len (contents b1)) os /\
         run_op o (contents b) = (x, contents b1)).
  { intros (x & b1 & E1 & Hok1 & Hs1 & E2). cbn [run_ops]. rewrite E1, E2.
    specialize (IH b1 Hok1 Hs1). destruct (run_ops os b1), (run_ops os (contents b1)).
    destruct IH as (-> & ? & ?). done. }
  destruct o as [d|k|k|]; cbn in *.
  - destruct (append_app b d) as (b1 & E & Hok1 & Hc1); [done|by apply script_ok_bound in Hs|].
    exists (ObsResult (Ok tt)), b1. rewrite E, Hc1, len_app. done.
  - destruct Hs as [Hk Hs]. eexists _, _. split; [done|].
    rewrite commit_read_drop by done. split_and!; [by apply commit_read_ok| |done].
    eapply script_ok_mono; [|done]. len_lia.
  - destruct Hs as [Hk Hs]. exists (ObsBytes (buf_peek b k)), b. rewrite peek_take by done. done.
  - exists (ObsSize (buf_readable b)), b. rewrite readable_len by done. done.
Qed.

(** ** Properties *)

(** (C3) The circular buffer is a byte queue.  Any script of appends,
    commits of consumed bytes, peeks and size queries gives, observation by
    observation, what the plain list of bytes gives; the buffer stays
    well-formed and ends with the same bytes.  Wrapping at the end of the
    storage, growing and the reset of the positions are invisible. *)
Theorem ring_refines_queue (cap : Z) (os : list buf_op) :
  0 <= cap <= BUF_LIMIT -> script_ok 0 os ->
  let '(xs, b) := run_ops os (Ring.make cap) in
  let '(ys, q) := run_ops os ([] : bytes) in
  xs = ys /\ ring_ok b /\ contents b = q.
Proof.
  intros Hc Hs. pose proof (new_contents (B := RingBuffer) cap Hc) as Hn. cbn in Hn.
  pose proof (spec_refines_list (B := RingBuffer) os (Ring.make cap) (ring_make_ok _ Hc)) as Hr.
  rewrite Hn in Hr. apply Hr. exact Hs.
Qed.

(** The script of tests/test_buffer.cpp: the buffer of capacity 4 fills,
    wraps around and then grows. *)
Definition demo_script : list buf_op :=
  [OpAppend (str "abcd"); OpReadable; OpPeek 4; OpCommitRead 2; OpAppend (str "ef"); OpPeek 4;
   OpAppend (str "ghij"); OpReadable; OpPeek 8].

Lemma ring_refines_queue_witness :
  (run_ops demo_script (Ring.make 4)).1 =
    [ObsResult (Ok tt); ObsSize 4; ObsBytes (str "abcd"); ObsNothing; ObsResult (Ok tt);
     ObsBytes (str "cdef"); ObsResult (Ok tt); ObsSize 8; ObsBytes (str "cdefghij")]
  /\ (run_ops demo_script (Ring.make 4)).1 = (run_ops demo_script ([] : bytes)).1.
Proof.
  split; [vm_compute; reflexivity|].
  assert (H := ring_refines_queue 4 demo_script ltac:(unfold BUF_LIMIT; lia)
                 ltac:(vm_compute; intuition discriminate)).
  destruct (run_ops demo_script (Ring.make 4)), (run_ops demo_script ([] : bytes)).
  exact (proj1 H).
Defined.

(** Growing never loses or reorders a byte: whenever the requested
    space fits the limit, [ensure_writable] succeeds, leaves at least that
    much room, keeps the contents and the invariant, and at most adds the
    larger of the old capacity and the request. *)
Theorem ensure_writable_grows (b : RingBuffer) (n : Z) :
  ring_ok b -> 0 <= n -> size_ b + n <= BUF_LIMIT ->
  exists b', Ring.ensure_writable n b = (Ok tt, b') /\ ring_ok b' /\ contents b' = contents b /\
    n <= Ring.writable b' /\
    Ring.capacity b <= Ring.capacity b' <= Ring.capacity b + Z.max (Ring.capacity b) n.
Proof.
  intros Hok Hn Hl. destruct (ensure_writable_ok b n Hok Hn Hl) as (b' & E & Hok' & Hc & Hw).
  exists b'. split_and!; try done; apply (ensure_writable_capacity b n b' Hok Hn Hl E).
Qed.

Lemma ensure_writable_grows_witness :
  exists b', Ring.ensure_writable 6 (Ring.make 4) = (Ok tt, b') /\ 6 <= Ring.writable b'.
Proof.
  destruct (ensure_writable_grows (Ring.make 4) 6) as (b' & E & _ & _ & Hw & _).
  - apply ring_make_ok. unfold BUF_LIMIT. lia.
  - lia.
  - unfold BUF_LIMIT. cbn. lia.
  - exists b'. split; [exact E|exact Hw].
Defined.

(** The bytes a gather list of the storage denotes. *)
Definition gather (b : RingBuffer) (v : Z * Ring.iovec * Ring.iovec) : bytes :=
  let '(n, v0, v1) := v in
  (if 0 <? n then Ring.slice (data_ b) (Ring.iov_base v0) (Ring.iov_len v0) else [])
  ++ (if 1 <? n then Ring.slice (data_ b) (Ring.iov_base v1) (Ring.iov_len v1) else []).

(** The gather list handed to [writev] denotes exactly the waiting
    bytes in order, and both its regions lie inside the storage. *)
Theorem read_iovecs_gather (b : RingBuffer) :
  ring_ok b ->
  gather b (Ring.read_iovecs b) = contents b /\
  let '(_, v0, v1) := Ring.read_iovecs b in
  0 <= Ring.iov_base v0 /\ Ring.iov_base v0 + Ring.iov_len v0 <= Ring.capacity b /\
  0 <= Ring.iov_len v1 <= Ring.capacity b.
Proof.
  intros Hok. pose proof (ring_ok_bounds b Hok) as Hb.
  unfold Ring.read_iovecs, contents; cbn. unfold Ring.peek, Ring.readable, Ring.capacity in *.
  rewrite Z.min_id. destruct (Z.eqb_spec (size_ b) 0) as [E|E]; cbn [orb].
  { cbn. split; [done|]. lia. }
  destruct (Z.eqb_spec (len (data_ b)) 0); [lia|].
  cbn. set (f := Z.min (size_ b) (len (data_ b) - read_pos_ b)).
  destruct (Z.eqb_spec (size_ b - f) 0), (Z.ltb_spec f (size_ b)); try lia;
    split; (done || lia).
Qed.

Lemma read_iovecs_gather_witness :
  let b := (Ring.append (str "ef") (Ring.commit_read (Ring.append (str "abcd") (Ring.make 4)).2 3)).2 in
  gather b (Ring.read_iovecs b) = str "def".
Proof.
  intros b.
  assert (Hok : ring_ok b) by (unfold ring_ok, BUF_LIMIT; vm_compute; intuition discriminate).
  rewrite (proj1 (read_iovecs_gather b Hok)). vm_compute. reflexivity.
Defined.
