(* ===== verification/Config.v ===== *)
(** * Configuration data (src/include/uproxy/config.h) *)

From stdpp Require Import prelude.
From S2P Require Import Prelude Result CxxString.

Inductive Proto := HTTP1 | H2C.

Record UpstreamConfig := mkUpstreamConfig {
  uc_name : bytes;
  uc_addr : bytes;
  uc_port : Z;       (* uint16_t *)
  uc_weight : Z;     (* uint32_t *)
  uc_healthy : bool;
  uc_proto : Proto;
}.

Record TLSConfig := mkTLSConfig {
  cert_file : bytes;
  key_file : bytes;
  min_version : bytes;
  alpn : list bytes;
  tls_enabled : bool;
}.

Record PoolConfig := mkPoolConfig {
  max_conns_per_upstream : Z;   (* all uint32_t *)
  connect_timeout_ms : Z;
  idle_timeout_ms : Z;
  max_keepalive : Z;
}.

Record LogConfig := mkLogConfig {
  log_level : bytes;
  log_format : bytes;
  log_file : bytes;
}.

Record ProxyConfig := mkProxyConfig {
  listen_addr : bytes;
  listen_port : Z;
  tls_port : Z;
  worker_threads : Z;
  tls : TLSConfig;
  pool : PoolConfig;
  log : LogConfig;
  upstreams : list UpstreamConfig;
}.

(** The default member initialisers. *)
Definition UpstreamConfig_default : UpstreamConfig := mkUpstreamConfig [] [] 0 1 true HTTP1.
Definition TLSConfig_default : TLSConfig :=
  mkTLSConfig [] [] (str "tls1.2") [str "h2"; str "http/1.1"] true.
Definition PoolConfig_default : PoolConfig := mkPoolConfig 64 5000 60000 1000.
Definition LogConfig_default : LogConfig := mkLogConfig (str "info") (str "text") [].
Definition ProxyConfig_default : ProxyConfig :=
  mkProxyConfig (str "0.0.0.0") 8080 8443 0 TLSConfig_default PoolConfig_default LogConfig_default [].
