(* ===== verification/ConfigLoad.v ===== *)
(** * Loading the configuration (src/src/config.cpp)

    Files come from outside: [Files] holds what opening a path for reading
    yields and which paths [stat] calls regular files. *)

From stdpp Require Import prelude.
From S2P Require Import Prelude Result CxxString Config.

Record Files := mkFiles {
  read_file : bytes -> option bytes;
  is_regular : bytes -> bool;
}.

(** ** Values *)

Fixpoint drop_space (s : bytes) : bytes :=
  match s with
  | c :: s' => if isspace c then drop_space s' else s
  | [] => []
  end.

Definition trim (s : bytes) : bytes := reverse (drop_space (reverse (drop_space s))).

Definition parse_bool (value : bytes) : bool := bool_decide (trim value = str "true").

Definition QUOTE : byte := Byte.x22.

Definition parse_string (value : bytes) : bytes :=
  let v := trim value in
  if (2 <=? len v) && bool_decide (head v = Some QUOTE) && bool_decide (last v = Some QUOTE)
  then substr v 1 (length v - 2) else v.

Definition parse_u32 (value field : bytes) : Result Z :=
  let text := trim value in
  match whole_number (from_chars 10 UINT32_MAX text) text with
  | None => Err (from_code ConfigInvalid field)
  | Some out => Ok out
  end.

Definition parse_port (value field : bytes) : Result Z :=
  match parse_u32 value field with
  | Err e => Err e
  | Ok n => if (n =? 0) || (65535 <? n) then Err (from_code ConfigInvalid field) else Ok n
  end.

Definition file_exists (fs : Files) (path : bytes) : bool :=
  if len path =? 0 then false else is_regular fs path.

Definition COLON : byte := Byte.x3a.

(** The optional third part, [weight=n]. *)
Definition parse_weight_suffix (suffix : bytes) : Result Z :=
  let prefix := str "weight=" in
  if negb (starts_with prefix suffix) then Err (from_code ConfigInvalid (str "unsupported upstream option"))
  else
    match parse_u32 (drop (length prefix) suffix) (str "invalid upstream weight") with
    | Err _ => Err (from_code ConfigInvalid (str "invalid upstream weight"))
    | Ok w => if w =? 0 then Err (from_code ConfigInvalid (str "invalid upstream weight")) else Ok w
    end.

Definition parse_upstream_cli (s : bytes) : Result UpstreamConfig :=
  match find_char COLON s with
  | None => Err (from_code ConfigInvalid (str "upstream requires addr:port"))
  | Some colon =>
      let addr := substr s 0 colon in
      let next := find_char_from COLON s (colon + 1) in
      let port := match next with
                  | None => drop (colon + 1) s
                  | Some n => substr s (colon + 1) (n - colon - 1)
                  end in
      match parse_port port (str "invalid upstream port") with
      | Err e => Err e
      | Ok p =>
          let name := addr ++ [COLON] ++ to_string p in
          match next with
          | None => Ok (mkUpstreamConfig name addr p 1 true HTTP1)
          | Some n =>
              match parse_weight_suffix (drop (n + 1) s) with
              | Err e => Err e
              | Ok w => Ok (mkUpstreamConfig name addr p w true HTTP1)
              end
          end
      end
  end.

(** ** Assignments to single members *)

Definition set_listen_addr v c := mkProxyConfig v (listen_port c) (tls_port c) (worker_threads c) (tls c) (pool c) (log c) (upstreams c).
Definition set_listen_port v c := mkProxyConfig (listen_addr c) v (tls_port c) (worker_threads c) (tls c) (pool c) (log c) (upstreams c).
Definition set_tls_port v c := mkProxyConfig (listen_addr c) (listen_port c) v (worker_threads c) (tls c) (pool c) (log c) (upstreams c).
Definition set_worker_threads v c := mkProxyConfig (listen_addr c) (listen_port c) (tls_port c) v (tls c) (pool c) (log c) (upstreams c).
Definition set_tls v c := mkProxyConfig (listen_addr c) (listen_port c) (tls_port c) (worker_threads c) v (pool c) (log c) (upstreams c).
Definition set_pool v c := mkProxyConfig (listen_addr c) (listen_port c) (tls_port c) (worker_threads c) (tls c) v (log c) (upstreams c).
Definition set_log v c := mkProxyConfig (listen_addr c) (listen_port c) (tls_port c) (worker_threads c) (tls c) (pool c) v (upstreams c).
Definition set_upstreams v c := mkProxyConfig (listen_addr c) (listen_port c) (tls_port c) (worker_threads c) (tls c) (pool c) (log c) v.

Definition set_cert_file v t := mkTLSConfig v (key_file t) (min_version t) (alpn t) (tls_enabled t).
Definition set_key_file v t := mkTLSConfig (cert_file t) v (min_version t) (alpn t) (tls_enabled t).
Definition set_min_version v t := mkTLSConfig (cert_file t) (key_file t) v (alpn t) (tls_enabled t).
Definition set_alpn v t := mkTLSConfig (cert_file t) (key_file t) (min_version t) v (tls_enabled t).
Definition set_tls_enabled v t := mkTLSConfig (cert_file t) (key_file t) (min_version t) (alpn t) v.

Definition set_max_conns v p := mkPoolConfig v (connect_timeout_ms p) (idle_timeout_ms p) (max_keepalive p).
Definition set_connect_timeout v p := mkPoolConfig (max_conns_per_upstream p) v (idle_timeout_ms p) (max_keepalive p).
Definition set_idle_timeout v p := mkPoolConfig (max_conns_per_upstream p) (connect_timeout_ms p) v (max_keepalive p).
Definition set_max_keepalive v p := mkPoolConfig (max_conns_per_upstream p) (connect_timeout_ms p) (idle_timeout_ms p) v.

Definition set_level v l := mkLogConfig v (log_format l) (log_file l).
Definition set_format v l := mkLogConfig (log_level l) v (log_file l).
Definition set_file v l := mkLogConfig (log_level l) (log_format l) v.

Definition set_uc_name v u := mkUpstreamConfig v (uc_addr u) (uc_port u) (uc_weight u) (uc_healthy u) (uc_proto u).
Definition set_uc_addr v u := mkUpstreamConfig (uc_name u) v (uc_port u) (uc_weight u) (uc_healthy u) (uc_proto u).
Definition set_uc_port v u := mkUpstreamConfig (uc_name u) (uc_addr u) v (uc_weight u) (uc_healthy u) (uc_proto u).
Definition set_uc_weight v u := mkUpstreamConfig (uc_name u) (uc_addr u) (uc_port u) v (uc_healthy u) (uc_proto u).
Definition set_uc_healthy v u := mkUpstreamConfig (uc_name u) (uc_addr u) (uc_port u) (uc_weight u) v (uc_proto u).
Definition set_uc_proto v u := mkUpstreamConfig (uc_name u) (uc_addr u) (uc_port u) (uc_weight u) (uc_healthy u) v.

(** ** The file *)

Inductive Section_ := Root | Proxy | TLS | Pool | Log | Upstream.

(** [std::getline] until the end: the lines without their line feed; no line
    after a final line feed. *)
Fixpoint getlines (cur s : bytes) : list bytes :=
  match s with
  | [] => if len cur =? 0 then [] else [cur]
  | c :: s' => if Byte.eqb c LF then cur :: getlines [] s' else getlines (cur ++ [c]) s'
  end.

(** Parse, and store on success. *)
Definition assign {A} (r : Result A) (f : A -> ProxyConfig) : Result ProxyConfig := map_ok r f.

Definition is_key (key : bytes) (s : String.string) : bool := bool_decide (key = str s).
Arguments is_key key s%_string_scope.

Definition assign_proxy (key value : bytes) (c : ProxyConfig) : Result ProxyConfig :=
  if is_key key "listen_addr" then Ok (set_listen_addr (parse_string value) c)
  else if is_key key "listen_port" then assign (parse_port value key) (fun p => set_listen_port p c)
  else if is_key key "tls_port" then assign (parse_port value key) (fun p => set_tls_port p c)
  else if is_key key "worker_threads" then assign (parse_u32 value key) (fun n => set_worker_threads n c)
  else Ok c.

Definition parse_alpn (value : bytes) : list bytes :=
  (if bool_decide (find_sub (str "h2") value <> None) then [str "h2"] else [])
  ++ (if bool_decide (find_sub (str "http/1.1") value <> None) then [str "http/1.1"] else []).

Definition assign_tls (key value : bytes) (c : ProxyConfig) : Result ProxyConfig :=
  if is_key key "cert_file" then Ok (set_tls (set_cert_file (parse_string value) (tls c)) c)
  else if is_key key "key_file" then Ok (set_tls (set_key_file (parse_string value) (tls c)) c)
  else if is_key key "min_version" then Ok (set_tls (set_min_version (parse_string value) (tls c)) c)
  else if is_key key "alpn" then Ok (set_tls (set_alpn (parse_alpn value) (tls c)) c)
  else Ok c.

Definition assign_pool (key value : bytes) (c : ProxyConfig) : Result ProxyConfig :=
  if is_key key "max_connections_per_upstream" then assign (parse_u32 value key) (fun n => set_pool (set_max_conns n (pool c)) c)
  else if is_key key "connect_timeout_ms" then assign (parse_u32 value key) (fun n => set_pool (set_connect_timeout n (pool c)) c)
  else if is_key key "idle_timeout_ms" then assign (parse_u32 value key) (fun n => set_pool (set_idle_timeout n (pool c)) c)
  else if is_key key "max_keepalive" then assign (parse_u32 value key) (fun n => set_pool (set_max_keepalive n (pool c)) c)
  else Ok c.

Definition assign_log (key value : bytes) (c : ProxyConfig) : Result ProxyConfig :=
  if is_key key "level" then Ok (set_log (set_level (parse_string value) (log c)) c)
  else if is_key key "format" then Ok (set_log (set_format (parse_string value) (log c)) c)
  else if is_key key "file" then Ok (set_log (set_file (parse_string value) (log c)) c)
  else Ok c.

(** [current_upstream] points to the last element whenever it is not null. *)
Definition update_last (f : UpstreamConfig -> UpstreamConfig) (l : list UpstreamConfig) : list UpstreamConfig :=
  match last l with
  | Some u => removelast l ++ [f u]
  | None => l
  end.

Definition on_upstream (f : UpstreamConfig -> UpstreamConfig) (c : ProxyConfig) : ProxyConfig :=
  set_upstreams (update_last f (upstreams c)) c.

Definition assign_upstream (key value : bytes) (c : ProxyConfig) : Result ProxyConfig :=
  if is_key key "name" then Ok (on_upstream (set_uc_name (parse_string value)) c)
  else if is_key key "addr" then Ok (on_upstream (set_uc_addr (parse_string value)) c)
  else if is_key key "port" then assign (parse_port value key) (fun p => on_upstream (set_uc_port p) c)
  else if is_key key "weight" then assign (parse_u32 value key) (fun w => on_upstream (set_uc_weight w) c)
  else if is_key key "healthy" then Ok (on_upstream (set_uc_healthy (parse_bool value)) c)
  else if is_key key "protocol" && bool_decide (parse_string value = str "h2c") then Ok (on_upstream (set_uc_proto H2C) c)
  else Ok c.

Definition assign_key (section : Section_) (key value : bytes) (c : ProxyConfig) : Result ProxyConfig :=
  match section with
  | Root => Ok c
  | Proxy => assign_proxy key value c
  | TLS => assign_tls key value c
  | Pool => assign_pool key value c
  | Log => assign_log key value c
  | Upstream => assign_upstream key value c
  end.

Definition HASH : byte := Byte.x23.
Definition EQUALS : byte := Byte.x3d.

(** One line: the section and the configuration after it. *)
Definition config_line (line_no : Z) (line : bytes) (section : Section_) (c : ProxyConfig)
    : Result (Section_ * ProxyConfig) :=
  let line := match find_char HASH line with Some i => take i line | None => line end in
  let t := trim line in
  if len t =? 0 then Ok (section, c)
  else if bool_decide (t = str "[proxy]") then Ok (Proxy, c)
  else if bool_decide (t = str "[tls]") then Ok (TLS, c)
  else if bool_decide (t = str "[pool]") then Ok (Pool, c)
  else if bool_decide (t = str "[log]") then Ok (Log, c)
  else if bool_decide (t = str "[[upstream]]")
  then Ok (Upstream, set_upstreams (upstreams c ++ [UpstreamConfig_default]) c)
  else
    match find_char EQUALS t with
    | None => Err (from_code ConfigSyntax (str "syntax error on line " ++ to_string line_no))
    | Some eq =>
        let key := trim (substr t 0 eq) in
        let value := trim (drop (eq + 1) t) in
        map_ok (assign_key section key value c) (fun c => (section, c))
    end.

Fixpoint config_lines (line_no : Z) (lines : list bytes) (section : Section_) (c : ProxyConfig) : Result ProxyConfig :=
  match lines with
  | [] => Ok c
  | l :: lines' =>
      match config_line (line_no + 1) l section c with
      | Err e => Err e
      | Ok (section, c) => config_lines (line_no + 1) lines' section c
      end
  end.

Definition config_from_file (fs : Files) (path : bytes) : Result ProxyConfig :=
  match read_file fs path with
  | None =>
      if bool_decide (path = str "./uproxy.toml") || bool_decide (path = str "uproxy.toml")
      then Ok ProxyConfig_default
      else Err (from_code ConfigSyntax (str "config not found"))
  | Some text => config_lines 0 (getlines [] text) Root ProxyConfig_default
  end.

(** ** The command line *)

(** Options that take a value. *)
Definition takes_value (arg : bytes) : bool :=
  existsb (fun n => bool_decide (arg = n))
    [str "--config"; str "--listen-addr"; str "--listen-port"; str "--tls-port"; str "--upstream"; str "--log-level";
     str "--workers"].

Definition apply_option (fs : Files) (arg value : bytes) (c : ProxyConfig) : Result ProxyConfig :=
  if is_key arg "--config" then config_from_file fs value
  else if is_key arg "--listen-addr" then Ok (set_listen_addr value c)
  else if is_key arg "--listen-port" then assign (parse_port value (str "listen port")) (fun p => set_listen_port p c)
  else if is_key arg "--tls-port" then assign (parse_port value (str "tls port")) (fun p => set_tls_port p c)
  else if is_key arg "--upstream" then assign (parse_upstream_cli value) (fun u => set_upstreams (upstreams c ++ [u]) c)
  else if is_key arg "--log-level" then Ok (set_log (set_level value (log c)) c)
  else assign (parse_u32 value (str "workers")) (fun n => set_worker_threads n c).

(** The loop over [argv[1..]]. *)
Fixpoint config_apply_cli (fs : Files) (c : ProxyConfig) (args : list bytes) : Result ProxyConfig :=
  match args with
  | [] => Ok c
  | arg :: rest =>
      if takes_value arg then
        match rest with
        | [] => Err (from_code ConfigInvalid (arg ++ str " requires value"))
        | value :: rest' =>
            match apply_option fs arg value c with
            | Err e => Err e
            | Ok c => config_apply_cli fs c rest'
            end
        end
      else if bool_decide (arg = str "--no-tls")
      then config_apply_cli fs (set_tls (set_tls_enabled false (tls c)) c) rest
      else config_apply_cli fs c rest
  end.

(** ** Validation *)

Definition known_level (l : bytes) : bool :=
  existsb (fun n => bool_decide (l = n)) [str "trace"; str "debug"; str "info"; str "warn"; str "error"].

Definition bad_upstream (u : UpstreamConfig) : bool :=
  (len (uc_addr u) =? 0) || (uc_port u =? 0) || (uc_weight u =? 0).

Definition config_validate (fs : Files) (c : ProxyConfig) : Result ProxyConfig :=
  if len (upstreams c) =? 0 then Err (from_code ConfigInvalid (str "zero upstreams"))
  else if negb (known_level (log_level (log c))) then Err (from_code ConfigInvalid (str "invalid log level"))
  else if bool_decide (log_format (log c) <> str "json") && bool_decide (log_format (log c) <> str "text")
  then Err (from_code ConfigInvalid (str "invalid log format"))
  else if existsb bad_upstream (upstreams c) then Err (from_code ConfigInvalid (str "invalid upstream"))
  else if tls_enabled (tls c) && (negb (file_exists fs (cert_file (tls c))) || negb (file_exists fs (key_file (tls c))))
  then Err (from_code ConfigInvalid (str "missing TLS certificate or key"))
  else if bool_decide (min_version (tls c) <> str "tls1.2") && bool_decide (min_version (tls c) <> str "tls1.3")
  then Err (from_code ConfigInvalid (str "invalid TLS minimum version"))
  else Ok c.

(** A configuration file in the style of the one the repository ships. *)
Definition demo_file : bytes :=
  concat (map (fun l => l ++ [LF])
    [str "# comment"; str "[proxy]"; str "listen_port = 9090"; str "[tls]"; str "alpn = [h2]"; str "";
     str "[[upstream]]"; str "addr = 10.0.0.1 # first"; str "port = 3000"; str "weight = 3";
     str "[[upstream]]"; str "addr = 10.0.0.2"; str "port = 3001"]).

Definition demo_files : Files := mkFiles (fun p => if bool_decide (p = str "x.toml") then Some demo_file else None) (fun _ => false).

Example load_demo :
  config_from_file demo_files (str "x.toml") =
  Ok (set_upstreams [mkUpstreamConfig [] (str "10.0.0.1") 3000 3 true HTTP1; mkUpstreamConfig [] (str "10.0.0.2") 3001 1 true HTTP1]
       (set_tls (set_alpn [str "h2"] TLSConfig_default) (set_listen_port 9090 ProxyConfig_default))).
Proof. vm_compute. reflexivity. Qed.
