(* ===== verification/LoadBalancer.v ===== *)
(** * The weighted round-robin balancer
    (src/src/load_balancer.cpp, src/include/uproxy/load_balancer.h)

    The endpoints are shared objects: [next()] hands out a [shared_ptr] whose
    counters the proxy later updates.  They stay in one vector for the life of
    the balancer, so a pointer to one is its index in that vector.  Every
    method takes the mutex, so each is one atomic step. *)

From stdpp Require Import prelude.
From S2P Require Import Prelude Result CxxString Config.

Record UpstreamEndpoint := mkUpstreamEndpoint {
  addr : bytes;
  port : Z;
  weight : Z;                 (* uint32_t *)
  name : bytes;
  healthy : bool;
  active_requests : Z;        (* uint64_t *)
  total_requests : Z;
  failed_requests : Z;
}.

Record WeightedRoundRobin := mkWRR {
  endpoints_ : list UpstreamEndpoint;
  current_weights_ : list Z;  (* int64_t *)
}.

(** One endpoint of the constructor's loop. *)
Definition endpoint_of_config (cfg : UpstreamConfig) : UpstreamEndpoint :=
  mkUpstreamEndpoint (uc_addr cfg) (uc_port cfg) (Z.max 1 (uc_weight cfg))
    (if bool_decide (uc_name cfg = []) then uc_addr cfg ++ str ":" ++ to_string (uc_port cfg)
     else uc_name cfg)
    (uc_healthy cfg) 0 0 0.

Definition WeightedRoundRobin_make (configs : list UpstreamConfig) : WeightedRoundRobin :=
  mkWRR (map endpoint_of_config configs) (map (fun _ => 0) configs).

(** The selection loop of [next], from index [i] on. *)
Fixpoint next_scan (eps : list UpstreamEndpoint) (i : nat) (cw : list Z) (total : Z)
    (best : option nat) : list Z * Z * option nat :=
  match eps with
  | [] => (cw, total, best)
  | ep :: eps' =>
      if negb (healthy ep) then next_scan eps' (S i) cw total best
      else
        let cw := <[i := i64 (cw !!! i + weight ep)]> cw in
        let total := i64 (total + weight ep) in
        let best := match best with
                    | None => Some i
                    | Some b => if cw !!! b <? cw !!! i then Some i else Some b
                    end in
        next_scan eps' (S i) cw total best
  end.

Definition count_request (ep : UpstreamEndpoint) : UpstreamEndpoint :=
  mkUpstreamEndpoint (addr ep) (port ep) (weight ep) (name ep) (healthy ep) (active_requests ep)
    (u64 (total_requests ep + 1)) (failed_requests ep).

Definition count_failure (ep : UpstreamEndpoint) : UpstreamEndpoint :=
  mkUpstreamEndpoint (addr ep) (port ep) (weight ep) (name ep) (healthy ep) (active_requests ep)
    (total_requests ep) (u64 (failed_requests ep + 1)).

Definition set_health (h : bool) (ep : UpstreamEndpoint) : UpstreamEndpoint :=
  mkUpstreamEndpoint (addr ep) (port ep) (weight ep) (name ep) h (active_requests ep)
    (total_requests ep) (failed_requests ep).

(** [next()]: the index of the chosen endpoint, [None] for [nullptr]. *)
Definition next (lb : WeightedRoundRobin) : option nat * WeightedRoundRobin :=
  match next_scan (endpoints_ lb) 0 (current_weights_ lb) 0 None with
  | (cw, total, None) => (None, mkWRR (endpoints_ lb) cw)
  | (cw, total, Some best) =>
      if total =? 0 then (None, mkWRR (endpoints_ lb) cw)
      else (Some best,
            mkWRR (alter count_request best (endpoints_ lb))
                  (<[best := i64 (cw !!! best - total)]> cw))
  end.

Definition mark (h : bool) (n : bytes) (lb : WeightedRoundRobin) : WeightedRoundRobin :=
  mkWRR (map (fun ep => if bool_decide (name ep = n) then set_health h ep else ep) (endpoints_ lb))
        (current_weights_ lb).

Definition mark_unhealthy (n : bytes) (lb : WeightedRoundRobin) : WeightedRoundRobin := mark false n lb.
Definition mark_healthy (n : bytes) (lb : WeightedRoundRobin) : WeightedRoundRobin := mark true n lb.

Record Stats := mkStats {
  st_name : bytes; st_healthy : bool; st_active : Z; st_total : Z; st_failed : Z;
}.

Definition stats (lb : WeightedRoundRobin) : list Stats :=
  map (fun ep => mkStats (name ep) (healthy ep) (active_requests ep) (total_requests ep)
                   (failed_requests ep)) (endpoints_ lb).

(** [k] successive calls. *)
Fixpoint picks (k : nat) (lb : WeightedRoundRobin) : list (option nat) * WeightedRoundRobin :=
  match k with
  | O => ([], lb)
  | S k' => let '(p, lb1) := next lb in let '(ps, lb2) := picks k' lb1 in (p :: ps, lb2)
  end.

(** The selection sequence checked in tests/test_load_balancer.cpp. *)
Example test_sequence :
  let cfg n w := mkUpstreamConfig n (str "127.0.0.1") 1 w true HTTP1 in
  (picks 10 (WeightedRoundRobin_make [cfg (str "A") 5; cfg (str "B") 3; cfg (str "C") 2])).1
  = map Some [0; 1; 2; 0; 0; 1; 0; 2; 1; 0]%nat.
Proof. vm_compute. reflexivity. Qed.
