(* ===== verification/LoadBalancerProofs.v ===== *)
(** * Correctness of the weighted round-robin balancer

    The selection rule of [next], and what it adds up to: over a full cycle
    every healthy endpoint is chosen exactly as often as its weight says, and
    no endpoint is ever ahead of its share by a whole request. *)

From stdpp Require Import prelude.
From S2P Require Import Prelude Result CxxString Config LoadBalancer.

(** ** Sums *)

Fixpoint zsum (l : list Z) : Z :=
  match l with [] => 0 | x :: l' => x + zsum l' end.

Lemma zsum_app l k : zsum (l ++ k) = zsum l + zsum k.
Proof. induction l; cbn; lia. Qed.

Lemma zsum_insert l i x y : l !! i = Some x -> zsum (<[i := y]> l) = zsum l - x + y.
Proof.
  revert i; induction l as [|z l IH]; intros [|i] H; cbn in *; simplify_eq; [lia|].
  rewrite IH by done. lia.
Qed.

(** A list whose entries are all at least [a] bounds each entry from above. *)
Lemma zsum_lower a l : Forall (Z.le a) l -> a * len l <= zsum l.
Proof. induction 1; cbn; rewrite ?len_nil, ?len_cons; lia. Qed.

Lemma zsum_upper a l i x :
  Forall (Z.le a) l -> l !! i = Some x -> x <= zsum l - a * (len l - 1).
Proof.
  intros Hl Hx. pose proof (zsum_insert l i x a Hx) as Hz.
  assert (Forall (Z.le a) (<[i := a]> l)) as Hi by (apply Forall_insert; [done|lia]).
  apply zsum_lower in Hi. unfold len in *. rewrite length_insert in Hi. lia.
Qed.

(** Equal totals of pointwise ordered lists: the lists are equal. *)
Lemma zsum_squeeze l k :
  Forall2 Z.le l k -> zsum l = zsum k -> l = k.
Proof.
  intros H. assert (Hle : forall l k, Forall2 Z.le l k -> zsum l <= zsum k)
    by (induction 1; cbn; lia).
  induction H as [|x y l k Hxy H IH]; intros E; [done|]. cbn in E.
  pose proof (Hle _ _ H). f_equal; [lia|]. apply IH. lia.
Qed.

Lemma zsum_replicate_0 n : zsum (replicate n 0) = 0.
Proof. induction n as [|n IH]; [done|exact IH]. Qed.

(** ** The selection loop *)

(** What an endpoint adds: its weight if it is healthy. *)
Definition share (ep : UpstreamEndpoint) : Z := if healthy ep then weight ep else 0.

Definition total_weight (eps : list UpstreamEndpoint) : Z := zsum (map share eps).

Definition bump (eps : list UpstreamEndpoint) (cw : list Z) : list Z :=
  zip_with (fun ep c => c + share ep) eps cw.

(** Endpoints come out of the constructor with a weight between 1 and
    UINT32_MAX, one current weight each. *)
Definition wrr_wf (lb : WeightedRoundRobin) : Prop :=
  length (current_weights_ lb) = length (endpoints_ lb) /\
  Forall (fun ep => 1 <= weight ep <= UINT32_MAX) (endpoints_ lb).

(** The current weights are small enough for the [int64_t] sums. *)
Definition wrr_small (lb : WeightedRoundRobin) : Prop :=
  Forall (fun c => Z.abs c <= 2 ^ 61) (current_weights_ lb) /\
  total_weight (endpoints_ lb) <= 2 ^ 61.

(** [b] is the leftmost healthy endpoint of largest weight. *)
Definition is_best (eps : list UpstreamEndpoint) (cw : list Z) (best : option nat) : Prop :=
  match best with
  | None => Forall (fun ep => healthy ep = false) eps
  | Some b =>
      exists ep c, eps !! b = Some ep /\ healthy ep = true /\ cw !! b = Some c /\
        forall j ep' c', eps !! j = Some ep' -> healthy ep' = true -> cw !! j = Some c' ->
          c' <= c /\ ((j < b)%nat -> c' < c)
  end.

Lemma total_weight_nonneg eps :
  Forall (fun ep => 1 <= weight ep <= UINT32_MAX) eps -> 0 <= total_weight eps.
Proof.
  induction 1 as [|ep eps Hw H IH]; [done|]. unfold total_weight in *. cbn.
  unfold share at 1. destruct (healthy ep); lia.
Qed.

Lemma length_bump eps cw : length cw = length eps -> length (bump eps cw) = length eps.
Proof. intros H. unfold bump. rewrite length_zip_with. lia. Qed.

(** Extending the scanned prefix by one endpoint. *)
Lemma is_best_snoc eps cw best ep c :
  length cw = length eps -> is_best eps cw best ->
  is_best (eps ++ [ep]) (cw ++ [c])
    (if healthy ep then
       match best with
       | None => Some (length eps)
       | Some b => if (cw ++ [c]) !!! b <? c then Some (length eps) else Some b
       end
     else best).
Proof.
  intros Hl Hb.
  assert (Hsplit : forall j ep' c', (eps ++ [ep]) !! j = Some ep' -> (cw ++ [c]) !! j = Some c' ->
    (eps !! j = Some ep' /\ cw !! j = Some c' /\ (j < length eps)%nat) \/
    (j = length eps /\ ep' = ep /\ c' = c)).
  { intros j ep' c' He Hc. apply lookup_app_Some in He as [He|[Hj He]].
    - pose proof (lookup_lt_Some _ _ _ He). rewrite lookup_app_l in Hc by lia. by left.
    - apply list_lookup_singleton_Some in He as [Hj0 <-].
      rewrite lookup_app_r in Hc by lia. apply list_lookup_singleton_Some in Hc as [_ <-].
      right. split; [lia|done]. }
  assert (Hlast : (eps ++ [ep]) !! length eps = Some ep /\ (cw ++ [c]) !! length eps = Some c).
  { split; [by apply list_lookup_middle|]. rewrite <- Hl. by apply list_lookup_middle. }
  destruct Hlast as [Hle Hlc].
  destruct (healthy ep) eqn:Hh; destruct best as [b|]; cbn in *.
  - destruct Hb as (epb & cb & He & Hhb & Hc & Hmax).
    rewrite (list_lookup_total_correct _ b cb) by (by apply lookup_app_l_Some).
    destruct (Z.ltb_spec cb c).
    + exists ep, c. split_and!; try done. intros j ep' c' Hj Hh' Hc'.
      destruct (Hsplit _ _ _ Hj Hc') as [(H1 & H2 & H3)|(-> & -> & ->)]; [|lia].
      destruct (Hmax _ _ _ H1 Hh' H2). lia.
    + exists epb, cb. split_and!; try (by apply lookup_app_l_Some); try done. intros j ep' c' Hj Hh' Hc'.
      destruct (Hsplit _ _ _ Hj Hc') as [(H1 & H2 & H3)|(-> & -> & ->)]; [by eapply Hmax|].
      apply lookup_lt_Some in He. lia.
  - exists ep, c. split_and!; try done. intros j ep' c' Hj Hh' Hc'.
    destruct (Hsplit _ _ _ Hj Hc') as [(H1 & H2 & H3)|(-> & -> & ->)]; [|lia].
    rewrite Forall_forall in Hb. rewrite (Hb ep') in Hh'; [done|]. by eapply list_elem_of_lookup_2.
  - destruct Hb as (epb & cb & He & Hhb & Hc & Hmax). exists epb, cb.
    split_and!; try (by apply lookup_app_l_Some); try done. intros j ep' c' Hj Hh' Hc'.
    destruct (Hsplit _ _ _ Hj Hc') as [(H1 & H2 & H3)|(-> & -> & ->)]; [by eapply Hmax|congruence].
  - apply Forall_app. split; [done|]. by constructor.
Qed.

(** The loop adds every healthy weight, totals them and finds the leftmost
    maximum; none of its [int64_t] sums overflows. *)
Lemma next_scan_spec eps pre cwp cws total best :
  length cwp = length pre -> length cws = length eps ->
  Forall (fun ep => 1 <= weight ep <= UINT32_MAX) eps ->
  Forall (fun c => Z.abs c <= 2 ^ 61) cws ->
  0 <= total -> total + total_weight eps <= 2 ^ 61 -> is_best pre cwp best ->
  exists best', next_scan eps (length pre) (cwp ++ cws) total best
    = (cwp ++ bump eps cws, total + total_weight eps, best')
    /\ is_best (pre ++ eps) (cwp ++ bump eps cws) best'.
Proof.
  revert pre cwp cws total best; induction eps as [|ep eps IH]; intros pre cwp cws total best
    Hlp Hls Hw Hc Ht Htot Hb.
  { destruct cws; [|done]. exists best. unfold total_weight; cbn. rewrite !app_nil_r, Z.add_0_r. done. }
  destruct cws as [|c cws]; [done|]. apply Forall_cons in Hw as [Hw Hws]. apply Forall_cons in Hc as [Hc Hcs].
  pose proof (total_weight_nonneg eps Hws) as Htn.
  assert (Htw : total_weight (ep :: eps) = share ep + total_weight eps) by done. rewrite Htw in *.
  unfold UINT32_MAX in *. assert (Hsh : 0 <= share ep <= 2 ^ 32) by (unfold share; destruct (healthy ep); lia).
  pose proof (is_best_snoc pre cwp best ep (c + share ep) Hlp Hb) as Hb1.
  assert (Hnow : bump (ep :: eps) (c :: cws) = (c + share ep) :: bump eps cws) by done. rewrite Hnow.
  rewrite !(cons_middle _ _ (bump eps cws)), (cons_middle _ pre eps), !app_assoc.
  replace (total + (share ep + total_weight eps)) with ((total + share ep) + total_weight eps) by lia.
  assert (Hstep : next_scan (ep :: eps) (length pre) (cwp ++ c :: cws) total best =
    next_scan eps (length (pre ++ [ep])) ((cwp ++ [c + share ep]) ++ cws) (total + share ep)
      (if healthy ep then
         match best with
         | None => Some (length pre)
         | Some b => if (cwp ++ [c + share ep]) !!! b <? c + share ep then Some (length pre) else Some b
         end
       else best)).
  { rewrite length_app, Nat.add_1_r, <- app_assoc. cbn [next_scan app].
    unfold share in *. destruct (healthy ep) eqn:Hh; cbn [negb].
    - rewrite (list_lookup_total_correct _ (length pre) c)
        by (rewrite <- Hlp; by apply list_lookup_middle).
      rewrite !i64_small by lia. rewrite <- Hlp, insert_app_r_alt, Nat.sub_diag by lia. cbn.
      f_equal. destruct best as [b|]; [|done].
      rewrite (list_lookup_total_correct _ (length cwp) (c + weight ep)) by (by apply list_lookup_middle).
      destruct Hb as (epb & cb & Hepb & _ & Hcb & _).
      rewrite !(list_lookup_total_correct _ b cb); [done|by apply lookup_app_l_Some..].
    - rewrite !Z.add_0_r. done. }
  rewrite Hstep. apply IH; try done; try (rewrite ?length_app; cbn; lia).
  by injection Hls.
Qed.

(** ** One call of [next] *)

Definition has_healthy (lb : WeightedRoundRobin) : Prop :=
  Exists (fun ep => healthy ep = true) (endpoints_ lb).

Lemma none_or_some_healthy lb :
  Forall (fun ep => healthy ep = false) (endpoints_ lb) \/ has_healthy lb.
Proof.
  unfold has_healthy. induction (endpoints_ lb) as [|ep eps IH]; [by left; constructor|].
  destruct (healthy ep) eqn:E; [right; by constructor|].
  destruct IH; [left|right]; by constructor.
Qed.

Lemma has_healthy_total lb : wrr_wf lb -> has_healthy lb -> 1 <= total_weight (endpoints_ lb).
Proof.
  intros [_ Hw] Hh. unfold has_healthy in Hh. revert Hw.
  induction Hh as [ep eps Hep|ep eps Hh IH]; intros Hw; apply Forall_cons in Hw as [Hw Hws];
    unfold total_weight in *; cbn.
  - pose proof (total_weight_nonneg eps Hws). unfold total_weight, share in *. rewrite Hep. lia.
  - specialize (IH Hws). unfold share at 1. destruct (healthy ep); lia.
Qed.

(** The choice: the leftmost endpoint whose weight, once every healthy
    endpoint has received its own, is largest; it pays the total. *)
Lemma next_selects lb :
  wrr_wf lb -> wrr_small lb -> has_healthy lb ->
  exists b ep c,
    next lb = (Some b, mkWRR (alter count_request b (endpoints_ lb))
                (<[b := c - total_weight (endpoints_ lb)]> (bump (endpoints_ lb) (current_weights_ lb)))) /\
    endpoints_ lb !! b = Some ep /\ healthy ep = true /\
    bump (endpoints_ lb) (current_weights_ lb) !! b = Some c /\
    (forall j ep' c', endpoints_ lb !! j = Some ep' -> healthy ep' = true ->
       bump (endpoints_ lb) (current_weights_ lb) !! j = Some c' -> c' <= c /\ ((j < b)%nat -> c' < c)).
Proof.
  intros Hwf Hsm Hh. pose proof (has_healthy_total lb Hwf Hh) as HW.
  destruct Hwf as [Hl Hw]. destruct Hsm as [Hc Htw].
  destruct (next_scan_spec (endpoints_ lb) [] [] (current_weights_ lb) 0 None) as (best & E & Hb);
    [done|done|done|done|lia|lia|constructor|].
  cbn [app length] in E, Hb. unfold next. rewrite E. destruct best as [b|].
  - destruct Hb as (ep & c & He & Hhe & Hcb & Hmax). exists b, ep, c.
    destruct (Z.eqb_spec (0 + total_weight (endpoints_ lb)) 0); [lia|].
    split_and!; try done. rewrite (list_lookup_total_correct _ _ _ Hcb), Z.add_0_l.
    rewrite i64_small; [done|].
    unfold bump in Hcb. apply lookup_zip_with_Some in Hcb as (ep' & c0 & -> & He' & Hc0).
    simplify_eq. rewrite Forall_forall in Hc. specialize (Hc c0 (list_elem_of_lookup_2 _ _ _ Hc0)).
    rewrite Forall_forall in Hw. specialize (Hw ep (list_elem_of_lookup_2 _ _ _ He)).
    unfold share, UINT32_MAX in *. rewrite Hhe. lia.
  - exfalso. unfold has_healthy in Hh. apply Exists_exists in Hh as (ep & Hin & Hep).
    cbn in Hb. rewrite Forall_forall in Hb. rewrite (Hb ep Hin) in Hep. done.
Qed.

Lemma bump_unhealthy eps cw :
  length cw = length eps -> Forall (fun ep => healthy ep = false) eps -> bump eps cw = cw.
Proof.
  intros Hl H. revert cw Hl; induction H as [|ep eps Hep H IH]; intros [|c cw] Hl; try done.
  unfold bump in *; cbn. rewrite IH by (by injection Hl). unfold share. rewrite Hep. f_equal. lia.
Qed.

(** With no healthy endpoint the answer is [nullptr] and nothing changes. *)
Lemma next_none lb :
  wrr_wf lb -> wrr_small lb -> Forall (fun ep => healthy ep = false) (endpoints_ lb) ->
  next lb = (None, lb).
Proof.
  intros [Hl Hw] [Hc Htw] Hh.
  destruct (next_scan_spec (endpoints_ lb) [] [] (current_weights_ lb) 0 None) as (best & E & Hb);
    [done|done|done|done|lia|lia|constructor|].
  cbn [app length] in E, Hb. unfold next. rewrite E. rewrite bump_unhealthy by done.
  destruct best as [b|]; [|by destruct lb].
  destruct Hb as (ep & c & He & Hhe & _). rewrite Forall_forall in Hh.
  rewrite (Hh ep (list_elem_of_lookup_2 _ _ _ He)) in Hhe. done.
Qed.

Lemma zsum_bump eps cw : length cw = length eps -> zsum (bump eps cw) = zsum cw + total_weight eps.
Proof.
  revert cw; induction eps as [|ep eps IH]; intros [|c cw] Hl; try done.
  unfold bump, total_weight in *; cbn. rewrite IH by (by injection Hl). lia.
Qed.

(** Counting a request does not change who is healthy or how heavy. *)
Lemma map_share_alter b eps : map share (alter count_request b eps) = map share eps.
Proof.
  revert b; induction eps as [|ep eps IH]; intros [|b]; cbn; [done..|].
  f_equal. apply IH.
Qed.

Lemma Forall_alter_count (P : UpstreamEndpoint -> Prop) b eps :
  (forall ep, P ep -> P (count_request ep)) -> Forall P eps -> Forall P (alter count_request b eps).
Proof. intros Hp H. apply Forall_alter; [done|]. intros x _ Hx. by apply Hp. Qed.

Lemma total_weight_alter b eps : total_weight (alter count_request b eps) = total_weight eps.
Proof. unfold total_weight. by rewrite map_share_alter. Qed.

(** ** Runs with a fixed set of healthy endpoints *)

Record balanced (lb : WeightedRoundRobin) : Prop := {
  bal_wf : wrr_wf lb;
  bal_healthy : has_healthy lb;
  bal_size : len (endpoints_ lb) * total_weight (endpoints_ lb) <= 2 ^ 61;
  bal_sum : zsum (current_weights_ lb) = 0;
  bal_lower : Forall (Z.le (1 - total_weight (endpoints_ lb))) (current_weights_ lb);
  bal_idle i ep : endpoints_ lb !! i = Some ep -> healthy ep = false -> current_weights_ lb !! i = Some 0;
}.

(** The lower bound and the zero sum bound every weight from above. *)
Lemma balanced_upper lb i c :
  balanced lb -> current_weights_ lb !! i = Some c ->
  c <= (len (endpoints_ lb) - 1) * (total_weight (endpoints_ lb) - 1).
Proof.
  intros H Hc. pose proof (zsum_upper _ _ _ _ (bal_lower _ H) Hc) as Hu.
  rewrite (bal_sum _ H) in Hu. destruct (bal_wf _ H) as [Hl _]. unfold len in *. rewrite Hl in Hu. lia.
Qed.

Lemma balanced_small lb : balanced lb -> wrr_small lb.
Proof.
  intros H. pose proof (has_healthy_total _ (bal_wf _ H) (bal_healthy _ H)) as HW.
  pose proof (bal_size _ H) as Hs.
  assert (Hn : 1 <= len (endpoints_ lb)).
  { pose proof (bal_healthy _ H) as Hh. unfold has_healthy in Hh.
    destruct (endpoints_ lb); [inversion Hh|rewrite len_cons; pose proof (len_nonneg l); lia]. }
  split; [|nia]. apply Forall_lookup. intros i c Hc.
  pose proof (balanced_upper lb i c H Hc). pose proof (bal_lower _ H) as Hlow.
  rewrite Forall_lookup in Hlow. specialize (Hlow i c Hc). nia.
Qed.

(** The winner has a positive weight, because the weights add up to the
    total. *)
Lemma balanced_winner_pos lb b c :
  balanced lb -> bump (endpoints_ lb) (current_weights_ lb) !! b = Some c ->
  (forall j ep' c', endpoints_ lb !! j = Some ep' -> healthy ep' = true ->
     bump (endpoints_ lb) (current_weights_ lb) !! j = Some c' -> c' <= c) -> 1 <= c.
Proof.
  intros H Hb Hmax. destruct (decide (1 <= c)) as [|Hneg]; [done|exfalso].
  pose proof (has_healthy_total _ (bal_wf _ H) (bal_healthy _ H)) as HW.
  pose proof (zsum_bump _ _ (proj1 (bal_wf _ H))) as Hz. rewrite (bal_sum _ H) in Hz.
  assert (Hall : Forall (fun x => x <= 0) (bump (endpoints_ lb) (current_weights_ lb))).
  { apply Forall_lookup. intros j x Hx. pose proof Hx as Hx'.
    unfold bump in Hx. apply lookup_zip_with_Some in Hx as (ep & c0 & -> & He & Hc0).
    destruct (healthy ep) eqn:Hh.
    - pose proof (Hmax j ep _ He Hh Hx'). lia.
    - rewrite (bal_idle _ H _ _ He Hh) in Hc0. simplify_eq. unfold share. rewrite Hh. lia. }
  assert (Hle : zsum (bump (endpoints_ lb) (current_weights_ lb)) <= 0).
  { clear -Hall. induction Hall; cbn; lia. }
  lia.
Qed.

Lemma next_balanced lb :
  balanced lb ->
  exists b ep lb', next lb = (Some b, lb') /\ balanced lb' /\
    endpoints_ lb !! b = Some ep /\ healthy ep = true /\
    map share (endpoints_ lb') = map share (endpoints_ lb) /\
    (forall i s c, map share (endpoints_ lb) !! i = Some s -> current_weights_ lb !! i = Some c ->
       current_weights_ lb' !! i =
       Some (c + s - (if decide (i = b) then total_weight (endpoints_ lb) else 0))).
Proof.
  intros H. destruct (next_selects lb (bal_wf _ H) (balanced_small _ H) (bal_healthy _ H))
    as (b & ep & c & E & He & Hh & Hc & Hmax).
  assert (Hpos : 1 <= c) by (eapply balanced_winner_pos; [done|done|]; intros; by eapply Hmax).
  set (W := total_weight (endpoints_ lb)) in *.
  assert (Hlook : forall i s c0, map share (endpoints_ lb) !! i = Some s -> current_weights_ lb !! i = Some c0 ->
    <[b := c - W]> (bump (endpoints_ lb) (current_weights_ lb)) !! i
    = Some (c0 + s - (if decide (i = b) then W else 0))).
  { intros i s c0 Hs Hc0. destruct (decide (i = b)) as [->|Hne].
    - rewrite list_lookup_insert_eq by (by eapply lookup_lt_Some).
      unfold bump in Hc. rewrite lookup_zip_with, Hc0, He in Hc. cbn in Hc.
      rewrite list_lookup_fmap, He in Hs. cbn in Hs. simplify_eq. done.
    - rewrite list_lookup_insert_ne by done. unfold bump. rewrite lookup_zip_with, Hc0.
      rewrite list_lookup_fmap in Hs. destruct (endpoints_ lb !! i); cbn in *; simplify_eq. f_equal. lia. }
  eexists b, ep, _. split; [exact E|]. split; [|split_and!; [done|done|by cbn; apply map_share_alter|done]].
  destruct (bal_wf _ H) as [Hl Hw].
  split; cbn [endpoints_ current_weights_]; rewrite ?total_weight_alter.
  - split; cbn; [by rewrite length_insert, length_alter, length_bump|].
    apply Forall_alter_count; done.
  - unfold has_healthy; cbn. apply Exists_exists. exists (count_request ep). split; [|done].
    eapply list_elem_of_lookup_2. by rewrite list_lookup_alter_eq, He.
  - unfold len. rewrite length_alter. apply (bal_size _ H).
  - rewrite (zsum_insert _ _ _ _ Hc), zsum_bump, (bal_sum _ H) by done. unfold W. lia.
  - apply Forall_insert; [|unfold W; lia]. pose proof (bal_lower _ H) as Hlow.
    apply Forall_lookup. intros i x Hx. unfold bump in Hx.
    apply lookup_zip_with_Some in Hx as (ep' & c0 & -> & He' & Hc0).
    rewrite Forall_lookup in Hlow. specialize (Hlow i c0 Hc0).
    rewrite Forall_lookup in Hw. specialize (Hw i ep' He'). unfold share. destruct (healthy ep'); lia.
  - intros i ep' He' Hh'. destruct (decide (i = b)) as [->|Hne].
    { rewrite list_lookup_alter_eq, He in He'. cbn in He'. simplify_eq. cbn in Hh'. congruence. }
    rewrite list_lookup_alter_ne in He' by done.
    assert (Hs : map share (endpoints_ lb) !! i = Some 0)
      by (rewrite list_lookup_fmap, He'; cbn; unfold share; by rewrite Hh').
    rewrite (Hlook i 0 0 Hs (bal_idle _ H _ _ He' Hh')). by rewrite decide_False.
Qed.

(** How often endpoint [i] was chosen. *)
Definition chosen (i : nat) (ps : list (option nat)) : Z := len (filter (fun p => p = Some i) ps).

Lemma chosen_cons i b ps :
  chosen i (Some b :: ps) = (if decide (i = b) then 1 else 0) + chosen i ps.
Proof.
  unfold chosen. rewrite filter_cons. case_decide as H1; destruct (decide (i = b)); try congruence; [by rewrite len_cons|reflexivity].
Qed.

(** After [k] calls each weight is its gains minus its payments. *)
Lemma picks_balanced k lb :
  balanced lb ->
  exists ps lb', picks k lb = (ps, lb') /\ balanced lb' /\ length ps = k /\
    map share (endpoints_ lb') = map share (endpoints_ lb) /\
    (forall p, p ∈ ps -> exists b ep, p = Some b /\ map share (endpoints_ lb) !! b = Some (share ep) /\
       healthy ep = true) /\
    (forall i s c, map share (endpoints_ lb) !! i = Some s -> current_weights_ lb !! i = Some c ->
       current_weights_ lb' !! i =
       Some (c + Z.of_nat k * s - chosen i ps * total_weight (endpoints_ lb))).
Proof.
  revert lb; induction k as [|k IH]; intros lb H.
  { exists [], lb. split_and!; try done; [set_solver|]. intros i s c _ Hc.
    rewrite Hc. f_equal. change (chosen i []) with 0. lia. }
  destruct (next_balanced lb H) as (b & ep & lb1 & E1 & H1 & He & Hh & Hsh & Hcw).
  destruct (IH lb1 H1) as (ps & lb2 & E2 & H2 & Hlen & Hsh2 & Hall & Hcw2).
  assert (HW : total_weight (endpoints_ lb1) = total_weight (endpoints_ lb))
    by (unfold total_weight; by rewrite Hsh).
  exists (Some b :: ps), lb2. cbn [picks]. rewrite E1, E2. rewrite Hsh in *. split_and!; try done.
  - cbn. by rewrite Hlen.
  - intros p [->|Hp]%elem_of_cons; [|by apply Hall].
    exists b, ep. by rewrite list_lookup_fmap, He.
  - intros i s c Hs Hc. rewrite (Hcw2 i s _ Hs (Hcw i s c Hs Hc)). f_equal.
    rewrite chosen_cons, HW. destruct (decide (i = b)); lia.
Qed.

Lemma make_zero configs i c :
  current_weights_ (WeightedRoundRobin_make configs) !! i = Some c -> c = 0.
Proof. cbn. intros Hc. apply list_lookup_fmap_Some in Hc as (? & ? & ?). done. Qed.

Lemma make_current configs :
  current_weights_ (WeightedRoundRobin_make configs) = replicate (length configs) 0.
Proof. cbn. induction configs; cbn; [done|by f_equal]. Qed.

Lemma make_wf configs :
  Forall (fun cfg => 0 <= uc_weight cfg <= UINT32_MAX) configs -> wrr_wf (WeightedRoundRobin_make configs).
Proof.
  intros Hw. split; cbn; [by rewrite !length_map|]. apply Forall_map. eapply Forall_impl; [done|].
  cbn. unfold UINT32_MAX. intros; lia.
Qed.

Lemma make_balanced configs :
  Exists (fun cfg => uc_healthy cfg = true) configs ->
  Forall (fun cfg => 0 <= uc_weight cfg <= UINT32_MAX) configs ->
  len configs * total_weight (endpoints_ (WeightedRoundRobin_make configs)) <= 2 ^ 61 ->
  balanced (WeightedRoundRobin_make configs).
Proof.
  intros Hh Hw Hs. set (lb := WeightedRoundRobin_make configs).
  assert (Hwf : wrr_wf lb) by (by apply make_wf).
  assert (Hhl : has_healthy lb).
  { unfold has_healthy; cbn. apply Exists_exists in Hh as (cfg & Hin & Hc). apply Exists_exists.
    exists (endpoint_of_config cfg). split; [by apply list_elem_of_fmap_2|done]. }
  pose proof (has_healthy_total lb Hwf Hhl). split; [done|done| | | |].
  - unfold lb, len in *. cbn [WeightedRoundRobin_make endpoints_]. rewrite length_map. apply Hs.
  - unfold lb. rewrite make_current. apply zsum_replicate_0.
  - apply Forall_lookup. intros i c Hc. rewrite (make_zero _ i c Hc). lia.
  - intros i ep He _. destruct (current_weights_ lb !! i) eqn:Hc; [by rewrite (make_zero _ _ _ Hc)|].
    apply lookup_lt_Some in He. apply lookup_ge_None in Hc. destruct Hwf as [Hl _]. lia.
Qed.

(** The account of every endpoint after [k] calls on a new balancer. *)
Lemma picks_make configs k :
  let lb := WeightedRoundRobin_make configs in
  balanced lb ->
  exists ps lb', picks k lb = (ps, lb') /\ balanced lb' /\
    total_weight (endpoints_ lb') = total_weight (endpoints_ lb) /\
    length (endpoints_ lb') = length (endpoints_ lb) /\
    forall i ep, endpoints_ lb !! i = Some ep ->
      current_weights_ lb' !! i = Some (Z.of_nat k * share ep - chosen i ps * total_weight (endpoints_ lb)).
Proof.
  intros lb Hb. destruct (picks_balanced k lb Hb) as (ps & lb' & E & Hb' & _ & Hsh & _ & Hcw).
  exists ps, lb'. split_and!; [done|done| | |].
  - unfold total_weight. by rewrite Hsh.
  - rewrite <- (length_map share), Hsh. apply length_map.
  - intros i ep He. destruct (bal_wf _ Hb) as [Hl _].
    destruct (lookup_lt_is_Some_2 (current_weights_ lb) i) as [c Hc];
      [rewrite Hl; by eapply lookup_lt_Some|].
    rewrite (Hcw i (share ep) c); [|by rewrite list_lookup_fmap, He|done].
    rewrite (make_zero _ _ _ Hc). f_equal.
Qed.

Lemma zsum_zero l : Forall (Z.le 0) l -> zsum l = 0 -> l = replicate (length l) 0.
Proof.
  intros Hl Hz. symmetry. apply zsum_squeeze.
  - clear Hz. induction Hl; cbn; by constructor.
  - by rewrite zsum_replicate_0.
Qed.

(** After a full cycle every account is a non-negative multiple of the total. *)
Lemma cycle_zero lb' W ps (eps : list UpstreamEndpoint) :
  1 <= W -> balanced lb' -> total_weight (endpoints_ lb') = W ->
  length (endpoints_ lb') = length eps ->
  (forall i ep, eps !! i = Some ep -> current_weights_ lb' !! i = Some (W * share ep - chosen i ps * W)) ->
  current_weights_ lb' = replicate (length eps) 0.
Proof.
  intros HW Hb' HW' Hlen Hat. destruct (bal_wf _ Hb') as [Hl' _].
  rewrite <- Hlen, <- Hl'. apply zsum_zero; [|apply (bal_sum _ Hb')].
  pose proof (bal_lower _ Hb') as Hlow. rewrite HW' in Hlow.
  apply Forall_lookup. intros i c Hc. rewrite Forall_lookup in Hlow. pose proof (Hlow i c Hc).
  destruct (lookup_lt_is_Some_2 eps i) as [ep He]; [apply lookup_lt_Some in Hc; lia|].
  rewrite (Hat i ep He) in Hc. injection Hc as <-. clear - HW H.
  set (s := share ep) in *. set (n := chosen i ps) in *.
  assert (0 <= s - n) by nia. nia.
Qed.

(** ** Properties *)

(** (C9) Over one full cycle, as many calls as the weights of the healthy
    endpoints add up to, every healthy endpoint is chosen exactly as often as
    its weight, an unhealthy one never, and the balancer is back in its
    initial state of zero current weights, so the cycle repeats. *)
Theorem wrr_full_cycle (configs : list UpstreamConfig) :
  let lb := WeightedRoundRobin_make configs in
  let W := total_weight (endpoints_ lb) in
  Exists (fun cfg => uc_healthy cfg = true) configs ->
  Forall (fun cfg => 0 <= uc_weight cfg <= UINT32_MAX) configs ->
  len configs * W <= 2 ^ 61 ->
  let '(ps, lb') := picks (Z.to_nat W) lb in
  (forall i ep, endpoints_ lb !! i = Some ep -> chosen i ps = share ep) /\
  current_weights_ lb' = current_weights_ lb.
Proof.
  intros lb W Hh Hw Hs. pose proof (make_balanced configs Hh Hw Hs) as Hb. fold lb in Hb.
  pose proof (has_healthy_total _ (bal_wf _ Hb) (bal_healthy _ Hb)) as HW. fold W in HW.
  destruct (picks_make configs (Z.to_nat W) Hb) as (ps & lb' & E & Hb' & HW' & Hlen & Hat).
  fold lb in E, HW', Hlen, Hat. fold W in Hat, HW'. rewrite Z2Nat.id in Hat by lia. rewrite E.
  pose proof (cycle_zero lb' W ps (endpoints_ lb) HW Hb' HW' Hlen Hat) as Hz. split.
  - intros i ep He. pose proof (Hat i ep He) as Hc. rewrite Hz in Hc.
    apply lookup_replicate_1 in Hc as [Hc _]. nia.
  - rewrite Hz. unfold lb. rewrite make_current. cbn. by rewrite length_map.
Qed.

Definition demo_upstreams : list UpstreamConfig :=
  [mkUpstreamConfig (str "A") (str "127.0.0.1") 1 5 true HTTP1;
   mkUpstreamConfig (str "B") (str "127.0.0.1") 2 3 true HTTP1;
   mkUpstreamConfig (str "X") (str "127.0.0.1") 4 9 false HTTP1;
   mkUpstreamConfig (str "C") (str "127.0.0.1") 3 2 true HTTP1].

Lemma wrr_full_cycle_witness :
  let '(ps, lb') := picks 10 (WeightedRoundRobin_make demo_upstreams) in
  chosen 0 ps = 5 /\ chosen 2 ps = 0 /\ current_weights_ lb' = [0; 0; 0; 0].
Proof.
  assert (H := wrr_full_cycle demo_upstreams
    ltac:(apply Exists_cons_hd; reflexivity)
    ltac:(repeat constructor; vm_compute; discriminate)
    ltac:(vm_compute; discriminate)).
  change (Z.to_nat (total_weight (endpoints_ (WeightedRoundRobin_make demo_upstreams)))) with 10%nat in H.
  destruct (picks 10 (WeightedRoundRobin_make demo_upstreams)) as [ps lb'].
  destruct H as [H1 H2]. split; [|split].
  - exact (H1 0%nat _ eq_refl).
  - exact (H1 2%nat _ eq_refl).
  - exact H2.
Defined.

(** (C31) Smoothness: at any moment, after [k] calls, no endpoint is ahead of
    its exact share [k * weight / W] by one request or more, and none lags it
    by more than the number of other endpoints. *)
Theorem wrr_smooth (configs : list UpstreamConfig) (k : nat) :
  let lb := WeightedRoundRobin_make configs in
  let W := total_weight (endpoints_ lb) in
  Exists (fun cfg => uc_healthy cfg = true) configs ->
  Forall (fun cfg => 0 <= uc_weight cfg <= UINT32_MAX) configs ->
  len configs * W <= 2 ^ 61 ->
  forall i ep, endpoints_ lb !! i = Some ep ->
  let n := chosen i (picks k lb).1 in
  n * W < Z.of_nat k * share ep + W /\
  Z.of_nat k * share ep - n * W <= (len configs - 1) * (W - 1).
Proof.
  intros lb W Hh Hw Hs i ep He. pose proof (make_balanced configs Hh Hw Hs) as Hb. fold lb in Hb.
  destruct (picks_make configs k Hb) as (ps & lb' & E & Hb' & HW' & Hlen & Hat).
  fold lb in E, HW', Hlen, Hat. fold W in Hat, HW'. rewrite E. cbn [fst].
  pose proof (Hat i ep He) as Hc. pose proof (balanced_upper _ _ _ Hb' Hc) as Hu.
  pose proof (bal_lower _ Hb') as Hlow. rewrite Forall_lookup in Hlow. pose proof (Hlow i _ Hc) as Hl.
  assert (Hn : length (endpoints_ lb) = length configs) by apply length_map.
  rewrite HW' in *. unfold len in *. rewrite Hlen, Hn in Hu. cbv zeta. lia.
Qed.

Lemma wrr_smooth_witness :
  chosen 0 (picks 7 (WeightedRoundRobin_make demo_upstreams)).1 * 10 < 7 * 5 + 10.
Proof.
  exact (proj1 (wrr_smooth demo_upstreams 7
    ltac:(apply Exists_cons_hd; reflexivity)
    ltac:(repeat constructor; vm_compute; discriminate)
    ltac:(vm_compute; discriminate) 0%nat _ eq_refl)).
Defined.

(** One call, on every branch.  [nullptr] comes back exactly when no
    endpoint is healthy, and then nothing changes.  Otherwise every healthy
    endpoint first gains its weight, the leftmost one with the largest result
    is returned, it alone pays the total and has its request counter
    incremented, and the sum of the current weights is conserved. *)
Theorem next_functional (lb : WeightedRoundRobin) :
  wrr_wf lb -> wrr_small lb ->
  match next lb with
  | (None, lb') => Forall (fun ep => healthy ep = false) (endpoints_ lb) /\ lb' = lb
  | (Some b, lb') =>
      is_best (endpoints_ lb) (bump (endpoints_ lb) (current_weights_ lb)) (Some b) /\
      endpoints_ lb' = alter count_request b (endpoints_ lb) /\
      current_weights_ lb' =
        alter (fun c => c - total_weight (endpoints_ lb)) b (bump (endpoints_ lb) (current_weights_ lb)) /\
      zsum (current_weights_ lb') = zsum (current_weights_ lb)
  end.
Proof.
  intros Hwf Hsm. destruct (none_or_some_healthy lb) as [Hn|Hh].
  { rewrite next_none by done. done. }
  destruct (next_selects lb Hwf Hsm Hh) as (b & ep & c & -> & He & Hhe & Hc & Hmax).
  cbn [endpoints_ current_weights_]. split_and!.
  - by exists ep, c.
  - done.
  - symmetry. apply list_eq. intros j. destruct (decide (j = b)) as [->|Hj].
    + rewrite list_lookup_alter_eq, Hc, list_lookup_insert_eq by (by eapply lookup_lt_Some). done.
    + by rewrite list_lookup_alter_ne, list_lookup_insert_ne by done.
  - rewrite (zsum_insert _ _ _ _ Hc), zsum_bump by apply Hwf. lia.
Qed.

Lemma next_functional_witness :
  match next (WeightedRoundRobin_make demo_upstreams) with
  | (Some b, lb') => b = 0%nat /\ zsum (current_weights_ lb') = 0
  | (None, _) => False
  end.
Proof.
  assert (Hwf : wrr_wf (WeightedRoundRobin_make demo_upstreams))
    by (apply make_wf; repeat constructor; vm_compute; discriminate).
  assert (Hsm : wrr_small (WeightedRoundRobin_make demo_upstreams))
    by (split; [repeat constructor|]; vm_compute; discriminate).
  assert (H := next_functional _ Hwf Hsm).
  assert (E : (next (WeightedRoundRobin_make demo_upstreams)).1 = Some 0%nat) by (vm_compute; reflexivity).
  destruct (next (WeightedRoundRobin_make demo_upstreams)) as [[b|] lb']; [|discriminate].
  injection E as ->. split; [reflexivity|exact (proj2 (proj2 (proj2 H)))].
Defined.

(** A drained endpoint gets no traffic: after [mark_unhealthy(name)] no
    call of [next] returns an endpoint of that name, whatever the weights
    were, until it is marked healthy again. *)
Theorem mark_unhealthy_excludes (lb : WeightedRoundRobin) (n : bytes) (b : nat) (ep : UpstreamEndpoint) :
  wrr_wf lb -> wrr_small (mark_unhealthy n lb) ->
  (next (mark_unhealthy n lb)).1 = Some b -> endpoints_ lb !! b = Some ep -> name ep <> n.
Proof.
  intros Hwf Hsm E He Hn.
  assert (Hwf' : wrr_wf (mark_unhealthy n lb)).
  { destruct Hwf as [Hl Hw]. split; cbn; [by rewrite length_map|]. apply Forall_map.
    eapply Forall_impl; [done|]. intros x Hx. cbn. by case_bool_decide. }
  assert (Hm : endpoints_ (mark_unhealthy n lb) !! b = Some (set_health false ep)).
  { cbn. rewrite list_lookup_fmap, He. cbn. by rewrite bool_decide_eq_true_2. }
  destruct (none_or_some_healthy (mark_unhealthy n lb)) as [Hnone|Hh].
  { rewrite next_none in E by done. done. }
  destruct (next_selects _ Hwf' Hsm Hh) as (b' & ep' & c & E' & He' & Hhe & _).
  rewrite E' in E. injection E as ->. rewrite Hm in He'. injection He' as <-. done.
Qed.

Lemma mark_unhealthy_excludes_witness :
  (next (mark_unhealthy (str "A") (WeightedRoundRobin_make demo_upstreams))).1 = Some 1%nat /\
  str "B" <> str "A".
Proof.
  split; [vm_compute; reflexivity|].
  apply (mark_unhealthy_excludes (WeightedRoundRobin_make demo_upstreams) (str "A") 1
           (endpoint_of_config (mkUpstreamConfig (str "B") (str "127.0.0.1") 2 3 true HTTP1))).
  - apply make_wf. repeat constructor; vm_compute; discriminate.
  - split; [repeat constructor|]; vm_compute; discriminate.
  - vm_compute. reflexivity.
  - reflexivity.
Defined.
