(* ===== verification/ConfigProofs.v ===== *)
(** * What a loaded configuration guarantees

    The exact condition of validation, the ranges of every number that any
    file or command line can produce, and the round trips of the two input
    forms. *)

From stdpp Require Import prelude.
From S2P Require Import Prelude Result CxxString Config ConfigLoad LoadBalancer LoadBalancerProofs.

(** ** Validation *)

Record upstream_valid (u : UpstreamConfig) : Prop := {
  uv_addr : uc_addr u <> [];
  uv_port : uc_port u <> 0;
  uv_weight : uc_weight u <> 0;
}.

Record config_valid (fs : Files) (c : ProxyConfig) : Prop := {
  cv_upstreams : upstreams c <> [];
  cv_each : Forall upstream_valid (upstreams c);
  cv_level : log_level (log c) ∈ [str "trace"; str "debug"; str "info"; str "warn"; str "error"];
  cv_format : log_format (log c) ∈ [str "json"; str "text"];
  cv_files : tls_enabled (tls c) = true ->
    (cert_file (tls c) <> [] /\ is_regular fs (cert_file (tls c)) = true) /\
    (key_file (tls c) <> [] /\ is_regular fs (key_file (tls c)) = true);
  cv_version : min_version (tls c) ∈ [str "tls1.2"; str "tls1.3"];
}.

Lemma len_eq0 {A} (l : list A) : (len l =? 0) = true <-> l = [].
Proof. rewrite Z.eqb_eq. split; [apply len_0_nil|by intros ->]. Qed.

Lemma bad_upstream_spec u : bad_upstream u = false <-> upstream_valid u.
Proof.
  unfold bad_upstream. split.
  - intros E. zbool. split; [|done..]. by intros E0%len_eq0%Z.eqb_eq.
  - intros [Ha Hp Hw]. rewrite !orb_false_iff, !Z.eqb_neq. split_and!; try done.
    intros E. by apply Ha, len_0_nil.
Qed.

Lemma existsb_forall {A} (f : A -> bool) (P : A -> Prop) l :
  (forall x, f x = false <-> P x) -> existsb f l = false <-> Forall P l.
Proof.
  intros Hf. induction l as [|x l IH]; cbn; [split; [constructor|done]|].
  rewrite orb_false_iff, Forall_cons, Hf, IH. done.
Qed.

Lemma existsb_eq_elem (x : bytes) l : existsb (fun n => bool_decide (x = n)) l = true <-> x ∈ l.
Proof.
  rewrite existsb_exists. setoid_rewrite bool_decide_eq_true. rewrite list_elem_of_In. naive_solver.
Qed.

Lemma file_exists_spec fs p : file_exists fs p = true <-> p <> [] /\ is_regular fs p = true.
Proof.
  unfold file_exists. destruct (len p =? 0) eqn:E; [apply len_eq0 in E; subst; naive_solver|].
  split; [|by intros [_ ?]]. intros H. split; [|done]. intros ->. done.
Qed.

Lemma two_choices (x a b : bytes) :
  bool_decide (x <> a) && bool_decide (x <> b) = false <-> x ∈ [a; b].
Proof.
  rewrite andb_false_iff, !bool_decide_eq_false, !elem_of_cons. split.
  - intros [H|H]; apply dec_stable in H; auto.
  - intros [->|[->|H]]; [left|right|by apply elem_of_nil in H]; intros Hn; by apply Hn.
Qed.

Lemma config_validate_spec fs c : config_valid fs c <-> config_validate fs c = Ok c.
Proof.
  unfold config_validate. split.
  - intros [Hu He Hl Hf Hfi Hv]. destruct (len (upstreams c) =? 0) eqn:E; [by apply len_eq0 in E|].
    apply existsb_eq_elem in Hl. unfold known_level. rewrite Hl. cbn [negb].
    apply two_choices in Hf, Hv. rewrite Hf, Hv.
    apply (existsb_forall bad_upstream _ _ bad_upstream_spec) in He. rewrite He.
    destruct (tls_enabled (tls c)); cbn [andb]; [|done]. destruct Hfi as [H1 H2]; [done|].
    apply file_exists_spec in H1, H2. rewrite H1, H2. done.
  - intros E. repeat (dmatch_in E; [done|]). zbool.
    split.
    + intros H. by apply len_eq0 in H; zbool.
    + by apply (existsb_forall bad_upstream _ _ bad_upstream_spec).
    + by apply existsb_eq_elem.
    + by apply two_choices.
    + intros Ht. rewrite Ht in *. cbn [andb] in *.
      repeat match goal with H : _ || _ = false |- _ => apply orb_false_iff in H as [? ?] end.
      repeat match goal with H : negb _ = false |- _ => apply negb_false_iff in H end.
      split; by apply file_exists_spec.
    + by apply two_choices.
Qed.

(** ** Ranges *)

Definition port_ok (p : Z) : Prop := 1 <= p <= 65535.
Definition u32_ok (n : Z) : Prop := 0 <= n <= UINT32_MAX.

Record upstream_range (u : UpstreamConfig) : Prop := {
  ur_port : 0 <= uc_port u <= 65535;
  ur_weight : u32_ok (uc_weight u);
}.

Record config_range (c : ProxyConfig) : Prop := {
  cr_listen : port_ok (listen_port c);
  cr_tls : port_ok (tls_port c);
  cr_workers : u32_ok (worker_threads c);
  cr_pool : u32_ok (max_conns_per_upstream (pool c)) /\ u32_ok (connect_timeout_ms (pool c)) /\
            u32_ok (idle_timeout_ms (pool c)) /\ u32_ok (max_keepalive (pool c));
  cr_upstreams : Forall upstream_range (upstreams c);
}.

Lemma config_range_default : config_range ProxyConfig_default.
Proof. split; unfold port_ok, u32_ok, UINT32_MAX; cbn; try lia. constructor. Qed.

Lemma upstream_range_default : upstream_range UpstreamConfig_default.
Proof. split; unfold u32_ok, UINT32_MAX; cbn; lia. Qed.

Lemma parse_u32_range v f n : parse_u32 v f = Ok n -> u32_ok n.
Proof.
  unfold parse_u32. destruct (whole_number _ _) as [m|] eqn:E; [|done]. intros [= <-]. by apply whole_number_range in E.
Qed.

Lemma parse_port_range v f n : parse_port v f = Ok n -> port_ok n.
Proof.
  unfold parse_port. destruct (parse_u32 v f) as [m|e] eqn:E; [|done]. apply parse_u32_range in E.
  destruct (_ || _) eqn:Eb; [done|]. intros [= <-]. zbool. unfold port_ok, u32_ok in *. lia.
Qed.

Lemma parse_upstream_range s u : parse_upstream_cli s = Ok u -> upstream_range u.
Proof.
  unfold parse_upstream_cli, parse_weight_suffix. intros E. repeat (dmatch_in E; try done); simplify_eq;
    repeat match goal with H : parse_port _ _ = Ok _ |- _ => apply parse_port_range in H
                         | H : parse_u32 _ _ = Ok _ |- _ => apply parse_u32_range in H end;
    split; cbn; unfold port_ok, u32_ok, UINT32_MAX in *; lia.
Qed.

Lemma on_upstream_range f c :
  (forall u, upstream_range u -> upstream_range (f u)) -> config_range c -> config_range (on_upstream f c).
Proof.
  intros Hf [H1 H2 H3 H4 H5]. split; try done. cbn. unfold update_last.
  destruct (last (upstreams c)) as [u|] eqn:E; [|done]. apply last_Some in E as [l El]. rewrite El in H5 |- *.
  rewrite removelast_last. apply Forall_app in H5 as [Hl Hu]. apply Forall_app. split; [done|].
  rewrite Forall_singleton in *. by apply Hf.
Qed.

Lemma assign_range {A} (r : Result A) f (P : A -> Prop) c' :
  (forall a, r = Ok a -> P a) -> (forall a, P a -> config_range (f a)) -> assign r f = Ok c' -> config_range c'.
Proof. intros H1 H2. unfold assign, map_ok. destruct r as [a|e]; [|done]. intros [= <-]. apply H2. by apply H1. Qed.

Lemma assign_port_range v k f c' :
  (forall p, port_ok p -> config_range (f p)) -> assign (parse_port v k) f = Ok c' -> config_range c'.
Proof. apply assign_range. intros a. apply parse_port_range. Qed.

Lemma assign_u32_range v k f c' :
  (forall n, u32_ok n -> config_range (f n)) -> assign (parse_u32 v k) f = Ok c' -> config_range c'.
Proof. apply assign_range. intros a. apply parse_u32_range. Qed.

Lemma assign_upstream_cli_range v f c' :
  (forall u, upstream_range u -> config_range (f u)) -> assign (parse_upstream_cli v) f = Ok c' -> config_range c'.
Proof. apply assign_range. intros a. apply parse_upstream_range. Qed.

(** The chains of key comparisons. *)
Ltac key_cases := repeat match goal with |- context [is_key ?a ?b] => destruct (is_key a b) end.

Lemma assign_key_range sec k v c c' : config_range c -> assign_key sec k v c = Ok c' -> config_range c'.
Proof.
  intros Hc. pose proof Hc as [H1 H2 H3 (P1 & P2 & P3 & P4) H5]. destruct sec; cbn [assign_key]; [by intros [= <-]|..].
  - unfold assign_proxy. key_cases; first [apply assign_port_range | apply assign_u32_range | intros [= <-]]; try intros x Hx; by split.
  - unfold assign_tls. key_cases; intros [= <-]; by split.
  - unfold assign_pool. key_cases; first [apply assign_u32_range | intros [= <-]]; try intros x Hx; by split.
  - unfold assign_log. key_cases; intros [= <-]; by split.
  - unfold assign_upstream. key_cases; cbn [andb]; try destruct (bool_decide _);
      first [apply assign_port_range; intros x Hx | apply assign_u32_range; intros x Hx | intros [= <-]]; try done;
      apply on_upstream_range; try done; intros u [Hp Hw]; split; cbn; unfold port_ok in *; (done || lia).
Qed.

Lemma config_line_range n l sec c sec' c' :
  config_range c -> config_line n l sec c = Ok (sec', c') -> config_range c'.
Proof.
  intros Hc. unfold config_line. set (t := trim _). destruct (len t =? 0); [by intros [= _ <-]|].
  repeat (match goal with |- context [bool_decide (t = ?s)] => destruct (bool_decide (t = s)) end; [intros [= _ <-]; try done|]).
  - destruct Hc as [H1 H2 H3 H4 H5]. split; try done. cbn. apply Forall_app. split; [done|].
    apply Forall_singleton, upstream_range_default.
  - destruct (find_char EQUALS t) as [eq|]; [|done]. unfold map_ok.
    destruct (assign_key _ _ _ c) as [c1|e] eqn:E; [|done]. intros [= _ <-]. by eapply assign_key_range.
Qed.

Lemma config_lines_range ls : forall n sec c c', config_range c -> config_lines n ls sec c = Ok c' -> config_range c'.
Proof.
  induction ls as [|l ls IH]; intros n sec c c' Hc; cbn [config_lines]; [by intros [= <-]|].
  destruct (config_line (n + 1) l sec c) as [[s1 c1]|e] eqn:E; [|done]. apply IH. by eapply config_line_range.
Qed.

Lemma config_from_file_range fs p c : config_from_file fs p = Ok c -> config_range c.
Proof.
  unfold config_from_file. destruct (read_file fs p) as [t|]; [apply config_lines_range, config_range_default|].
  destruct (_ || _); [|done]. intros [= <-]. apply config_range_default.
Qed.

Lemma apply_option_range fs a v c c' : config_range c -> apply_option fs a v c = Ok c' -> config_range c'.
Proof.
  intros Hc. pose proof Hc as [H1 H2 H3 H4 H5]. unfold apply_option.
  destruct (is_key a "--config"); [apply config_from_file_range|].
  key_cases; first [apply assign_port_range | apply assign_u32_range | apply assign_upstream_cli_range | intros [= <-]];
    try intros x Hx; split; try done. cbn. apply Forall_app. split; [done|by apply Forall_singleton].
Qed.

Lemma config_apply_cli_range fs : forall n args c c', (length args <= n)%nat ->
  config_range c -> config_apply_cli fs c args = Ok c' -> config_range c'.
Proof.
  induction n as [|n IH]; intros args c c' Hn Hc; (destruct args as [|a rest]; cbn [config_apply_cli]; [by intros [= <-]|]);
    cbn in Hn; [lia|].
  destruct (takes_value a).
  - destruct rest as [|v rest]; [done|]. destruct (apply_option fs a v c) as [c1|e] eqn:E; [|done].
    apply IH; [cbn in Hn; lia|]. by eapply apply_option_range.
  - destruct (bool_decide _); apply IH; try lia; try done. by destruct Hc; split.
Qed.

(** ** Writing a configuration *)

Definition kv (k : String.string) (v : bytes) : bytes := str k ++ str " = " ++ v.
Arguments kv k%_string_scope v.

Definition quoted (s : bytes) : bytes := [QUOTE] ++ s ++ [QUOTE].

Definition alpn_text (a : list bytes) : bytes := str "[" ++ concat (map (fun p => p ++ str ",") a) ++ str "]".

Definition upstream_lines (u : UpstreamConfig) : list bytes :=
  [str "[[upstream]]"; kv "name" (quoted (uc_name u)); kv "addr" (quoted (uc_addr u)); kv "port" (to_string (uc_port u));
   kv "weight" (to_string (uc_weight u)); kv "healthy" (if uc_healthy u then str "true" else str "false");
   kv "protocol" (match uc_proto u with HTTP1 => quoted (str "http1") | H2C => quoted (str "h2c") end)].

Definition config_text_lines (c : ProxyConfig) : list bytes :=
  [str "[proxy]"; kv "listen_addr" (quoted (listen_addr c)); kv "listen_port" (to_string (listen_port c));
   kv "tls_port" (to_string (tls_port c)); kv "worker_threads" (to_string (worker_threads c));
   str "[tls]"; kv "cert_file" (quoted (cert_file (tls c))); kv "key_file" (quoted (key_file (tls c)));
   kv "min_version" (quoted (min_version (tls c))); kv "alpn" (alpn_text (alpn (tls c)));
   str "[pool]"; kv "max_connections_per_upstream" (to_string (max_conns_per_upstream (pool c)));
   kv "connect_timeout_ms" (to_string (connect_timeout_ms (pool c)));
   kv "idle_timeout_ms" (to_string (idle_timeout_ms (pool c))); kv "max_keepalive" (to_string (max_keepalive (pool c)));
   str "[log]"; kv "level" (quoted (log_level (log c))); kv "format" (quoted (log_format (log c)));
   kv "file" (quoted (log_file (log c)))]
  ++ concat (map upstream_lines (upstreams c)).

Definition config_text (c : ProxyConfig) : bytes := concat (map (fun l => l ++ [LF]) (config_text_lines c)).

(** ** Trimming *)

Definition edge_ok (v : bytes) : Prop :=
  (exists a v', v = a :: v' /\ isspace a = false) /\ (exists v' z, v = v' ++ [z] /\ isspace z = false).

Lemma drop_space_all p s : forallb isspace p = true -> drop_space (p ++ s) = drop_space s.
Proof. induction p as [|c p IH]; cbn; [done|]. intros H. zbool. by rewrite H, IH. Qed.

Lemma trim_sandwich p v q : forallb isspace p = true -> forallb isspace q = true -> edge_ok v -> trim (p ++ v ++ q) = v.
Proof.
  intros Hp Hq [(a & v1 & E1 & Ha) (v2 & z & E2 & Hz)]. unfold trim. rewrite drop_space_all by done.
  assert (D1 : drop_space (v ++ q) = v ++ q) by (rewrite E1; cbn; by rewrite Ha). rewrite D1, reverse_app.
  rewrite drop_space_all.
  - rewrite E2, reverse_snoc. cbn [drop_space]. by rewrite Hz, reverse_cons, reverse_involutive.
  - rewrite forallb_forall in *. intros x Hx. apply Hq. apply list_elem_of_In. apply list_elem_of_In in Hx. by rewrite elem_of_reverse in Hx.
Qed.

Lemma trim_edge v : edge_ok v -> trim v = v.
Proof. intros Hv. pose proof (trim_sandwich [] v [] eq_refl eq_refl Hv) as E. by rewrite app_nil_r in E. Qed.

(** What may stand behind the equals sign. *)
Record value_text (v : bytes) : Prop := {
  vt_edge : edge_ok v;
  vt_hash : HASH ∉ v;
  vt_lf : LF ∉ v;
}.

Definition good_key (k : bytes) : Prop := edge_ok k /\ (HASH ∉ k) /\ (LF ∉ k) /\ (EQUALS ∉ k).

Lemma kv_edge k v : good_key (str k) -> value_text v -> edge_ok (kv k v).
Proof.
  intros [[(a & k1 & E1 & Ha) _] _] [[_ (v2 & z & E2 & Hz)] _ _]. unfold kv. rewrite E1, E2. split.
  - eexists a, _. split; [reflexivity|done].
  - exists ((a :: k1) ++ str " = " ++ v2), z. by rewrite <- !app_assoc.
Qed.

Lemma config_line_kv n k v sec c :
  good_key (str k) -> value_text v ->
  config_line n (kv k v) sec c = map_ok (assign_key sec (str k) v c) (fun c => (sec, c)).
Proof.
  intros Hk Hv. pose proof (kv_edge k v Hk Hv) as He. unfold config_line. destruct Hk as (Hke & Hkh & _ & Hkq).
  destruct Hv as [Hve Hvh _].
  assert (Hh : find_char HASH (kv k v) = None).
  { apply find_sub_absent. unfold kv. rewrite !not_elem_of_app. split_and!; try done. apply (bool_decide_unpack _). by vm_compute. }
  rewrite Hh, (trim_edge _ He).
  assert (Hq : EQUALS ∈ kv k v) by (unfold kv; rewrite !elem_of_app; right; left; right; by left).
  destruct (len (kv k v) =? 0) eqn:E0; [apply len_eq0 in E0; rewrite E0 in Hq; by apply elem_of_nil in Hq|].
  assert (Hhdr : forall s, EQUALS ∉ str s -> bool_decide (kv k v = str s) = false)
    by (intros s Hs; apply bool_decide_eq_false; intros E; by rewrite E in Hq).
  rewrite !Hhdr by (apply (bool_decide_unpack _); by vm_compute).
  assert (Hf : find_char EQUALS (kv k v) = Some (length (str k ++ [SP]))).
  { replace (kv k v) with ((str k ++ [SP]) ++ [EQUALS] ++ SP :: v) by (unfold kv; by rewrite <- app_assoc).
    apply (find_sub_first EQUALS []). rewrite not_elem_of_app. split; [done|]. apply (bool_decide_unpack _). by vm_compute. }
  rewrite Hf. replace (kv k v) with ((str k ++ [SP]) ++ EQUALS :: SP :: v) by (unfold kv; by rewrite <- app_assoc).
  change (substr ?s 0 ?m) with (take m s). rewrite take_app_length, <- drop_drop, drop_app_length.
  change (drop 1 (EQUALS :: SP :: v)) with ([SP] ++ v).
  replace (trim (str k ++ [SP])) with (str k) by (symmetry; by apply (trim_sandwich [] (str k) [SP])).
  pose proof (trim_sandwich [SP] v [] eq_refl eq_refl Hve) as Ev. rewrite app_nil_r in Ev. by rewrite Ev.
Qed.

Lemma lines_kv n k v ls sec c c' :
  good_key (str k) -> value_text v -> assign_key sec (str k) v c = Ok c' ->
  config_lines n (kv k v :: ls) sec c = config_lines (n + 1) ls sec c'.
Proof. intros Hk Hv E. cbn [config_lines]. rewrite config_line_kv, E by done. done. Qed.

(** The five headers. *)
Lemma lines_proxy n ls sec c : config_lines n (str "[proxy]" :: ls) sec c = config_lines (n + 1) ls Proxy c.
Proof. reflexivity. Qed.
Lemma lines_tls n ls sec c : config_lines n (str "[tls]" :: ls) sec c = config_lines (n + 1) ls TLS c.
Proof. reflexivity. Qed.
Lemma lines_pool n ls sec c : config_lines n (str "[pool]" :: ls) sec c = config_lines (n + 1) ls Pool c.
Proof. reflexivity. Qed.
Lemma lines_log n ls sec c : config_lines n (str "[log]" :: ls) sec c = config_lines (n + 1) ls Log c.
Proof. reflexivity. Qed.
Lemma lines_upstream n ls sec c l :
  config_lines n (str "[[upstream]]" :: ls) sec (set_upstreams l c) =
  config_lines (n + 1) ls Upstream (set_upstreams (l ++ [UpstreamConfig_default]) c).
Proof. reflexivity. Qed.

(** ** The values *)

Lemma edge_quoted s : edge_ok (quoted s).
Proof. split; [by eexists QUOTE, _|]. exists ([QUOTE] ++ s), QUOTE. split; [|done]. unfold quoted. by rewrite app_assoc. Qed.

Definition plain_text (s : bytes) : Prop := (HASH ∉ s) /\ (LF ∉ s).

Lemma quoted_value s : plain_text s -> value_text (quoted s).
Proof.
  intros [Hh Hl]. split; [apply edge_quoted|..]; unfold quoted; rewrite !not_elem_of_app; split_and!; try done;
    apply (bool_decide_unpack _); by vm_compute.
Qed.

Lemma parse_quoted s : parse_string (quoted s) = s.
Proof.
  unfold parse_string. rewrite trim_edge by apply edge_quoted. unfold quoted. rewrite app_assoc, last_snoc.
  rewrite !len_app. change (len [QUOTE]) with 1. pose proof (len_nonneg s). destruct (Z.leb_spec 2 (1 + len s + 1)); [|lia].
  cbn [app head andb]. rewrite !bool_decide_eq_true_2 by done. cbn [andb]. unfold substr. cbn [drop length].
  rewrite length_app. cbn [length]. replace (S (length s + 1) - 2)%nat with (length s) by lia. apply take_app_length.
Qed.

Lemma digits_text_char c : isdigit c = true -> (negb (isspace c || Byte.eqb c HASH || Byte.eqb c LF)) = true.
Proof. apply (byte_implb isdigit (fun c => negb (isspace c || Byte.eqb c HASH || Byte.eqb c LF))). by vm_compute. Qed.

Lemma number_value z : 0 <= z -> value_text (to_string z).
Proof.
  intros Hz. assert (Hd : forall c, c ∈ to_string z -> isspace c = false /\ c <> HASH /\ c <> LF).
  { intros c Hc. apply to_string_digit, digits_text_char in Hc; [|done]. zbool. by rewrite !byte_eqb_neq in *. }
  assert (Hne : to_string z <> []).
  { unfold to_string. destruct (Z.ltb_spec z 0); [done|]. apply (format_nat_spec 10 z); lia. }
  split.
  - split.
    + destruct (to_string z) as [|a v] eqn:E; [done|]. exists a, v. split; [done|]. apply Hd. by left.
    + destruct (exists_last Hne) as (v & a & E). exists v, a. split; [done|]. apply Hd. rewrite E. apply elem_of_app. right. by left.
  - intros Hc. by apply Hd in Hc as (_ & ? & _).
  - intros Hc. by apply Hd in Hc as (_ & _ & ?).
Qed.

Lemma parse_number z f : u32_ok z -> parse_u32 (to_string z) f = Ok z.
Proof.
  intros Hz. unfold parse_u32. rewrite trim_edge by (apply number_value; apply Hz).
  unfold to_string. destruct (Z.ltb_spec z 0); [unfold u32_ok in *; lia|]. by rewrite whole_number_format by (apply Hz || lia).
Qed.

Lemma parse_port_number z f : port_ok z -> parse_port (to_string z) f = Ok z.
Proof.
  intros Hz. unfold parse_port, port_ok in *. rewrite parse_number by (unfold u32_ok, UINT32_MAX; lia).
  destruct (Z.eqb_spec z 0); [lia|]. destruct (Z.ltb_spec 65535 z); [lia|]. done.
Qed.

(** ** Whole files *)

Lemma getlines_lines ls cur :
  Forall (fun l => LF ∉ l) ls -> LF ∉ cur ->
  getlines cur (concat (map (fun l => l ++ [LF]) ls)) = match ls with [] => getlines cur [] | l :: ls' => (cur ++ l) :: ls' end.
Proof.
  intros H. revert cur; induction H as [|l ls Hl Hls IH]; intros cur Hc; [done|].
  cbn [map concat]. rewrite <- app_assoc. clear Hc. revert cur; induction l as [|c l IHl]; intros cur.
  - cbn. rewrite app_nil_r, IH by (intros Hn; by apply elem_of_nil in Hn). by destruct ls.
  - cbn [app getlines]. replace (Byte.eqb c LF) with false by (symmetry; apply byte_eqb_neq; set_solver).
    rewrite IHl by set_solver. by rewrite <- app_assoc.
Qed.

(** The texts a file can carry. *)
Record upstream_text_ok (u : UpstreamConfig) : Prop := {
  ut_name : plain_text (uc_name u);
  ut_addr : plain_text (uc_addr u);
  ut_port : port_ok (uc_port u);
  ut_weight : u32_ok (uc_weight u);
}.

(** The ALPN protocols that the proxy speaks. *)
Definition protocols : list bytes := [str "h2"; str "http/1.1"].

Record config_text_ok (c : ProxyConfig) : Prop := {
  ct_range : config_range c;
  ct_addr : plain_text (listen_addr c);
  ct_tls : plain_text (cert_file (tls c)) /\ plain_text (key_file (tls c)) /\ plain_text (min_version (tls c));
  ct_alpn : Forall (fun p => p ∈ protocols) (alpn (tls c));
  ct_log : plain_text (log_level (log c)) /\ plain_text (log_format (log c)) /\ plain_text (log_file (log c));
  ct_upstreams : Forall upstream_text_ok (upstreams c);
}.

Lemma good_key_check k :
  (match k with a :: _ => negb (isspace a) | [] => false end) && (match reverse k with a :: _ => negb (isspace a) | [] => false end)
  && forallb (fun c => negb (Byte.eqb c HASH || Byte.eqb c LF || Byte.eqb c EQUALS)) k = true -> good_key k.
Proof.
  intros H. zbool. rewrite forallb_forall in H0.
  assert (Hc : forall c, c ∈ k -> c <> HASH /\ c <> LF /\ c <> EQUALS).
  { intros c Hc%list_elem_of_In%H0. zbool. by rewrite !byte_eqb_neq in *. }
  split_and!; [split| | |]; try (intros Hi; by apply Hc in Hi as (? & ? & ?)).
  - destruct k as [|a k]; [done|]. exists a, k. split; [done|]. by zbool.
  - destruct (reverse k) as [|a r] eqn:E; [done|]. exists (reverse r), a. split; [|by zbool].
    by rewrite <- (reverse_involutive k), E, reverse_cons.
Qed.

Lemma update_last_snoc f l u : update_last f (l ++ [u]) = l ++ [f u].
Proof. unfold update_last. by rewrite last_snoc, removelast_last. Qed.

Lemma on_upstream_snoc f l u c : on_upstream f (set_upstreams (l ++ [u]) c) = set_upstreams (l ++ [f u]) c.
Proof. unfold on_upstream. cbn. by rewrite update_last_snoc. Qed.

(** Decide the comparisons of a known key. *)
Ltac known_key :=
  repeat match goal with |- context [is_key ?a ?b] =>
    let r := eval vm_compute in (is_key a b) in change (is_key a b) with r; cbv iota end.

(** Read one line of the form [key = value]. *)
Ltac read_kv :=
  erewrite lines_kv;
  [|apply good_key_check; vm_compute; reflexivity
   |first [assumption | apply quoted_value; assumption | apply number_value; unfold port_ok, u32_ok in *; lia]
   |cbn [assign_key]; unfold assign_proxy, assign_tls, assign_pool, assign_log, assign_upstream; known_key;
    rewrite ?parse_quoted, ?parse_port_number, ?parse_number by assumption; unfold assign, map_ok;
    rewrite ?on_upstream_snoc; reflexivity].

(** Searching the list of protocols. *)
Lemma alpn_search pat a :
  pat ∈ protocols -> Forall (fun p => p ∈ protocols) a ->
  find_sub pat (concat (map (fun p => p ++ str ",") a) ++ str "]") <> None <-> pat ∈ a.
Proof.
  assert (Hskip : forall p q s, p ∈ protocols -> q ∈ protocols -> p <> q ->
    find_sub p ((q ++ str ",") ++ s) = Nat.add (length (q ++ str ",")) <$> find_sub p s).
  { intros p q s Hp Hq Hne. apply find_sub_behind. intros j Hj. unfold protocols in *.
    rewrite !elem_of_cons, elem_of_nil in Hp, Hq. destruct Hp as [->|[->|[]]], Hq as [->|[->|[]]]; try done;
      repeat (destruct j as [|j]; [reflexivity|]); vm_compute in Hj; lia. }
  intros Hp Ha. induction Ha as [|q a Hq _ IH]; cbn [map concat app].
  - split; [|intros Hn; by apply elem_of_nil in Hn]. unfold protocols in Hp.
    repeat (apply elem_of_cons in Hp as [->|Hp]; [done|]). by apply elem_of_nil in Hp.
  - rewrite <- app_assoc. rewrite elem_of_cons. destruct (decide (pat = q)) as [->|Hne].
    + rewrite <- app_assoc, find_sub_here. split; [by left|done].
    + rewrite Hskip by done. destruct (find_sub pat _) eqn:E.
      * split; [|done]. intros _. right. by apply IH.
      * split; [done|]. intros [?|Hin]; [done|]. by apply IH in Hin.
Qed.

(** What becomes of a list of protocols: each is there at most once, [h2]
    first. *)
Definition alpn_loaded (a : list bytes) : list bytes := filter (fun p => p ∈ a) protocols.

Lemma alpn_value a : Forall (fun p => p ∈ protocols) a ->
  value_text (alpn_text a) /\ parse_alpn (alpn_text a) = alpn_loaded a.
Proof.
  intros Ha. assert (Hfind : forall p, p ∈ protocols -> find_sub p (alpn_text a) <> None <-> p ∈ a).
  { intros p Hp. rewrite <- (alpn_search p a Hp Ha). unfold alpn_text. rewrite find_sub_behind.
    - destruct (find_sub p _); cbn; by split.
    - intros j Hj. destruct j; [|vm_compute in Hj; lia]. unfold protocols in Hp. rewrite !elem_of_cons, elem_of_nil in Hp.
      by destruct Hp as [->|[->|[]]]. }
  assert (Hchars : forall x, bool_decide (x ∉ str "[h2,http/1.1]") = true -> x ∉ alpn_text a).
  { intros x Hx%bool_decide_eq_true.
    assert (Hsub : forall piece, bool_decide (Forall (fun y => y ∈ str "[h2,http/1.1]") piece) = true -> x ∉ piece).
    { intros piece Hp%bool_decide_eq_true Hin. rewrite Forall_forall in Hp. by apply Hx, Hp. }
    unfold alpn_text. rewrite !not_elem_of_app. split_and!; [by apply Hsub; vm_compute| |by apply Hsub; vm_compute].
    clear Hfind. induction Ha as [|p a Hp _ IH]; cbn; [apply not_elem_of_nil|].
    rewrite !not_elem_of_app. split; [|done]. unfold protocols in Hp. rewrite !elem_of_cons, elem_of_nil in Hp.
    destruct Hp as [->|[->|[]]]; split; by apply Hsub; vm_compute. }
  split.
  - split; [|by apply Hchars; vm_compute|by apply Hchars; vm_compute]. split.
    + eexists Byte.x5b, _. by split.
    + eexists (str "[" ++ _), Byte.x5d. split; [|done]. unfold alpn_text. by rewrite <- app_assoc.
  - unfold parse_alpn, alpn_loaded, protocols. rewrite !filter_cons, filter_nil.
    pose proof (Hfind (str "h2") ltac:(left)) as H1. pose proof (Hfind (str "http/1.1") ltac:(right; left)) as H2.
    repeat case_decide; repeat case_bool_decide; tauto.
Qed.

Lemma healthy_value (b : bool) : value_text (if b then str "true" else str "false") /\
  parse_bool (if b then str "true" else str "false") = b.
Proof.
  destruct b; (split; [|reflexivity]);
    [assert (G : good_key (str "true")) by (by apply good_key_check)|assert (G : good_key (str "false")) by (by apply good_key_check)];
    destruct G as (? & ? & ? & _); by split.
Qed.

(** The lines of one upstream append it. *)
Lemma upstream_lines_read u n ls sec c l :
  upstream_text_ok u ->
  exists n', config_lines n (upstream_lines u ++ ls) sec (set_upstreams l c) =
             config_lines n' ls Upstream (set_upstreams (l ++ [u]) c).
Proof.
  intros [Hn Ha Hp Hw]. eexists. unfold upstream_lines. cbn [app].
  destruct (healthy_value (uc_healthy u)) as [Hv Hb].
  rewrite lines_upstream.
  unfold UpstreamConfig_default. do 5 read_kv.
  destruct u as [nm ad po we he pr]. cbn [uc_name uc_addr uc_port uc_weight uc_healthy uc_proto] in *. rewrite Hb.
  assert (P1 : plain_text (str "http1")) by (split; apply (bool_decide_unpack _); by vm_compute).
  assert (P2 : plain_text (str "h2c")) by (split; apply (bool_decide_unpack _); by vm_compute).
  destruct pr; read_kv; reflexivity.
Qed.

Lemma upstreams_lines_read us : forall n sec c l,
  Forall upstream_text_ok us ->
  config_lines n (concat (map upstream_lines us)) sec (set_upstreams l c) = Ok (set_upstreams (l ++ us) c).
Proof.
  induction us as [|u us IH]; intros n sec c l Hu; [by rewrite app_nil_r|].
  apply Forall_cons in Hu as [Hu Hus]. cbn [map concat].
  destruct (upstream_lines_read u n (concat (map upstream_lines us)) sec c l Hu) as [n' ->].
  rewrite IH by done. by rewrite <- app_assoc.
Qed.

Lemma upstreams_lines_start us n sec c :
  upstreams c = [] -> Forall upstream_text_ok us ->
  config_lines n (concat (map upstream_lines us)) sec c = Ok (set_upstreams us c).
Proof. destruct c. cbn. intros -> Hu. by apply (upstreams_lines_read us n sec (mkProxyConfig _ _ _ _ _ _ _ []) []). Qed.

(** One lemma for each fixed section. *)
Lemma proxy_section n ls sec c a p1 p2 w :
  plain_text a -> port_ok p1 -> port_ok p2 -> u32_ok w ->
  config_lines n (str "[proxy]" :: kv "listen_addr" (quoted a) :: kv "listen_port" (to_string p1)
    :: kv "tls_port" (to_string p2) :: kv "worker_threads" (to_string w) :: ls) sec c =
  config_lines (n + 1 + 1 + 1 + 1 + 1) ls Proxy (set_worker_threads w (set_tls_port p2 (set_listen_port p1 (set_listen_addr a c)))).
Proof. intros Ha H1 H2 Hw. rewrite lines_proxy. do 4 read_kv. reflexivity. Qed.

Lemma tls_section n ls sec c t :
  plain_text (cert_file t) -> plain_text (key_file t) -> plain_text (min_version t) ->
  value_text (alpn_text (alpn t)) ->
  config_lines n (str "[tls]" :: kv "cert_file" (quoted (cert_file t)) :: kv "key_file" (quoted (key_file t))
    :: kv "min_version" (quoted (min_version t)) :: kv "alpn" (alpn_text (alpn t)) :: ls) sec c =
  config_lines (n + 1 + 1 + 1 + 1 + 1) ls TLS
    (set_tls (mkTLSConfig (cert_file t) (key_file t) (min_version t) (parse_alpn (alpn_text (alpn t))) (tls_enabled (tls c))) c).
Proof. intros H1 H2 H3 Hv. rewrite lines_tls. do 4 read_kv. by destruct t, c as [? ? ? ? [] ? ? ?]. Qed.

Lemma pool_section n ls sec c p :
  u32_ok (max_conns_per_upstream p) -> u32_ok (connect_timeout_ms p) -> u32_ok (idle_timeout_ms p) -> u32_ok (max_keepalive p) ->
  config_lines n (str "[pool]" :: kv "max_connections_per_upstream" (to_string (max_conns_per_upstream p))
    :: kv "connect_timeout_ms" (to_string (connect_timeout_ms p)) :: kv "idle_timeout_ms" (to_string (idle_timeout_ms p))
    :: kv "max_keepalive" (to_string (max_keepalive p)) :: ls) sec c =
  config_lines (n + 1 + 1 + 1 + 1 + 1) ls Pool (set_pool p c).
Proof. intros H1 H2 H3 H4. rewrite lines_pool. do 4 read_kv. by destruct p, c. Qed.

Lemma log_section n ls sec c l :
  plain_text (log_level l) -> plain_text (log_format l) -> plain_text (log_file l) ->
  config_lines n (str "[log]" :: kv "level" (quoted (log_level l)) :: kv "format" (quoted (log_format l))
    :: kv "file" (quoted (log_file l)) :: ls) sec c =
  config_lines (n + 1 + 1 + 1 + 1) ls Log (set_log l c).
Proof. intros H1 H2 H3. rewrite lines_log. do 3 read_kv. by destruct l, c. Qed.

(** The configuration that is read from the text of [c]. *)
Definition loaded (c : ProxyConfig) : ProxyConfig :=
  set_tls (mkTLSConfig (cert_file (tls c)) (key_file (tls c)) (min_version (tls c)) (alpn_loaded (alpn (tls c))) true) c.

Lemma config_text_read c : config_text_ok c -> config_lines 0 (config_text_lines c) Root ProxyConfig_default = Ok (loaded c).
Proof.
  intros [[Hl Ht Hw (P1 & P2 & P3 & P4) _] Ha (T1 & T2 & T3) Halpn (L1 & L2 & L3) Hus].
  destruct (alpn_value _ Halpn) as [Hav Hap]. unfold config_text_lines. cbn [app].
  rewrite proxy_section, tls_section, pool_section, log_section by done.
  rewrite upstreams_lines_start by done. rewrite Hap. by destruct c.
Qed.

Lemma kv_no_LF k v : good_key (str k) -> value_text v -> LF ∉ kv k v.
Proof.
  intros (_ & _ & Hk & _) [_ _ Hv]. unfold kv. rewrite !not_elem_of_app. split_and!; try done.
  apply (bool_decide_unpack _). by vm_compute.
Qed.

Ltac no_LF :=
  first [apply kv_no_LF; [apply good_key_check; vm_compute; reflexivity
                         |first [assumption | apply quoted_value; assumption | apply number_value; unfold port_ok, u32_ok in *; lia]]
        |apply (bool_decide_unpack _); vm_compute; exact I].

Lemma upstream_lines_no_LF u : upstream_text_ok u -> Forall (fun l => LF ∉ l) (upstream_lines u).
Proof.
  intros [Hn Ha Hp Hw]. destruct (healthy_value (uc_healthy u)) as [Hv _].
  assert (P1 : plain_text (str "http1")) by (split; apply (bool_decide_unpack _); by vm_compute).
  assert (P2 : plain_text (str "h2c")) by (split; apply (bool_decide_unpack _); by vm_compute).
  unfold upstream_lines. destruct (uc_proto u); repeat constructor; no_LF.
Qed.

Lemma config_text_no_LF c : config_text_ok c -> Forall (fun l => LF ∉ l) (config_text_lines c).
Proof.
  intros [[Hl Ht Hw (P1 & P2 & P3 & P4) _] Ha (T1 & T2 & T3) Halpn (L1 & L2 & L3) Hus].
  destruct (alpn_value _ Halpn) as [Hav _]. unfold config_text_lines. apply Forall_app. split.
  - repeat (apply Forall_cons; split; [no_LF|]). constructor.
  - apply Forall_concat, Forall_map. apply (Forall_impl _ _ _ Hus). apply upstream_lines_no_LF.
Qed.

(** ** The [--upstream] option *)

Definition upstream_spec (addr : bytes) (p w : Z) : bytes :=
  addr ++ [COLON] ++ to_string p ++ [COLON] ++ str "weight=" ++ to_string w.

Lemma colon_not_digit z : 0 <= z -> COLON ∉ to_string z.
Proof. intros Hz Hc. apply to_string_digit in Hc; [|done]. by vm_compute in Hc. Qed.

Lemma parse_upstream_spec addr p w :
  COLON ∉ addr -> port_ok p -> 1 <= w <= UINT32_MAX ->
  parse_upstream_cli (upstream_spec addr p w) = Ok (mkUpstreamConfig (addr ++ [COLON] ++ to_string p) addr p w true HTTP1).
Proof.
  intros Ha Hp Hw. unfold parse_upstream_cli, upstream_spec.
  assert (Hcp : COLON ∉ to_string p) by (apply colon_not_digit; unfold port_ok in Hp; lia).
  assert (F1 : find_char COLON (addr ++ [COLON] ++ to_string p ++ [COLON] ++ str "weight=" ++ to_string w) = Some (length addr))
    by (by apply (find_sub_first COLON [])).
  rewrite F1. cbn [app] in *.
  assert (F2 : find_char_from COLON (addr ++ COLON :: to_string p ++ COLON :: str "weight=" ++ to_string w) (length addr + 1)
               = Some (length addr + 1 + length (to_string p))%nat).
  { rewrite find_char_from_here by done.
    assert (F : find_char COLON (to_string p ++ COLON :: str "weight=" ++ to_string w) = Some (length (to_string p)))
      by (by apply (find_sub_first COLON [])). by rewrite F. }
  rewrite F2. change (substr ?s 0 ?k) with (take k s). rewrite take_app_length.
  assert (A2 : substr (addr ++ COLON :: to_string p ++ COLON :: str "weight=" ++ to_string w) (length addr + 1)
                 (length addr + 1 + length (to_string p) - length addr - 1) = to_string p).
  { unfold substr. rewrite <- drop_drop, drop_app_length. cbn [drop].
    replace (length addr + 1 + length (to_string p) - length addr - 1)%nat with (length (to_string p)) by lia. apply take_app_length. }
  assert (A3 : drop (length addr + 1 + length (to_string p) + 1) (addr ++ COLON :: to_string p ++ COLON :: str "weight=" ++ to_string w)
               = str "weight=" ++ to_string w).
  { rewrite <- drop_drop, <- drop_drop, <- drop_drop, drop_app_length. change (drop 1 (COLON :: ?x)) with x.
    by rewrite drop_app_length. }
  rewrite A2, A3, parse_port_number by done.
  unfold parse_weight_suffix. rewrite starts_with_app. cbn [negb]. rewrite drop_app_length.
  rewrite parse_number by (unfold u32_ok; lia). destruct (Z.eqb_spec w 0); [lia|]. done.
Qed.

(** ** Properties *)

(** Validation accepts a configuration exactly when it names at least one
    upstream, each with an address, a port and a weight that are not empty or
    zero, has a known log level and format and TLS version, and, with TLS,
    certificate and key are regular files; what it accepts it returns
    unchanged. *)
Theorem config_validate_exact (fs : Files) (c c' : ProxyConfig) :
  config_validate fs c = Ok c' <-> c' = c /\ config_valid fs c.
Proof.
  split.
  - intros E. assert (c' = c) as ->; [|split; [done|by apply config_validate_spec]].
    unfold config_validate in E. repeat (dmatch_in E; [done|]). by injection E.
  - intros [-> Hv]. by apply config_validate_spec.
Qed.

(** (C16) What start-up guarantees the other components, for every command line
    and every content of the configuration files: the listening ports and
    every upstream port are between 1 and 65535, every count and timeout fits
    its 32-bit type, every weight is between 1 and 2^32-1, there is an
    upstream, and the balancer built from it satisfies its invariant. *)
Theorem startup_config_ok (fs : Files) (args : list bytes) (c c' : ProxyConfig) :
  config_apply_cli fs ProxyConfig_default args = Ok c -> config_validate fs c = Ok c' ->
  config_range c' /\ upstreams c' <> [] /\
  Forall (fun u => port_ok (uc_port u) /\ 1 <= uc_weight u <= UINT32_MAX) (upstreams c') /\
  wrr_wf (WeightedRoundRobin_make (upstreams c')).
Proof.
  intros E1 E2. pose proof (config_apply_cli_range fs _ args _ c (le_n _) config_range_default E1) as Hr.
  assert (c' = c) as -> by (unfold config_validate in E2; repeat (dmatch_in E2; [done|]); by injection E2).
  apply config_validate_spec in E2. destruct E2 as [Hne He _ _ _ _]. split_and!; [done|done| |].
  - pose proof (cr_upstreams _ Hr) as Hu. rewrite Forall_forall in *. intros u Hin.
    destruct (Hu u Hin) as [Hp Hw], (He u Hin) as [_ Hp0 Hw0]. unfold port_ok, u32_ok in *. lia.
  - pose proof (cr_upstreams _ Hr) as Hu. split; cbn; [by rewrite !length_map|]. apply Forall_map.
    apply (Forall_impl _ _ _ Hu). intros u [_ Hw]. cbn. unfold u32_ok, UINT32_MAX in *. lia.
Qed.

Lemma startup_config_ok_witness :
  exists c, config_apply_cli demo_files ProxyConfig_default [str "--config"; str "x.toml"; str "--no-tls"] = Ok c /\
    config_validate demo_files c = Ok c /\ wrr_wf (WeightedRoundRobin_make (upstreams c)).
Proof.
  assert (E : exists c, config_apply_cli demo_files ProxyConfig_default [str "--config"; str "x.toml"; str "--no-tls"] = Ok c /\
    config_validate demo_files c = Ok c) by (eexists; split; vm_compute; reflexivity).
  destruct E as (c & E1 & E2). exists c. split; [exact E1|]. split; [exact E2|].
  exact (proj2 (proj2 (proj2 (startup_config_ok _ _ _ _ E1 E2)))).
Defined.

(** (C35) What a file means.  The code has no writer; [config_text] is a
    plain one, of this development, that puts every field that has a key in a
    file on a line of its own, section by section.  Take any configuration
    with numbers in range, strings without a hash sign and a line feed, and
    ALPN protocols among [h2] and [http/1.1], in any order and number.  Reading
    its text back gives exactly the same addresses, ports, limits, files, log
    settings and upstreams, in order; but TLS is enabled, since no key of a
    file can disable it, and the protocols are those of the list with [h2]
    always first.  So the configuration comes back unchanged exactly when TLS
    is enabled in it and its protocols are in that order. *)
Theorem config_file_roundtrip (c : ProxyConfig) (path : bytes) (reg : bytes -> bool) :
  config_text_ok c ->
  let fs := mkFiles (fun p => if bool_decide (p = path) then Some (config_text c) else None) reg in
  let t := tls c in
  config_from_file fs path = Ok (set_tls (mkTLSConfig (cert_file t) (key_file t) (min_version t) (alpn_loaded (alpn t)) true) c) /\
  (config_from_file fs path = Ok c <-> tls_enabled t = true /\ alpn t = alpn_loaded (alpn t)).
Proof.
  intros Hc fs t.
  assert (E : config_from_file fs path = Ok (loaded c)).
  { unfold config_from_file, fs. cbn [read_file]. rewrite bool_decide_eq_true_2 by done. unfold config_text.
    rewrite getlines_lines; [|by apply config_text_no_LF|intros Hn; by apply elem_of_nil in Hn].
    rewrite <- (config_text_read c Hc). done. }
  split; [exact E|]. rewrite E. unfold loaded, t. destruct c as [a p1 p2 n [ce ke mi al en] po lo us]. cbn. split.
  - intros [= E1 E2]. by split.
  - intros [-> <-]. done.
Qed.

(** The [--upstream] option: every address without a colon, port and
    positive weight written as [addr:port:weight=n] is read back exactly,
    with [addr:port] as its name. *)
Theorem upstream_option_roundtrip (addr : bytes) (p w : Z) :
  COLON ∉ addr -> port_ok p -> 1 <= w <= UINT32_MAX ->
  parse_upstream_cli (upstream_spec addr p w) = Ok (mkUpstreamConfig (addr ++ [COLON] ++ to_string p) addr p w true HTTP1).
Proof. apply parse_upstream_spec. Qed.

Lemma upstream_option_roundtrip_witness :
  parse_upstream_cli (str "10.0.0.1:3000:weight=5") = Ok (mkUpstreamConfig (str "10.0.0.1:3000") (str "10.0.0.1") 3000 5 true HTTP1).
Proof.
  refine (upstream_option_roundtrip (str "10.0.0.1") 3000 5 _ _ _); [|unfold port_ok; lia|unfold UINT32_MAX; lia].
  apply (bool_decide_unpack _). vm_compute. exact I.
Defined.

Definition demo_config : ProxyConfig :=
  mkProxyConfig (str "127.0.0.1") 8080 8443 4 (mkTLSConfig (str "c.pem") (str "k.pem") (str "tls1.3") [str "http/1.1"; str "h2"] false)
    PoolConfig_default (mkLogConfig (str "warn") (str "json") [])
    [mkUpstreamConfig (str "a") (str "10.0.0.1") 3000 10 true H2C; mkUpstreamConfig (str "b") (str "10.0.0.2") 3001 1 false HTTP1].

Lemma demo_config_ok : config_text_ok demo_config.
Proof.
  assert (P : forall s, bool_decide (HASH ∉ s) && bool_decide (LF ∉ s) = true -> plain_text s)
    by (intros s Hs; apply andb_true_iff in Hs as [? ?]; split; by eapply bool_decide_eq_true).
  split; cbn; unfold port_ok, u32_ok, UINT32_MAX; try (split_and!; apply P; vm_compute; reflexivity).
  - split; unfold port_ok, u32_ok, UINT32_MAX; cbn; try lia. repeat constructor; cbn; unfold u32_ok, UINT32_MAX; lia.
  - repeat constructor; apply (bool_decide_unpack _); vm_compute; exact I.
  - repeat constructor; cbn; unfold port_ok, u32_ok, UINT32_MAX; try lia; apply (bool_decide_unpack _); vm_compute; exact I.
Qed.

Lemma config_file_roundtrip_witness :
  config_from_file (mkFiles (fun p => if bool_decide (p = str "a.toml") then Some (config_text demo_config) else None) (fun _ => true)) (str "a.toml")
  = Ok (set_tls (mkTLSConfig (str "c.pem") (str "k.pem") (str "tls1.3") [str "h2"; str "http/1.1"] true) demo_config).
Proof. exact (proj1 (config_file_roundtrip demo_config (str "a.toml") (fun _ => true) demo_config_ok)). Defined.
