(* ===== verification/World.v ===== *)
(** * The operating system as the code sees it

    System calls are the boundary of the program.  A [World] is the list of
    calls made so far and the answers still to come; every theorem quantifies
    over the answers.  When the answers run out a call fails with [EIO], so a
    loop that retries on [EINTR] or [EAGAIN] ends after at most as many turns
    as there are answers. *)

From stdpp Require Import prelude.
From S2P Require Import Prelude Result.

Definition ENOENT : Z := 2.
Definition EINTR : Z := 4.
Definition EIO : Z := 5.
Definition EAGAIN : Z := 11.
Definition EWOULDBLOCK : Z := 11.
Definition EINPROGRESS : Z := 115.

Definition O_WRONLY : Z := 1.
Definition O_CREAT : Z := 64.
Definition O_APPEND : Z := 1024.

Definition POLLIN : Z := 1.
Definition POLLOUT : Z := 4.
Definition POLLERR : Z := 8.
Definition POLLHUP : Z := 16.
Definition POLLNVAL : Z := 32.

Inductive Syscall :=
  | SysSocket
  | SysClose (fd : Z)
  | SysFcntlGet (fd : Z)
  | SysFcntlSet (fd flags : Z)
  | SysSetsockopt (fd : Z) (opt : bytes)
  | SysGetsockoptError (fd : Z)
  | SysConnect (fd : Z) (addr : bytes) (port : Z)
  | SysPoll (fd events timeout_ms : Z)
  | SysSend (fd : Z) (data : bytes)
  | SysRecv (fd size : Z)
  | SysClock
  | SysBind (fd : Z) (addr : bytes) (port : Z)
  | SysListen (fd : Z)
  | SysAccept (fd : Z)
  | SysEpollCreate
  | SysEpollCtl (epfd op fd events : Z)
  | SysEpollWait (epfd timeout_ms : Z)
  | SysTimerfdCreate
  | SysTimerfdSettime (fd sec nsec : Z)
  | SysReadTimer (fd : Z)
  | SysKqueue
  | SysKevent (kq : Z) (changes : list (Z * Z * Z * Z))      (* ident, filter, flags, data *)
  | SysKeventWait (kq timeout_ms : Z)
  | SysOpen (path : bytes) (flags mode : Z)
  | SysFdopen (fd : Z)
  | LoadShutdown.        (* g_shutdown.load(): signal handlers store to it at any time *)

(** An answer: the return value, [errno] when it is negative, an out
    parameter ([revents], [so_error]), received data, and the events of a
    wait: for each one what it is about, its kind and its flags. *)
Record SysResult := mkSysEvents {
  sr_ret : Z;
  sr_errno : Z;
  sr_out : Z;
  sr_data : bytes;
  sr_events : list (Z * Z * Z);
}.

Definition mkSys (ret errno out : Z) (data : bytes) : SysResult := mkSysEvents ret errno out data [].

Record World := mkWorld {
  trace : list Syscall;
  script : list SysResult;
}.

Definition sys_failure : SysResult := mkSys (-1) EIO 0 [].

Definition sys (c : Syscall) (w : World) : SysResult * World :=
  match script w with
  | r :: s => (r, mkWorld (trace w ++ [c]) s)
  | [] => (sys_failure, mkWorld (trace w ++ [c]) [])
  end.

(** [send]: at most the bytes offered are accepted. *)
Definition sys_send (fd : Z) (d : bytes) (w : World) : Z * Z * World :=
  let '(r, w) := sys (SysSend fd d) w in (Z.min (sr_ret r) (len d), sr_errno r, w).

(** [recv]: data up to the size of the destination, else end of file (0) or
    an error (negative). *)
Definition sys_recv (fd size : Z) (w : World) : Z * Z * bytes * World :=
  let '(r, w) := sys (SysRecv fd size) w in
  let d := take (Z.to_nat size) (sr_data r) in
  (if len d =? 0 then Z.min (sr_ret r) 0 else len d, sr_errno r, d, w).

(** The steady clock in milliseconds, a [uint64_t]. *)
Definition sys_now_ms (w : World) : Z * World :=
  let '(r, w) := sys SysClock w in (u64 (sr_out r), w).

(** [g_shutdown.load()].  The answer is what a signal handler has stored, a
    positive number for [true]; without an answer the flag is not set. *)
Definition load_shutdown (w : World) : bool * World :=
  let '(r, w) := sys LoadShutdown w in (0 <? sr_ret r, w).

Lemma sys_trace c w : trace (sys c w).2 = trace w ++ [c].
Proof. unfold sys. by destruct (script w). Qed.

Lemma sys_script c w : (length (script (sys c w).2) <= length (script w))%nat.
Proof. unfold sys. destruct (script w); cbn; lia. Qed.

(** The calls between two worlds; each has used up one answer, as long as
    there were any. *)
Definition ran (w w' : World) (cs : list Syscall) : Prop :=
  trace w' = trace w ++ cs /\ script w' = drop (length cs) (script w).

Lemma ran_refl w : ran w w [].
Proof. split; [by rewrite app_nil_r|done]. Qed.

Lemma ran_trans w1 w2 w3 a b : ran w1 w2 a -> ran w2 w3 b -> ran w1 w3 (a ++ b).
Proof.
  intros [H1 H2] [H3 H4]. split; [by rewrite H3, H1, app_assoc|].
  by rewrite H4, H2, drop_drop, length_app.
Qed.

(** Some calls lead from one world to the other. *)
Definition later (w w' : World) : Prop := exists cs, ran w w' cs.

#[global] Instance later_preorder : PreOrder later.
Proof.
  split; [intros w; exists []; apply ran_refl|].
  intros w1 w2 w3 [a Ha] [b Hb]. exists (a ++ b). by eapply ran_trans.
Qed.

Lemma later_script w w' : later w w' -> (length (script w') <= length (script w))%nat.
Proof. intros [cs [_ ->]]. rewrite length_drop. lia. Qed.

Lemma ran_unique w w' a b : ran w w' a -> ran w w' b -> a = b.
Proof. intros [Ha _] [Hb _]. rewrite Ha in Hb. by apply app_inv_head in Hb. Qed.

(** One call, and its answer. *)
Lemma sys_ran c w r w' :
  sys c w = (r, w') -> ran w w' [c] /\ (head (script w) = Some r \/ script w = [] /\ r = sys_failure).
Proof.
  unfold sys, ran. destruct (script w) as [|x s] eqn:Es; intros; simplify_eq; cbn; rewrite ?Es; auto.
Qed.

(** Some calls lead from one world to the other, none of which accepts a
    connection: only the server's accepting loop does that. *)
Definition quiet (w w' : World) : Prop := exists cs, ran w w' cs /\ forall f, SysAccept f ∉ cs.

#[global] Instance quiet_preorder : PreOrder quiet.
Proof.
  split; [intros w; exists []; split; [apply ran_refl|intros f; apply not_elem_of_nil]|].
  intros w1 w2 w3 (a & Ha & Na) (b & Hb & Nb). exists (a ++ b). split; [by eapply ran_trans|].
  intros f. rewrite not_elem_of_app. by split.
Qed.

Lemma quiet_later w w' : quiet w w' -> later w w'.
Proof. intros (cs & Hr & _). by exists cs. Qed.

Lemma quiet_script w w' : quiet w w' -> (length (script w') <= length (script w))%nat.
Proof. intros Hq. by apply later_script, quiet_later. Qed.

(** A computation that makes such calls and does nothing else to the world. *)
Class Calls {A} (m : World -> A * World) : Prop := calls_quiet : forall w, quiet w (m w).2.

Lemma calls_eq {A} (m : World -> A * World) `{Hm : !Calls m} w r w' : m w = (r, w') -> quiet w w'.
Proof. intros E. pose proof (calls_quiet w) as H. by rewrite E in H. Qed.

(** Any call but the one that accepts. *)
Class Modest (c : Syscall) : Prop := modest : forall f, c <> SysAccept f.
#[global] Hint Extern 0 (Modest _) => (intros ?; discriminate) : typeclass_instances.

#[global] Instance sys_calls c : Modest c -> Calls (sys c).
Proof.
  intros Hc w. destruct (sys c w) as [r w'] eqn:E. exists [c]. apply sys_ran in E as [Hr _]. split; [done|].
  intros f Hf%list_elem_of_singleton. by apply (Hc f).
Qed.

Lemma sys_later c w r w' : sys c w = (r, w') -> later w w'.
Proof. intros E. exists [c]. by apply sys_ran in E as [? _]. Qed.

#[global] Instance bind_calls {A B} (m : M World A) (k : A -> M World B) :
  Calls m -> (forall a, Calls (k a)) -> Calls (bind m k).
Proof.
  intros Hm Hk w. unfold bind. pose proof (Hm w). destruct (m w) as [[a|e] w1]; [|done]. by etrans; [|apply Hk].
Qed.

(** Closes [quiet w w'] from the equations of the calls in between. *)
Ltac calls_chain :=
  repeat match goal with
  | E : ?m ?w = (_, ?w') |- _ => apply (calls_eq m w) in E
  end;
  repeat first
    [ reflexivity
    | assumption
    | match goal with H : quiet ?w _ |- quiet ?w _ => etrans; [exact H|]; clear H end ].

(** Case analysis of the code between two worlds. *)
Ltac calls_cases := intros ?; repeat dmatch; cbn [fst snd] in *; simplify_eq; calls_chain.

(** A call that was made between two worlds, and its answer.  It was answered
    from the script: what the system does when no answer is left is no
    answer. *)
Definition answered (c : Syscall) (r : SysResult) (w w' : World) : Prop :=
  exists cs i, ran w w' cs /\ cs !! i = Some c /\ script w !! i = Some r.

Lemma answered_l c r w1 w2 w3 : answered c r w1 w2 -> later w2 w3 -> answered c r w1 w3.
Proof.
  intros (a & i & Ha & Hi & Hr) [b Hb]. exists (a ++ b), i. split_and!; [by eapply ran_trans| |done].
  by apply lookup_app_l_Some.
Qed.

Lemma answered_r c r w1 w2 w3 : later w1 w2 -> answered c r w2 w3 -> answered c r w1 w3.
Proof.
  intros [a Ha] (b & i & Hb & Hi & Hr). exists (a ++ b), (length a + i)%nat. split_and!; [by eapply ran_trans| |].
  - rewrite lookup_app_r by lia. by replace (length a + i - length a)%nat with i by lia.
  - destruct Ha as [_ Hs]. by rewrite Hs, lookup_drop in Hr.
Qed.

Lemma sys_answered c w r w' : sys c w = (r, w') -> r = sys_failure \/ answered c r w w'.
Proof.
  intros E. apply sys_ran in E as [Hr [Hh|[_ ->]]]; [|by left]. right. exists [c], 0%nat. split_and!; [done|done|].
  by destruct (script w).
Qed.

(** Bytes a series of calls, with its answers, has put on or taken off a
    descriptor. *)
Definition sent_by (fd : Z) (c : Syscall) (r : SysResult) : bytes :=
  match c with
  | SysSend f d => if f =? fd then take (Z.to_nat (sr_ret r)) d else []
  | _ => []
  end.

Definition received_by (fd : Z) (c : Syscall) (r : SysResult) : bytes :=
  match c with
  | SysRecv f n => if f =? fd then take (Z.to_nat n) (sr_data r) else []
  | _ => []
  end.

Definition sent (fd : Z) (cs : list Syscall) (rs : list SysResult) : bytes := concat (zip_with (sent_by fd) cs rs).

Definition received (fd : Z) (cs : list Syscall) (rs : list SysResult) : bytes :=
  concat (zip_with (received_by fd) cs rs).

Lemma concat_zip_app {A C} (f : A -> C -> bytes) a b rs :
  concat (zip_with f (a ++ b) rs) = concat (zip_with f a rs) ++ concat (zip_with f b (drop (length a) rs)).
Proof.
  revert rs; induction a as [|x a IH]; intros rs; [done|].
  destruct rs as [|r rs]; cbn; [|by rewrite IH, app_assoc].
  by destruct b.
Qed.

Lemma sent_app fd a b rs : sent fd (a ++ b) rs = sent fd a rs ++ sent fd b (drop (length a) rs).
Proof. apply concat_zip_app. Qed.

Lemma received_app fd a b rs : received fd (a ++ b) rs = received fd a rs ++ received fd b (drop (length a) rs).
Proof. apply concat_zip_app. Qed.
