(* ===== verification/Fd.v ===== *)
(** * Owned file descriptors (src/src/fd.cpp, src/include/uproxy/fd.h)

    A [Uniquefd] is the descriptor it holds, negative when it holds none.  The
    calls it makes go through the [World], so the trace shows every close. *)

From stdpp Require Import prelude.
From S2P Require Import Prelude Result World.

Record Uniquefd := mkUniquefd { fd_ : Z }.

Definition fd_none : Uniquefd := mkUniquefd (-1).
Definition fd_get (u : Uniquefd) : Z := fd_ u.
Definition fd_valid (u : Uniquefd) : bool := 0 <=? fd_ u.

(** [release()]: the descriptor and the emptied owner. *)
Definition fd_release (u : Uniquefd) : Z * Uniquefd := (fd_ u, fd_none).

(** [while (::close(fd_) < 0 && errno == EINTR) {}]. *)
Fixpoint close_loop (fuel : nat) (fd : Z) (w : World) : World :=
  let '(r, w) := sys (SysClose fd) w in
  if (sr_ret r <? 0) && (sr_errno r =? EINTR)
  then match fuel with O => w | S fuel' => close_loop fuel' fd w end
  else w.

Definition fd_reset (fd : Z) (u : Uniquefd) (w : World) : Uniquefd * World :=
  (mkUniquefd fd,
   if 0 <=? fd_ u then close_loop (length (script w)) (fd_ u) w else w).

(** The destructor. *)
Definition fd_destroy (u : Uniquefd) (w : World) : World := (fd_reset (-1) u w).2.

(** [a = std::move(b)] for two different objects: the new [a], the emptied
    [b]; what [a] held is closed. *)
Definition fd_move_assign (a b : Uniquefd) (w : World) : Uniquefd * Uniquefd * World :=
  let '(fd, b) := fd_release b in
  let '(a, w) := fd_reset fd a w in (a, b, w).

Definition set_nonblocking (u : Uniquefd) : M World unit := fun w =>
  let '(r, w) := sys (SysFcntlGet (fd_ u)) w in
  if sr_ret r <? 0 then (Err (from_errno (sr_errno r) (str "fcntl(F_GETFL)")), w)
  else
    let '(r, w) := sys (SysFcntlSet (fd_ u) (Z.lor (sr_ret r) 2048)) w in   (* O_NONBLOCK *)
    if sr_ret r <? 0 then (Err (from_errno (sr_errno r) (str "fcntl(F_SETFL O_NONBLOCK)")), w)
    else (Ok tt, w).

Definition set_reuse (u : Uniquefd) : M World unit := fun w =>
  let '(r, w) := sys (SysSetsockopt (fd_ u) (str "SO_REUSEADDR")) w in
  if sr_ret r <? 0 then (Err (from_errno (sr_errno r) (str "setsockopt(SO_REUSEADDR)")), w)
  else
    let '(r, w) := sys (SysSetsockopt (fd_ u) (str "SO_REUSEPORT")) w in
    if sr_ret r <? 0 then (Err (from_errno (sr_errno r) (str "setsockopt(SO_REUSEPORT)")), w)
    else (Ok tt, w).

Definition set_nodelay (u : Uniquefd) : M World unit := fun w =>
  let '(r, w) := sys (SysSetsockopt (fd_ u) (str "TCP_NODELAY")) w in
  if sr_ret r <? 0 then (Err (from_errno (sr_errno r) (str "setsockopt(TCP_NODELAY)")), w)
  else (Ok tt, w).

(** ** Lemmas *)

(** Calls that follow [w] in [w']. *)
Definition new_calls (w w' : World) (cs : list Syscall) : Prop := trace w' = trace w ++ cs.

Lemma new_calls_refl w : new_calls w w [].
Proof. unfold new_calls. by rewrite app_nil_r. Qed.

Lemma new_calls_trans w1 w2 w3 a b :
  new_calls w1 w2 a -> new_calls w2 w3 b -> new_calls w1 w3 (a ++ b).
Proof. unfold new_calls. intros -> ->. by rewrite <- app_assoc. Qed.

(** The retry loop only ever closes the one descriptor, and does so at least
    once. *)
Lemma close_loop_trace fuel fd w :
  exists n, new_calls w (close_loop fuel fd w) (replicate (S n) (SysClose fd)).
Proof.
  revert w; induction fuel as [|fuel IH]; intros w; cbn [close_loop];
    pose proof (sys_trace (SysClose fd) w) as Ht; destruct (sys _ w) as [r w1]; cbn in Ht.
  - exists 0%nat. by destruct ((sr_ret r <? 0) && (sr_errno r =? EINTR)).
  - destruct ((sr_ret r <? 0) && (sr_errno r =? EINTR)); [|by exists 0%nat].
    destruct (IH w1) as [n Hn]. exists (S n). unfold new_calls in *. rewrite Hn, Ht, <- app_assoc. done.
Qed.

Lemma fd_destroy_trace u w :
  exists cs, new_calls w (fd_destroy u w) cs /\
    (cs = [] /\ fd_valid u = false \/ exists n, cs = replicate (S n) (SysClose (fd_ u)) /\ fd_valid u = true).
Proof.
  unfold fd_destroy, fd_reset, fd_valid. cbn. destruct (0 <=? fd_ u).
  - destruct (close_loop_trace (length (script w)) (fd_ u) w) as [n Hn]. eauto 6.
  - exists []. split; [apply new_calls_refl|by left].
Qed.
