(* ===== verification/UpstreamPool.v ===== *)
(** * The upstream connection pool
    (src/src/upstream_pool.cpp, src/include/uproxy/upstream_pool.h)

    The operations on one pool, as the code runs them between taking and
    releasing the mutex, and their sequential composition [acquire].  The
    concurrent behaviour, several threads between those critical sections, is
    the step relation of UpstreamPoolProofs. *)

From stdpp Require Import prelude gmap.
From S2P Require Import Prelude Result CxxString Config LoadBalancer World Fd.

(** [PooledConn]; its [h2] member is never assigned in the sources. *)
Record PooledConn := mkPooledConn {
  pc_fd : Uniquefd;
  in_use : bool;
  request_count : Z;      (* uint64_t *)
  created_at_ms : Z;
  last_used_at_ms : Z;
}.

(** [endpoint_] is a shared pointer to an endpoint of the balancer: its index
    there. *)
Record UpstreamPool := mkUpstreamPool {
  endpoint_ : nat;
  cfg_ : PoolConfig;
  idle_ : list PooledConn;
  total_ : Z;             (* uint32_t *)
}.

Definition UpstreamPool_make (ep : nat) (cfg : PoolConfig) : UpstreamPool := mkUpstreamPool ep cfg [] 0.

Definition set_in_use (b : bool) (c : PooledConn) : PooledConn :=
  mkPooledConn (pc_fd c) b (request_count c) (created_at_ms c) (last_used_at_ms c).

Definition with_pool (idle : list PooledConn) (total : Z) (p : UpstreamPool) : UpstreamPool :=
  mkUpstreamPool (endpoint_ p) (cfg_ p) idle total.

(** ** acquire *)

(** The first critical section: take an idle connection, wait, or count a
    new one. *)
Inductive acquire_action :=
  | Took (c : PooledConn)
  | MustWait
  | MustConnect.

Definition acquire_begin (p : UpstreamPool) : acquire_action * UpstreamPool :=
  match idle_ p with
  | c :: rest => (Took (set_in_use true c), with_pool rest (total_ p) p)
  | [] =>
      if max_conns_per_upstream (cfg_ p) <=? total_ p then (MustWait, p)
      else (MustConnect, with_pool [] (u32 (total_ p + 1)) p)
  end.

(** The end of [cv_.wait_for]: with the lock held again, a connection is
    taken if one has come back, else the wait timed out. *)
Definition acquire_after_wait (p : UpstreamPool) : Result PooledConn * UpstreamPool :=
  match idle_ p with
  | c :: rest => (Ok (set_in_use true c), with_pool rest (total_ p) p)
  | [] => (Err (from_code Timeout_ (str "upstream pool exhausted")), p)
  end.

(** The critical section after a failed connect. *)
Definition acquire_failed (p : UpstreamPool) : UpstreamPool :=
  with_pool (idle_ p) (u32 (total_ p - 1)) p.

Section NewConnection.

(** [inet_pton(AF_INET, ...)] accepts the text as an IPv4 address. *)
Context (inet_pton : bytes -> bool).

(** The wait for a connect in progress: [poll] for writability, then the
    pending socket error. *)
Definition await_connect (fd : Uniquefd) (timeout_ms : Z) : M World unit := fun w =>
  let '(r, w) := sys (SysPoll (fd_ fd) POLLOUT (i32 timeout_ms)) w in
  if sr_ret r <=? 0 then (Err (from_code Timeout_ (str "connect upstream timeout")), w)
  else
    let '(r, w) := sys (SysGetsockoptError (fd_ fd)) w in
    if (sr_ret r <? 0) || negb (sr_out r =? 0)
    then (Err (from_code SysError (str "connect upstream failed")), w)
    else (Ok tt, w).

(** The steps on the new socket, up to an established connection. *)
Definition connect_socket (fd : Uniquefd) (ep_addr : bytes) (ep_port timeout_ms : Z) : M World unit :=
  set_nonblocking fd ;;;
  (fun w => (Ok tt, (set_nodelay fd w).2)) ;;;            (* (void)fd.set_nodelay() *)
  if negb (inet_pton ep_addr)
  then fail_with (from_code ConfigInvalid (str "upstream address must be IPv4"))
  else fun w =>
    let '(r, w) := sys (SysConnect (fd_ fd) ep_addr ep_port) w in
    if (sr_ret r <? 0) && negb (sr_errno r =? EINPROGRESS)
    then (Err (from_errno (sr_errno r) (str "connect upstream")), w)
    else if sr_ret r <? 0 then await_connect fd timeout_ms w
    else (Ok tt, w).

(** [new_connection]: on every error return the local [Uniquefd] is
    destroyed, on success it moves into the connection. *)
Definition new_connection (ep : UpstreamEndpoint) (cfg : PoolConfig) : M World PooledConn := fun w =>
  let '(r, w) := sys SysSocket w in
  let fd := mkUniquefd (sr_ret r) in
  if negb (fd_valid fd)
  then (Err (from_errno (sr_errno r) (str "socket upstream")), w)
  else
    match connect_socket fd (addr ep) (port ep) (connect_timeout_ms cfg) w with
    | (Err e, w) => (Err e, fd_destroy fd w)
    | (Ok _, w) =>
        let '(now, w) := sys_now_ms w in
        (Ok (mkPooledConn fd true 0 now now), w)
    end.

(** The state [acquire] works on: the calls, the shared endpoint and the
    pool. *)
Record AcquireState := mkAcquire { aq_world : World; aq_ep : UpstreamEndpoint; aq_pool : UpstreamPool }.

(** [acquire]; [others] is what other threads do to the pool while this one
    waits without the lock. *)
Definition acquire (others : UpstreamPool -> UpstreamPool) : M AcquireState PooledConn := fun s =>
  match acquire_begin (aq_pool s) with
  | (Took c, p) => (Ok c, mkAcquire (aq_world s) (aq_ep s) p)
  | (MustWait, p) =>
      let '(r, p) := acquire_after_wait (others p) in (r, mkAcquire (aq_world s) (aq_ep s) p)
  | (MustConnect, p) =>
      match new_connection (aq_ep s) (cfg_ p) (aq_world s) with
      | (Ok c, w) => (Ok c, mkAcquire w (aq_ep s) p)
      | (Err e, w) => (Err e, mkAcquire w (count_failure (aq_ep s)) (acquire_failed p))
      end
  end.

End NewConnection.

(** ** release, evict_idle, drain *)

(** The stamp [release] puts on a returned connection. *)
Definition returned (now : Z) (c : PooledConn) : PooledConn :=
  mkPooledConn (pc_fd c) false (request_count c) (created_at_ms c) now.

(** A connection is dropped, not kept, when its descriptor is gone or it has
    served its quota. *)
Definition worn_out (cfg : PoolConfig) (c : PooledConn) : bool :=
  negb (fd_valid (pc_fd c)) || (max_keepalive cfg <=? request_count c).

(** [release(conn)]; [None] is [nullptr].  The clock is read under the lock;
    a dropped connection is destroyed, which closes its descriptor. *)
Definition release (conn : option PooledConn) (p : UpstreamPool) (w : World) : UpstreamPool * World :=
  match conn with
  | None => (p, w)
  | Some c =>
      let '(now, w) := sys_now_ms w in
      let c := returned now c in
      if worn_out (cfg_ p) c
      then (with_pool (idle_ p) (u32 (total_ p - 1)) p, fd_destroy (pc_fd c) w)
      else (with_pool (idle_ p ++ [c]) (total_ p) p, w)
  end.

Definition expired (cfg : PoolConfig) (ts_ms : Z) (c : PooledConn) : bool :=
  (last_used_at_ms c <=? ts_ms) && (idle_timeout_ms cfg <? ts_ms - last_used_at_ms c).

(** The loop of [evict_idle] over the deque: [erase] destroys the element. *)
Fixpoint evict_loop (cfg : PoolConfig) (ts_ms : Z) (cs : list PooledConn) (total : Z) (w : World)
    : list PooledConn * Z * World :=
  match cs with
  | [] => ([], total, w)
  | c :: cs' =>
      if expired cfg ts_ms c
      then evict_loop cfg ts_ms cs' (u32 (total - 1)) (fd_destroy (pc_fd c) w)
      else let '(kept, total, w) := evict_loop cfg ts_ms cs' total w in (c :: kept, total, w)
  end.

Definition evict_idle (ts_ms : Z) (p : UpstreamPool) (w : World) : UpstreamPool * World :=
  let '(kept, total, w) := evict_loop (cfg_ p) ts_ms (idle_ p) (total_ p) w in
  (with_pool kept total p, w).

(** [drain()]: [idle_.clear()] destroys every idle connection. *)
Definition drain (p : UpstreamPool) (w : World) : UpstreamPool * World :=
  (with_pool [] 0 p, foldl (fun w c => fd_destroy (pc_fd c) w) w (idle_ p)).

Definition idle_count (p : UpstreamPool) : Z := len (idle_ p).
Definition total_count (p : UpstreamPool) : Z := total_ p.

(** ** PoolManager *)

Record PoolManager := mkPoolManager {
  pools_ : gmap bytes UpstreamPool;
  pm_cfg_ : PoolConfig;
}.

Definition PoolManager_make (cfg : PoolConfig) : PoolManager := mkPoolManager ∅ cfg.

(** [get(ep)]: the pool is found by the endpoint's name; the result is the
    key of the pool, the reference the code returns. *)
Definition pool_get (i : nat) (ep : UpstreamEndpoint) (pm : PoolManager) : bytes * PoolManager :=
  (name ep,
   match pools_ pm !! name ep with
   | Some _ => pm
   | None => mkPoolManager (<[name ep := UpstreamPool_make i (pm_cfg_ pm)]> (pools_ pm)) (pm_cfg_ pm)
   end).

(** [tick]: every pool evicts; the order of an [unordered_map] is
    unspecified, here it is that of [map_to_list]. *)
Definition pool_tick (ts_ms : Z) (pm : PoolManager) (w : World) : PoolManager * World :=
  foldl (fun '(pm, w) '(k, p) =>
           let '(p', w') := evict_idle ts_ms p w in
           (mkPoolManager (<[k := p']> (pools_ pm)) (pm_cfg_ pm), w'))
        (pm, w) (map_to_list (pools_ pm)).
