(* ===== verification/UpstreamPoolProofs.v ===== *)
(** * Correctness of the connection pool

    The count the pool keeps against the connections that exist, over every
    interleaving of critical sections; what eviction does; that a failed
    connect leaks no descriptor; and two situations in which the count no
    longer describes the connections. *)

From stdpp Require Import prelude gmap relations.
From S2P Require Import Prelude Result CxxString Config LoadBalancer World Fd UpstreamPool.

(** ** Threads between critical sections *)

(** A pool together with the connections threads hold, the number of threads
    that are connecting, and the connections that were given up without
    telling the pool ([release(nullptr)], the error path of the proxy). *)
Record PoolSys := mkPS {
  ps_pool : UpstreamPool;
  leased : list PooledConn;
  connecting : nat;
  lost : nat;
}.

(** Two records of the same connection: the holder may have counted requests. *)
Definition same_conn (c c' : PooledConn) : Prop := pc_fd c = pc_fd c'.

Inductive pool_step : PoolSys -> PoolSys -> Prop :=
  | StepTake p p' c ls k d :
      acquire_begin p = (Took c, p') -> pool_step (mkPS p ls k d) (mkPS p' (c :: ls) k d)
  | StepWaitTake p p' c ls k d :
      acquire_after_wait p = (Ok c, p') -> pool_step (mkPS p ls k d) (mkPS p' (c :: ls) k d)
  | StepConnectBegin p p' ls k d :
      acquire_begin p = (MustConnect, p') -> pool_step (mkPS p ls k d) (mkPS p' ls (S k) d)
  | StepConnectOk p c ls k d :
      pool_step (mkPS p ls (S k) d) (mkPS p (c :: ls) k d)
  | StepConnectFail p ls k d :
      pool_step (mkPS p ls (S k) d) (mkPS (acquire_failed p) ls k d)
  | StepRelease p p' c c' ls1 ls2 k d w w' :
      same_conn c c' -> release (Some c') p w = (p', w') ->
      pool_step (mkPS p (ls1 ++ c :: ls2) k d) (mkPS p' (ls1 ++ ls2) k d)
  | StepEvict p p' ts ls k d w w' :
      evict_idle ts p w = (p', w') -> pool_step (mkPS p ls k d) (mkPS p' ls k d)
  | StepLose p p' c ls1 ls2 k d w w' :
      release None p w = (p', w') ->
      pool_step (mkPS p (ls1 ++ c :: ls2) k d) (mkPS p' (ls1 ++ ls2) k (S d)).

Definition pool_start (i : nat) (cfg : PoolConfig) : PoolSys := mkPS (UpstreamPool_make i cfg) [] 0 0.

(** The count is the number of connections somewhere, and respects the
    configured maximum. *)
Definition pool_inv (s : PoolSys) : Prop :=
  total_ (ps_pool s) =
    len (idle_ (ps_pool s)) + len (leased s) + Z.of_nat (connecting s) + Z.of_nat (lost s) /\
  total_ (ps_pool s) <= max_conns_per_upstream (cfg_ (ps_pool s)) <= UINT32_MAX.

(** ** Lemmas on the operations *)

Lemma evict_loop_spec cfg ts cs total w kept total' w' :
  len cs <= total <= UINT32_MAX -> evict_loop cfg ts cs total w = (kept, total', w') ->
  kept = filter (fun c => expired cfg ts c = false) cs /\
  total' = total - (len cs - len kept) /\ len kept <= len cs.
Proof.
  revert total w kept total' w'; induction cs as [|c cs IH]; intros total w kept total' w' Ht E; cbn in E.
  { simplify_eq. split_and!; [done|unfold len; cbn; lia|done]. }
  rewrite len_cons in *. unfold UINT32_MAX in *. pose proof (len_nonneg cs).
  rewrite filter_cons. destruct (expired cfg ts c).
  - rewrite decide_False by done. rewrite u32_small in E by lia.
    apply IH in E as (-> & -> & Hl); [|lia]. split_and!; [done|lia|lia].
  - destruct (evict_loop cfg ts cs total w) as [[kept1 t1] w1] eqn:E1. simplify_eq.
    apply IH in E1 as (-> & -> & Hl); [|lia]. rewrite decide_True by done.
    rewrite len_cons. split_and!; [done|lia|lia].
Qed.

Lemma evict_idle_spec ts p w p' w' :
  len (idle_ p) <= total_ p <= UINT32_MAX -> evict_idle ts p w = (p', w') ->
  idle_ p' = filter (fun c => expired (cfg_ p) ts c = false) (idle_ p) /\
  total_ p' = total_ p - (len (idle_ p) - len (idle_ p')) /\ cfg_ p' = cfg_ p /\
  len (idle_ p') <= len (idle_ p).
Proof.
  intros Ht E. unfold evict_idle in E.
  destruct (evict_loop (cfg_ p) ts (idle_ p) (total_ p) w) as [[kept t] w1] eqn:E1. simplify_eq. cbn.
  destruct (evict_loop_spec _ _ _ _ _ _ _ _ Ht E1) as (-> & -> & ?). done.
Qed.

Lemma release_spec c p w p' w' :
  release (Some c) p w = (p', w') -> 1 <= total_ p <= UINT32_MAX ->
  cfg_ p' = cfg_ p /\
  ((worn_out (cfg_ p) c = true /\ idle_ p' = idle_ p /\ total_ p' = total_ p - 1) \/
   (worn_out (cfg_ p) c = false /\ (exists now, idle_ p' = idle_ p ++ [returned now c]) /\
    total_ p' = total_ p)).
Proof.
  unfold release, UINT32_MAX. intros E Ht. destruct (sys_now_ms w) as [now w1].
  change (worn_out (cfg_ p) (returned now c)) with (worn_out (cfg_ p) c) in E.
  destruct (worn_out (cfg_ p) c) eqn:Ew; simplify_eq; cbn; split; try done.
  - left. rewrite u32_small by lia. done.
  - right. eauto.
Qed.

Lemma pool_step_inv s s' : pool_inv s -> pool_step s s' -> pool_inv s'.
Proof.
  intros Hi Hs. pose proof (len_nonneg (idle_ (ps_pool s))). pose proof (len_nonneg (leased s)).
  destruct Hs as [p p' c ls k d E|p p' c ls k d E|p p' ls k d E|p c ls k d|p ls k d
    |p p' c c' ls1 ls2 k d w w' Hsame E|p p' ts ls k d w w' E|p p' c ls1 ls2 k d w w' E];
    unfold pool_inv, UINT32_MAX in *; cbn in *.
  - unfold acquire_begin in E. destruct (idle_ p); [by destruct (_ <=? _) in E|].
    simplify_eq. cbn. rewrite !len_cons in *. lia.
  - unfold acquire_after_wait in E. destruct (idle_ p); simplify_eq. cbn. rewrite !len_cons in *. lia.
  - unfold acquire_begin in E. destruct (idle_ p) eqn:Ei; [|done].
    destruct (Z.leb_spec (max_conns_per_upstream (cfg_ p)) (total_ p)); simplify_eq. cbn.
    rewrite u32_small by lia. rewrite len_nil in *. lia.
  - rewrite len_cons. lia.
  - rewrite u32_small by lia. lia.
  - autorewrite with uplen in *. pose proof (len_nonneg ls1). pose proof (len_nonneg ls2).
    apply release_spec in E as [-> [(_ & -> & ->)|(_ & [now ->] & ->)]]; [..|unfold UINT32_MAX; lia]; autorewrite with uplen; lia.
  - apply evict_idle_spec in E as (_ & -> & -> & ?); [|unfold UINT32_MAX; lia]. lia.
  - simplify_eq. autorewrite with uplen in *. lia.
Qed.

Lemma pool_reachable_inv i cfg s :
  0 <= max_conns_per_upstream cfg <= UINT32_MAX ->
  rtc pool_step (pool_start i cfg) s -> pool_inv s.
Proof.
  intros Hm Hr. assert (Hi : pool_inv (pool_start i cfg)) by (unfold pool_inv, len; cbn; lia).
  revert Hi. induction Hr; eauto using pool_step_inv.
Qed.

Lemma pool_step_cfg s s' : pool_step s s' -> cfg_ (ps_pool s') = cfg_ (ps_pool s).
Proof.
  destruct 1 as [p p' c ls k d E|p p' c ls k d E|p p' ls k d E|p c ls k d|p ls k d
    |p p' c c' ls1 ls2 k d w w' Hsame E|p p' ts ls k d w w' E|p p' c ls1 ls2 k d w w' E]; cbn; try done.
  - unfold acquire_begin in E. destruct (idle_ p); [by destruct (_ <=? _) in E|by simplify_eq].
  - unfold acquire_after_wait in E. by destruct (idle_ p); simplify_eq.
  - unfold acquire_begin in E. destruct (idle_ p); [|done]. destruct (_ <=? _); by simplify_eq.
  - cbn in E. destruct (sys_now_ms w). destruct (worn_out _ _); by simplify_eq.
  - unfold evict_idle in E. destruct (evict_loop _ _ _ _ _) as [[??]?]. by simplify_eq.
  - cbn in E. by simplify_eq.
Qed.

Lemma pool_reachable_cfg s0 s : rtc pool_step s0 s -> cfg_ (ps_pool s) = cfg_ (ps_pool s0).
Proof. induction 1 as [|x y z Hs _ IH]; [done|]. rewrite IH. by apply pool_step_cfg. Qed.

(** ** Descriptors of a connect attempt *)

(** A computation that makes calls but no close. *)
Definition is_close (c : Syscall) : bool := match c with SysClose _ => true | _ => false end.
Definition no_close (cs : list Syscall) : Prop := Forall (fun c => is_close c = false) cs.

Definition closeless {A} (m : M World A) : Prop :=
  forall w r w', m w = (r, w') -> exists cs, new_calls w w' cs /\ no_close cs.

Lemma no_close_app a b : no_close a -> no_close b -> no_close (a ++ b).
Proof. intros. by apply Forall_app. Qed.

Lemma sys_calls_made c w r w' : sys c w = (r, w') -> new_calls w w' [c].
Proof. intros E. unfold new_calls. pose proof (sys_trace c w). by rewrite E in H. Qed.

Lemma closeless_bind {A B} (m : M World A) (k : A -> M World B) :
  closeless m -> (forall a, closeless (k a)) -> closeless (bind m k).
Proof.
  intros Hm Hk w r w' E. unfold bind in E. destruct (m w) as [[a|e] w1] eqn:E1.
  - destruct (Hm _ _ _ E1) as (c1 & H1 & N1). destruct (Hk a _ _ _ E) as (c2 & H2 & N2).
    exists (c1 ++ c2). split; [by eapply new_calls_trans|by apply no_close_app].
  - simplify_eq. by eapply Hm.
Qed.

(** Follow the calls of a computation that branches on their answers. *)
Ltac closeless_tac :=
  repeat match goal with
  | H : (let '(_, _) := sys ?c ?w in _) = _ |- _ =>
      let E := fresh "E" in destruct (sys c w) eqn:E; apply sys_calls_made in E
  | H : (if ?b then _ else _) = _ |- _ => destruct b
  end; simplify_eq;
  eexists; (split;
  [repeat (first [eassumption | eapply new_calls_trans; [eassumption|]]); apply new_calls_refl
  |repeat (apply Forall_nil_2 || (apply Forall_cons; split; [reflexivity|]))]).

Lemma set_nonblocking_closeless u : closeless (set_nonblocking u).
Proof. intros w r w' E. unfold set_nonblocking in E. closeless_tac. Qed.

Lemma set_nodelay_closeless u : closeless (set_nodelay u).
Proof. intros w r w' E. unfold set_nodelay in E. closeless_tac. Qed.

Lemma await_connect_closeless u t : closeless (await_connect u t).
Proof. intros w r w' E. unfold await_connect in E. closeless_tac. Qed.

Lemma connect_socket_closeless ip u a p t : closeless (connect_socket ip u a p t).
Proof.
  unfold connect_socket. apply closeless_bind; [apply set_nonblocking_closeless|intros _].
  apply closeless_bind.
  { intros w r w' E. destruct (set_nodelay u w) as [r1 w1] eqn:E1. cbn in E. simplify_eq.
    by apply set_nodelay_closeless in E1. }
  intros _ w r w' E. destruct (negb (ip a)).
  { unfold fail_with in E. simplify_eq. exists []. split; [apply new_calls_refl|constructor]. }
  destruct (sys (SysConnect (fd_ u) a p) w) as [r1 w1] eqn:E1. apply sys_calls_made in E1.
  destruct (_ && _); [simplify_eq; exists [SysConnect (fd_ u) a p]; split; [done|]; by repeat constructor|].
  destruct (_ <? _); [|simplify_eq; exists [SysConnect (fd_ u) a p]; split; [done|]; by repeat constructor].
  apply await_connect_closeless in E as (cs & H2 & N2). eexists. split; [by eapply new_calls_trans|].
  by constructor.
Qed.

(** ** Properties *)

(** (C13) The pool's books balance.  In every state reachable from an empty
    pool by any interleaving of acquire, connect, release and eviction steps
    of any number of threads, [total_] is exactly the number of idle
    connections, of connections in use, of connects in progress and of
    connections abandoned through [release(nullptr)], and it never exceeds
    the configured maximum. *)
Theorem pool_accounting (i : nat) (cfg : PoolConfig) (s : PoolSys) :
  0 <= max_conns_per_upstream cfg <= UINT32_MAX ->
  rtc pool_step (pool_start i cfg) s ->
  total_count (ps_pool s) =
    idle_count (ps_pool s) + len (leased s) + Z.of_nat (connecting s) + Z.of_nat (lost s) /\
  total_count (ps_pool s) <= max_conns_per_upstream cfg.
Proof.
  intros Hm Hr. pose proof (pool_reachable_inv i cfg s Hm Hr) as [H1 H2].
  pose proof (pool_reachable_cfg _ _ Hr) as Hc. rewrite Hc in H2. split; [exact H1|exact (proj1 H2)].
Qed.

Definition demo_cfg : PoolConfig := mkPoolConfig 1 5000 60000 1000.
Definition demo_conn : PooledConn := mkPooledConn (mkUniquefd 7) true 0 100 100.

Lemma demo_lost_reachable :
  rtc pool_step (pool_start 0 demo_cfg) (mkPS (mkUpstreamPool 0 demo_cfg [] 1) [] 0 1).
Proof.
  set (p1 := mkUpstreamPool 0 demo_cfg [] 1).
  eapply rtc_l; [by apply StepConnectBegin|].
  eapply rtc_l; [apply (StepConnectOk p1 demo_conn)|].
  eapply rtc_l; [apply (StepLose p1 p1 demo_conn [] [] 0 0 (mkWorld [] []) (mkWorld [] [])); reflexivity|].
  apply rtc_refl.
Qed.

Lemma pool_accounting_witness :
  total_count (ps_pool (mkPS (mkUpstreamPool 0 demo_cfg [] 1) [] 0 1)) = 0 + 0 + 0 + 1.
Proof.
  exact (proj1 (pool_accounting 0 demo_cfg _ ltac:(vm_compute; intuition discriminate) demo_lost_reachable)).
Defined.

(** (C32) Connections abandoned with [release(nullptr)] are never given back:
    once as many have been abandoned as the pool may hold, the pool is
    exhausted for good.  Every later [acquire] reports [Timeout] after its
    wait, makes no call, and changes nothing; eviction changes nothing. *)
Theorem pool_exhausted_for_good (inet_pton : bytes -> bool) (i : nat) (cfg : PoolConfig) (s : PoolSys)
    (w : World) (ep : UpstreamEndpoint) (ts : Z) :
  0 <= max_conns_per_upstream cfg <= UINT32_MAX ->
  rtc pool_step (pool_start i cfg) s ->
  Z.of_nat (lost s) = max_conns_per_upstream cfg ->
  acquire inet_pton id (mkAcquire w ep (ps_pool s)) =
    (Err (from_code Timeout_ (str "upstream pool exhausted")), mkAcquire w ep (ps_pool s)) /\
  evict_idle ts (ps_pool s) w = (ps_pool s, w).
Proof.
  intros Hm Hr Hl. pose proof (pool_reachable_inv i cfg s Hm Hr) as [H1 H2].
  pose proof (pool_reachable_cfg _ _ Hr) as Hc. rewrite Hc in H2. cbn in H2.
  pose proof (len_nonneg (idle_ (ps_pool s))). pose proof (len_nonneg (leased s)).
  assert (Hi : idle_ (ps_pool s) = []) by (apply len_0_nil; lia).
  assert (Ht : total_ (ps_pool s) = max_conns_per_upstream cfg) by lia.
  destruct (ps_pool s) as [e c idle t]. cbn in Hc, Hi, Ht. subst idle c. split.
  - unfold acquire, acquire_begin. cbn. destruct (Z.leb_spec (max_conns_per_upstream cfg) t); [|lia].
    done.
  - unfold evict_idle. cbn. done.
Qed.

Lemma pool_exhausted_for_good_witness :
  (acquire (fun _ => true) id
     (mkAcquire (mkWorld [] []) (mkUpstreamEndpoint (str "127.0.0.1") 3000 1 (str "b") true 0 0 0)
        (mkUpstreamPool 0 demo_cfg [] 1))).1
  = Err (from_code Timeout_ (str "upstream pool exhausted")).
Proof.
  assert (H := pool_exhausted_for_good (fun _ => true) 0 demo_cfg _ (mkWorld [] [])
    (mkUpstreamEndpoint (str "127.0.0.1") 3000 1 (str "b") true 0 0 0) 0
    ltac:(vm_compute; intuition discriminate) demo_lost_reachable eq_refl).
  cbn [ps_pool] in H. rewrite (proj1 H). reflexivity.
Defined.

(** (C33) A connect attempt leaks no descriptor.  The first call asks for a
    socket; let [answer] be the answer to it.  If [new_connection] succeeds,
    that call has returned a descriptor, the connection owns it, and no call of
    the attempt has closed anything.  If it fails although there was a socket,
    the last calls close that socket (again only when the closing was
    interrupted), and nothing else was closed.  If there was no socket it
    fails without another call. *)
Theorem new_connection_no_leak (inet_pton : bytes -> bool) (ep : UpstreamEndpoint) (cfg : PoolConfig) (w : World) :
  let answer := default sys_failure (head (script w)) in
  let '(r, w') := new_connection inet_pton ep cfg w in
  exists cs, new_calls w w' (SysSocket :: cs) /\
    match r with
    | Ok c => pc_fd c = mkUniquefd (sr_ret answer) /\ 0 <= sr_ret answer /\ no_close cs
    | Err _ =>
        if 0 <=? sr_ret answer
        then exists pre n, cs = pre ++ replicate (S n) (SysClose (sr_ret answer)) /\ no_close pre
        else cs = []
    end.
Proof.
  intros answer. unfold new_connection. destruct (sys SysSocket w) as [r w1] eqn:E1.
  assert (Hr : answer = r) by (apply sys_ran in E1 as [_ [Hh|[Hn ->]]]; unfold answer; [by rewrite Hh|by rewrite Hn]).
  clearbody answer. subst answer. apply sys_calls_made in E1. unfold fd_valid. cbn [fd_]. destruct (0 <=? sr_ret r) eqn:Ev; cbn [negb].
  2: { exists []. done. }
  destruct (connect_socket _ _ _ _ _ w1) as [[[]|e] w2] eqn:E2;
    apply connect_socket_closeless in E2 as (c2 & H2 & N2).
  - unfold sys_now_ms. destruct (sys SysClock w2) as [r3 w3] eqn:E3. apply sys_calls_made in E3. cbn.
    exists (c2 ++ [SysClock]). split_and!; [|done|lia|by apply no_close_app; [|repeat constructor]].
    exact (new_calls_trans _ _ _ _ _ E1 (new_calls_trans _ _ _ _ _ H2 E3)).
  - destruct (fd_destroy_trace (mkUniquefd (sr_ret r)) w2) as (c3 & H3 & [[_ Hf]|(n & -> & _)]);
      [unfold fd_valid in Hf; cbn in Hf; congruence|].
    exists (c2 ++ replicate (S n) (SysClose (sr_ret r))). split; [|by exists c2, n].
    exact (new_calls_trans _ _ _ _ _ E1 (new_calls_trans _ _ _ _ _ H2 H3)).
Qed.

(** The socket 9 is opened, and the connection is refused. *)
Lemma new_connection_no_leak_witness :
  let answers := [mkSys 9 0 0 []; mkSys 0 0 0 []; mkSys 0 0 0 []; mkSys 0 0 0 []; mkSys (-1) EIO 0 []; mkSys 0 0 0 []] in
  let ep := mkUpstreamEndpoint (str "127.0.0.1") 3000 1 (str "b") true 0 0 0 in
  let '(r, w') := new_connection (fun _ => true) ep demo_cfg (mkWorld [] answers) in
  is_err r = true /\ exists pre n, trace w' = SysSocket :: pre ++ replicate (S n) (SysClose 9) /\ no_close pre.
Proof.
  intros answers ep. pose proof (new_connection_no_leak (fun _ => true) ep demo_cfg (mkWorld [] answers)) as H. cbv zeta in H.
  destruct (new_connection (fun _ => true) ep demo_cfg (mkWorld [] answers)) as [r w'] eqn:E.
  assert (Hr : is_err r = true) by (change r with (fst (r, w')); rewrite <- E; vm_compute; reflexivity).
  split; [exact Hr|]. destruct H as (cs & Ht & Hc). destruct r as [c|e]; [discriminate Hr|].
  destruct Hc as (pre & n & -> & Hn). exists pre, n. split; [exact Ht|exact Hn].
Defined.

(** Eviction, exactly: the connections that stay are those not idle
    longer than the timeout, in order; the count drops by the number removed;
    the configuration and the connections in use are untouched. *)
Theorem evict_idle_exact (ts : Z) (p : UpstreamPool) (w : World) :
  idle_count p <= total_count p <= UINT32_MAX ->
  let p' := (evict_idle ts p w).1 in
  idle_ p' = filter (fun c => expired (cfg_ p) ts c = false) (idle_ p) /\
  total_count p' - idle_count p' = total_count p - idle_count p /\
  cfg_ p' = cfg_ p /\ endpoint_ p' = endpoint_ p.
Proof.
  intros Ht p'. destruct (evict_idle ts p w) as [q w'] eqn:E.
  pose proof (evict_idle_spec _ _ _ _ _ Ht E) as (H1 & H2 & H3 & _). unfold p'. cbn.
  split_and!; [exact H1|unfold total_count, idle_count in *; lia|exact H3|].
  clear -E. unfold evict_idle in E. destruct (evict_loop _ _ _ _ _) as [[??]?]. injection E as <- _. done.
Qed.

Definition demo_pool : UpstreamPool :=
  mkUpstreamPool 0 PoolConfig_default
    [mkPooledConn (mkUniquefd 5) false 3 0 1000; mkPooledConn (mkUniquefd 6) false 1 0 50000] 2.

Lemma evict_idle_exact_witness :
  idle_ (evict_idle 61001 demo_pool (mkWorld [] [])).1 = [mkPooledConn (mkUniquefd 6) false 1 0 50000].
Proof.
  assert (H := evict_idle_exact 61001 demo_pool (mkWorld [] []) ltac:(vm_compute; intuition discriminate)).
  rewrite (proj1 H). vm_compute. reflexivity.
Defined.

(** [drain()] forgets the connections in use: when one of them later
    comes back worn out, the count of a drained pool wraps to [UINT32_MAX],
    and from then on an empty pool refuses to open connections. *)
Theorem drain_then_release_wraps (p : UpstreamPool) (c : PooledConn) (w : World) :
  worn_out (cfg_ p) c = true -> max_conns_per_upstream (cfg_ p) <= UINT32_MAX ->
  let '(p1, w1) := drain p w in
  let '(p2, w2) := release (Some c) p1 w1 in
  total_count p2 = UINT32_MAX /\ (acquire_begin p2).1 = MustWait.
Proof.
  intros Hw Hm. unfold drain, release, with_pool, acquire_begin, total_count.
  destruct (sys_now_ms _) as [now w1]. cbn [cfg_ idle_ total_].
  change (worn_out (cfg_ p) (returned now c)) with (worn_out (cfg_ p) c). rewrite Hw.
  change (u32 (0 - 1)) with UINT32_MAX. cbn [cfg_ idle_ total_]. split; [done|].
  destruct (Z.leb_spec (max_conns_per_upstream (cfg_ p)) UINT32_MAX); [done|lia].
Qed.

Lemma drain_then_release_wraps_witness :
  let c := mkPooledConn (mkUniquefd 9) true 1000 0 0 in
  let '(p1, w1) := drain demo_pool (mkWorld [] []) in
  total_count (release (Some c) p1 w1).1 = 4294967295.
Proof.
  assert (H := drain_then_release_wraps demo_pool (mkPooledConn (mkUniquefd 9) true 1000 0 0) (mkWorld [] [])
    eq_refl ltac:(vm_compute; discriminate)).
  cbv zeta. destruct (drain demo_pool (mkWorld [] [])) as [p1 w1].
  destruct (release _ p1 w1) as [p2 w2]. exact (proj1 H).
Defined.
