(* ===== verification/Http1.v ===== *)
(** * HTTP/1.1 messages (src/src/http1.cpp, src/include/uproxy/http1.h)

    The parser fills a caller-supplied message, so it returns the message
    together with its verdict: on an error the fields assigned before the
    error keep their new values, as in the code. *)

From stdpp Require Import prelude.
From S2P Require Import Prelude Result CxxString Buffer.

Record HttpHeader := mkHeader { h_name : bytes; h_value : bytes }.

Record HttpRequest := mkRequest {
  req_method : bytes;
  req_target : bytes;
  req_version : bytes;
  req_headers : list HttpHeader;
  req_keep_alive : bool;
  req_content_length : Z;     (* uint64_t *)
  req_chunked : bool;
  req_header_bytes : Z;       (* size_t *)
}.

Record HttpResponse := mkResponse {
  resp_status : Z;            (* int *)
  resp_reason : bytes;
  resp_headers : list HttpHeader;
  resp_content_length : Z;
  resp_chunked : bool;
  resp_header_bytes : Z;
}.

Definition HttpRequest_default : HttpRequest := mkRequest [] [] [] [] true 0 false 0.
Definition HttpResponse_default : HttpResponse := mkResponse 200 (str "OK") [] 0 false 0.

Definition HTTP1_MAX_METHOD_LEN : Z := 16.
Definition HTTP1_MAX_TARGET_LEN : Z := 8192.
Definition HTTP1_MAX_HEADER_NAME : Z := 256.
Definition HTTP1_MAX_HEADER_VALUE : Z := 8192.
Definition HTTP1_MAX_HEADER_COUNT : Z := 100.
Definition HTTP1_MAX_HEADER_BYTES : Z := 65536.

Inductive ParseResult := Complete | Incomplete | PError.

#[global] Instance ParseResult_eq_dec : EqDecision ParseResult.
Proof. solve_decision. Defined.

(** ** Characters and values *)

Definition token_extra : bytes := str "!#$%&'*+-.^_`|~".

Definition is_token_char (c : byte) : bool :=
  isalnum c || existsb (Byte.eqb c) token_extra.

Definition lower (s : bytes) : bytes := map tolower s.

Definition is_ows (c : byte) : bool := Byte.eqb c SP || Byte.eqb c HTAB.

Fixpoint drop_ows (s : bytes) : bytes :=
  match s with
  | c :: s' => if is_ows c then drop_ows s' else s
  | [] => []
  end.

(** [remove_prefix] while the front is blank, then [remove_suffix]. *)
Definition trim_ows (s : bytes) : bytes := reverse (drop_ows (reverse (drop_ows s))).

Definition valid_value_char (c : byte) : bool :=
  negb (Byte.eqb c CR || Byte.eqb c LF) && negb ((b2z c <? 32) && negb (Byte.eqb c HTAB)).

Definition valid_header_value (v : bytes) : bool := forallb valid_value_char v.

(** The scan for a line feed that no carriage return precedes. *)
Fixpoint has_bare_lf (prev : option byte) (s : bytes) : bool :=
  match s with
  | [] => false
  | c :: s' =>
      (Byte.eqb c LF && match prev with Some p => negb (Byte.eqb p CR) | None => true end)
      || has_bare_lf (Some c) s'
  end.

(** ** parse_headers *)

(** The pair of pointers [req], [resp] of which the callers set one. *)
Inductive Msg :=
  | MReq (r : HttpRequest)
  | MResp (r : HttpResponse)
  | MNone.

(** The request line, [start]. *)
Definition parse_request_line (start : bytes) : option (bytes * bytes * bytes) :=
  match find_char SP start with
  | None => None
  | Some sp1 =>
      match find_char_from SP start (sp1 + 1) with
      | None => None
      | Some sp2 =>
          if bool_decide (find_char_from SP start (sp2 + 1) <> None) then None
          else
            let method := substr start 0 sp1 in
            let target := substr start (sp1 + 1) (sp2 - sp1 - 1) in
            let version := drop (sp2 + 1) start in
            if (len method =? 0) || (HTTP1_MAX_METHOD_LEN <? len method)
               || negb (forallb is_token_char method) then None
            else if (len target =? 0) || (HTTP1_MAX_TARGET_LEN <? len target)
                    || (negb (bool_decide (version = str "HTTP/1.1"))
                        && negb (bool_decide (version = str "HTTP/1.0"))) then None
            else Some (method, target, version)
      end
  end.

(** The status line: status code and reason. *)
Definition parse_status_line (start : bytes) : option (Z * bytes) :=
  if negb (starts_with (str "HTTP/") start) || (len start <? 12) then None
  else
    let code := substr start 9 3 in
    match whole_number (from_chars_int code) code with
    | None => None
    | Some status => Some (status, if 13 <? len start then drop 13 start else [])
    end.

(** The message after its first line: [None] is [ParseResult::Error]. *)
Definition parse_start (start : bytes) (header_bytes : Z) (m : Msg) : option Msg :=
  match m with
  | MReq _ =>
      match parse_request_line start with
      | None => None
      | Some (method, target, version) =>
          Some (MReq (mkRequest method target version [] (bool_decide (version = str "HTTP/1.1"))
                        0 false header_bytes))
      end
  | MResp _ =>
      match parse_status_line start with
      | None => None
      | Some (status, reason) => Some (MResp (mkResponse status reason [] 0 false header_bytes))
      end
  | MNone => None
  end.

Definition msg_headers (m : Msg) : list HttpHeader :=
  match m with MReq r => req_headers r | MResp r => resp_headers r | MNone => [] end.

Definition msg_chunked (m : Msg) : bool :=
  match m with MReq r => req_chunked r | MResp r => resp_chunked r | MNone => false end.

Definition push_header (h : HttpHeader) (m : Msg) : Msg :=
  match m with
  | MReq r => MReq (mkRequest (req_method r) (req_target r) (req_version r) (req_headers r ++ [h])
                      (req_keep_alive r) (req_content_length r) (req_chunked r) (req_header_bytes r))
  | MResp r => MResp (mkResponse (resp_status r) (resp_reason r) (resp_headers r ++ [h])
                        (resp_content_length r) (resp_chunked r) (resp_header_bytes r))
  | MNone => MNone
  end.

Definition set_chunked (m : Msg) : Msg :=
  match m with
  | MReq r => MReq (mkRequest (req_method r) (req_target r) (req_version r) (req_headers r)
                      (req_keep_alive r) (req_content_length r) true (req_header_bytes r))
  | MResp r => MResp (mkResponse (resp_status r) (resp_reason r) (resp_headers r)
                        (resp_content_length r) true (resp_header_bytes r))
  | MNone => MNone
  end.

(** [req->keep_alive = false]; a response has no such field. *)
Definition set_close (m : Msg) : Msg :=
  match m with
  | MReq r => MReq (mkRequest (req_method r) (req_target r) (req_version r) (req_headers r)
                      false (req_content_length r) (req_chunked r) (req_header_bytes r))
  | m => m
  end.

Definition set_content_length (n : Z) (m : Msg) : Msg :=
  match m with
  | MReq r => MReq (mkRequest (req_method r) (req_target r) (req_version r) (req_headers r)
                      (req_keep_alive r) n (req_chunked r) (req_header_bytes r))
  | MResp r => MResp (mkResponse (resp_status r) (resp_reason r) (resp_headers r)
                        n (resp_chunked r) (resp_header_bytes r))
  | MNone => MNone
  end.

(** The locals of the header loop: the message, [saw_content_length] and
    [content_length]. *)
Record HState := mkHState { hs_msg : Msg; hs_saw : bool; hs_cl : Z }.

(** A header line split into name and value: every check up to the header
    count. *)
Definition split_header (line : bytes) : option HttpHeader :=
  if match line with c :: _ => is_ows c | [] => false end then None
  else
    match find_char Byte.x3a line with               (* ':' *)
    | None => None
    | Some colon =>
        if (colon =? 0)%nat then None
        else if match line !! (colon - 1)%nat with Some c => is_ows c | None => false end then None
        else
          let name := substr line 0 colon in
          if (HTTP1_MAX_HEADER_NAME <? len name) || negb (forallb is_token_char name) then None
          else
            let value := trim_ows (drop (colon + 1) line) in
            if (HTTP1_MAX_HEADER_VALUE <? len value) || negb (valid_header_value value) then None
            else Some (mkHeader name value)
    end.

(** What a header means to the framing: the part of the loop body after the
    count check.  [None] is [ParseResult::Error]. *)
Definition apply_header (h : HttpHeader) (s : HState) : option HState :=
  let lname := lower (h_name h) in
  if bool_decide (lname = str "content-length") then
    match whole_number (from_chars 10 UINT64_MAX (h_value h)) (h_value h) with
    | None => None
    | Some parsed =>
        if hs_saw s && negb (parsed =? hs_cl s) then None
        else Some (mkHState (push_header h (hs_msg s)) true parsed)
    end
  else if bool_decide (lname = str "transfer-encoding")
          && bool_decide (find_sub (str "chunked") (lower (h_value h)) <> None) then
    Some (mkHState (push_header h (set_chunked (hs_msg s))) (hs_saw s) (hs_cl s))
  else if bool_decide (lname = str "connection") then
    Some (mkHState (push_header h
           (if bool_decide (find_sub (str "close") (lower (h_value h)) <> None)
            then set_close (hs_msg s) else hs_msg s)) (hs_saw s) (hs_cl s))
  else Some (mkHState (push_header h (hs_msg s)) (hs_saw s) (hs_cl s)).

(** One header line of the loop. *)
Definition header_line (line : bytes) (s : HState) : option HState :=
  match split_header line with
  | None => None
  | Some h =>
      if HTTP1_MAX_HEADER_COUNT <=? len (msg_headers (hs_msg s)) then None
      else apply_header h s
  end.

(** [while (pos < header_block.size())]: [rest] is the block from [pos] on.
    The left result is an error with the message as it stands. *)
Fixpoint header_loop (fuel : nat) (rest : bytes) (s : HState) : Msg + HState :=
  match fuel with
  | O => inr s
  | S fuel' =>
      if len rest =? 0 then inr s
      else
        match find_sub CRLF rest with
        | None => inr s
        | Some next =>
            if (next =? 0)%nat then inr s
            else
              match header_line (take next rest) s with
              | None => inl (hs_msg s)
              | Some s' => header_loop fuel' (drop (next + 2) rest) s'
              end
        end
  end.

Definition parse_headers (b : bytes) (m : Msg) : ParseResult * Msg :=
  match find_sub (CRLF ++ CRLF) b with
  | None =>
      if (HTTP1_MAX_HEADER_BYTES <? len b) || bool_decide (find_char LF b <> None)
      then (PError, m) else (Incomplete, m)
  | Some end_ =>
      let header_bytes := Z.of_nat end_ + 4 in
      if HTTP1_MAX_HEADER_BYTES <? header_bytes then (PError, m)
      else
        let block := take (end_ + 2) b in
        if has_bare_lf None block then (PError, m)
        else
          match find_sub CRLF block with
          | None => (Incomplete, m)
          | Some line_end =>
              match parse_start (take line_end block) header_bytes m with
              | None => (PError, m)
              | Some m =>
                  let rest := drop (line_end + 2) block in
                  match header_loop (length rest) rest (mkHState m false 0) with
                  | inl m => (PError, m)
                  | inr s =>
                      if msg_chunked (hs_msg s) && hs_saw s then (PError, hs_msg s)
                      else (Complete, set_content_length (hs_cl s) (hs_msg s))
                  end
              end
          end
  end.

(** ** Parser and serializer on a buffer *)

Section OnBuffer.
Context {B : Type} `{BufferOps B}.

Definition parse_window (buf : B) : bytes :=
  buf_peek buf (Z.min (buf_readable buf) (HTTP1_MAX_HEADER_BYTES + 1)).

Definition parse_request (buf : B) (req : HttpRequest) : ParseResult * HttpRequest :=
  match parse_headers (parse_window buf) (MReq req) with
  | (r, MReq q) => (r, q)
  | (r, _) => (r, req)
  end.

Definition parse_response (buf : B) (resp : HttpResponse) : ParseResult * HttpResponse :=
  match parse_headers (parse_window buf) (MResp resp) with
  | (r, MResp q) => (r, q)
  | (r, _) => (r, resp)
  end.

(** The chunk size, or -1, and the buffer after consuming the line. *)
Definition parse_chunk_header (buf : B) : Z * B :=
  let sv := buf_peek buf (Z.min (buf_readable buf) 128) in
  match find_sub CRLF sv with
  | None => (-1, buf)
  | Some crlf =>
      let hex := take crlf sv in
      let hex := match find_char Byte.x3b hex with Some semi => take semi hex | None => hex end in
      match whole_number (from_chars 16 UINT64_MAX hex) hex with
      | None => (-1, buf)
      | Some n =>
          if INT64_MAX <? n then (-1, buf)
          else (n, buf_commit_read buf (Z.of_nat crlf + 2))
      end
  end.

Definition hop_by_hop : list bytes :=
  [str "connection"; str "keep-alive"; str "proxy-authenticate"; str "proxy-authorization"; str "te";
   str "trailers"; str "transfer-encoding"; str "upgrade"].

Definition dropped_request_header (n : bytes) : bool :=
  bool_decide (n = str "host") || bool_decide (n ∈ hop_by_hop).

Definition dropped_response_header (n : bytes) : bool := bool_decide (n ∈ hop_by_hop).

Definition header_text (h : HttpHeader) : bytes := h_name h ++ str ": " ++ h_value h ++ CRLF.

(** The header loop of the serializers: the text so far and
    [saw_content_length]. *)
Fixpoint write_headers_loop (dropped : bytes -> bool) (hs : list HttpHeader) (os : bytes) (saw : bool)
    : Result (bytes * bool) :=
  match hs with
  | [] => Ok (os, saw)
  | h :: hs' =>
      let n := lower (h_name h) in
      if dropped n then write_headers_loop dropped hs' os saw
      else
        let saw := if bool_decide (n = str "content-length") then true else saw in
        if negb (valid_header_value (h_value h))
        then Err (from_code HttpMalformed (str "invalid header value"))
        else write_headers_loop dropped hs' (os ++ header_text h) saw
  end.

Definition via_line : bytes := str "Via: 1.1 uproxy" ++ CRLF.

Definition request_text (req : HttpRequest) (host : bytes) : Result bytes :=
  let os := req_method req ++ [SP] ++ req_target req ++ [SP] ++ req_version req ++ CRLF
            ++ str "Host: " ++ host ++ CRLF in
  match write_headers_loop dropped_request_header (req_headers req) os false with
  | Err e => Err e
  | Ok (os, saw) =>
      let os := if (0 <? req_content_length req) && negb saw
                then os ++ str "Content-Length: " ++ to_string (req_content_length req) ++ CRLF
                else os in
      Ok (os ++ via_line ++ CRLF)
  end.

Definition write_request (req : HttpRequest) (host : bytes) : M B unit := fun buf =>
  match request_text req host with
  | Err e => (Err e, buf)
  | Ok os => buf_append os buf
  end.

Definition response_text (resp : HttpResponse) : Result bytes :=
  let os := str "HTTP/1.1 " ++ to_string (resp_status resp) ++ [SP] ++ resp_reason resp ++ CRLF in
  match write_headers_loop dropped_response_header (resp_headers resp) os false with
  | Err e => Err e
  | Ok (os, _) => Ok (os ++ via_line ++ CRLF)
  end.

Definition write_response (resp : HttpResponse) : M B unit := fun buf =>
  match response_text resp with
  | Err e => (Err e, buf)
  | Ok os => buf_append os buf
  end.

(** [snprintf] into 32 bytes. *)
Definition write_chunk_header (chunk_size : Z) : M B unit := fun buf =>
  let text := to_hex chunk_size ++ CRLF in
  if 32 <=? len text then (Err (from_code HttpMalformed (str "chunk too large")), buf)
  else buf_append text buf.

End OnBuffer.

(** ** The cases of tests/test_http1_parser.cpp *)

Definition text_lines (ls : list bytes) : bytes := concat (map (fun l => l ++ CRLF) ls) ++ CRLF.

Example test_request :
  parse_request (text_lines [str "GET /x?q=1 HTTP/1.1"; str "Host: example.com"; str "Connection: close"])
    HttpRequest_default =
  (Complete, mkRequest (str "GET") (str "/x?q=1") (str "HTTP/1.1")
     [mkHeader (str "Host") (str "example.com"); mkHeader (str "Connection") (str "close")]
     false 0 false 61).
Proof. vm_compute. reflexivity. Qed.

Example test_smuggling :
  (parse_request (text_lines [str "POST / HTTP/1.1"; str "Host: x"; str "Content-Length: 1";
     str "Transfer-Encoding: chunked"]) HttpRequest_default).1 = PError.
Proof. vm_compute. reflexivity. Qed.

Example test_bare_lf :
  (parse_request (str "GET / HTTP/1.1" ++ [LF] ++ str "Host: x" ++ [LF; LF]) HttpRequest_default).1 = PError.
Proof. vm_compute. reflexivity. Qed.

Example test_translated :
  exists t, request_text (mkRequest (str "POST") (str "/submit") (str "HTTP/1.1")
     [mkHeader (str "user-agent") (str "uproxy-test")] true 5 false 0) (str "127.0.0.1:3000") = Ok t
  /\ find_sub (str "Content-Length: 5" ++ CRLF) t <> None.
Proof. eexists. split; [vm_compute; reflexivity|]. vm_compute. discriminate. Qed.
