(* ===== verification/Http1Proofs.v ===== *)
(** * Correctness of the HTTP/1.1 parser and serializer

    What an accepted message satisfies, that bytes after the header block do
    not influence it, and that the serialized form of a request is read back
    as that request. *)

From stdpp Require Import prelude.
From S2P Require Import Prelude Result CxxString Buffer BufferProofs Http1.

(** ** Well-formed headers and messages *)

Definition is_content_length (h : HttpHeader) : Prop := lower (h_name h) = str "content-length".

(** The number a header's value denotes, if all of it is a number. *)
Definition cl_value (h : HttpHeader) : option Z :=
  whole_number (from_chars 10 UINT64_MAX (h_value h)) (h_value h).

Definition starts_blank (v : bytes) : bool := match v with c :: _ => is_ows c | [] => false end.

Record header_ok (h : HttpHeader) : Prop := {
  ho_nonempty : h_name h <> [];
  ho_name_len : len (h_name h) <= HTTP1_MAX_HEADER_NAME;
  ho_name : forallb is_token_char (h_name h) = true;
  ho_value_len : len (h_value h) <= HTTP1_MAX_HEADER_VALUE;
  ho_value : valid_header_value (h_value h) = true;
  ho_front : starts_blank (h_value h) = false;
  ho_back : starts_blank (reverse (h_value h)) = false;
}.

(** The locals of the loop describe the headers read so far. *)
Record framing (hs : list HttpHeader) (saw : bool) (cl : Z) : Prop := {
  fr_all h : h ∈ hs -> is_content_length h -> saw = true /\ cl_value h = Some cl;
  fr_saw : saw = true -> exists h, h ∈ hs /\ is_content_length h;
  fr_none : saw = false -> cl = 0;
}.

(** ** Blanks *)

Lemma drop_ows_front s : starts_blank (drop_ows s) = false.
Proof. induction s as [|c s IH]; cbn; [done|]. destruct (is_ows c) eqn:E; [done|by cbn]. Qed.

Lemma drop_ows_suffix s : exists p, s = p ++ drop_ows s.
Proof.
  induction s as [|c s [p IH]]; cbn; [by exists []|].
  destruct (is_ows c); [exists (c :: p); cbn; by f_equal|by exists []].
Qed.

Lemma drop_ows_id s : starts_blank s = false -> drop_ows s = s.
Proof. destruct s as [|c s]; cbn; [done|]. by intros ->. Qed.

Lemma trim_ows_back s : starts_blank (reverse (trim_ows s)) = false.
Proof. unfold trim_ows. rewrite reverse_involutive. apply drop_ows_front. Qed.

(** Removing blanks from the back keeps the front. *)
Lemma trim_ows_front s : starts_blank (trim_ows s) = false.
Proof.
  unfold trim_ows. destruct (drop_ows_suffix (reverse (drop_ows s))) as [p Hp].
  pose proof (drop_ows_front s) as Hf.
  assert (Heq : drop_ows s = reverse (drop_ows (reverse (drop_ows s))) ++ reverse p).
  { rewrite <- (reverse_involutive (drop_ows s)) at 1. rewrite Hp at 1. by rewrite reverse_app. }
  destruct (reverse (drop_ows (reverse (drop_ows s)))) as [|c t]; [done|].
  rewrite Heq in Hf. done.
Qed.

Lemma trim_ows_id s :
  starts_blank s = false -> starts_blank (reverse s) = false -> trim_ows s = s.
Proof. intros H1 H2. unfold trim_ows. rewrite (drop_ows_id s), (drop_ows_id (reverse s)) by done. apply reverse_involutive. Qed.

(** ** Soundness of the header loop *)

Lemma split_header_ok line h : split_header line = Some h -> header_ok h.
Proof.
  unfold split_header. intros E. destruct (match line with [] => _ | _ => _ end); [done|].
  destruct (find_char Byte.x3a line) as [colon|] eqn:Ec; [|done].
  apply find_char_Some in Ec as (Hl & Hn & Hlt).
  destruct (Nat.eqb_spec colon 0); [done|]. destruct (match line !! (colon - 1)%nat with Some _ => _ | None => _ end); [done|].
  destruct (_ || _) eqn:E1; [done|]. destruct (_ || _) eqn:E2 in E; [done|]. zbool. simplify_eq.
  split; cbn; try done; try apply trim_ows_front; try apply trim_ows_back.
  unfold substr. intros Hnil. apply (f_equal length) in Hnil. rewrite length_take, length_drop in Hnil. cbn in Hnil. lia.
Qed.

Lemma push_headers h m : m <> MNone -> msg_headers (push_header h m) = msg_headers m ++ [h].
Proof. by destruct m. Qed.

(** Constructor of the message: which pointer the caller passed. *)
Definition msg_kind (m : Msg) : nat := match m with MReq _ => 1 | MResp _ => 2 | MNone => 0 end.

Lemma apply_header_fields h s s' :
  apply_header h s = Some s' -> hs_msg s <> MNone ->
  msg_headers (hs_msg s') = msg_headers (hs_msg s) ++ [h] /\ msg_kind (hs_msg s') = msg_kind (hs_msg s) /\
  ((is_content_length h /\ hs_saw s' = true /\ cl_value h = Some (hs_cl s') /\
    (hs_saw s = true -> hs_cl s' = hs_cl s)) \/
   (~ is_content_length h /\ hs_saw s' = hs_saw s /\ hs_cl s' = hs_cl s)).
Proof.
  unfold apply_header, is_content_length, cl_value. intros E Hm.
  case_bool_decide as Hcl.
  - destruct (whole_number _ _) as [n|]; [|done]. destruct (hs_saw s && negb (n =? hs_cl s)) eqn:Es; [done|].
    simplify_eq. cbn. rewrite push_headers by done. split_and!; [done|by destruct (hs_msg s)|].
    left. split_and!; try done. intros Hs. rewrite Hs in Es. cbn in Es. zbool. done.
  - destruct (bool_decide (lower (h_name h) = str "transfer-encoding") && _).
    { simplify_eq. cbn. destruct (hs_msg s); cbn; split_and!; try done; by right. }
    case_bool_decide.
    + simplify_eq. cbn. destruct (bool_decide (find_sub _ _ <> None)), (hs_msg s); cbn; split_and!; try done; by right.
    + simplify_eq. cbn. destruct (hs_msg s); cbn; split_and!; try done; by right.
Qed.

(** The invariant of the loop. *)
Record loop_inv (s : HState) : Prop := {
  li_msg : hs_msg s <> MNone;
  li_headers : Forall header_ok (msg_headers (hs_msg s));
  li_count : len (msg_headers (hs_msg s)) <= HTTP1_MAX_HEADER_COUNT;
  li_framing : framing (msg_headers (hs_msg s)) (hs_saw s) (hs_cl s);
}.

Lemma header_line_inv line s s' :
  loop_inv s -> header_line line s = Some s' -> loop_inv s' /\ msg_kind (hs_msg s') = msg_kind (hs_msg s).
Proof.
  intros [Hm Hh Hc [Ha Hs Hn]] E. unfold header_line in E.
  destruct (split_header line) as [h|] eqn:Esp; [|done]. apply split_header_ok in Esp.
  destruct (Z.leb_spec HTTP1_MAX_HEADER_COUNT (len (msg_headers (hs_msg s)))); [done|].
  destruct (apply_header_fields h s s' E Hm) as (Eh & Ek & Hcases). split; [|done]. split.
  - intros Hnone. rewrite Hnone in Ek. by destruct (hs_msg s).
  - rewrite Eh. apply Forall_app. split; [done|by constructor].
  - rewrite Eh. autorewrite with uplen. lia.
  - rewrite Eh. destruct Hcases as [(Hcl & Hsaw & Hv & Hsame)|(Hcl & Hsaw & Hcleq)]; split.
    + intros g [Hg|Hg]%elem_of_app Hgc; [|apply list_elem_of_singleton in Hg; by subst].
      destruct (Ha g Hg Hgc) as [Hst Hgv]. rewrite Hsame by done. done.
    + intros _. exists h. split; [apply elem_of_app; right; by apply list_elem_of_singleton|done].
    + congruence.
    + intros g [Hg|Hg]%elem_of_app Hgc; [|apply list_elem_of_singleton in Hg; by subst].
      rewrite Hsaw, Hcleq. by apply Ha.
    + rewrite Hsaw. intros Hst. destruct (Hs Hst) as (g & ? & ?). exists g. split; [apply elem_of_app; by left|done].
    + rewrite Hsaw, Hcleq. done.
Qed.

Lemma header_loop_inv fuel rest s s' :
  loop_inv s -> header_loop fuel rest s = inr s' -> loop_inv s' /\ msg_kind (hs_msg s') = msg_kind (hs_msg s).
Proof.
  revert rest s; induction fuel as [|fuel IH]; intros rest s Hi E; cbn in E; [by simplify_eq|].
  destruct (len rest =? 0); [by simplify_eq|].
  destruct (find_sub CRLF rest) as [next|]; [|by simplify_eq].
  destruct (next =? 0)%nat; [by simplify_eq|].
  destruct (header_line (take next rest) s) as [s1|] eqn:E1; [|done].
  destruct (header_line_inv _ _ _ Hi E1) as [Hi1 Hk1]. destruct (IH _ _ Hi1 E) as [Hi2 Hk2].
  split; [done|congruence].
Qed.

(** ** What the flags of a message mean *)

Definition chunked_header (h : HttpHeader) : bool :=
  bool_decide (lower (h_name h) = str "transfer-encoding") &&
  bool_decide (find_sub (str "chunked") (lower (h_value h)) <> None).

Definition close_header (h : HttpHeader) : bool :=
  bool_decide (lower (h_name h) = str "connection") &&
  bool_decide (find_sub (str "close") (lower (h_value h)) <> None).

Definition flags_ok (m : Msg) : Prop :=
  match m with
  | MReq r =>
      req_chunked r = existsb chunked_header (req_headers r) /\
      req_keep_alive r = bool_decide (req_version r = str "HTTP/1.1")
                         && negb (existsb close_header (req_headers r))
  | MResp r => resp_chunked r = existsb chunked_header (resp_headers r)
  | MNone => True
  end.

(** The fields the header loop does not touch. *)
Definition start_fields (m : Msg) : (bytes * bytes * bytes * Z) + (Z * bytes * Z) + unit :=
  match m with
  | MReq r => inl (inl (req_method r, req_target r, req_version r, req_header_bytes r))
  | MResp r => inl (inr (resp_status r, resp_reason r, resp_header_bytes r))
  | MNone => inr tt
  end.

Lemma existsb_snoc {A} (f : A -> bool) l x : existsb f (l ++ [x]) = existsb f l || f x.
Proof. rewrite existsb_app. cbn. by rewrite orb_false_r. Qed.

(** The three special names are different. *)
Lemma name_disjoint n :
  (n = str "content-length" -> n <> str "transfer-encoding" /\ n <> str "connection") /\
  (n = str "transfer-encoding" -> n <> str "connection").
Proof. split; intros ->; [split|]; vm_compute; discriminate. Qed.

(** An accepted header sets at most one flag and is pushed. *)
Lemma apply_header_msg h s s' :
  apply_header h s = Some s' ->
  hs_msg s' = push_header h ((if chunked_header h then set_chunked else id)
                               ((if close_header h then set_close else id) (hs_msg s))).
Proof.
  destruct (name_disjoint (lower (h_name h))) as [Hd1 Hd2].
  unfold apply_header, chunked_header, close_header. intros E.
  destruct (bool_decide (lower (h_name h) = str "content-length")) eqn:H1.
  - apply bool_decide_eq_true in H1. destruct (Hd1 H1).
    rewrite (bool_decide_eq_false_2 (_ = str "transfer-encoding")),
      (bool_decide_eq_false_2 (_ = str "connection")) by done.
    destruct (whole_number _ _); [|done]. destruct (_ && _); by simplify_eq.
  - destruct (bool_decide (lower (h_name h) = str "transfer-encoding")) eqn:H2.
    + apply bool_decide_eq_true in H2. specialize (Hd2 H2).
      rewrite (bool_decide_eq_false_2 (lower (h_name h) = str "connection")) in * by done.
      destruct (bool_decide (find_sub (str "chunked") _ <> None)); cbn in *; by simplify_eq.
    + destruct (bool_decide (lower (h_name h) = str "connection")); cbn in *; simplify_eq; [|done].
      by destruct (bool_decide (find_sub (str "close") _ <> None)).
Qed.

Lemma apply_header_flags h s s' :
  apply_header h s = Some s' -> flags_ok (hs_msg s) ->
  flags_ok (hs_msg s') /\ start_fields (hs_msg s') = start_fields (hs_msg s).
Proof.
  intros E Hf.
  rewrite (apply_header_msg h s s' E).
  remember (chunked_header h) as b eqn:Hb. remember (close_header h) as c eqn:Hc.
  destruct (hs_msg s) as [r|r|]; cbn in Hf.
  - destruct Hf as [H1 H2]. destruct b, c; cbn; rewrite !existsb_snoc, <- Hb, <- Hc, ?H1, ?H2;
      rewrite ?orb_true_r, ?orb_false_r, ?andb_false_r; done.
  - destruct b, c; cbn; rewrite !existsb_snoc, <- Hb, ?Hf; rewrite ?orb_true_r, ?orb_false_r; done.
  - destruct b, c; done.
Qed.

Lemma header_loop_flags fuel rest s s' :
  flags_ok (hs_msg s) -> header_loop fuel rest s = inr s' ->
  flags_ok (hs_msg s') /\ start_fields (hs_msg s') = start_fields (hs_msg s).
Proof.
  revert rest s; induction fuel as [|fuel IH]; intros rest s Hi E; cbn in E; [by simplify_eq|].
  destruct (len rest =? 0); [by simplify_eq|].
  destruct (find_sub CRLF rest) as [next|]; [|by simplify_eq].
  destruct (next =? 0)%nat; [by simplify_eq|].
  destruct (header_line (take next rest) s) as [s1|] eqn:E1; [|done].
  unfold header_line in E1. destruct (split_header _); [|done]. destruct (_ <=? _); [done|].
  destruct (apply_header_flags _ _ _ E1 Hi) as [Hi1 Hk1]. destruct (IH _ _ Hi1 E) as [Hi2 Hk2].
  split; [done|congruence].
Qed.

(** ** The first line *)

Record request_line_ok (method target version : bytes) : Prop := {
  rl_method : method <> [] /\ len method <= HTTP1_MAX_METHOD_LEN /\ forallb is_token_char method = true;
  rl_target : target <> [] /\ len target <= HTTP1_MAX_TARGET_LEN /\ SP ∉ target;
  rl_version : version = str "HTTP/1.1" \/ version = str "HTTP/1.0";
}.

Lemma len_nonzero {A} (l : list A) : len l <> 0 -> l <> [].
Proof. by intros H ->. Qed.

Lemma find_char_from_Some c s pos i :
  find_char_from c s pos = Some i ->
  (pos <= i < length s)%nat /\ drop pos s = substr s pos (i - pos) ++ c :: drop (i + 1) s /\
  c ∉ substr s pos (i - pos).
Proof.
  unfold find_char_from, find_from. destruct (Nat.ltb_spec (length s) pos); [done|].
  destruct (find_sub [c] (drop pos s)) as [k|] eqn:E; cbn; intros Hi; simplify_eq.
  apply find_char_Some in E as (Hs & Hn & Hlt). rewrite length_drop in Hlt.
  unfold substr. replace (pos + k - pos)%nat with k by lia. rewrite drop_drop in Hs.
  replace (pos + k + 1)%nat with (pos + S k)%nat by lia. split_and!; [lia|lia|done|done].
Qed.

(** The request line is exactly the three parts with single spaces. *)
Lemma parse_request_line_sound start method target version :
  parse_request_line start = Some (method, target, version) ->
  request_line_ok method target version /\ start = method ++ [SP] ++ target ++ [SP] ++ version.
Proof.
  unfold parse_request_line. intros E.
  destruct (find_char SP start) as [sp1|] eqn:E1; [|done].
  destruct (find_char_from SP start (sp1 + 1)) as [sp2|] eqn:E2; [|done].
  case_bool_decide; [done|]. destruct (_ || _) eqn:E3; [done|]. destruct (_ || _) eqn:E4 in E; [done|].
  apply orb_false_iff in E3 as [E3a E3b]. apply orb_false_iff in E3a as [E3a E3c].
  apply orb_false_iff in E4 as [E4a E4b]. apply orb_false_iff in E4a as [E4a E4c].
  apply find_char_Some in E1 as (Hs1 & _ & _). apply find_char_from_Some in E2 as (Hr & Hs2 & Hn2).
  simplify_eq. zbool. replace (sp2 - sp1 - 1)%nat with (sp2 - (sp1 + 1))%nat in * by lia. split.
  - split; [split_and!; [by apply len_nonzero|lia|done]|split_and!; [by apply len_nonzero|lia|done]|].
    apply andb_false_iff in E4b as [Hv|Hv]; zbool; tauto.
  - change (substr start 0 sp1) with (take sp1 start). cbn [app]. rewrite <- Hs2, Nat.add_1_r. exact Hs1.
Qed.

(** ** The whole parser *)

Lemma has_bare_lf_spec prev s :
  has_bare_lf prev s = false ->
  forall j, s !! j = Some LF ->
  (j = O /\ prev = Some CR) \/ (exists k, j = S k /\ s !! k = Some CR).
Proof.
  revert prev; induction s as [|c s IH]; intros prev H j Hj; [done|].
  cbn in H. apply orb_false_iff in H as [H1 H2]. destruct j as [|j].
  - left. split; [done|]. cbn in Hj. simplify_eq. rewrite byte_eqb_refl in H1. cbn in H1.
    destruct prev as [p|]; [|done]. apply negb_false_iff, byte_eqb_eq in H1. by subst.
  - right. exists j. split; [done|]. cbn in Hj. destruct (IH _ H2 j Hj) as [[-> Hp]|(k & -> & Hk)].
    + cbn. by simplify_eq.
    + done.
Qed.

Lemma parse_complete_inv b m m' :
  parse_headers b m = (Complete, m') ->
  exists e le m1 s,
    find_sub (CRLF ++ CRLF) b = Some e /\ Z.of_nat e + 4 <= HTTP1_MAX_HEADER_BYTES /\
    has_bare_lf None (take (e + 2) b) = false /\ find_sub CRLF (take (e + 2) b) = Some le /\
    parse_start (take le (take (e + 2) b)) (Z.of_nat e + 4) m = Some m1 /\
    header_loop (length (drop (le + 2) (take (e + 2) b))) (drop (le + 2) (take (e + 2) b)) (mkHState m1 false 0)
      = inr s /\
    msg_chunked (hs_msg s) && hs_saw s = false /\ m' = set_content_length (hs_cl s) (hs_msg s).
Proof.
  unfold parse_headers. intros E. destruct (find_sub (CRLF ++ CRLF) b) as [e|]; [|by destruct (_ || _)].
  destruct (Z.ltb_spec HTTP1_MAX_HEADER_BYTES (Z.of_nat e + 4)); [done|].
  destruct (has_bare_lf None (take (e + 2) b)) eqn:Hb; [done|].
  destruct (find_sub CRLF (take (e + 2) b)) as [le|] eqn:Hle; [|done].
  destruct (parse_start _ _ m) as [m1|] eqn:Hp; [|done].
  destruct (header_loop _ _ _) as [mm|s] eqn:Hl; [done|].
  destruct (msg_chunked (hs_msg s) && hs_saw s) eqn:Hc; [done|]. simplify_eq.
  exists e, le, m1, s. split_and!; done.
Qed.

(** The first line of an accepted block has no line feed. *)
Lemma start_no_LF b le : has_bare_lf None b = false -> find_sub CRLF b = Some le -> LF ∉ take le b.
Proof.
  intros Hb Hle. apply find_CRLF_no_LF; [done|]. intros j Hj.
  destruct (has_bare_lf_spec None b Hb j Hj) as [[_ ?]|?]; done.
Qed.

Lemma framing_nil : framing [] false 0.
Proof. split; [intros h Hh; by apply elem_of_nil in Hh|done|done]. Qed.

(** What an accepted request satisfies. *)
Record request_ok (r : HttpRequest) : Prop := {
  rq_line : request_line_ok (req_method r) (req_target r) (req_version r);
  rq_target_lf : LF ∉ req_target r;
  rq_headers : Forall header_ok (req_headers r);
  rq_count : len (req_headers r) <= HTTP1_MAX_HEADER_COUNT;
  rq_size : req_header_bytes r <= HTTP1_MAX_HEADER_BYTES;
  rq_chunked : req_chunked r = existsb chunked_header (req_headers r);
  rq_keep_alive : req_keep_alive r = bool_decide (req_version r = str "HTTP/1.1")
                                     && negb (existsb close_header (req_headers r));
  rq_length h : h ∈ req_headers r -> is_content_length h ->
                req_chunked r = false /\ cl_value h = Some (req_content_length r);
  rq_no_length : (forall h, h ∈ req_headers r -> ~ is_content_length h) -> req_content_length r = 0;
}.

Lemma parse_request_ok b r0 r :
  parse_headers b (MReq r0) = (Complete, MReq r) ->
  request_ok r /\ exists t, b = t ++ drop (Z.to_nat (req_header_bytes r)) b /\
    len t = req_header_bytes r /\ find_sub (CRLF ++ CRLF) b = Some (length t - 4)%nat /\ (4 <= length t)%nat.
Proof.
  intros E. destruct (parse_complete_inv _ _ _ E) as (e & le & m1 & s & Hf & He & Hb & Hle & Hp & Hl & Hc & Hm).
  cbn in Hp. destruct (parse_request_line _) as [[[me ta] ve]|] eqn:Erl; [|done]. simplify_eq.
  pose proof (start_no_LF _ _ Hb Hle) as Hlf.
  apply parse_request_line_sound in Erl as [Hrl Hst].
  apply header_loop_inv in Hl as Hinv; [|split; cbn; [done|constructor|unfold HTTP1_MAX_HEADER_COUNT; done|apply framing_nil]].
  apply header_loop_flags in Hl as [Hfl Hsf]; [|cbn; by rewrite andb_true_r].
  destruct Hinv as [[_ Hh Hcnt Hfr] _]. destruct (hs_msg s) as [q|q|] eqn:Hq; try done.
  cbn in Hsf, Hfl, Hh, Hcnt, Hfr, Hm, Hc. destruct Hfl as [Hfl1 Hfl2].
  injection Hsf as <- <- <- Hhb. simplify_eq. split.
  - split; cbn; try done.
    + rewrite Hst, !elem_of_app in Hlf. tauto.
    + lia.
    + intros h Hin Hcl. destruct (fr_all _ _ _ Hfr h Hin Hcl) as [Hs Hv]. rewrite Hs, andb_true_r in Hc. done.
    + intros Hno. apply (fr_none _ _ _ Hfr). apply not_true_iff_false. intros Hs.
      destruct (fr_saw _ _ _ Hfr Hs) as (h & Hin & Hcl). by eapply Hno.
  - pose proof (find_sub_length _ _ _ Hf) as Hlen. cbn in Hlen.
    exists (take (e + 4) b). cbn [req_header_bytes]. rewrite Hhb. replace (Z.to_nat (Z.of_nat e + 4)) with (e + 4)%nat by lia.
    rewrite take_drop. split_and!; [done|len_lia| |rewrite length_take; lia].
    rewrite Hf. f_equal. rewrite length_take. lia.
Qed.

(** ** More input after the header block *)

(** A verdict reached from a complete header block does not depend on the
    bytes that follow it. *)
Lemma parse_headers_extend b t m :
  find_sub (CRLF ++ CRLF) b <> None -> parse_headers (b ++ t) m = parse_headers b m.
Proof.
  intros H. destruct (find_sub (CRLF ++ CRLF) b) as [e|] eqn:E; [|done].
  pose proof (find_sub_length _ _ _ E) as Hl. cbn in Hl.
  unfold parse_headers. rewrite (find_sub_app_l _ _ _ _ E), E.
  by rewrite take_app_le by lia.
Qed.

(** ** Texts made of lines *)

Definition line_text (l : bytes) : bytes := l ++ CRLF.
Definition lines_text (ls : list bytes) : bytes := concat (map line_text ls).

(** A line that can be told apart: not empty and without line feed. *)
Definition plain_line (l : bytes) : Prop := l <> [] /\ LF ∉ l.

Lemma lines_text_cons l ls : lines_text (l :: ls) = l ++ CRLF ++ lines_text ls.
Proof. unfold lines_text, line_text. cbn [map concat]. by rewrite <- app_assoc. Qed.

Lemma text_lines_eq ls : text_lines ls = lines_text ls ++ CRLF.
Proof. done. Qed.

(** The blank line is found at the end of the lines and not before. *)
Lemma starts_with_CRLF2 s :
  starts_with (CRLF ++ CRLF) s = true ->
  s !! 0%nat = Some CR /\ s !! 1%nat = Some LF /\ s !! 2%nat = Some CR /\ s !! 3%nat = Some LF.
Proof. intros [t ->]%starts_with_spec. done. Qed.

Lemma no_blank_in_line l ls rest j :
  plain_line l -> Forall plain_line ls -> (j < length l + 2)%nat -> (j = length l -> ls <> []) ->
  starts_with (CRLF ++ CRLF) (drop j ((l ++ CRLF) ++ lines_text ls ++ rest)) = false.
Proof.
  intros [_ Hl] Hls Hj Hne. apply not_true_iff_false. intros H.
  apply starts_with_CRLF2 in H. rewrite !lookup_drop in H. rewrite <- app_assoc in H.
  destruct H as (H0 & H1 & H2 & H3).
  destruct (decide (j + 1 < length l)%nat).
  { rewrite lookup_app_l in H1 by lia. apply Hl. by eapply list_elem_of_lookup_2. }
  rewrite lookup_app_r in H1 by lia.
  destruct (decide (j + 1 = length l)%nat) as [E|]; [rewrite E, Nat.sub_diag in H1; done|].
  destruct (decide (j = length l)) as [->|].
  - destruct ls as [|l' ls]; [by destruct (Hne eq_refl)|]. apply Forall_cons in Hls as [[Hn' Hl'] _].
    rewrite lookup_app_r in H3 by lia. replace (length l + 3 - length l)%nat with 3%nat in H3 by lia.
    rewrite lines_text_cons in H3. destruct l' as [|a [|a' l']]; [done|done|].
    cbn in H3. simplify_eq. apply Hl'. by right; left.
  - rewrite lookup_app_r in H0 by lia. replace (j + 0 - length l)%nat with 1%nat in H0 by lia. done.
Qed.

Lemma find_blank_line l ls rest :
  plain_line l -> Forall plain_line ls ->
  find_sub (CRLF ++ CRLF) (text_lines (l :: ls) ++ rest) = Some (length (lines_text (l :: ls)) - 2)%nat.
Proof.
  intros Hl Hls. revert l Hl; induction Hls as [|l' ls Hl' Hls IH]; intros l Hl.
  - rewrite text_lines_eq, lines_text_cons. cbn [lines_text map concat]. rewrite app_nil_r, <- !app_assoc.
    rewrite find_sub_behind.
    + rewrite (app_assoc CRLF CRLF), find_sub_here. cbn. f_equal. rewrite length_app. cbn. lia.
    + intros j Hj. pose proof (no_blank_in_line l [] (CRLF ++ rest) j Hl ltac:(constructor)) as H.
      rewrite <- app_assoc in H. apply H; lia.
  - rewrite text_lines_eq, lines_text_cons, <- !app_assoc, (app_assoc l).
    rewrite find_sub_behind.
    + rewrite (app_assoc _ CRLF rest), <- text_lines_eq, IH by done. cbn [fmap option_fmap option_map].
      f_equal. rewrite (lines_text_cons l'). rewrite !length_app. cbn. lia.
    + intros j Hj. rewrite length_app in Hj. cbn in Hj.
      apply (no_blank_in_line l (l' :: ls) (CRLF ++ rest)); [done|by constructor|lia|done].
Qed.

Lemma has_bare_lf_line prev l s :
  LF ∉ l -> has_bare_lf prev (l ++ CRLF ++ s) = has_bare_lf (Some LF) s.
Proof.
  revert prev; induction l as [|c l IH]; intros prev Hl; cbn [app].
  - cbn. by rewrite byte_eqb_refl.
  - cbn [has_bare_lf]. rewrite IH by set_solver.
    replace (Byte.eqb c LF) with false; [done|]. symmetry. apply byte_eqb_neq. set_solver.
Qed.

Lemma has_bare_lf_lines prev ls : Forall plain_line ls -> has_bare_lf prev (lines_text ls) = false.
Proof.
  intros H. revert prev; induction H as [|l ls [_ Hl] _ IH]; intros prev; [done|].
  rewrite lines_text_cons, has_bare_lf_line by done. apply IH.
Qed.

(** The loop reads the lines one by one. *)
Fixpoint read_lines (ls : list bytes) (s : HState) : Msg + HState :=
  match ls with
  | [] => inr s
  | l :: ls' => match header_line l s with None => inl (hs_msg s) | Some s' => read_lines ls' s' end
  end.

Lemma header_loop_lines fuel ls s :
  Forall plain_line ls -> (length (lines_text ls) <= fuel)%nat ->
  header_loop fuel (lines_text ls) s = read_lines ls s.
Proof.
  intros H. revert fuel s; induction H as [|l ls [Hn Hl] Hls IH]; intros fuel s Hf; [by destruct fuel|].
  rewrite lines_text_cons in *. destruct fuel as [|fuel]; [rewrite !length_app in Hf; cbn in Hf; lia|].
  cbn [header_loop]. destruct (Z.eqb_spec (len (l ++ CRLF ++ lines_text ls)) 0) as [E|_].
  { apply len_0_nil in E. by destruct l. }
  rewrite find_CRLF_first by done. destruct (Nat.eqb_spec (length l) 0) as [E|_]; [by destruct l|].
  rewrite take_app_length. cbn [read_lines]. destruct (header_line l s) as [s'|]; [|done].
  rewrite <- drop_drop, drop_app_length. apply IH.
  rewrite !length_app in Hf. cbn in Hf. lia.
Qed.

(** Parsing a text of lines. *)
Lemma parse_text l ls rest m :
  plain_line l -> Forall plain_line ls -> len (text_lines (l :: ls)) <= HTTP1_MAX_HEADER_BYTES ->
  parse_headers (text_lines (l :: ls) ++ rest) m =
  match parse_start l (len (text_lines (l :: ls))) m with
  | None => (PError, m)
  | Some m1 =>
      match read_lines ls (mkHState m1 false 0) with
      | inl m' => (PError, m')
      | inr s => if msg_chunked (hs_msg s) && hs_saw s then (PError, hs_msg s)
                 else (Complete, set_content_length (hs_cl s) (hs_msg s))
      end
  end.
Proof.
  intros Hl Hls Hsz. unfold parse_headers. rewrite find_blank_line by done.
  assert (Hge : (2 <= length (lines_text (l :: ls)))%nat)
    by (rewrite lines_text_cons, !length_app; cbn; lia).
  assert (Hhb : Z.of_nat (length (lines_text (l :: ls)) - 2) + 4 = len (text_lines (l :: ls)))
    by (rewrite text_lines_eq; unfold len; rewrite length_app; cbn [length CRLF]; lia).
  rewrite Hhb. destruct (Z.ltb_spec HTTP1_MAX_HEADER_BYTES (len (text_lines (l :: ls)))); [lia|].
  replace (length (lines_text (l :: ls)) - 2 + 2)%nat with (length (lines_text (l :: ls))) by lia.
  rewrite text_lines_eq, <- app_assoc, take_app_length.
  rewrite has_bare_lf_lines by (by constructor). rewrite lines_text_cons, find_CRLF_first by apply Hl.
  rewrite take_app_length, <- drop_drop, drop_app_length. change (drop 2 (CRLF ++ ?x)) with x.
  destruct (parse_start l _ m) as [m1|]; [|done]. by rewrite header_loop_lines.
Qed.

(** ** Header lines *)

Definition hline (h : HttpHeader) : bytes := h_name h ++ str ": " ++ h_value h.

Definition ordinary (c : byte) : bool := negb (is_ows c || Byte.eqb c Byte.x3a || Byte.eqb c LF || Byte.eqb c SP).

Lemma token_not_special c : is_token_char c = true -> ordinary c = true.
Proof. apply (byte_implb is_token_char ordinary). vm_compute. reflexivity. Qed.

Lemma tokens_not_special n c :
  forallb is_token_char n = true -> c ∈ n -> is_ows c = false /\ c <> Byte.x3a /\ c <> LF /\ c <> SP.
Proof.
  intros Hn Hc. rewrite forallb_forall in Hn. apply list_elem_of_In in Hc.
  pose proof (token_not_special c (Hn c Hc)) as H. unfold ordinary in H. zbool.
  rewrite !byte_eqb_neq in *. done.
Qed.

Lemma value_no_LF v : valid_header_value v = true -> LF ∉ v.
Proof.
  unfold valid_header_value. rewrite forallb_forall. intros H Hin. apply list_elem_of_In in Hin.
  by apply H in Hin.
Qed.

Lemma hline_plain h : header_ok h -> plain_line (hline h).
Proof.
  intros [Hn _ Ht _ Hv _ _]. unfold hline. split; [by destruct (h_name h)|].
  rewrite !not_elem_of_app. split_and!.
  - intros Hin. by apply (tokens_not_special _ LF Ht) in Hin as (_ & _ & ? & _).
  - apply (bool_decide_unpack _). vm_compute. done.
  - by apply value_no_LF.
Qed.

(** A well-formed header is read back from its line. *)
Lemma split_header_hline h : header_ok h -> split_header (hline h) = Some h.
Proof.
  intros [Hn Hnl Ht Hvl Hv Hf Hb]. destruct h as [n v]. cbn [h_name h_value] in *. unfold split_header, hline. cbn [h_name h_value].
  assert (Hsp : forall c, c ∈ n -> is_ows c = false) by (intros c Hc; apply (tokens_not_special n c Ht Hc)).
  assert (Hfind : find_char Byte.x3a (n ++ str ": " ++ v) = Some (length n)).
  { apply (find_sub_first Byte.x3a [] n (SP :: v)). intros Hc. by apply (tokens_not_special n _ Ht) in Hc as (_ & ? & _). }
  rewrite Hfind. destruct (Nat.eqb_spec (length n) 0) as [E0|_]; [by destruct n|].
  destruct (lookup_lt_is_Some_2 n (length n - 1)) as [c Hc]; [destruct n; cbn in *; [done|lia]|].
  rewrite lookup_app_l by (destruct n; cbn in *; [done|lia]). rewrite Hc.
  rewrite (Hsp c) by (by eapply list_elem_of_lookup_2).
  destruct n as [|a n]; [done|]. cbn [app]. rewrite (Hsp a) by (by left).
  change (substr (a :: (n ++ ?x)) 0 ?k) with (take k ((a :: n) ++ x)). rewrite take_app_length.
  change (a :: (n ++ ?x)) with ((a :: n) ++ x). rewrite <- drop_drop, drop_app_length.
  change (drop 1 (str ": " ++ v)) with (SP :: v).
  assert (Htr : trim_ows (SP :: v) = v) by (transitivity (trim_ows v); [done|by apply trim_ows_id]).
  rewrite Htr, Ht, Hv. destruct (Z.ltb_spec HTTP1_MAX_HEADER_NAME (len (a :: n))); [lia|].
  destruct (Z.ltb_spec HTTP1_MAX_HEADER_VALUE (len v)); [lia|]. done.
Qed.

(** Headers that carry no framing of their own besides a length. *)
Record header_plain (cl : Z) (h : HttpHeader) : Prop := {
  hp_ok : header_ok h;
  hp_chunked : chunked_header h = false;
  hp_close : close_header h = false;
  hp_length : is_content_length h -> cl_value h = Some cl;
}.

#[global] Instance is_content_length_dec h : Decision (is_content_length h) :=
  decide (lower (h_name h) = str "content-length").

Definition has_length (hs : list HttpHeader) : bool := existsb (fun h => bool_decide (is_content_length h)) hs.

Definition with_headers (r : HttpRequest) (hs : list HttpHeader) : HttpRequest :=
  mkRequest (req_method r) (req_target r) (req_version r) hs
    (req_keep_alive r) (req_content_length r) (req_chunked r) (req_header_bytes r).

Lemma apply_header_plain cl h r saw c :
  header_plain cl h -> (saw = true -> c = cl) ->
  apply_header h (mkHState (MReq r) saw c) =
  Some (mkHState (MReq (with_headers r (req_headers r ++ [h])))
          (bool_decide (is_content_length h) || saw) (if bool_decide (is_content_length h) then cl else c)).
Proof.
  intros [Hok Hch Hco Hl] Hs. unfold chunked_header, close_header, is_content_length, cl_value in *. unfold apply_header.
  cbn [hs_msg hs_saw hs_cl]. destruct (decide (lower (h_name h) = str "content-length")) as [Hcl|Hcl].
  - rewrite !bool_decide_eq_true_2 by done.
    rewrite Hl by done. destruct saw; [rewrite Hs by done; by rewrite Z.eqb_refl|done].
  - rewrite !(bool_decide_eq_false_2 (_ = str "content-length")) by done. rewrite Hch. case_bool_decide; cbn in Hco; [|done]. by rewrite Hco.
Qed.

Lemma read_plain_headers cl hs : Forall (header_plain cl) hs -> forall r saw c,
  (saw = true -> c = cl) -> len (req_headers r) + len hs <= HTTP1_MAX_HEADER_COUNT ->
  read_lines (map hline hs) (mkHState (MReq r) saw c) =
  inr (mkHState (MReq (with_headers r (req_headers r ++ hs))) (has_length hs || saw)
         (if has_length hs then cl else c)).
Proof.
  induction 1 as [|h hs Hh Hhs IH]; intros r saw c Hs Hc; cbn [map read_lines].
  - rewrite app_nil_r. by destruct r.
  - unfold header_line. rewrite split_header_hline by apply Hh. cbn [hs_msg msg_headers].
    autorewrite with uplen in Hc. pose proof (len_nonneg hs).
    destruct (Z.leb_spec HTTP1_MAX_HEADER_COUNT (len (req_headers r))); [lia|].
    rewrite (apply_header_plain cl) by done. rewrite IH; cbn [has_length existsb with_headers req_headers].
    + rewrite <- app_assoc. cbn [app]. unfold has_length, with_headers. cbn.
      destruct (bool_decide (is_content_length h)), (existsb _ hs), saw; cbn; try done.
    + case_bool_decide; [done|exact Hs].
    + autorewrite with uplen. lia.
Qed.

(** ** The serializer *)

Definition kept (dropped : bytes -> bool) (hs : list HttpHeader) : list HttpHeader :=
  List.filter (fun h => negb (dropped (lower (h_name h)))) hs.

Lemma header_text_line h : header_text h = line_text (hline h).
Proof. unfold header_text, line_text, hline. by rewrite <- !app_assoc. Qed.

Lemma lines_text_app l k : lines_text (l ++ k) = lines_text l ++ lines_text k.
Proof. unfold lines_text. by rewrite map_app, concat_app. Qed.

Lemma write_headers_spec dropped hs os saw :
  Forall (fun h => valid_header_value (h_value h) = true) hs ->
  write_headers_loop dropped hs os saw =
  Ok (os ++ lines_text (map hline (kept dropped hs)), has_length (kept dropped hs) || saw).
Proof.
  intros H. revert os saw; induction H as [|h hs Hv _ IH]; intros os saw; cbn [write_headers_loop kept List.filter].
  - by rewrite app_nil_r.
  - destruct (dropped (lower (h_name h))); cbn [negb]; [apply IH|]. rewrite Hv. cbn [negb].
    rewrite IH. cbn [map]. rewrite (lines_text_cons (hline h)), header_text_line.
    unfold line_text. rewrite <- !app_assoc. do 2 f_equal.
    change (has_length (h :: ?l)) with (bool_decide (is_content_length h) || has_length l).
    change (bool_decide (is_content_length h)) with (bool_decide (lower (h_name h) = str "content-length")).
    destruct (bool_decide (lower (h_name h) = str "content-length")), (has_length _), saw; done.
Qed.

Lemma kept_elem dropped hs h :
  h ∈ kept dropped hs <-> h ∈ hs /\ dropped (lower (h_name h)) = false.
Proof. rewrite !list_elem_of_In. unfold kept. rewrite filter_In, negb_true_iff. done. Qed.

Definition via_header : HttpHeader := mkHeader (str "Via") (str "1.1 uproxy").
Definition host_header (host : bytes) : HttpHeader := mkHeader (str "Host") host.
Definition length_header (n : Z) : HttpHeader := mkHeader (str "Content-Length") (to_string n).

(** The headers of the forwarded request. *)
Definition forwarded_headers (req : HttpRequest) (host : bytes) : list HttpHeader :=
  let ks := kept dropped_request_header (req_headers req) in
  host_header host :: ks
  ++ (if (0 <? req_content_length req) && negb (has_length ks) then [length_header (req_content_length req)] else [])
  ++ [via_header].

Definition request_line (req : HttpRequest) : bytes :=
  req_method req ++ [SP] ++ req_target req ++ [SP] ++ req_version req.

Lemma request_text_lines req host :
  Forall (fun h => valid_header_value (h_value h) = true) (req_headers req) ->
  request_text req host = Ok (text_lines (request_line req :: map hline (forwarded_headers req host))).
Proof.
  intros H. unfold request_text. rewrite write_headers_spec by done. rewrite orb_false_r. f_equal.
  rewrite text_lines_eq, lines_text_cons. unfold forwarded_headers. cbn [map]. rewrite lines_text_cons.
  rewrite !map_app, !lines_text_app.
  change (lines_text (map hline [via_header])) with via_line.
  unfold request_line. change (hline (host_header host)) with (str "Host: " ++ host).
  destruct ((0 <? req_content_length req) && negb (has_length _));
    unfold hline, lines_text, line_text; cbn [map concat h_name h_value length_header];
    rewrite ?app_nil_r, <- ?app_assoc; done.
Qed.

(** A request the serializer can be trusted with: what the parser accepts,
    without the demand that the length be given by a header. *)
Record forwardable (req : HttpRequest) : Prop := {
  fw_line : request_line_ok (req_method req) (req_target req) (req_version req);
  fw_target : LF ∉ req_target req;
  fw_headers : Forall header_ok (req_headers req);
  fw_length h : h ∈ req_headers req -> is_content_length h -> cl_value h = Some (req_content_length req);
  fw_range : 0 <= req_content_length req <= UINT64_MAX;
}.

Lemma to_string_length z : 0 <= z <= UINT64_MAX -> (length (to_string z) <= 20)%nat.
Proof.
  intros Hz. unfold to_string, format_nat. destruct (Z.ltb_spec z 0); [lia|].
  etrans; [apply (format_aux_length 10 _ z [] 19); unfold UINT64_MAX in *|]; cbn; lia.
Qed.

Lemma digit_value_char c : isdigit c = true -> (valid_value_char c && negb (is_ows c)) = true.
Proof.
  apply (byte_implb isdigit (fun c => valid_value_char c && negb (is_ows c))). vm_compute. reflexivity.
Qed.

Lemma digits_value_ok s :
  (forall c, c ∈ s -> isdigit c = true) ->
  valid_header_value s = true /\ starts_blank s = false /\ starts_blank (reverse s) = false.
Proof.
  intros H. split_and!.
  - unfold valid_header_value. apply forallb_forall. intros c Hc%list_elem_of_In%H%digit_value_char. by zbool.
  - destruct s as [|c s]; [done|]. specialize (H c ltac:(by left)). apply digit_value_char in H. cbn. by zbool.
  - destruct (reverse s) as [|c t] eqn:E; [done|].
    assert (Hc : c ∈ s) by (rewrite <- elem_of_reverse, E; by left).
    apply H, digit_value_char in Hc. cbn. by zbool.
Qed.

Lemma length_header_plain n : 0 <= n <= UINT64_MAX -> header_plain n (length_header n).
Proof.
  intros Hn. pose proof (to_string_length n Hn).
  destruct (digits_value_ok (to_string n)) as (Hv & Hf & Hb);
    [intros c; apply to_string_digit; lia|].
  split; [split; cbn [length_header h_name h_value]; try done|done|done|intros _].
  - unfold len, HTTP1_MAX_HEADER_VALUE. lia.
  - unfold cl_value. cbn [length_header h_value]. unfold to_string. destruct (Z.ltb_spec n 0); [lia|].
    apply whole_number_format; lia.
Qed.

Lemma request_ok_forwardable r : request_ok r -> forwardable r.
Proof.
  intros [Hl Ht Hh _ _ _ _ Hcl Hno]. split; try done; [intros h ? ?; by apply Hcl|].
  destruct (has_length (req_headers r)) eqn:E.
  - apply existsb_exists in E as (h & Hin & Hd). apply list_elem_of_In in Hin. zbool.
    destruct (Hcl h Hin Hd) as [_ Hv]. by apply whole_number_range in Hv.
  - rewrite Hno; [unfold UINT64_MAX; lia|]. intros h Hin Hc. apply not_true_iff_false in E. apply E.
    apply existsb_exists. exists h. rewrite <- list_elem_of_In. split; [done|by apply bool_decide_eq_true].
Qed.

Lemma kept_not_special h :
  dropped_request_header (lower (h_name h)) = false -> chunked_header h = false /\ close_header h = false.
Proof.
  unfold dropped_request_header, chunked_header, close_header. intros H. zbool.
  split; apply andb_false_iff; left; apply bool_decide_eq_false; intros E; apply H0; rewrite E;
    apply (bool_decide_unpack _); vm_compute; done.
Qed.

Lemma fixed_header_plain cl name value :
  header_ok (mkHeader name value) ->
  lower name <> str "content-length" -> lower name <> str "transfer-encoding" -> lower name <> str "connection" ->
  header_plain cl (mkHeader name value).
Proof.
  intros Hok H1 H2 H3. split; [done| | |by intros]; unfold chunked_header, close_header; cbn [h_name];
    by rewrite bool_decide_eq_false_2.
Qed.

Lemma via_header_ok : header_ok via_header.
Proof. split; try (vm_compute; congruence). Qed.

Lemma forwarded_plain req host :
  forwardable req -> header_ok (host_header host) ->
  Forall (header_plain (req_content_length req)) (forwarded_headers req host).
Proof.
  intros [_ _ Hh Hcl Hr] Hhost. unfold forwarded_headers.
  apply Forall_cons. split; [apply fixed_header_plain; [done|vm_compute; discriminate..]|].
  apply Forall_app. split.
  - apply Forall_forall. intros h [Hin Hd]%kept_elem. destruct (kept_not_special h Hd).
    rewrite Forall_forall in Hh. split; auto.
  - apply Forall_app. split; [destruct (_ && _); constructor; [by apply length_header_plain|constructor]|].
    constructor; [|constructor]. apply fixed_header_plain; [apply via_header_ok|vm_compute; discriminate..].
Qed.

(** The length is announced exactly when there is one. *)
Lemma forwarded_length req host :
  forwardable req ->
  (if has_length (forwarded_headers req host) then req_content_length req else 0) = req_content_length req.
Proof.
  intros [_ _ _ _ Hr]. destruct (has_length (forwarded_headers req host)) eqn:E; [done|].
  unfold forwarded_headers, has_length in E. cbn [existsb] in E. rewrite !existsb_app in E. zbool.
  destruct (Z.ltb_spec 0 (req_content_length req)); [|lia].
  change (existsb _ (kept _ _)) with (has_length (kept dropped_request_header (req_headers req))) in *.
  destruct (has_length (kept dropped_request_header (req_headers req))); [done|].
  done.
Qed.

(** ** The first line is read back *)

Lemma version_no_space v : v = str "HTTP/1.1" \/ v = str "HTTP/1.0" -> (SP ∉ v) /\ (LF ∉ v).
Proof. intros [->| ->]; split; apply (bool_decide_unpack _); vm_compute; done. Qed.

Lemma parse_request_line_complete me ta ve :
  request_line_ok me ta ve -> parse_request_line (me ++ [SP] ++ ta ++ [SP] ++ ve) = Some (me, ta, ve).
Proof.
  intros [(Hm0 & Hml & Hmt) (Ht0 & Htl & Hts) Hv]. unfold parse_request_line. cbn [app].
  destruct (version_no_space ve Hv) as [Hvs _].
  assert (Hms : SP ∉ me) by (intros Hc; by apply (tokens_not_special me SP Hmt) in Hc as (_ & _ & _ & ?)).
  assert (F1 : find_char SP (me ++ SP :: ta ++ SP :: ve) = Some (length me)) by (by apply (find_sub_first SP [])).
  rewrite F1.
  assert (F2 : find_char_from SP (me ++ SP :: ta ++ SP :: ve) (length me + 1) = Some (length me + 1 + length ta)%nat).
  { rewrite find_char_from_here by done.
    assert (F : find_char SP (ta ++ SP :: ve) = Some (length ta)) by (by apply (find_sub_first SP [])). by rewrite F. }
  rewrite F2.
  replace (me ++ SP :: ta ++ SP :: ve) with ((me ++ SP :: ta) ++ SP :: ve ++ []) by (rewrite app_nil_r, <- app_assoc; done).
  assert (F3 : find_char_from SP ((me ++ SP :: ta) ++ SP :: ve ++ []) (length me + 1 + length ta + 1) = None).
  { replace (length me + 1 + length ta + 1)%nat with (length (me ++ SP :: ta) + 1)%nat by (rewrite length_app; cbn; lia).
    rewrite find_char_from_here by done. unfold find_char. rewrite app_nil_r. by rewrite find_sub_absent. }
  rewrite F3, bool_decide_eq_false_2 by (by intros []).
  rewrite app_nil_r, <- app_assoc. cbn [app].
  change (substr ?s 0 ?k) with (take k s). rewrite take_app_length.
  assert (A2 : substr (me ++ SP :: ta ++ SP :: ve) (length me + 1) (length me + 1 + length ta - length me - 1) = ta).
  { unfold substr. rewrite <- drop_drop, drop_app_length. cbn [drop].
    replace (length me + 1 + length ta - length me - 1)%nat with (length ta) by lia. apply take_app_length. }
  assert (A3 : drop (length me + 1 + length ta + 1) (me ++ SP :: ta ++ SP :: ve) = ve).
  { rewrite <- drop_drop, <- drop_drop, <- drop_drop, drop_app_length. change (drop 1 (SP :: ?x)) with x.
    by rewrite drop_app_length. }
  rewrite A2, A3.
  rewrite Hmt. pose proof (len_nonneg me). pose proof (len_nonneg ta).
  destruct (Z.eqb_spec (len me) 0) as [E|_]; [by apply len_0_nil in E|].
  destruct (Z.eqb_spec (len ta) 0) as [E|_]; [by apply len_0_nil in E|].
  destruct (Z.ltb_spec HTTP1_MAX_METHOD_LEN (len me)); [lia|]. destruct (Z.ltb_spec HTTP1_MAX_TARGET_LEN (len ta)); [lia|].
  destruct Hv as [->| ->]; done.
Qed.

(** ** Properties *)

Lemma parse_window_take {B} `{BufferSpec B} (buf : B) :
  buf_ok buf -> parse_window buf = take (Z.to_nat (HTTP1_MAX_HEADER_BYTES + 1)) (contents buf).
Proof.
  intros Hok. unfold parse_window. pose proof (len_nonneg (contents buf)).
  rewrite readable_len, peek_take by (done || unfold HTTP1_MAX_HEADER_BYTES; rewrite ?readable_len by done; lia).
  destruct (Z.min_spec (len (contents buf)) (HTTP1_MAX_HEADER_BYTES + 1)) as [[? ->]|[? ->]]; [|done].
  rewrite !take_ge; [done|unfold len in *; lia..].
Qed.

Lemma parse_request_headers {B} `{BufferOps B} (buf : B) r0 r v :
  parse_request buf r0 = (v, r) -> v = Complete -> parse_headers (parse_window buf) (MReq r0) = (v, MReq r).
Proof.
  unfold parse_request. intros E ->.
  destruct (parse_headers (parse_window buf) (MReq r0)) as [v [q|q|]] eqn:Ep; simplify_eq; [done|..];
  destruct (parse_complete_inv _ _ _ Ep) as (e & le & m1 & s & _ & _ & _ & _ & Hp & Hl & _ & Hm);
  cbn in Hp; destruct (parse_request_line _) as [[[me ta] ve]|]; simplify_eq;
  apply header_loop_flags in Hl as [_ Hsf]; cbn; try (by rewrite andb_true_r);
  destruct (hs_msg s); done.
Qed.

(** (C4) What an accepted request satisfies, on any buffer that keeps the
    queue contract: the method is a token of at most 16 characters, the
    target is a word of at most 8192 without space or line feed, the version
    is 1.0 or 1.1, there are at most 100 headers, every name is a token and
    every value is trimmed and free of control characters.  The framing is
    unambiguous: no request has both a length and chunked coding, all length
    headers are whole numbers with the same value, which is the length
    stored.  The header block ends at the first blank line of the input,
    within 65536 bytes. *)
Theorem parse_request_sound {B} `{BufferSpec B} (buf : B) (r0 r : HttpRequest) :
  buf_ok buf -> parse_request buf r0 = (Complete, r) ->
  request_ok r /\
  exists h rest, contents buf = h ++ CRLF ++ CRLF ++ rest /\ len h + 4 = req_header_bytes r /\
                 find_sub (CRLF ++ CRLF) (contents buf) = Some (length h).
Proof.
  intros Hok E. apply parse_request_headers in E; [|done]. rewrite parse_window_take in E by done.
  destruct (parse_request_ok _ _ _ E) as (Hr & t & Ht & Hl & Hf & H4). split; [done|].
  apply (find_sub_app_l _ _ (drop (Z.to_nat (HTTP1_MAX_HEADER_BYTES + 1)) (contents buf))) in Hf.
  rewrite take_drop in Hf. pose proof (find_sub_split _ _ _ Hf) as Hs.
  pose proof (find_sub_length _ _ _ Hf) as Hlen. change (length (CRLF ++ CRLF)) with 4%nat in Hlen.
  exists (take (length t - 4) (contents buf)), (drop (length t - 4 + 4) (contents buf)).
  rewrite Hf. split_and!.
  - rewrite Hs at 1. by rewrite <- !app_assoc.
  - unfold len in *. rewrite length_take. lia.
  - f_equal. rewrite length_take. lia.
Qed.

Definition demo_request : bytes :=
  text_lines [str "POST /f HTTP/1.1"; str "Host: a"; str "Content-Length: 2"] ++ str "hi".

Lemma parse_request_sound_witness :
  exists r, parse_request demo_request HttpRequest_default = (Complete, r) /\ req_content_length r = 2 /\
            request_ok r.
Proof.
  eexists. split; [vm_compute; reflexivity|]. split; [reflexivity|].
  refine (proj1 (parse_request_sound (B := bytes) demo_request HttpRequest_default _ I _)).
  vm_compute. reflexivity.
Defined.

(** A prefix of a complete request, shorter than its header block. *)
Lemma parse_prefix b r0 r k :
  parse_headers b (MReq r0) = (Complete, MReq r) -> Z.of_nat k < req_header_bytes r ->
  parse_headers (take k b) (MReq r0) = (if bool_decide (LF ∈ take k b) then PError else Incomplete, MReq r0).
Proof.
  intros E Hk. destruct (parse_request_ok _ _ _ E) as (Hr & t' & Ht & Hl & Hf & H4). unfold parse_headers at 1.
  destruct (find_sub (CRLF ++ CRLF) (take k b)) as [e|] eqn:Ee.
  { pose proof (find_sub_length _ _ _ Ee) as Hle. apply (find_sub_app_l _ _ (drop k b)) in Ee.
    rewrite take_drop, Hf in Ee. change (length (CRLF ++ CRLF)) with 4%nat in Hle.
    rewrite length_take in Hle. simplify_eq. unfold len in Hl. lia. }
  destruct Hr as [_ _ _ _ Hsz _ _ _ _].
  destruct (Z.ltb_spec HTTP1_MAX_HEADER_BYTES (len (take k b))); [unfold len in *; rewrite length_take in *; lia|].
  cbn [orb]. destruct (find_char LF (take k b)) as [i|] eqn:Ei.
  - apply find_char_Some in Ei as (Hs & _ & _). rewrite (bool_decide_eq_true_2 (LF ∈ take k b)); [done|].
    rewrite Hs. apply elem_of_app. right. by left.
  - apply find_char_None in Ei. by rewrite (bool_decide_eq_false_2 (LF ∈ take k b)).
Qed.

(** Any two texts with the same header block are the same request. *)
Lemma parse_same_block b b' r0 r :
  parse_headers b (MReq r0) = (Complete, MReq r) ->
  take (Z.to_nat (req_header_bytes r)) b' = take (Z.to_nat (req_header_bytes r)) b ->
  parse_headers b' (MReq r0) = (Complete, MReq r).
Proof.
  intros E Hb. destruct (parse_request_ok _ _ _ E) as (Hr & t' & Ht & Hl & Hf & H4). set (n := Z.to_nat (req_header_bytes r)) in *.
  assert (Hfound : find_sub (CRLF ++ CRLF) (take n b) <> None).
  { set (e := (length t' - 4)%nat) in *. assert (En : n = (e + 4)%nat) by (unfold n, e, len in *; lia).
    pose proof (find_sub_length _ _ _ Hf) as Hle. pose proof (find_sub_split _ _ _ Hf) as Hs.
    change (length (CRLF ++ CRLF)) with 4%nat in Hle, Hs.
    assert (Htake : take n b = take e b ++ CRLF ++ CRLF).
    { rewrite Hs at 1. rewrite app_assoc, take_app_le, take_ge; [done|..]; rewrite length_app, length_take; cbn; lia. }
    intros Hn. apply find_sub_None with (j := e) in Hn. rewrite Htake, drop_app_ge in Hn by (rewrite length_take; lia).
    rewrite length_take, Nat.min_l, Nat.sub_diag in Hn by lia. done. }
  rewrite <- (take_drop n b'), Hb, parse_headers_extend by done.
  by rewrite <- (take_drop n b), parse_headers_extend in E by done.
Qed.

(** (C30) Reading in pieces: once a request is complete no later byte changes
    it, and before that the verdict on a prefix depends only on whether a
    line feed has arrived.  A prefix without one asks for more input; a
    prefix with one is refused, so a request whose header block does not
    arrive in one piece after its first line is an error. *)
Theorem parse_in_pieces (b t : bytes) (r0 r : HttpRequest) (k : nat) :
  parse_headers b (MReq r0) = (Complete, MReq r) ->
  parse_headers (b ++ t) (MReq r0) = (Complete, MReq r) /\
  (Z.of_nat k < req_header_bytes r ->
   parse_headers (take k b) (MReq r0) =
   (if bool_decide (LF ∈ take k b) then PError else Incomplete, MReq r0)).
Proof.
  intros E. split; [|by eapply parse_prefix]. destruct (parse_request_ok _ _ _ E) as (_ & t' & _ & _ & Hf & _).
  rewrite parse_headers_extend; [done|]. by rewrite Hf.
Qed.

Lemma parse_in_pieces_witness :
  (parse_headers (take 20 demo_request) (MReq HttpRequest_default)).1 = PError /\
  (parse_headers (take 10 demo_request) (MReq HttpRequest_default)).1 = Incomplete.
Proof.
  assert (H : forall k, Z.of_nat k < 48 ->
    parse_headers (take k demo_request) (MReq HttpRequest_default) =
    (if bool_decide (LF ∈ take k demo_request) then PError else Incomplete, MReq HttpRequest_default)).
  { intros k. refine (proj2 (parse_in_pieces demo_request [] HttpRequest_default
      (mkRequest (str "POST") (str "/f") (str "HTTP/1.1")
        [mkHeader (str "Host") (str "a"); mkHeader (str "Content-Length") (str "2")] true 2 false 48) k _)).
    vm_compute. reflexivity. }
  split; rewrite H by done; vm_compute; reflexivity.
Defined.

Lemma request_line_plain req : forwardable req -> plain_line (request_line req).
Proof.
  intros [[(Hm & _ & Hmt) (Ht & _ & _) Hv] Htl _ _ _]. unfold request_line. split; [by destruct (req_method req)|].
  destruct (version_no_space _ Hv). rewrite !not_elem_of_app. split_and!; try done;
    try (apply (bool_decide_unpack _); vm_compute; done).
  intros Hin. by apply (tokens_not_special _ LF Hmt) in Hin as (_ & _ & ? & _).
Qed.

(** What the next hop reads of a request. *)
Definition forwarded_request (req : HttpRequest) (host : bytes) (size : Z) : HttpRequest :=
  mkRequest (req_method req) (req_target req) (req_version req) (forwarded_headers req host)
    (bool_decide (req_version req = str "HTTP/1.1")) (req_content_length req) false size.

Lemma read_back req host rest q0 :
  forwardable req -> header_ok (host_header host) ->
  let text := text_lines (request_line req :: map hline (forwarded_headers req host)) in
  len (forwarded_headers req host) <= HTTP1_MAX_HEADER_COUNT -> len text <= HTTP1_MAX_HEADER_BYTES ->
  parse_headers (text ++ rest) (MReq q0) = (Complete, MReq (forwarded_request req host (len text))).
Proof.
  intros Hf Hh text Hc Hl. unfold text in *. pose proof (forwarded_plain req host Hf Hh) as Hp.
  rewrite parse_text; [|by apply request_line_plain| |done].
  - cbn [parse_start]. unfold request_line at 1. rewrite parse_request_line_complete by apply Hf.
    rewrite (read_plain_headers (req_content_length req)); [|done|done|cbn [req_headers]; autorewrite with uplen; lia].
    cbn [hs_msg msg_chunked with_headers req_chunked andb hs_cl set_content_length req_headers app
      req_method req_target req_version req_keep_alive req_header_bytes].
    unfold forwarded_request. by rewrite forwarded_length.
  - apply Forall_map, (Forall_impl _ _ _ Hp). intros h Hhp. apply hline_plain, Hhp.
Qed.

(** (C5) No request is re-framed on its way through the proxy.  A request
    that the parser accepted and that is not chunked is always serialized,
    and when the result keeps to the limits of 100 headers and 65536 bytes,
    the same parser, as the next hop, reads it back with the same method,
    target, version and body length, never as chunked, and with exactly the
    headers Host, those of the original that are not hop-by-hop, and Via, in
    this order; whatever follows the block is left as the body. *)
Theorem forward_same_request (b rest : bytes) (r0 q0 req : HttpRequest) (host : bytes) :
  parse_headers b (MReq r0) = (Complete, MReq req) -> header_ok (host_header host) ->
  exists text, request_text req host = Ok text /\
    (len (forwarded_headers req host) <= HTTP1_MAX_HEADER_COUNT -> len text <= HTTP1_MAX_HEADER_BYTES ->
     parse_headers (text ++ rest) (MReq q0) = (Complete, MReq (forwarded_request req host (len text)))).
Proof.
  intros E Hh. destruct (parse_request_ok _ _ _ E) as [Hr _]. pose proof (rq_headers _ Hr) as Hhs.
  eexists. split; [|intros Hc Hl; apply read_back; try done; by apply request_ok_forwardable].
  apply request_text_lines. apply (Forall_impl _ _ _ Hhs). intros h Hok. apply Hok.
Qed.

Lemma demo_host_ok : header_ok (host_header (str "10.0.0.1:80")).
Proof. split; try (vm_compute; congruence). Qed.

Lemma forward_same_request_witness :
  exists req text,
    parse_headers demo_request (MReq HttpRequest_default) = (Complete, MReq req) /\
    request_text req (str "10.0.0.1:80") = Ok text /\
    (parse_headers (text ++ str "hi") (MReq HttpRequest_default)).1 = Complete /\
    req_headers (forwarded_request req (str "10.0.0.1:80") 0) =
      [host_header (str "10.0.0.1:80"); mkHeader (str "Content-Length") (str "2"); via_header].
Proof.
  assert (E : exists req, parse_headers demo_request (MReq HttpRequest_default) = (Complete, MReq req) /\
    len (forwarded_headers req (str "10.0.0.1:80")) <= HTTP1_MAX_HEADER_COUNT /\
    (forall text, request_text req (str "10.0.0.1:80") = Ok text -> len text <= HTTP1_MAX_HEADER_BYTES) /\
    req_headers (forwarded_request req (str "10.0.0.1:80") 0) =
      [host_header (str "10.0.0.1:80"); mkHeader (str "Content-Length") (str "2"); via_header]).
  { eexists. split; [vm_compute; reflexivity|]. split_and!; [vm_compute; discriminate| |vm_compute; reflexivity].
    intros text Ht. vm_compute in Ht. injection Ht as <-. vm_compute. discriminate. }
  destruct E as (req & E & Hc & Hl & Hh).
  destruct (forward_same_request demo_request (str "hi") HttpRequest_default HttpRequest_default req
              (str "10.0.0.1:80") E demo_host_ok) as (text & Ht & Hp).
  exists req, text. split_and!; [exact E|exact Ht| |exact Hh]. rewrite (Hp Hc (Hl text Ht)). reflexivity.
Defined.

(** Chunk sizes survive the wire: for every size that the parser can
    return, the header the serializer writes is accepted and consumed
    completely, whatever the buffer holds behind it. *)
Theorem chunk_header_roundtrip {B} `{BufferSpec B} (buf : B) (n : Z) (rest : bytes) :
  buf_ok buf -> contents buf = [] -> 0 <= n <= INT64_MAX -> len rest + 18 <= BUF_LIMIT ->
  exists b1, write_chunk_header n buf = (Ok tt, b1) /\
  exists b2, buf_append rest b1 = (Ok tt, b2) /\
  exists b3, parse_chunk_header b2 = (n, b3) /\ contents b3 = rest.
Proof.
  intros Hok He Hn Hlim. pose proof (to_hex_length n ltac:(unfold UINT64_MAX, INT64_MAX in *; lia)) as Hx.
  set (hx := to_hex n). assert (Hll : len (hx ++ CRLF) <= 18) by (unfold hx, len; rewrite length_app; change (length CRLF) with 2%nat; lia).
  pose proof (len_nonneg rest).
  destruct (append_app buf (hx ++ CRLF) Hok) as (b1 & E1 & Hok1 & C1); [rewrite He, len_nil; lia|].
  exists b1. unfold write_chunk_header. fold hx. destruct (Z.leb_spec 32 (len (hx ++ CRLF))); [lia|]. split; [done|].
  rewrite He in C1. cbn [app] in C1.
  destruct (append_app b1 rest Hok1) as (b2 & E2 & Hok2 & C2); [rewrite C1; lia|].
  exists b2. split; [done|]. rewrite C1 in C2.
  assert (Hdig : forall c, c ∈ hx -> is_Some (digit_val 16 c)).
  { intros c. apply all_digits_elem. apply (format_nat_spec 16 n); unfold INT64_MAX in *; lia. }
  exists (buf_commit_read b2 (Z.of_nat (length hx) + 2)).
  assert (Hpeek : exists t, buf_peek b2 (Z.min (buf_readable b2) 128) = hx ++ CRLF ++ t).
  { rewrite readable_len by done. pose proof (len_nonneg (contents b2)). rewrite peek_take by (done || lia).
    rewrite C2, (len_app (hx ++ CRLF)). rewrite take_app_ge by (unfold len in *; lia).
    eexists. by rewrite <- app_assoc. }
  destruct Hpeek as [t Hpeek]. unfold parse_chunk_header. rewrite Hpeek.
  rewrite find_CRLF_first by (intros [d Hd]%Hdig; by vm_compute in Hd). rewrite take_app_length.
  unfold find_char. rewrite find_sub_absent by (intros [d Hd]%Hdig; by vm_compute in Hd).
  unfold hx at 1 2, to_hex. rewrite whole_number_format by (unfold UINT64_MAX, INT64_MAX in *; lia).
  destruct (Z.ltb_spec INT64_MAX n); [lia|]. split; [done|].
  rewrite commit_read_drop, C2 by (done || lia). rewrite <- app_assoc.
  replace (Z.to_nat (Z.of_nat (length hx) + 2)) with (length hx + 2)%nat by lia.
  by rewrite <- drop_drop, drop_app_length.
Qed.

Lemma chunk_header_roundtrip_witness :
  exists b1, write_chunk_header 4096 ([] : bytes) = (Ok tt, b1) /\ b1 = str "1000" ++ CRLF /\
             (parse_chunk_header (b1 ++ str "body")).1 = 4096.
Proof.
  destruct (chunk_header_roundtrip (B := bytes) [] 4096 (str "body")) as (b1 & E1 & b2 & E2 & b3 & E3 & C3);
    [exact I|reflexivity|unfold INT64_MAX; lia|unfold BUF_LIMIT; vm_compute; discriminate|].
  exists b1. split; [exact E1|]. split; [vm_compute in E1; injection E1 as <-; reflexivity|].
  injection E2 as <-. rewrite E3. reflexivity.
Defined.
