(* ===== verification/Huffman.v ===== *)
(** * The Huffman code of HPACK (src/include/uproxy/hpack_huffman_table.h and
    the Huffman parts of encode_string and decode_string in src/src/hpack.cpp)

    The encoder shifts codes into a 64-bit accumulator and drains whole
    bytes; the decoder walks a binary tree that is stored in a vector and
    built from the symbol table. *)

From stdpp Require Import prelude.
From S2P Require Import Prelude Result.

(** ** The symbol table *)

Record HpackHuffmanSym := sym_ { nbits : Z; hcode : Z }.

Definition HPACK_HUFFMAN_SYM_TABLE : list HpackHuffmanSym :=
  [sym_ 13 0xffc00000; sym_ 23 0xffffb000; sym_ 28 0xfffffe20; sym_ 28 0xfffffe30; sym_ 28 0xfffffe40;
   sym_ 28 0xfffffe50; sym_ 28 0xfffffe60; sym_ 28 0xfffffe70; sym_ 28 0xfffffe80; sym_ 24 0xffffea00;
   sym_ 30 0xfffffff0; sym_ 28 0xfffffe90; sym_ 28 0xfffffea0; sym_ 30 0xfffffff4; sym_ 28 0xfffffeb0;
   sym_ 28 0xfffffec0; sym_ 28 0xfffffed0; sym_ 28 0xfffffee0; sym_ 28 0xfffffef0; sym_ 28 0xffffff00;
   sym_ 28 0xffffff10; sym_ 28 0xffffff20; sym_ 30 0xfffffff8; sym_ 28 0xffffff30; sym_ 28 0xffffff40;
   sym_ 28 0xffffff50; sym_ 28 0xffffff60; sym_ 28 0xffffff70; sym_ 28 0xffffff80; sym_ 28 0xffffff90;
   sym_ 28 0xffffffa0; sym_ 28 0xffffffb0; sym_ 6 0x50000000; sym_ 10 0xfe000000; sym_ 10 0xfe400000;
   sym_ 12 0xffa00000; sym_ 13 0xffc80000; sym_ 6 0x54000000; sym_ 8 0xf8000000; sym_ 11 0xff400000;
   sym_ 10 0xfe800000; sym_ 10 0xfec00000; sym_ 8 0xf9000000; sym_ 11 0xff600000; sym_ 8 0xfa000000;
   sym_ 6 0x58000000; sym_ 6 0x5c000000; sym_ 6 0x60000000; sym_ 5 0x0; sym_ 5 0x8000000;
   sym_ 5 0x10000000; sym_ 6 0x64000000; sym_ 6 0x68000000; sym_ 6 0x6c000000; sym_ 6 0x70000000;
   sym_ 6 0x74000000; sym_ 6 0x78000000; sym_ 6 0x7c000000; sym_ 7 0xb8000000; sym_ 8 0xfb000000;
   sym_ 15 0xfff80000; sym_ 6 0x80000000; sym_ 12 0xffb00000; sym_ 10 0xff000000; sym_ 13 0xffd00000;
   sym_ 6 0x84000000; sym_ 7 0xba000000; sym_ 7 0xbc000000; sym_ 7 0xbe000000; sym_ 7 0xc0000000;
   sym_ 7 0xc2000000; sym_ 7 0xc4000000; sym_ 7 0xc6000000; sym_ 7 0xc8000000; sym_ 7 0xca000000;
   sym_ 7 0xcc000000; sym_ 7 0xce000000; sym_ 7 0xd0000000; sym_ 7 0xd2000000; sym_ 7 0xd4000000;
   sym_ 7 0xd6000000; sym_ 7 0xd8000000; sym_ 7 0xda000000; sym_ 7 0xdc000000; sym_ 7 0xde000000;
   sym_ 7 0xe0000000; sym_ 7 0xe2000000; sym_ 7 0xe4000000; sym_ 8 0xfc000000; sym_ 7 0xe6000000;
   sym_ 8 0xfd000000; sym_ 13 0xffd80000; sym_ 19 0xfffe0000; sym_ 13 0xffe00000; sym_ 14 0xfff00000;
   sym_ 6 0x88000000; sym_ 15 0xfffa0000; sym_ 5 0x18000000; sym_ 6 0x8c000000; sym_ 5 0x20000000;
   sym_ 6 0x90000000; sym_ 5 0x28000000; sym_ 6 0x94000000; sym_ 6 0x98000000; sym_ 6 0x9c000000;
   sym_ 5 0x30000000; sym_ 7 0xe8000000; sym_ 7 0xea000000; sym_ 6 0xa0000000; sym_ 6 0xa4000000;
   sym_ 6 0xa8000000; sym_ 5 0x38000000; sym_ 6 0xac000000; sym_ 7 0xec000000; sym_ 6 0xb0000000;
   sym_ 5 0x40000000; sym_ 5 0x48000000; sym_ 6 0xb4000000; sym_ 7 0xee000000; sym_ 7 0xf0000000;
   sym_ 7 0xf2000000; sym_ 7 0xf4000000; sym_ 7 0xf6000000; sym_ 15 0xfffc0000; sym_ 11 0xff800000;
   sym_ 14 0xfff40000; sym_ 13 0xffe80000; sym_ 28 0xffffffc0; sym_ 20 0xfffe6000; sym_ 22 0xffff4800;
   sym_ 20 0xfffe7000; sym_ 20 0xfffe8000; sym_ 22 0xffff4c00; sym_ 22 0xffff5000; sym_ 22 0xffff5400;
   sym_ 23 0xffffb200; sym_ 22 0xffff5800; sym_ 23 0xffffb400; sym_ 23 0xffffb600; sym_ 23 0xffffb800;
   sym_ 23 0xffffba00; sym_ 23 0xffffbc00; sym_ 24 0xffffeb00; sym_ 23 0xffffbe00; sym_ 24 0xffffec00;
   sym_ 24 0xffffed00; sym_ 22 0xffff5c00; sym_ 23 0xffffc000; sym_ 24 0xffffee00; sym_ 23 0xffffc200;
   sym_ 23 0xffffc400; sym_ 23 0xffffc600; sym_ 23 0xffffc800; sym_ 21 0xfffee000; sym_ 22 0xffff6000;
   sym_ 23 0xffffca00; sym_ 22 0xffff6400; sym_ 23 0xffffcc00; sym_ 23 0xffffce00; sym_ 24 0xffffef00;
   sym_ 22 0xffff6800; sym_ 21 0xfffee800; sym_ 20 0xfffe9000; sym_ 22 0xffff6c00; sym_ 22 0xffff7000;
   sym_ 23 0xffffd000; sym_ 23 0xffffd200; sym_ 21 0xfffef000; sym_ 23 0xffffd400; sym_ 22 0xffff7400;
   sym_ 22 0xffff7800; sym_ 24 0xfffff000; sym_ 21 0xfffef800; sym_ 22 0xffff7c00; sym_ 23 0xffffd600;
   sym_ 23 0xffffd800; sym_ 21 0xffff0000; sym_ 21 0xffff0800; sym_ 22 0xffff8000; sym_ 21 0xffff1000;
   sym_ 23 0xffffda00; sym_ 22 0xffff8400; sym_ 23 0xffffdc00; sym_ 23 0xffffde00; sym_ 20 0xfffea000;
   sym_ 22 0xffff8800; sym_ 22 0xffff8c00; sym_ 22 0xffff9000; sym_ 23 0xffffe000; sym_ 22 0xffff9400;
   sym_ 22 0xffff9800; sym_ 23 0xffffe200; sym_ 26 0xfffff800; sym_ 26 0xfffff840; sym_ 20 0xfffeb000;
   sym_ 19 0xfffe2000; sym_ 22 0xffff9c00; sym_ 23 0xffffe400; sym_ 22 0xffffa000; sym_ 25 0xfffff600;
   sym_ 26 0xfffff880; sym_ 26 0xfffff8c0; sym_ 26 0xfffff900; sym_ 27 0xfffffbc0; sym_ 27 0xfffffbe0;
   sym_ 26 0xfffff940; sym_ 24 0xfffff100; sym_ 25 0xfffff680; sym_ 19 0xfffe4000; sym_ 21 0xffff1800;
   sym_ 26 0xfffff980; sym_ 27 0xfffffc00; sym_ 27 0xfffffc20; sym_ 26 0xfffff9c0; sym_ 27 0xfffffc40;
   sym_ 24 0xfffff200; sym_ 21 0xffff2000; sym_ 21 0xffff2800; sym_ 26 0xfffffa00; sym_ 26 0xfffffa40;
   sym_ 28 0xffffffd0; sym_ 27 0xfffffc60; sym_ 27 0xfffffc80; sym_ 27 0xfffffca0; sym_ 20 0xfffec000;
   sym_ 24 0xfffff300; sym_ 20 0xfffed000; sym_ 21 0xffff3000; sym_ 22 0xffffa400; sym_ 21 0xffff3800;
   sym_ 21 0xffff4000; sym_ 23 0xffffe600; sym_ 22 0xffffa800; sym_ 22 0xffffac00; sym_ 25 0xfffff700;
   sym_ 25 0xfffff780; sym_ 24 0xfffff400; sym_ 24 0xfffff500; sym_ 26 0xfffffa80; sym_ 23 0xffffe800;
   sym_ 26 0xfffffac0; sym_ 27 0xfffffcc0; sym_ 26 0xfffffb00; sym_ 26 0xfffffb40; sym_ 27 0xfffffce0;
   sym_ 27 0xfffffd00; sym_ 27 0xfffffd20; sym_ 27 0xfffffd40; sym_ 27 0xfffffd60; sym_ 28 0xffffffe0;
   sym_ 27 0xfffffd80; sym_ 27 0xfffffda0; sym_ 27 0xfffffdc0; sym_ 27 0xfffffde0; sym_ 27 0xfffffe00;
   sym_ 26 0xfffffb80; sym_ 30 0xfffffffc].

Definition sym_default : HpackHuffmanSym := sym_ 0 0.

(** [HPACK_HUFFMAN_SYM_TABLE[i]]. *)
Definition huff_sym (i : nat) : HpackHuffmanSym := nth i HPACK_HUFFMAN_SYM_TABLE sym_default.

Definition byte_sym (c : byte) : HpackHuffmanSym := huff_sym (Z.to_nat (b2z c)).

(** [sym.code >> (32 - sym.nbits)]. *)
Definition code_of (s : HpackHuffmanSym) : Z := Z.shiftr (hcode s) (32 - nbits s).

(** ** Encoding *)

(** The first loop of [encode_string]. *)
Definition huffman_len (s : bytes) : Z := fold_left (fun n c => u64 (n + nbits (byte_sym c))) s 0.

Definition huffman_bytes (s : bytes) : Z := u64 (huffman_len s + 7) / 8.

(** The locals of the encoding loop: [bit_buf], [bit_len] and [enc]. *)
Record HuffEnc := mkHuffEnc { bit_buf : Z; bit_len : Z; enc : bytes }.

(** [while (bit_len >= 8)]; [bit_len] is at most 37, so five turns are enough. *)
Fixpoint huff_drain (fuel : nat) (s : HuffEnc) : HuffEnc :=
  match fuel with
  | O => s
  | S fuel' =>
      if 8 <=? bit_len s then
        let bl := bit_len s - 8 in
        huff_drain fuel' (mkHuffEnc (bit_buf s) bl (enc s ++ [z2b (Z.land (Z.shiftr (bit_buf s) bl) 255)]))
      else s
  end.

Definition huff_push (s : HuffEnc) (c : byte) : HuffEnc :=
  let sym := byte_sym c in
  let code := code_of sym in
  huff_drain 5 (mkHuffEnc (Z.lor (u64 (Z.shiftl (bit_buf s) (nbits sym))) code) (bit_len s + nbits sym) (enc s)).

(** The last byte is filled up with ones. *)
Definition huff_finish (s : HuffEnc) : bytes :=
  if 0 <? bit_len s then
    let k := 8 - bit_len s in
    let buf := Z.lor (u64 (Z.shiftl (bit_buf s) k)) (Z.shiftl 1 k - 1) in
    enc s ++ [z2b (Z.land buf 255)]
  else enc s.

Definition huff_encode (s : bytes) : bytes := huff_finish (fold_left huff_push s (mkHuffEnc 0 0 [])).

(** ** The decoding tree *)

(** [-1] stands for no child and no symbol, as in the code. *)
Record HuffNode := mkNode { left_ : Z; right_ : Z; sym : Z }.

Definition HuffNode_default : HuffNode := mkNode (-1) (-1) (-1).

(** [tree[i]]; the tree never holds an index outside itself (see the
    proofs), so the default is never used. *)
Definition node_at (tree : list HuffNode) (i : Z) : HuffNode := nth (Z.to_nat i) tree HuffNode_default.

Definition set_node (tree : list HuffNode) (i : Z) (n : HuffNode) : list HuffNode := <[Z.to_nat i := n]> tree.

(** One turn of the inner loop of the construction: follow or create the
    child for one bit. *)
Definition build_bit (tree : list HuffNode) (node : Z) (bit : bool) : list HuffNode * Z :=
  let n := node_at tree node in
  if bit then
    if right_ n =? -1 then (set_node tree node (mkNode (left_ n) (len tree) (sym n)) ++ [HuffNode_default], len tree)
    else (tree, right_ n)
  else
    if left_ n =? -1 then (set_node tree node (mkNode (len tree) (right_ n) (sym n)) ++ [HuffNode_default], len tree)
    else (tree, left_ n).

(** [for (b = nbits - 1; b >= 0; --b)]: [k] is [b + 1]. *)
Fixpoint build_code (k : nat) (code : Z) (tree : list HuffNode) (node : Z) : list HuffNode * Z :=
  match k with
  | O => (tree, node)
  | S b =>
      let '(tree, node) := build_bit tree node (Z.testbit code (Z.of_nat b)) in
      build_code b code tree node
  end.

Definition build_sym (i : Z) (s : HpackHuffmanSym) (tree : list HuffNode) : list HuffNode :=
  let '(tree, node) := build_code (Z.to_nat (nbits s)) (code_of s) tree 0 in
  let n := node_at tree node in
  set_node tree node (mkNode (left_ n) (right_ n) i).

Fixpoint build_syms (i : Z) (ss : list HpackHuffmanSym) (tree : list HuffNode) : list HuffNode :=
  match ss with
  | [] => tree
  | s :: ss' => build_syms (i + 1) ss' (build_sym i s tree)
  end.

Definition huff_tree : list HuffNode := build_syms 0 HPACK_HUFFMAN_SYM_TABLE [HuffNode_default].

(** ** Decoding *)

(** One bit of the walk: the next node and the output. *)
Definition walk_bit (tree : list HuffNode) (node : Z) (out : bytes) (bit : bool) : Result (Z * bytes) :=
  let n := node_at tree node in
  let node := if bit then right_ n else left_ n in
  if node =? -1 then Err (from_code HpackError (str "invalid Huffman code"))
  else
    let s := sym (node_at tree node) in
    if negb (s =? -1) then
      if s =? 256 then Err (from_code HpackError (str "EOS symbol in Huffman"))
      else Ok (0, out ++ [z2b s])
    else Ok (node, out).

(** The bits of a byte, the most significant first. *)
Definition byte_bits (b : byte) : list bool := map (fun i => Z.testbit (b2z b) (Z.of_nat i)) [7; 6; 5; 4; 3; 2; 1; 0]%nat.

Fixpoint walk_bits (tree : list HuffNode) (bits : list bool) (node : Z) (out : bytes) : Result (Z * bytes) :=
  match bits with
  | [] => Ok (node, out)
  | b :: bits' =>
      match walk_bit tree node out b with
      | Err e => Err e
      | Ok (node, out) => walk_bits tree bits' node out
      end
  end.

(** The two nested loops over bytes and bits. *)
Fixpoint walk_bytes (tree : list HuffNode) (data : bytes) (node : Z) (out : bytes) : Result bytes :=
  match data with
  | [] => Ok out
  | b :: data' =>
      match walk_bits tree (byte_bits b) node out with
      | Err e => Err e
      | Ok (node, out) => walk_bytes tree data' node out
      end
  end.

Definition huff_decode (data : bytes) : Result bytes := walk_bytes huff_tree data 0 [].

Example huff_example :
  huff_encode (str "www.example.com") =
    map z2b [0xf1; 0xe3; 0xc2; 0xe5; 0xf2; 0x3a; 0x6b; 0xa0; 0xab; 0x90; 0xf4; 0xff]
  /\ huff_decode (huff_encode (str "www.example.com")) = Ok (str "www.example.com").
Proof. split; vm_compute; reflexivity. Qed.
