(* ===== verification/HuffmanProofs.v ===== *)
(** * The Huffman code round trip

    Both directions are related to lists of bits: the accumulator of the
    encoder holds the bits not yet drained, and the node of the decoder's
    walk stands for the bits of an unfinished code. *)

From stdpp Require Import prelude.
From S2P Require Import Prelude Result Huffman.

(** ** Bits of an integer, the most significant first *)

Fixpoint Zbits (n : nat) (v : Z) : list bool :=
  match n with
  | O => []
  | S n' => Z.testbit v (Z.of_nat n') :: Zbits n' v
  end.

Definition data_bits (d : bytes) : list bool := concat (map byte_bits d).

Lemma Zbits_length n v : length (Zbits n v) = n.
Proof. induction n as [|n IH]; cbn; [done|by rewrite IH]. Qed.

Lemma Zbits_ext n v w :
  (forall i, 0 <= i < Z.of_nat n -> Z.testbit v i = Z.testbit w i) -> Zbits n v = Zbits n w.
Proof.
  induction n as [|n IH]; intros H; cbn; [done|]. rewrite H by lia. f_equal. apply IH. intros i Hi. apply H. lia.
Qed.

Lemma Zbits_app n m v : Zbits (n + m) v = Zbits n (Z.shiftr v (Z.of_nat m)) ++ Zbits m v.
Proof.
  induction n as [|n IH]; cbn; [done|]. rewrite IH, Z.shiftr_spec by lia. do 2 f_equal. lia.
Qed.

(** Shifting in [m] bits. *)
Lemma Zbits_push n m v w :
  0 <= w < 2 ^ Z.of_nat m -> (n + m <= 64)%nat ->
  Zbits (n + m) (Z.lor (u64 (Z.shiftl v (Z.of_nat m))) w) = Zbits n v ++ Zbits m w.
Proof.
  intros Hw Hnm. rewrite Zbits_app.
  assert (Hhi : forall i, Z.of_nat m <= i -> Z.testbit w i = false).
  { intros i Hi. destruct (Z.eq_dec w 0) as [->|]; [apply Z.testbit_0_l|].
    apply Z.bits_above_log2; [lia|]. apply Z.log2_lt_pow2; [lia|].
    eapply Z.lt_le_trans; [apply Hw|]. apply Z.pow_le_mono_r; lia. }
  f_equal; apply Zbits_ext; intros i Hi; rewrite ?Z.shiftr_spec, Z.lor_spec by lia; unfold u64.
  - rewrite Z.mod_pow2_bits_low, Z.shiftl_spec, (Hhi (i + Z.of_nat m)) by lia. rewrite orb_false_r. f_equal. lia.
  - rewrite Z.mod_pow2_bits_low, Z.shiftl_spec_low by lia. done.
Qed.

Lemma byte_bits_Zbits b : byte_bits b = Zbits 8 (b2z b).
Proof. done. Qed.

Lemma byte_bits_z2b x : byte_bits (z2b (Z.land x 255)) = Zbits 8 x.
Proof.
  rewrite byte_bits_Zbits, b2z_z2b. apply Zbits_ext. intros i Hi. change 256 with (2 ^ 8).
  rewrite Z.mod_pow2_bits_low by lia. change 255 with (Z.ones 8). rewrite Z.land_spec, Z.ones_spec_low by lia.
  apply andb_true_r.
Qed.

Lemma data_bits_snoc d b : data_bits (d ++ [b]) = data_bits d ++ byte_bits b.
Proof. unfold data_bits. rewrite map_app, concat_app. cbn [map concat]. by rewrite app_nil_r. Qed.

Lemma data_bits_length d : length (data_bits d) = (8 * length d)%nat.
Proof.
  unfold data_bits. induction d as [|b d IH]; [done|]. cbn [map concat length].
  rewrite length_app, IH, byte_bits_Zbits, Zbits_length. lia.
Qed.

(** ** The table *)

Definition sym_ok (s : HpackHuffmanSym) : bool :=
  (5 <=? nbits s) && (nbits s <=? 30) && (0 <=? code_of s) && (code_of s <? 2 ^ nbits s).

Lemma byte_sym_ok c : 5 <= nbits (byte_sym c) <= 30 /\ 0 <= code_of (byte_sym c) < 2 ^ nbits (byte_sym c).
Proof.
  assert (H : sym_ok (byte_sym c) = true)
    by (apply (byte_forallb (fun c => sym_ok (byte_sym c))); vm_compute; reflexivity).
  unfold sym_ok in H. zbool. lia.
Qed.

Definition code_bits (c : byte) : list bool := Zbits (Z.to_nat (nbits (byte_sym c))) (code_of (byte_sym c)).
Definition text_bits (s : bytes) : list bool := concat (map code_bits s).

(** ** The encoder *)

(** The bits the encoder has taken in. *)
Definition taken (s : HuffEnc) : list bool := data_bits (enc s) ++ Zbits (Z.to_nat (bit_len s)) (bit_buf s).

Lemma huff_drain_spec fuel s :
  0 <= bit_len s < 8 * Z.of_nat fuel + 8 ->
  taken (huff_drain fuel s) = taken s /\ 0 <= bit_len (huff_drain fuel s) < 8.
Proof.
  revert s; induction fuel as [|fuel IH]; intros s Hs; cbn [huff_drain]; [split; [done|lia]|].
  destruct (Z.leb_spec 8 (bit_len s)); [|split; [done|lia]].
  edestruct IH as [-> ?]; [|split; [|done]]; cbn [bit_len]; [lia|].
  unfold taken. cbn [enc bit_len bit_buf]. rewrite data_bits_snoc, byte_bits_z2b, <- app_assoc. f_equal.
  replace (Z.to_nat (bit_len s)) with (8 + Z.to_nat (bit_len s - 8))%nat by lia.
  rewrite Zbits_app. repeat f_equal. lia.
Qed.

Lemma huff_push_spec s c :
  0 <= bit_len s < 8 -> taken (huff_push s c) = taken s ++ code_bits c /\ 0 <= bit_len (huff_push s c) < 8.
Proof.
  intros Hs. destruct (byte_sym_ok c) as [Hn Hc]. unfold huff_push.
  edestruct huff_drain_spec as [-> ?]; [|split; [|done]]; cbn [bit_len]; [lia|].
  unfold taken, code_bits. cbn [enc bit_len bit_buf]. rewrite <- app_assoc. f_equal.
  replace (Z.to_nat (bit_len s + nbits (byte_sym c)))
    with (Z.to_nat (bit_len s) + Z.to_nat (nbits (byte_sym c)))%nat by lia.
  rewrite <- Zbits_push by (rewrite ?Z2Nat.id by lia; lia). rewrite Z2Nat.id by lia. done.
Qed.

Lemma huff_push_all s e :
  0 <= bit_len e < 8 ->
  taken (fold_left huff_push s e) = taken e ++ text_bits s /\ 0 <= bit_len (fold_left huff_push s e) < 8.
Proof.
  revert e; induction s as [|c s IH]; intros e He; cbn [fold_left]; [by rewrite app_nil_r|].
  destruct (huff_push_spec e c He) as [Ht Hb]. destruct (IH _ Hb) as [-> ?]. split; [|done].
  rewrite Ht, <- app_assoc. done.
Qed.

Lemma Zbits_ones k : Zbits k (Z.shiftl 1 (Z.of_nat k) - 1) = replicate k true.
Proof.
  rewrite Z.shiftl_1_l. change (2 ^ Z.of_nat k - 1) with (Z.pred (2 ^ Z.of_nat k)). rewrite <- Z.ones_equiv.
  assert (H : forall j, (j <= k)%nat -> Zbits j (Z.ones (Z.of_nat k)) = replicate j true); [|by apply H].
  induction j as [|j IH]; intros Hj; cbn; [done|]. rewrite Z.ones_spec_low by lia. f_equal. apply IH. lia.
Qed.

(** The encoder's bytes are the codes, filled up with fewer than eight ones. *)
Lemma huff_encode_bits s :
  exists k, (k < 8)%nat /\ data_bits (huff_encode s) = text_bits s ++ replicate k true.
Proof.
  destruct (huff_push_all s (mkHuffEnc 0 0 [])) as [Ht Hb]; [cbn; lia|].
  unfold huff_encode, huff_finish. set (e := fold_left huff_push s (mkHuffEnc 0 0 [])) in *.
  unfold taken in Ht. cbn [enc bit_len bit_buf] in Ht. change (data_bits [] ++ Zbits (Z.to_nat 0) 0) with (@nil bool) in Ht.
  cbn [app] in Ht. destruct (Z.ltb_spec 0 (bit_len e)).
  - exists (Z.to_nat (8 - bit_len e)). split; [lia|].
    rewrite data_bits_snoc, byte_bits_z2b, <- Ht, <- app_assoc. f_equal.
    replace 8%nat with (Z.to_nat (bit_len e) + Z.to_nat (8 - bit_len e))%nat at 1 by lia.
    rewrite <- (Z2Nat.id (8 - bit_len e)) at 2 3 by lia.
    rewrite Zbits_push; [by rewrite Zbits_ones| |lia].
    rewrite Z.shiftl_1_l. pose proof (Z.pow_pos_nonneg 2 (Z.of_nat (Z.to_nat (8 - bit_len e)))). lia.
  - exists 0%nat. split; [lia|]. replace (bit_len e) with 0 in Ht by lia. cbn in *. by rewrite !app_nil_r in *.
Qed.

(** ** The decoder *)

Lemma walk_bits_app tree a b node out :
  walk_bits tree (a ++ b) node out =
  match walk_bits tree a node out with Err e => Err e | Ok (n, o) => walk_bits tree b n o end.
Proof.
  revert node out; induction a as [|x a IH]; intros node out; cbn; [done|].
  destruct (walk_bit tree node out x) as [[n o]|e]; [apply IH|done].
Qed.

Lemma walk_bytes_bits tree data node out :
  walk_bytes tree data node out =
  match walk_bits tree (data_bits data) node out with Err e => Err e | Ok (_, o) => Ok o end.
Proof.
  revert node out; induction data as [|b data IH]; intros node out; cbn [walk_bytes]; [done|].
  change (data_bits (b :: data)) with (byte_bits b ++ data_bits data). rewrite walk_bits_app.
  destruct (walk_bits tree (byte_bits b) node out) as [[n o]|e]; [apply IH|done].
Qed.

(** The walk only appends to the output. *)
Lemma walk_bits_out tree bits node out :
  walk_bits tree bits node out =
  match walk_bits tree bits node [] with Err e => Err e | Ok (n, o) => Ok (n, out ++ o) end.
Proof.
  revert node out; induction bits as [|b bits IH]; intros node out; cbn; [by rewrite app_nil_r|].
  unfold walk_bit. destruct (_ =? -1); [done|]. destruct (negb _).
  - destruct (_ =? 256); [done|]. rewrite IH, (IH _ ([] ++ _)).
    destruct (walk_bits tree bits 0 []) as [[n o]|e]; [|done]. by rewrite app_assoc.
  - rewrite IH. done.
Qed.

Definition walks_to (bits : list bool) (c : byte) : bool :=
  match walk_bits huff_tree bits 0 [] with
  | Ok (0, [c']) => Byte.eqb c c'
  | _ => false
  end.

Lemma walk_code c out : walk_bits huff_tree (code_bits c) 0 out = Ok (0, out ++ [c]).
Proof.
  assert (H : walks_to (code_bits c) c = true)
    by (apply (byte_forallb (fun c => walks_to (code_bits c) c)); vm_compute; reflexivity).
  unfold walks_to in H. rewrite walk_bits_out.
  destruct (walk_bits huff_tree (code_bits c) 0 []) as [[[] [|c' []]]|]; try done. zbool. by subst.
Qed.

Lemma walk_text s out : walk_bits huff_tree (text_bits s) 0 out = Ok (0, out ++ s).
Proof.
  revert out; induction s as [|c s IH]; intros out; [by rewrite app_nil_r|].
  change (text_bits (c :: s)) with (code_bits c ++ text_bits s).
  rewrite walk_bits_app, walk_code, IH, <- app_assoc. done.
Qed.

(** Fewer than eight ones never complete a code. *)
Lemma walk_padding k out : (k < 8)%nat -> exists n, walk_bits huff_tree (replicate k true) 0 out = Ok (n, out).
Proof.
  intros Hk. rewrite walk_bits_out.
  assert (H : forallb (fun k => match walk_bits huff_tree (replicate k true) 0 [] with Ok (_, []) => true | _ => false end)
                (seq 0 8) = true) by (vm_compute; reflexivity).
  rewrite forallb_forall in H. specialize (H k ltac:(apply in_seq; lia)).
  destruct (walk_bits huff_tree (replicate k true) 0 []) as [[n []]|]; try done. exists n. by rewrite app_nil_r.
Qed.

Lemma huff_decode_encode s : huff_decode (huff_encode s) = Ok s.
Proof.
  destruct (huff_encode_bits s) as (k & Hk & Hb). unfold huff_decode. rewrite walk_bytes_bits, Hb, walk_bits_app, walk_text.
  cbn [app]. by destruct (walk_padding k s Hk) as [n ->].
Qed.

(** ** The announced length *)

Lemma text_bits_length_bound s : (length (text_bits s) <= 30 * length s)%nat.
Proof.
  unfold text_bits. induction s as [|c s IH]; cbn [map concat length]; [lia|].
  rewrite length_app. unfold code_bits at 1. rewrite Zbits_length. destruct (byte_sym_ok c). lia.
Qed.

Lemma huffman_len_spec s : 30 * len s < 2 ^ 64 -> huffman_len s = Z.of_nat (length (text_bits s)).
Proof.
  unfold huffman_len. intros H.
  assert (G : forall a, 0 <= a -> a + 30 * len s < 2 ^ 64 ->
    fold_left (fun n c => u64 (n + nbits (byte_sym c))) s a = a + Z.of_nat (length (text_bits s)));
    [|apply G; lia].
  clear H. induction s as [|c s IH]; intros a Ha Hl; cbn [fold_left]; [cbn; lia|].
  rewrite len_cons in Hl. destruct (byte_sym_ok c). pose proof (len_nonneg s).
  rewrite u64_small by lia. rewrite IH by lia.
  change (text_bits (c :: s)) with (code_bits c ++ text_bits s). rewrite length_app.
  unfold code_bits. rewrite Zbits_length. lia.
Qed.

(** The length that [encode_string] announces is the length it writes. *)
Lemma huffman_bytes_spec s : 30 * len s + 7 < 2 ^ 64 -> huffman_bytes s = len (huff_encode s).
Proof.
  intros H. destruct (huff_encode_bits s) as (k & Hk & Hb). apply (f_equal length) in Hb.
  rewrite data_bits_length, length_app, length_replicate in Hb. pose proof (text_bits_length_bound s).
  unfold huffman_bytes. rewrite huffman_len_spec, u64_small by (unfold len in *; lia).
  unfold len. symmetry. apply (Z.div_unique _ _ _ (7 - Z.of_nat k)); lia.
Qed.

(** ** The tree is the code *)

(** The bits that lead from the root to each node. *)
Definition add_paths (tree : list HuffNode) (ps : list (list bool)) (i : nat) : list (list bool) :=
  let n := node_at tree (Z.of_nat i) in
  let p := nth i ps [] in
  let put c b ps := if c =? -1 then ps else <[Z.to_nat c := p ++ [b]]> ps in
  put (right_ n) true (put (left_ n) false ps).

Definition tree_paths (tree : list HuffNode) : list (list bool) :=
  fold_left (add_paths tree) (seq 0 (length tree)) (replicate (length tree) []).

Definition path_in (ps : list (list bool)) (i : Z) : list bool := nth (Z.to_nat i) ps [].

(** A child is inside the tree and one bit further; a symbol sits at the end
    of its code; an inner node is less than a whole code away. *)
Definition node_ok (tree : list HuffNode) (ps : list (list bool)) (i : Z) : bool :=
  let n := node_at tree i in
  let child c b := (c =? -1) || ((0 <=? c) && (c <? len tree) && bool_decide (path_in ps c = path_in ps i ++ [b])) in
  child (left_ n) false && child (right_ n) true &&
  (if sym n =? -1 then (length (path_in ps i) <? 30)%nat
   else (0 <=? sym n) && (sym n <=? 256) &&
        ((sym n =? 256) || bool_decide (path_in ps i = code_bits (z2b (sym n))))).

Definition tree_ok (tree : list HuffNode) (ps : list (list bool)) : bool :=
  forallb (fun k => node_ok tree ps (Z.of_nat k)) (seq 0 (length tree)).

Lemma text_bits_snoc s c : text_bits (s ++ [c]) = text_bits s ++ code_bits c.
Proof. unfold text_bits. rewrite map_app, concat_app. cbn [map concat]. by rewrite app_nil_r. Qed.

Section Walk.
Variables (tree : list HuffNode) (ps : list (list bool)).
Hypothesis Hok : tree_ok tree ps = true.
Hypothesis Hroot : 0 < len tree /\ path_in ps 0 = [] /\ sym (node_at tree 0) = -1.

Lemma node_at_ok i : 0 <= i < len tree -> node_ok tree ps i = true.
Proof.
  unfold tree_ok, len in *. intros Hi. rewrite forallb_forall in Hok.
  specialize (Hok (Z.to_nat i) ltac:(apply in_seq; lia)). by rewrite Z2Nat.id in Hok by lia.
Qed.

Lemma child_ok i (bit : bool) c :
  0 <= i < len tree -> c = (if bit then right_ (node_at tree i) else left_ (node_at tree i)) ->
  c <> -1 -> 0 <= c < len tree /\ path_in ps c = path_in ps i ++ [bit].
Proof.
  intros Hi Hc Hn. pose proof (node_at_ok i Hi) as H. unfold node_ok in H.
  apply andb_true_iff in H as [H _]. apply andb_true_iff in H as [Hl Hr].
  assert (Hb : ((c =? -1) || ((0 <=? c) && (c <? len tree) && bool_decide (path_in ps c = path_in ps i ++ [bit]))) = true)
    by (subst c; by destruct bit).
  destruct (Z.eqb_spec c (-1)); [done|]. cbn [orb] in Hb. zbool. split; [lia|done].
Qed.

Lemma node_sym_ok i :
  0 <= i < len tree ->
  if sym (node_at tree i) =? -1 then (length (path_in ps i) < 30)%nat
  else sym (node_at tree i) = 256 \/ path_in ps i = code_bits (z2b (sym (node_at tree i))).
Proof.
  intros Hi. pose proof (node_at_ok i Hi) as H. unfold node_ok in H. apply andb_true_iff in H as [_ H].
  destruct (sym (node_at tree i) =? -1); [by apply Nat.ltb_lt|]. apply andb_true_iff in H as [_ H].
  apply orb_true_iff in H as [H|H]; zbool; auto.
Qed.

(** The state of the walk: where it stands is what it has read. *)
Definition walk_inv (read : list bool) (node : Z) (out : bytes) : Prop :=
  0 <= node < len tree /\ sym (node_at tree node) = -1 /\ read = text_bits out ++ path_in ps node.

Lemma walk_inv_root out : walk_inv (text_bits out) 0 out.
Proof. destruct Hroot as (? & Hp & ?). split_and!; try done. by rewrite Hp, app_nil_r. Qed.

Lemma walk_bit_inv read node out bit node' out' :
  walk_inv read node out -> walk_bit tree node out bit = Ok (node', out') -> walk_inv (read ++ [bit]) node' out'.
Proof.
  intros (Hn & Hs & Hr) E. unfold walk_bit in E. revert E.
  set (c := if bit then right_ (node_at tree node) else left_ (node_at tree node)).
  destruct (Z.eqb_spec c (-1)) as [|Hc]; [done|]. destruct (child_ok node bit c Hn eq_refl Hc) as [Hrange Hp].
  pose proof (node_sym_ok c Hrange) as Hsym. destruct (Z.eqb_spec (sym (node_at tree c)) (-1)) as [Hs'|Hs']; cbn [negb].
  - intros E. simplify_eq. unfold walk_inv. rewrite Hp, app_assoc. done.
  - destruct (Z.eqb_spec (sym (node_at tree c)) 256) as [|H256]; [done|]. intros E. simplify_eq.
    destruct Hsym as [?|Hcode]; [done|]. rewrite <- app_assoc, <- Hp, Hcode, <- text_bits_snoc. apply walk_inv_root.
Qed.

Lemma walk_bits_inv bits : forall read node out node' out',
  walk_inv read node out -> walk_bits tree bits node out = Ok (node', out') -> walk_inv (read ++ bits) node' out'.
Proof.
  induction bits as [|b bits IH]; intros read node out node' out' Hi E; cbn in E; [simplify_eq; by rewrite app_nil_r|].
  destruct (walk_bit tree node out b) as [[n o]|e] eqn:Eb; [|done].
  apply (walk_bit_inv _ _ _ _ _ _ Hi) in Eb. apply (IH _ _ _ _ _ Eb) in E. by rewrite <- app_assoc in E.
Qed.

Lemma walk_sound d s :
  walk_bytes tree d 0 [] = Ok s -> exists tail, data_bits d = text_bits s ++ tail /\ (length tail < 30)%nat.
Proof.
  rewrite walk_bytes_bits. destruct (walk_bits _ _ _ _) as [[n o]|e] eqn:E; [|done].
  intros Hs. simplify_eq. destruct (walk_bits_inv _ _ _ _ _ _ (walk_inv_root []) E) as (Hn & Hsym & Hr).
  exists (path_in ps n). split; [exact Hr|]. pose proof (node_sym_ok n Hn) as H. by rewrite Hsym in H.
Qed.
End Walk.

Lemma huff_tree_ok :
  (let t := huff_tree in
   let ps := tree_paths t in
   tree_ok t ps && (0 <? len t) && bool_decide (path_in ps 0 = []) && (sym (node_at t 0) =? -1)) = true.
Proof. vm_compute. reflexivity. Qed.

(** ** Properties *)

(** (C21) Huffman round trip: the tree walk of [decode_string] recovers every
    string of bytes from the bytes that the bit accumulator of
    [encode_string] writes for it, and the length announced before them,
    computed in a first pass over the table, is their number. *)
Theorem huffman_roundtrip (s : bytes) :
  huff_decode (huff_encode s) = Ok s /\
  (30 * len s + 7 < 2 ^ 64 -> huffman_bytes s = len (huff_encode s)).
Proof. split; [apply huff_decode_encode|apply huffman_bytes_spec]. Qed.

Lemma huffman_roundtrip_witness :
  huffman_bytes (str "/index.html") = len (huff_encode (str "/index.html")) /\
  huffman_bytes (str "/index.html") = 8.
Proof.
  split; [|vm_compute; reflexivity].
  refine (proj2 (huffman_roundtrip (str "/index.html")) _). vm_compute. reflexivity.
Defined.

(** (C29) The decoder accepts nothing else: if it returns [s], the input is
    bit for bit the codes of the characters of [s] followed by fewer than 30
    bits of an unfinished code; the EOS symbol and unassigned codes are
    errors, and the walk never leaves the vector of nodes. *)
Theorem huffman_decode_sound (d s : bytes) :
  huff_decode d = Ok s ->
  exists tail, data_bits d = text_bits s ++ tail /\ (length tail < 30)%nat.
Proof.
  pose proof huff_tree_ok as H. cbv zeta in H. unfold huff_decode. generalize dependent huff_tree. intros t H.
  zbool. by apply (walk_sound t (tree_paths t)).
Qed.

Lemma huffman_decode_sound_witness :
  huff_decode (map z2b [0xf1; 0xe3; 0xc2]) = Ok (str "www") /\
  exists tail, data_bits (map z2b [0xf1; 0xe3; 0xc2]) = text_bits (str "www") ++ tail /\ (length tail < 30)%nat.
Proof.
  assert (E : huff_decode (map z2b [0xf1; 0xe3; 0xc2]) = Ok (str "www")) by (vm_compute; reflexivity).
  split; [exact E|]. exact (huffman_decode_sound _ _ E).
Defined.
