(* ===== verification/Hpack.v ===== *)
(** * Header compression (src/src/hpack.cpp, src/include/uproxy/hpack.h)

    The encoder writes literals only, to any buffer that offers [BufferOps];
    the decoder consumes a span of bytes.  Both keep a dynamic table, newest
    entry first, with its size in the units of the specification. *)

From stdpp Require Import prelude.
From S2P Require Import Prelude Result CxxString Buffer Huffman.

Record HpackHeader := mkHpack { hp_name : bytes; hp_value : bytes; hp_sensitive : bool }.

#[global] Instance HpackHeader_eq_dec : EqDecision HpackHeader.
Proof. solve_decision. Defined.

Definition static_ (n v : String.string) : HpackHeader := mkHpack (str n) (str v) false.
Arguments static_ (n v)%_string_scope.

Definition HPACK_STATIC_TABLE : list HpackHeader :=
  [static_ "" "";
   static_ ":authority" "";
   static_ ":method" "GET";
   static_ ":method" "POST";
   static_ ":path" "/";
   static_ ":path" "/index.html";
   static_ ":scheme" "http";
   static_ ":scheme" "https";
   static_ ":status" "200";
   static_ ":status" "204";
   static_ ":status" "206";
   static_ ":status" "304";
   static_ ":status" "400";
   static_ ":status" "404";
   static_ ":status" "500";
   static_ "accept-charset" "";
   static_ "accept-encoding" "gzip, deflate";
   static_ "accept-language" "";
   static_ "accept-ranges" "";
   static_ "accept" "";
   static_ "access-control-allow-origin" "";
   static_ "age" "";
   static_ "allow" "";
   static_ "authorization" "";
   static_ "cache-control" "";
   static_ "content-disposition" "";
   static_ "content-encoding" "";
   static_ "content-language" "";
   static_ "content-length" "";
   static_ "content-location" "";
   static_ "content-range" "";
   static_ "content-type" "";
   static_ "cookie" "";
   static_ "date" "";
   static_ "etag" "";
   static_ "expect" "";
   static_ "expires" "";
   static_ "from" "";
   static_ "host" "";
   static_ "if-match" "";
   static_ "if-modified-since" "";
   static_ "if-none-match" "";
   static_ "if-range" "";
   static_ "if-unmodified-since" "";
   static_ "last-modified" "";
   static_ "link" "";
   static_ "location" "";
   static_ "max-forwards" "";
   static_ "proxy-authenticate" "";
   static_ "proxy-authorization" "";
   static_ "range" "";
   static_ "referer" "";
   static_ "refresh" "";
   static_ "retry-after" "";
   static_ "server" "";
   static_ "set-cookie" "";
   static_ "strict-transport-security" "";
   static_ "transfer-encoding" "";
   static_ "user-agent" "";
   static_ "vary" "";
   static_ "via" "";
   static_ "www-authenticate" ""].

Definition has_uppercase (s : bytes) : bool := existsb isupper s.

Definition entry_size (h : HpackHeader) : Z := u64 (len (hp_name h) + len (hp_value h) + 32).

(** ** The dynamic table, common to both directions *)

Record HpackTable := mkTable {
  dynamic_table_ : list HpackHeader;
  table_size_ : Z;
  max_table_size_ : Z;
}.

Definition HpackTable_default : HpackTable := mkTable [] 0 4096.

Definition entry_default : HpackHeader := mkHpack [] [] false.

(** [while (table_size_ > max_table_size_ && !dynamic_table_.empty())]: every
    turn removes an entry. *)
Fixpoint evict (fuel : nat) (t : HpackTable) : HpackTable :=
  match fuel with
  | O => t
  | S fuel' =>
      if (max_table_size_ t <? table_size_ t) && negb (len (dynamic_table_ t) =? 0) then
        evict fuel' (mkTable (removelast (dynamic_table_ t))
                       (u64 (table_size_ t - entry_size (List.last (dynamic_table_ t) entry_default)))
                       (max_table_size_ t))
      else t
  end.

Definition evict_all (t : HpackTable) : HpackTable := evict (length (dynamic_table_ t)) t.

(** [push_front] and the update of the size, then the loop. *)
Definition add_to_dynamic (h : HpackHeader) (t : HpackTable) : HpackTable :=
  evict_all (mkTable (h :: dynamic_table_ t) (u64 (table_size_ t + entry_size h)) (max_table_size_ t)).

Definition set_max_table_size (n : Z) (t : HpackTable) : HpackTable :=
  evict_all (mkTable (dynamic_table_ t) (table_size_ t) n).

(** ** Encoding *)

Section Encode.
Context {B : Type} `{BufferOps B}.

(** [while (value >= 128)]; a 64-bit value has at most nine such digits. *)
Fixpoint encode_int_loop (fuel : nat) (value : Z) : M B unit :=
  match fuel with
  | O => ret tt
  | S fuel' =>
      if 128 <=? value then
        buf_append [z2b (value mod 128 + 128)] ;;; encode_int_loop fuel' (value / 128)
      else buf_append [z2b value]
  end.

Definition encode_int (value : Z) (prefix_bits : Z) (prefix : Z) : M B unit :=
  let max_prefix := Z.shiftl 1 prefix_bits - 1 in
  if value <? max_prefix then buf_append [z2b (Z.lor prefix (value mod 256))]
  else
    buf_append [z2b (Z.lor prefix (max_prefix mod 256))] ;;;
    encode_int_loop 10 (value - max_prefix).

Definition encode_string (s : bytes) : M B unit :=
  if huffman_bytes s <? len s then
    encode_int (huffman_bytes s) 7 128 ;;; buf_append (huff_encode s)
  else
    encode_int (len s) 7 0 ;;; buf_append s.

Definition is_sensitive (h : HpackHeader) : bool :=
  hp_sensitive h || bool_decide (hp_name h = str "authorization") || bool_decide (hp_name h = str "cookie")
  || bool_decide (hp_name h = str "proxy-authorization").

(** The writes for one header. *)
Definition encode_header (h : HpackHeader) : M B unit :=
  encode_int 0 (if is_sensitive h then 4 else 6) (if is_sensitive h then 16 else 64) ;;;
  encode_string (hp_name h) ;;;
  encode_string (hp_value h).

(** [HpackEncoder::encode]; the state is the encoder's table and the buffer. *)
Fixpoint encode (headers : list HpackHeader) : M (HpackTable * B) unit :=
  match headers with
  | [] => ret tt
  | h :: headers' => fun '(t, out) =>
      if has_uppercase (hp_name h) then
        (Err (from_code HpackError (str "uppercase HTTP/2 header name")), (t, out))
      else
        match encode_header h out with
        | (Err e, out) => (Err e, (t, out))
        | (Ok _, out) => encode headers' (if is_sensitive h then t else add_to_dynamic h t, out)
        end
  end.
End Encode.

(** ** Decoding *)

(** The continuation bytes of an integer: [m] is the shift. *)
Fixpoint decode_int_loop (data : bytes) (value m : Z) : Result Z * bytes :=
  match data with
  | [] => (Err (from_code HpackError (str "truncated HPACK integer")), [])
  | b :: data' =>
      let value := u64 (value + u64 (Z.shiftl (Z.land (b2z b) 127) m)) in
      if Z.land (b2z b) 128 =? 0 then (Ok value, data')
      else
        let m := m + 7 in
        if 56 <? m then (Err (from_code HpackError (str "HPACK integer overflow")), data')
        else decode_int_loop data' value m
  end.

Definition decode_int (prefix_bits : Z) : M bytes Z := fun data =>
  match data with
  | [] => (Err (from_code HpackError (str "truncated HPACK integer")), data)
  | b :: data' =>
      if (prefix_bits <=? 0) || (8 <? prefix_bits)
      then (Err (from_code HpackError (str "truncated HPACK integer")), data)
      else
        let mask := Z.shiftl 1 prefix_bits - 1 in
        let value := Z.land (b2z b) mask in
        if value <? mask then
          if (value =? 0) && (prefix_bits =? 7) then (Err (from_code HpackError (str "invalid index 0")), data')
          else (Ok value, data')
        else decode_int_loop data' value 0
  end.

Definition decode_string : M bytes bytes := fun data =>
  match data with
  | [] => (Err (from_code HpackError (str "truncated HPACK string")), data)
  | b :: _ =>
      let huffman := negb (Z.land (b2z b) 128 =? 0) in
      match decode_int 7 data with
      | (Err e, data) => (Err e, data)
      | (Ok n, data) =>
          if (65535 <? n) || (len data <? n)
          then (Err (from_code HpackError (str "invalid HPACK string length")), data)
          else if huffman then
            match huff_decode (take (Z.to_nat n) data) with
            | Err e => (Err e, data)
            | Ok out => (Ok out, drop (Z.to_nat n) data)
            end
          else (Ok (take (Z.to_nat n) data), drop (Z.to_nat n) data)
      end
  end.

Definition lookup_ (index : Z) (t : HpackTable) : option HpackHeader :=
  if index =? 0 then None
  else if index <? len HPACK_STATIC_TABLE then HPACK_STATIC_TABLE !! Z.to_nat index
  else
    let dyn := index - len HPACK_STATIC_TABLE in
    if (dyn =? 0) || (len (dynamic_table_ t) <? dyn) then None
    else dynamic_table_ t !! Z.to_nat (dyn - 1).

(** What [decode] works on: the table, the rest of the input and the headers
    already delivered. *)
Record DecState := mkDec { d_table : HpackTable; d_data : bytes; d_out : list HpackHeader }.

(** Run a reader on the input. *)
Definition on_data {A} (m : M bytes A) : M DecState A := fun s =>
  let '(r, d) := m (d_data s) in (r, mkDec (d_table s) d (d_out s)).

Definition push_out (h : HpackHeader) : M DecState unit := fun s =>
  (Ok tt, mkDec (d_table s) (d_data s) (d_out s ++ [h])).

Definition on_table (f : HpackTable -> HpackTable) : M DecState unit := fun s =>
  (Ok tt, mkDec (f (d_table s)) (d_data s) (d_out s)).

Definition lookup_or (msg : String.string) (index : Z) : M DecState HpackHeader := fun s =>
  match lookup_ index (d_table s) with
  | Some h => (Ok h, s)
  | None => (Err (from_code HpackError (str msg)), s)
  end.

Arguments lookup_or msg%_string_scope index.

Definition decode_indexed : M DecState unit :=
  let! idx := on_data (decode_int 7) in
  let! h := lookup_or "invalid HPACK index" idx in
  push_out h.

Definition decode_size_update : M DecState unit :=
  let! size := on_data (decode_int 5) in
  fun s =>
    if max_table_size_ (d_table s) <? size
    then (Err (from_code HpackError (str "dynamic table size update too large")), s)
    else on_table (set_max_table_size size) s.

Definition decode_name (name_idx : Z) : M DecState bytes :=
  if name_idx =? 0 then on_data decode_string
  else let! h := lookup_or "invalid HPACK name index" name_idx in ret (hp_name h).

Definition decode_literal (b : byte) : M DecState unit :=
  let indexed := negb (Z.land (b2z b) 64 =? 0) in
  let never_indexed := negb (Z.land (b2z b) 16 =? 0) in
  let! name_idx := on_data (decode_int (if indexed then 6 else 4)) in
  let! name := decode_name name_idx in
  let! value := on_data decode_string in
  if has_uppercase name then fail_with (from_code HpackError (str "uppercase HTTP/2 header name"))
  else
    let header := mkHpack name value never_indexed in
    push_out header ;;;
    (if indexed then on_table (add_to_dynamic header) else ret tt).

(** One turn of [while (!data.empty())], by the first byte. *)
Definition decode_step (b : byte) : M DecState unit :=
  if negb (Z.land (b2z b) 128 =? 0) then decode_indexed
  else if negb (Z.land (b2z b) 32 =? 0) then decode_size_update
  else decode_literal b.

(** Every turn consumes a byte, so the length of the input bounds them. *)
Fixpoint decode_loop (fuel : nat) : M DecState unit := fun s =>
  match fuel, d_data s with
  | S fuel', b :: _ => (decode_step b ;;; decode_loop fuel') s
  | _, _ => (Ok tt, s)
  end.

(** [HpackDecoder::decode]: verdict, table and delivered headers. *)
Definition decode (data : bytes) (t : HpackTable) (out : list HpackHeader)
    : Result unit * HpackTable * list HpackHeader :=
  let '(r, s) := decode_loop (length data) (mkDec t data out) in (r, d_table s, d_out s).

(** The case of tests/test_hpack.cpp. *)
Definition hpack_demo : list HpackHeader :=
  [mkHpack (str ":method") (str "GET") false; mkHpack (str ":path") (str "/") false].

Example test_hpack :
  let '(r, (_, b)) := encode hpack_demo (HpackTable_default, ([] : bytes)) in
  r = Ok tt /\ (decode b HpackTable_default []).1.1 = Ok tt /\ (decode b HpackTable_default []).2 = hpack_demo.
Proof. vm_compute. split_and!; reflexivity. Qed.
