(* ===== verification/HpackProofs.v ===== *)
(** * Correctness of HPACK

    Integers, strings and whole header lists survive the wire; the dynamic
    tables of both ends stay equal; no input breaks the decoder's table. *)

From stdpp Require Import prelude.
From S2P Require Import Prelude Result CxxString Buffer BufferProofs Huffman HuffmanProofs Hpack.

(** ** The dynamic table *)

Definition total_size (l : list HpackHeader) : Z := foldr (fun h n => entry_size h + n) 0 l.
Arguments total_size : simpl never.
Arguments entry_size : simpl never.

Lemma total_size_cons h l : total_size (h :: l) = entry_size h + total_size l.
Proof. done. Qed.

Lemma total_size_nil : total_size [] = 0.
Proof. done. Qed.

#[local] Hint Rewrite total_size_cons total_size_nil : uplen.

(** The longest prefix, from the newest entry, that fits. *)
Fixpoint fit (max : Z) (l : list HpackHeader) : list HpackHeader :=
  match l with
  | [] => []
  | h :: l' => if entry_size h <=? max then h :: fit (max - entry_size h) l' else []
  end.

Lemma entry_size_range h : 0 <= entry_size h < 2 ^ 64.
Proof. apply u64_range. Qed.

Lemma total_size_nonneg l : 0 <= total_size l.
Proof. induction l as [|h l IH]; autorewrite with uplen; [lia|]. pose proof (entry_size_range h). lia. Qed.

Lemma total_size_app l k : total_size (l ++ k) = total_size l + total_size k.
Proof. induction l as [|h l IH]; cbn [app]; autorewrite with uplen; [done|lia]. Qed.

Lemma fit_all max l : total_size l <= max -> fit max l = l.
Proof.
  revert max; induction l as [|h l IH]; intros max Hm; cbn in *; autorewrite with uplen in *; [done|].
  pose proof (total_size_nonneg l). destruct (Z.leb_spec (entry_size h) max); [|lia]. f_equal. apply IH. lia.
Qed.

Lemma fit_snoc max l h : max < total_size (l ++ [h]) -> fit max (l ++ [h]) = fit max l.
Proof.
  revert max; induction l as [|x l IH]; intros max Hm; cbn in *; autorewrite with uplen in *.
  - by destruct (Z.leb_spec (entry_size h) max); [lia|].
  - destruct (Z.leb_spec (entry_size x) max); [|done]. f_equal. apply IH. lia.
Qed.

Lemma fit_size max l : 0 <= max -> total_size (fit max l) <= max.
Proof.
  revert max; induction l as [|h l IH]; intros max Hm; cbn; [autorewrite with uplen; lia|].
  destruct (Z.leb_spec (entry_size h) max); cbn; autorewrite with uplen; [|lia]. specialize (IH (max - entry_size h) ltac:(lia)). lia.
Qed.

Lemma fit_sub max l h : h ∈ fit max l -> h ∈ l.
Proof.
  revert max; induction l as [|x l IH]; intros max; cbn; [done|].
  destruct (entry_size x <=? max); [|by intros ?%elem_of_nil]. rewrite !elem_of_cons.
  intros [->|Hx]; [by left|right; by eapply IH].
Qed.

(** The eviction loop keeps the longest prefix that fits. *)
Lemma evict_fit l max :
  0 <= max -> total_size l < 2 ^ 64 ->
  evict_all (mkTable l (total_size l) max) = mkTable (fit max l) (total_size (fit max l)) max.
Proof.
  intros Hmax. unfold evict_all. cbn [dynamic_table_].
  induction l as [|h l IH] using rev_ind; intros Hl; [done|].
  rewrite length_app. cbn [length]. rewrite Nat.add_1_r. cbn [evict max_table_size_ table_size_ dynamic_table_].
  destruct (Z.ltb_spec max (total_size (l ++ [h]))).
  - destruct (Z.eqb_spec (len (l ++ [h])) 0) as [E|_]; [autorewrite with uplen in E; pose proof (len_nonneg l); lia|].
    cbn [andb negb]. rewrite removelast_last, last_last, fit_snoc by done.
    rewrite total_size_app in *. rewrite total_size_cons, total_size_nil in *.
    pose proof (total_size_nonneg l). pose proof (entry_size_range h).
    rewrite u64_small by lia. replace (total_size l + (entry_size h + 0) - entry_size h) with (total_size l) by lia.
    apply IH. lia.
  - cbn [andb]. by rewrite fit_all by lia.
Qed.

Definition header_small (h : HpackHeader) : Prop := len (hp_name h) <= 2 ^ 20 /\ len (hp_value h) <= 2 ^ 20.

Lemma entry_size_small h : header_small h -> entry_size h = len (hp_name h) + len (hp_value h) + 32.
Proof.
  intros [H1 H2]. unfold entry_size. apply u64_small. pose proof (len_nonneg (hp_name h)). pose proof (len_nonneg (hp_value h)). lia.
Qed.

(** The invariant of a table. *)
Record table_ok (t : HpackTable) : Prop := {
  to_size : table_size_ t = total_size (dynamic_table_ t);
  to_fits : table_size_ t <= max_table_size_ t;
  to_max : max_table_size_ t < 2 ^ 63;
  to_entries : Forall (fun h => header_small h /\ has_uppercase (hp_name h) = false) (dynamic_table_ t);
}.

Lemma table_ok_default : table_ok HpackTable_default.
Proof. by split. Qed.

Lemma table_ok_fit l max :
  0 <= max < 2 ^ 63 -> Forall (fun h => header_small h /\ has_uppercase (hp_name h) = false) l ->
  table_ok (mkTable (fit max l) (total_size (fit max l)) max).
Proof.
  intros Hm Hl. split; cbn; [done|apply fit_size; lia|lia|].
  apply Forall_forall. intros h Hh%fit_sub. rewrite Forall_forall in Hl. by apply Hl.
Qed.

(** Adding an entry: the newest entries that fit, the new one first. *)
Lemma add_to_dynamic_fit h t :
  table_ok t -> header_small h ->
  add_to_dynamic h t =
  mkTable (fit (max_table_size_ t) (h :: dynamic_table_ t))
    (total_size (fit (max_table_size_ t) (h :: dynamic_table_ t))) (max_table_size_ t).
Proof.
  intros [Hs Hf Hm He] Hh. unfold add_to_dynamic. pose proof (entry_size_small h Hh) as Hes.
  destruct Hh as [Hn Hv]. pose proof (total_size_nonneg (dynamic_table_ t)).
  pose proof (len_nonneg (hp_name h)). pose proof (len_nonneg (hp_value h)).
  rewrite Hs in *. rewrite u64_small by lia.
  rewrite (Z.add_comm (total_size _)). apply (evict_fit (h :: dynamic_table_ t)); autorewrite with uplen; lia.
Qed.

Lemma add_to_dynamic_ok h t :
  table_ok t -> header_small h -> has_uppercase (hp_name h) = false -> table_ok (add_to_dynamic h t).
Proof.
  intros Ht Hh Hu. rewrite add_to_dynamic_fit by done. destruct Ht as [Hs Hf Hm He].
  pose proof (total_size_nonneg (dynamic_table_ t)). apply table_ok_fit; [lia|]. by constructor.
Qed.

Lemma set_max_fit n t :
  table_ok t -> 0 <= n ->
  set_max_table_size n t = mkTable (fit n (dynamic_table_ t)) (total_size (fit n (dynamic_table_ t))) n.
Proof.
  intros [Hs Hf Hm He] Hn. unfold set_max_table_size. rewrite Hs. apply evict_fit; lia.
Qed.

Lemma set_max_ok n t : table_ok t -> 0 <= n < 2 ^ 63 -> table_ok (set_max_table_size n t).
Proof. intros Ht Hn. rewrite set_max_fit by (done || lia). apply table_ok_fit; [done|]. apply Ht. Qed.

(** ** Integers *)

Fixpoint int_digits (fuel : nat) (v : Z) : bytes :=
  match fuel with
  | O => []
  | S fuel' => if 128 <=? v then z2b (v mod 128 + 128) :: int_digits fuel' (v / 128) else [z2b v]
  end.

(** The bytes [encode_int] writes. *)
Definition int_bytes (v pb prefix : Z) : bytes :=
  let m := Z.shiftl 1 pb - 1 in
  if v <? m then [z2b (Z.lor prefix (v mod 256))]
  else z2b (Z.lor prefix (m mod 256)) :: int_digits 10 (v - m).

Lemma encode_int_writes {B} `{BufferSpec B} v pb prefix : writes (B := B) (encode_int v pb prefix) (int_bytes v pb prefix).
Proof.
  unfold encode_int, int_bytes. cbv zeta. destruct (v <? Z.shiftl 1 pb - 1); [apply writes_append|].
  apply (writes_seq _ _ [_]); [apply writes_append|].
  generalize (v - (Z.shiftl 1 pb - 1)). generalize 10%nat.
  induction n as [|fuel IH]; intros w; cbn [encode_int_loop int_digits]; [apply writes_ret|].
  destruct (128 <=? w); [|apply writes_append]. apply (writes_seq _ _ [_]); [apply writes_append|apply IH].
Qed.

(** A byte split into its flag and its seven digits. *)
Lemma byte_low7 x : 0 <= x < 128 -> Z.land (b2z (z2b x)) 127 = x /\ Z.land (b2z (z2b x)) 128 = 0.
Proof.
  intros Hx. rewrite b2z_z2b_small by lia. change 127 with (Z.ones 7). rewrite Z.land_ones by lia. split; [apply Z.mod_small; lia|].
  assert (H : forallb (fun k => Z.land (Z.of_nat k) 128 =? 0) (seq 0 128) = true) by (vm_compute; reflexivity).
  rewrite forallb_forall in H. specialize (H (Z.to_nat x) ltac:(apply in_seq; lia)). rewrite Z2Nat.id in H by lia. by zbool.
Qed.

Lemma byte_high7 x : 0 <= x < 128 -> Z.land (b2z (z2b (x + 128))) 127 = x /\ Z.land (b2z (z2b (x + 128))) 128 <> 0.
Proof.
  intros Hx. rewrite b2z_z2b_small by lia. change 127 with (Z.ones 7). rewrite Z.land_ones by lia. change (2 ^ 7) with 128.
  rewrite Z.add_mod, Z.mod_same, Z.add_0_r, Z.mod_mod, Z.mod_small by lia. split; [done|].
  assert (H : forallb (fun k => negb (Z.land (Z.of_nat k + 128) 128 =? 0)) (seq 0 128) = true) by (vm_compute; reflexivity).
  rewrite forallb_forall in H. specialize (H (Z.to_nat x) ltac:(apply in_seq; lia)). rewrite Z2Nat.id in H by lia. by zbool.
Qed.

Lemma decode_int_digits fuel k v acc rest :
  0 <= k <= 8 -> 0 <= v < 2 ^ (63 - 7 * k) -> (1 <= fuel)%nat -> v < 2 ^ (7 * Z.of_nat fuel) ->
  0 <= acc -> acc + v * 2 ^ (7 * k) < 2 ^ 64 ->
  decode_int_loop (int_digits fuel v ++ rest) acc (7 * k) = (Ok (acc + v * 2 ^ (7 * k)), rest).
Proof.
  revert k v acc; induction fuel as [|fuel IH]; intros k v acc Hk Hv Hf1 Hf Ha Hs; [lia|].
  cbn [int_digits]. assert (Hp : 0 < 2 ^ (7 * k)) by (apply Z.pow_pos_nonneg; lia).
  destruct (Z.leb_spec 128 v) as [Hge|Hlt]; cbn [app decode_int_loop].
  - pose proof (Z.mod_pos_bound v 128 ltac:(lia)) as Hm. pose proof (Z.div_mod v 128 ltac:(lia)) as Hdm.
    destruct (byte_high7 (v mod 128) Hm) as [-> E].
    destruct (Z.eqb_spec (Z.land (b2z (z2b (v mod 128 + 128))) 128) 0); [done|].
    assert (Hk7 : k <= 7). { destruct (Z.eq_dec k 8) as [->|]; [change (2 ^ (63 - 7 * 8)) with 128 in Hv; lia|lia]. }
    destruct (Z.ltb_spec 56 (7 * k + 7)); [lia|]. rewrite Z.shiftl_mul_pow2 by lia.
    assert (Hle : 0 <= v mod 128 * 2 ^ (7 * k) <= v * 2 ^ (7 * k))
      by (split; [apply Z.mul_nonneg_nonneg; lia|apply Z.mul_le_mono_nonneg_r; [lia|apply Z.mod_le; lia]]).
    rewrite (u64_small (v mod 128 * 2 ^ (7 * k))), u64_small by lia. replace (7 * k + 7) with (7 * (k + 1)) by lia.
    assert (Hpp : 2 ^ (7 * (k + 1)) = 128 * 2 ^ (7 * k))
      by (replace (7 * (k + 1)) with (7 + 7 * k) by lia; rewrite Z.pow_add_r by lia; done).
    rewrite IH.
    + f_equal. f_equal. rewrite Hpp. rewrite Hdm at 3. ring.
    + lia.
    + split; [apply Z.div_pos; lia|]. apply Z.div_lt_upper_bound; [lia|].
      change 128 with (2 ^ 7). rewrite <- Z.pow_add_r by lia. replace (7 + (63 - 7 * (k + 1))) with (63 - 7 * k) by lia. lia.
    + destruct fuel; [change (2 ^ (7 * Z.of_nat 1)) with 128 in Hf; lia|lia].
    + apply Z.div_lt_upper_bound; [lia|]. change 128 with (2 ^ 7). rewrite <- Z.pow_add_r by lia.
      replace (7 + 7 * Z.of_nat fuel) with (7 * Z.of_nat (S fuel)) by lia. done.
    + lia.
    + rewrite Hpp. replace (_ + _ + _) with (acc + (128 * (v / 128) + v mod 128) * 2 ^ (7 * k)) by ring. by rewrite <- Hdm.
  - destruct (byte_low7 v) as [-> ->]; [lia|]. rewrite Z.eqb_refl, Z.shiftl_mul_pow2 by lia.
    assert (0 <= v * 2 ^ (7 * k)) by (apply Z.mul_nonneg_nonneg; lia). by rewrite (u64_small (v * _)), u64_small by lia.
Qed.

(** Prefix and integer in the first byte, for the prefixes the encoder uses. *)
Definition prefixed (pb prefix : Z) : Prop :=
  (pb = 7 /\ prefix = 128) \/ (pb = 7 /\ prefix = 0) \/ (pb = 6 /\ prefix = 64) \/ (pb = 4 /\ prefix = 16).

Lemma first_byte pb prefix x :
  prefixed pb prefix -> 0 <= x < 2 ^ pb ->
  Z.land (b2z (z2b (Z.lor prefix (x mod 256)))) (2 ^ pb - 1) = x /\
  Z.land (b2z (z2b (Z.lor prefix (x mod 256)))) 128 = Z.land prefix 128.
Proof.
  intros Hp Hx.
  assert (H : forallb (fun k => let x := Z.of_nat k in
    (Z.land (b2z (z2b (Z.lor prefix (x mod 256)))) (2 ^ pb - 1) =? x) &&
    (Z.land (b2z (z2b (Z.lor prefix (x mod 256)))) 128 =? Z.land prefix 128)) (seq 0 (Z.to_nat (2 ^ pb))) = true)
    by (destruct Hp as [[-> ->]|[[-> ->]|[[-> ->]|[-> ->]]]]; vm_compute; reflexivity).
  rewrite forallb_forall in H. specialize (H (Z.to_nat x) ltac:(apply in_seq; lia)).
  cbv beta zeta in H. rewrite Z2Nat.id in H by lia. by zbool.
Qed.

Lemma prefixed_range pb prefix : prefixed pb prefix -> 4 <= pb <= 7 /\ 16 <= 2 ^ pb <= 128.
Proof. intros [[-> ->]|[[-> ->]|[[-> ->]|[-> ->]]]]; cbn; lia. Qed.

Lemma decode_int_bytes v pb prefix rest :
  prefixed pb prefix -> 0 <= v < 2 ^ 63 -> (pb = 7 -> v <> 0) ->
  decode_int pb (int_bytes v pb prefix ++ rest) = (Ok v, rest).
Proof.
  intros Hp Hv H0. pose proof (prefixed_range _ _ Hp) as [Hpb Hpow]. unfold int_bytes, decode_int.
  assert (Hm : Z.shiftl 1 pb - 1 = 2 ^ pb - 1) by (rewrite Z.shiftl_1_l; done). cbv zeta. rewrite !Hm.
  destruct (Z.leb_spec pb 0); [lia|]. destruct (Z.ltb_spec 8 pb); [lia|]. cbn [orb].
  destruct (Z.ltb_spec v (2 ^ pb - 1)); cbn [app].
  - destruct (first_byte pb prefix v Hp ltac:(lia)) as [-> _]. destruct (Z.ltb_spec v (2 ^ pb - 1)); [|lia].
    destruct (Z.eqb_spec v 0), (Z.eqb_spec pb 7); cbn [andb]; try done. by destruct H0.
  - destruct (first_byte pb prefix (2 ^ pb - 1) Hp ltac:(lia)) as [-> _]. rewrite Z.ltb_irrefl.
    pose proof (decode_int_digits 10 0 (v - (2 ^ pb - 1)) (2 ^ pb - 1) rest) as D.
    change (7 * 0) with 0 in D. change (2 ^ 0) with 1 in D. change (7 * Z.of_nat 10) with 70 in D.
    assert (2 ^ 63 < 2 ^ 70) by done. rewrite D by lia. f_equal. f_equal. lia.
Qed.

(** ** Strings *)

Definition string_bytes (s : bytes) : bytes :=
  if huffman_bytes s <? len s then int_bytes (huffman_bytes s) 7 128 ++ huff_encode s
  else int_bytes (len s) 7 0 ++ s.

Lemma encode_string_writes {B} `{BufferSpec B} s : writes (B := B) (encode_string s) (string_bytes s).
Proof.
  unfold encode_string, string_bytes.
  destruct (huffman_bytes s <? len s); apply writes_seq; (apply encode_int_writes || apply writes_append).
Qed.

Lemma int_bytes_first v pb prefix :
  prefixed pb prefix -> 0 <= v ->
  exists b rest, int_bytes v pb prefix = b :: rest /\ Z.land (b2z b) 128 = Z.land prefix 128.
Proof.
  intros Hp Hv. pose proof (prefixed_range _ _ Hp) as [Hpb Hpow]. unfold int_bytes. cbv zeta.
  rewrite Z.shiftl_1_l. destruct (Z.ltb_spec v (2 ^ pb - 1)).
  - eexists _, _. split; [done|]. apply (first_byte pb); [done|lia].
  - eexists _, _. split; [done|]. apply (first_byte pb); [done|lia].
Qed.

(** Reading an announced length and the bytes behind it. *)
Lemma decode_string_framed n prefix d rest :
  prefix = 128 \/ prefix = 0 -> len d = n -> 1 <= n <= 65535 ->
  decode_string (int_bytes n 7 prefix ++ d ++ rest) =
  if negb (Z.land prefix 128 =? 0)
  then match huff_decode d with Ok out => (Ok out, rest) | Err e => (Err e, d ++ rest) end
  else (Ok d, rest).
Proof.
  intros Hp Hd Hn. assert (Hpp : prefixed 7 prefix) by (unfold prefixed; destruct Hp; subst; tauto).
  destruct (int_bytes_first n 7 prefix Hpp ltac:(lia)) as (b & t & Eb & Hb).
  pose proof (decode_int_bytes n 7 prefix (d ++ rest) Hpp ltac:(lia) ltac:(lia)) as Ed.
  unfold decode_string. rewrite Eb in *. cbn [app] in *. rewrite Hb, Ed.
  destruct (Z.ltb_spec 65535 n); [lia|]. destruct (Z.ltb_spec (len (d ++ rest)) n); [rewrite len_app in *; pose proof (len_nonneg rest); lia|].
  cbn [orb]. replace (Z.to_nat n) with (length d) by (unfold len in Hd; lia). rewrite take_app_length, drop_app_length. done.
Qed.

Lemma huff_encode_nonempty s : s <> [] -> 1 <= len (huff_encode s).
Proof.
  intros Hs. destruct (huff_encode_bits s) as (k & _ & Hb). apply (f_equal length) in Hb.
  rewrite data_bits_length, length_app in Hb. destruct s as [|c s]; [done|].
  change (text_bits (c :: s)) with (code_bits c ++ text_bits s) in Hb. rewrite length_app in Hb.
  unfold code_bits in Hb. rewrite Zbits_length in Hb. destruct (byte_sym_ok c). unfold len. lia.
Qed.

Definition string_ok (s : bytes) : Prop := s <> [] /\ len s <= 65535.

Lemma decode_string_bytes s rest : string_ok s -> decode_string (string_bytes s ++ rest) = (Ok s, rest).
Proof.
  intros [Hne Hl]. unfold string_bytes. assert (1 <= len s) by (destruct s; [done|rewrite len_cons; pose proof (len_nonneg s); lia]).
  pose proof (huffman_bytes_spec s ltac:(lia)) as Hh. pose proof (huff_encode_nonempty s Hne).
  destruct (Z.ltb_spec (huffman_bytes s) (len s)); rewrite <- app_assoc, decode_string_framed by (tauto || lia).
  - cbn. by rewrite huff_decode_encode.
  - done.
Qed.

(** ** Header lists *)

Definition header_bytes (h : HpackHeader) : bytes :=
  [if is_sensitive h then Byte.x10 else Byte.x40] ++ string_bytes (hp_name h) ++ string_bytes (hp_value h).

Lemma encode_header_writes {B} `{BufferSpec B} h : writes (B := B) (encode_header h) (header_bytes h).
Proof.
  unfold encode_header, header_bytes. apply writes_seq.
  - destruct (is_sensitive h); apply (encode_int_writes 0).
  - apply writes_seq; apply encode_string_writes.
Qed.

Definition encodable (h : HpackHeader) : Prop :=
  string_ok (hp_name h) /\ string_ok (hp_value h) /\ has_uppercase (hp_name h) = false.

(** The flag the receiver sees. *)
Definition as_received (h : HpackHeader) : HpackHeader := mkHpack (hp_name h) (hp_value h) (is_sensitive h).

(** What a header does to a table, on both ends. *)
Definition table_after (h : HpackHeader) (t : HpackTable) : HpackTable :=
  if is_sensitive h then t else add_to_dynamic h t.

Lemma as_received_plain h : is_sensitive h = false -> as_received h = h.
Proof.
  intros E. unfold as_received. rewrite E. unfold is_sensitive in E. zbool. destruct h as [n v s]. cbn in *. by subst.
Qed.

Lemma on_data_ok {A} (m : M bytes A) s a d :
  m (d_data s) = (Ok a, d) -> on_data m s = (Ok a, mkDec (d_table s) d (d_out s)).
Proof. unfold on_data. by intros ->. Qed.

(** The literal forms the encoder uses: name and value as strings. *)
Lemma decode_literal_spec (b : byte) (indexed : bool) n v t rest out :
  b = (if indexed then Byte.x40 else Byte.x10) ->
  string_ok n -> string_ok v -> has_uppercase n = false ->
  decode_step b (mkDec t (b :: string_bytes n ++ string_bytes v ++ rest) out) =
  (Ok tt, mkDec (if indexed then add_to_dynamic (mkHpack n v (negb indexed)) t else t) rest
            (out ++ [mkHpack n v (negb indexed)])).
Proof.
  intros Hb Hn Hv Hu.
  assert (Hd : decode_step b = decode_literal b) by (subst; by destruct indexed).
  assert (Hi : negb (Z.land (b2z b) 64 =? 0) = indexed /\ negb (Z.land (b2z b) 16 =? 0) = negb indexed)
    by (subst; by destruct indexed).
  rewrite Hd. unfold decode_literal. destruct Hi as [-> ->].
  erewrite bind_ok; [|apply (on_data_ok _ _ 0 (string_bytes n ++ string_bytes v ++ rest)); subst; by destruct indexed].
  cbn [d_table d_out]. unfold decode_name. cbn [Z.eqb].
  erewrite bind_ok; [|apply on_data_ok; cbn [d_data]; by apply decode_string_bytes].
  erewrite bind_ok; [|apply on_data_ok; cbn [d_data]; by apply decode_string_bytes].
  cbn [d_table d_out]. rewrite Hu. by destruct indexed.
Qed.

Lemma decode_literal_bytes h t rest out :
  encodable h ->
  decode_step (if is_sensitive h then Byte.x10 else Byte.x40) (mkDec t (header_bytes h ++ rest) out) =
  (Ok tt, mkDec (table_after h t) rest (out ++ [as_received h])).
Proof.
  intros (Hn & Hv & Hu). unfold header_bytes, table_after. rewrite <- !app_assoc. cbn [app].
  rewrite (decode_literal_spec _ (negb (is_sensitive h))) by (done || by destruct (is_sensitive h)).
  pose proof (as_received_plain h) as Ha. unfold as_received in *. rewrite negb_involutive.
  destruct (is_sensitive h); [done|]. cbn [negb]. by rewrite Ha.
Qed.

Definition list_bytes (hs : list HpackHeader) : bytes := concat (map header_bytes hs).

Lemma header_bytes_cons h : exists t, header_bytes h = (if is_sensitive h then Byte.x10 else Byte.x40) :: t.
Proof. by eexists. Qed.

Lemma decode_loop_bytes hs : Forall encodable hs -> forall fuel t out,
  (length (list_bytes hs) <= fuel)%nat ->
  decode_loop fuel (mkDec t (list_bytes hs) out) =
  (Ok tt, mkDec (fold_left (fun t h => table_after h t) hs t) [] (out ++ map as_received hs)).
Proof.
  induction 1 as [|h hs Hh _ IH]; intros fuel t out Hf.
  - rewrite app_nil_r. by destruct fuel.
  - change (list_bytes (h :: hs)) with (header_bytes h ++ list_bytes hs) in *. destruct (header_bytes_cons h) as [x Ex].
    rewrite length_app, Ex in Hf. cbn [length] in Hf. destruct fuel as [|fuel]; [lia|].
    cbn [decode_loop d_data]. rewrite Ex at 1. cbn [app].
    rewrite (bind_ok _ _ _ _ _ (decode_literal_bytes h t (list_bytes hs) out Hh)).
    rewrite IH by lia. cbn [map fold_left]. by rewrite <- app_assoc.
Qed.

Lemma encode_writes {B} `{BufferSpec B} hs t b :
  Forall (fun h => has_uppercase (hp_name h) = false) hs -> buf_ok b ->
  len (contents b) + len (list_bytes hs) <= BUF_LIMIT ->
  exists b', encode hs (t, b) = (Ok tt, (fold_left (fun t h => table_after h t) hs t, b')) /\ buf_ok b' /\
             contents b' = contents b ++ list_bytes hs.
Proof.
  intros Hu. revert t b; induction Hu as [|h hs Hh _ IH]; intros t b Hb Hl; cbn [encode].
  - exists b. by rewrite app_nil_r.
  - change (list_bytes (h :: hs)) with (header_bytes h ++ list_bytes hs) in *. rewrite len_app in Hl.
    pose proof (len_nonneg (list_bytes hs)).
    destruct (encode_header_writes h b Hb ltac:(lia)) as (b1 & E1 & Hb1 & C1). rewrite Hh, E1.
    destruct (IH (table_after h t) b1 Hb1) as (b2 & E2 & Hb2 & C2); [rewrite C1, len_app; lia|].
    exists b2. split_and!; [exact E2|done|]. by rewrite C2, C1, <- app_assoc.
Qed.

(** An upper-case name stops the encoder after the headers before it. *)
Lemma encode_uppercase {B} `{BufferSpec B} pre h hs t b :
  Forall (fun h => has_uppercase (hp_name h) = false) pre -> has_uppercase (hp_name h) = true ->
  buf_ok b -> len (contents b) + len (list_bytes pre) <= BUF_LIMIT ->
  exists t' b', encode (pre ++ h :: hs) (t, b) =
                (Err (from_code HpackError (str "uppercase HTTP/2 header name")), (t', b')).
Proof.
  intros Hu Hh. revert t b; induction Hu as [|x pre Hx _ IH]; intros t b Hb Hl; cbn [app encode].
  - rewrite Hh. by eexists _, _.
  - change (list_bytes (x :: pre)) with (header_bytes x ++ list_bytes pre) in Hl. rewrite len_app in Hl.
    pose proof (len_nonneg (list_bytes pre)).
    destruct (encode_header_writes x b Hb ltac:(lia)) as (b1 & E1 & Hb1 & C1). rewrite Hx, E1.
    apply IH; [done|]. rewrite C1, len_app. lia.
Qed.

(** ** Arbitrary input *)

(** The value of continuation bytes, least significant digit first. *)
Definition le128 (ds : bytes) : Z := foldr (fun b n => Z.land (b2z b) 127 + 128 * n) 0 ds.

Lemma land127_range b : 0 <= Z.land (b2z b) 127 < 128.
Proof. change 127 with (Z.ones 7). rewrite Z.land_ones by lia. apply Z.mod_pos_bound. lia. Qed.

Lemma decode_int_loop_consumes data value m : exists p, data = p ++ (decode_int_loop data value m).2.
Proof.
  revert value m; induction data as [|b data IH]; intros value m; cbn; [by exists []|].
  destruct (Z.land (b2z b) 128 =? 0); [by exists [b]|]. destruct (56 <? m + 7); [by exists [b]|].
  edestruct IH as [p Hp]. exists (b :: p). cbn. by f_equal.
Qed.

(** The loop computes the exact value: nothing wraps. *)
Lemma decode_int_loop_exact data value k v rest :
  0 <= k <= 8 -> 0 <= value < 256 + 2 ^ (7 * k) -> decode_int_loop data value (7 * k) = (Ok v, rest) ->
  exists ds, data = ds ++ rest /\ ds <> [] /\ (k + len ds <= 9) /\ v = value + le128 ds * 2 ^ (7 * k) /\ v < 256 + 2 ^ 63.
Proof.
  revert value k; induction data as [|b data IH]; intros value k Hk Hv E; cbn in E; [done|].
  pose proof (land127_range b) as Hb. rewrite Z.shiftl_mul_pow2 in E by lia.
  assert (Hp : 0 < 2 ^ (7 * k)) by (apply Z.pow_pos_nonneg; lia).
  assert (Hp8 : 2 ^ (7 * k) <= 2 ^ 56) by (apply Z.pow_le_mono_r; lia).
  assert (Hpp : 2 ^ (7 * (k + 1)) = 128 * 2 ^ (7 * k))
    by (replace (7 * (k + 1)) with (7 + 7 * k) by lia; rewrite Z.pow_add_r by lia; done).
  assert (Hm : 0 <= Z.land (b2z b) 127 * 2 ^ (7 * k) <= 127 * 2 ^ (7 * k))
    by (split; [apply Z.mul_nonneg_nonneg; lia|apply Z.mul_le_mono_nonneg_r; lia]).
  rewrite (u64_small (_ * _)) in E by lia. rewrite u64_small in E by lia.
  destruct (Z.land (b2z b) 128 =? 0).
  - simplify_eq. exists [b]. split_and!; [done|done|unfold len; cbn; lia|cbn; lia|].
    assert (127 * 2 ^ (7 * k) + 2 ^ (7 * k) <= 2 ^ 63) by lia. lia.
  - destruct (Z.ltb_spec 56 (7 * k + 7)); [done|]. replace (7 * k + 7) with (7 * (k + 1)) in E by lia.
    destruct (IH (value + Z.land (b2z b) 127 * 2 ^ (7 * k)) (k + 1) ltac:(lia) ltac:(rewrite Hpp; lia) E) as (ds & -> & Hne & Hl & -> & Hlt).
    exists (b :: ds). rewrite len_cons. split_and!; [done|done|lia| |done]. cbn. fold (le128 ds). rewrite Hpp. ring.
Qed.

Lemma decode_int_consumes pb data :
  0 < pb <= 8 -> data <> [] -> exists b p, data = b :: p ++ (decode_int pb data).2.
Proof.
  intros Hpb Hd. destruct data as [|b data]; [done|]. unfold decode_int.
  destruct (Z.leb_spec pb 0); [lia|]. destruct (Z.ltb_spec 8 pb); [lia|]. cbn [orb].
  destruct (_ <? _); [destruct (_ && _); by exists b, []|].
  destruct (decode_int_loop_consumes data (Z.land (b2z b) (Z.shiftl 1 pb - 1)) 0) as [p Hp]. exists b, p. by f_equal.
Qed.

Lemma land_mask_range b pb : 0 < pb <= 8 -> 0 <= Z.land (b2z b) (Z.shiftl 1 pb - 1) < 256.
Proof.
  intros Hpb. rewrite Z.shiftl_1_l. change (2 ^ pb - 1) with (Z.pred (2 ^ pb)). rewrite <- Z.ones_equiv, Z.land_ones by lia.
  pose proof (Z.mod_pos_bound (b2z b) (2 ^ pb) ltac:(apply Z.pow_pos_nonneg; lia)).
  assert (2 ^ pb <= 2 ^ 8) by (apply Z.pow_le_mono_r; lia). lia.
Qed.

Lemma decode_int_range pb data v rest :
  decode_int pb data = (Ok v, rest) -> 0 <= v < 256 + 2 ^ 63.
Proof.
  unfold decode_int. destruct data as [|b data]; [done|].
  destruct ((pb <=? 0) || (8 <? pb)) eqn:E1; [done|]. zbool. pose proof (land_mask_range b pb ltac:(lia)) as Hr.
  destruct (_ <? _); [destruct (_ && _); [done|]; intros; simplify_eq; lia|].
  intros E. destruct (decode_int_loop_exact data (Z.land (b2z b) (Z.shiftl 1 pb - 1)) 0 v rest ltac:(lia) ltac:(change (2 ^ (7 * 0)) with 1; lia) E)
    as (ds & _ & _ & _ & -> & ?). split; [|done]. change (2 ^ (7 * 0)) with 1.
  assert (0 <= le128 ds); [|lia]. clear. induction ds as [|c ds IH]; cbn; [lia|]. fold (le128 ds). pose proof (land127_range c). lia.
Qed.

Lemma huff_decode_length d s : huff_decode d = Ok s -> 5 * len s <= 8 * len d.
Proof.
  intros E. pose proof huff_tree_ok as H. cbv zeta in H.
  assert (Hs : exists tail, data_bits d = text_bits s ++ tail /\ (length tail < 30)%nat).
  { unfold huff_decode in E. generalize dependent huff_tree. intros t E H. zbool. by apply (walk_sound t (tree_paths t)). }
  destruct Hs as (tail & Hb & _). apply (f_equal length) in Hb. rewrite data_bits_length, length_app in Hb.
  assert (Hge : (5 * length s <= length (text_bits s))%nat).
  { clear. unfold text_bits. induction s as [|c s IH]; cbn [map concat length]; [lia|].
    rewrite length_app. unfold code_bits at 1. rewrite Zbits_length. destruct (byte_sym_ok c). lia. }
  unfold len. lia.
Qed.

Lemma decode_string_consumes data r rest :
  decode_string data = (r, rest) ->
  (exists p, data = p ++ rest) /\ (forall s, r = Ok s -> len s <= 2 ^ 20).
Proof.
  unfold decode_string. destruct data as [|b data]; intros E; [simplify_eq; split; [by exists []|done]|].
  destruct (decode_int_consumes 7 (b :: data) ltac:(lia) ltac:(done)) as (c & p & Hc).
  destruct (decode_int 7 (b :: data)) as [[n|e] d] eqn:Ed; cbn [snd] in Hc;
    assert (Hd : exists p', b :: data = p' ++ d) by (by exists (c :: p)); [|by injection E as <- <-].
  destruct ((65535 <? n) || (len d <? n)) eqn:En; [by injection E as <- <-|].
  zbool. pose proof (decode_int_range _ _ _ _ Ed) as Hr.
  assert (Hl : len (take (Z.to_nat n) d) <= 65535) by (unfold len; rewrite length_take; lia).
  assert (Hs : exists p', b :: data = p' ++ drop (Z.to_nat n) d).
  { exists (c :: p ++ take (Z.to_nat n) d). rewrite Hc. cbn. by rewrite <- app_assoc, take_drop. }
  destruct (negb _).
  - destruct (huff_decode (take (Z.to_nat n) d)) as [s|e] eqn:Eh; injection E as <- <-; [|done].
    split; [done|]. intros s' [= <-]. apply huff_decode_length in Eh. lia.
  - injection E as <- <-. split; [done|]. intros s [= <-]. lia.
Qed.

Definition name_ok (h : HpackHeader) : Prop := header_small h /\ has_uppercase (hp_name h) = false.

Lemma static_ok : Forall name_ok HPACK_STATIC_TABLE.
Proof.
  assert (H : forallb (fun h => (len (hp_name h) <=? 2 ^ 20) && (len (hp_value h) <=? 2 ^ 20)
                                && negb (has_uppercase (hp_name h))) HPACK_STATIC_TABLE = true) by (vm_compute; reflexivity).
  rewrite forallb_forall in H. apply Forall_forall. intros h Hh%list_elem_of_In%H. zbool. done.
Qed.

Lemma lookup_ok index t h : table_ok t -> lookup_ index t = Some h -> name_ok h.
Proof.
  intros Ht. unfold lookup_. destruct (index =? 0); [done|]. destruct (_ <? _).
  - intros E%list_elem_of_lookup_2. pose proof static_ok as Hs. rewrite Forall_forall in Hs. by apply Hs.
  - destruct (_ || _); [done|]. intros E%list_elem_of_lookup_2. pose proof (to_entries _ Ht) as He.
    rewrite Forall_forall in He. by apply He.
Qed.

(** What one turn of the decoder may do to its state. *)
Record dec_step (s s' : DecState) : Prop := {
  ds_table : table_ok (d_table s) -> table_ok (d_table s');
  ds_max : max_table_size_ (d_table s') <= max_table_size_ (d_table s);
  ds_out : exists new, d_out s' = d_out s ++ new /\ (length new <= 1)%nat /\
                       (table_ok (d_table s) -> Forall name_ok new);
  ds_data : exists b p, d_data s = b :: p ++ d_data s';
}.

(** A turn that only reads. *)
Lemma dec_step_read s d b p : d_data s = b :: p ++ d -> dec_step s (mkDec (d_table s) d (d_out s)).
Proof.
  intros Hd. split; cbn; [done|lia| |by exists b, p]. exists []. rewrite app_nil_r. split_and!; [done|cbn; lia|by constructor].
Qed.

Lemma dec_step_push s d b p h t :
  d_data s = b :: p ++ d -> (table_ok (d_table s) -> name_ok h) ->
  t = d_table s \/ t = add_to_dynamic h (d_table s) -> max_table_size_ t <= max_table_size_ (d_table s) ->
  dec_step s (mkDec t d (d_out s ++ [h])).
Proof.
  intros Hd Hh Ht Hm. split; cbn; [|done| |by exists b, p].
  - intros Hok. destruct (Hh Hok). destruct Ht as [->| ->]; [done|by apply add_to_dynamic_ok].
  - exists [h]. split_and!; [done|cbn; lia|]. intros Hok. constructor; [by apply Hh|constructor].
Qed.

Lemma evict_max fuel t : max_table_size_ (evict fuel t) = max_table_size_ t.
Proof. revert t; induction fuel as [|fuel IH]; intros t; cbn; [done|]. destruct (_ && _); [by rewrite IH|done]. Qed.

(** Reading an integer from the input of a state. *)
Lemma on_data_int pb s r s' :
  0 < pb <= 8 -> d_data s <> [] -> on_data (decode_int pb) s = (r, s') ->
  exists b p d, d_data s = b :: p ++ d /\ s' = mkDec (d_table s) d (d_out s) /\ (forall v, r = Ok v -> 0 <= v).
Proof.
  intros Hpb Hd E. unfold on_data in E. destruct (decode_int_consumes pb (d_data s) Hpb Hd) as (b & p & Hp).
  destruct (decode_int pb (d_data s)) as [r0 d] eqn:Ed. injection E as <- <-. exists b, p, d. split_and!; [done|done|].
  intros v ->. apply decode_int_range in Ed. lia.
Qed.

Lemma on_data_string s r s' :
  on_data decode_string s = (r, s') ->
  exists p d, d_data s = p ++ d /\ s' = mkDec (d_table s) d (d_out s) /\ (forall v, r = Ok v -> len v <= 2 ^ 20).
Proof.
  unfold on_data. destruct (decode_string (d_data s)) as [r0 d] eqn:Ed. intros [= <- <-].
  apply decode_string_consumes in Ed as [[p Hp] Hs]. by exists p, d.
Qed.

Lemma decode_indexed_step s r s' : d_data s <> [] -> decode_indexed s = (r, s') -> dec_step s s'.
Proof.
  intros Hd. unfold decode_indexed, bind. destruct (on_data (decode_int 7) s) as [r0 s1] eqn:E1.
  apply on_data_int in E1 as (b & p & d & Hp & -> & _); [|lia|done].
  destruct r0 as [idx|e]; [|intros [= _ <-]; by apply (dec_step_read s d b p)].
  unfold lookup_or. cbn [d_table]. destruct (lookup_ idx (d_table s)) as [h|] eqn:El.
  - intros [= _ <-]. apply (dec_step_push s d b p h); [done| |by left|lia]. intros Hok. by eapply lookup_ok.
  - intros [= _ <-]. by apply (dec_step_read s d b p).
Qed.

Lemma decode_size_update_step s r s' : d_data s <> [] -> decode_size_update s = (r, s') -> dec_step s s'.
Proof.
  intros Hd. unfold decode_size_update, bind. destruct (on_data (decode_int 5) s) as [r0 s1] eqn:E1.
  apply on_data_int in E1 as (b & p & d & Hp & -> & Hn); [|lia|done].
  destruct r0 as [n|e]; [|intros [= _ <-]; by apply (dec_step_read s d b p)]. specialize (Hn n eq_refl).
  cbn [d_table]. destruct (Z.ltb_spec (max_table_size_ (d_table s)) n); [intros [= _ <-]; by apply (dec_step_read s d b p)|].
  intros [= _ <-]. split; cbn.
  - intros Hok. apply set_max_ok; [done|]. pose proof (to_max _ Hok). lia.
  - unfold set_max_table_size, evict_all. rewrite evict_max. done.
  - exists []. rewrite app_nil_r. split_and!; [done|cbn; lia|by constructor].
  - by exists b, p.
Qed.

Lemma decode_name_step i s r s' :
  decode_name i s = (r, s') ->
  exists p d, d_data s = p ++ d /\ s' = mkDec (d_table s) d (d_out s) /\
    (forall v, r = Ok v -> table_ok (d_table s) -> len v <= 2 ^ 20).
Proof.
  unfold decode_name. destruct (i =? 0).
  - intros (p & d & Hp & -> & Hl)%on_data_string. exists p, d. split_and!; auto.
  - unfold bind, lookup_or, ret. destruct (lookup_ i (d_table s)) as [h|] eqn:El; intros [= <- <-]; exists [], (d_data s);
      (split_and!; [done|by destruct s|]); [|done]. intros v [= <-] Hok. apply (lookup_ok _ _ _ Hok El).
Qed.

Lemma decode_literal_step b0 s r s' : d_data s <> [] -> decode_literal b0 s = (r, s') -> dec_step s s'.
Proof.
  intros Hd. unfold decode_literal, bind at 1. set (pb := if negb (Z.land (b2z b0) 64 =? 0) then 6 else 4).
  destruct (on_data (decode_int pb) s) as [r0 s1] eqn:E1.
  apply on_data_int in E1 as (b & p & d & Hp & -> & Hn); [|unfold pb; destruct (negb _); lia|done].
  destruct r0 as [n|e]; [|intros [= _ <-]; by apply (dec_step_read s d b p)].
  unfold bind at 1. destruct (decode_name n _) as [r1 s2] eqn:E2. apply decode_name_step in E2 as (p2 & d2 & Hp2 & -> & Hl2).
  cbn [d_data d_table d_out] in *. rewrite Hp2, app_assoc in Hp.
  destruct r1 as [nm|e]; [|intros [= _ <-]; by apply (dec_step_read s d2 b (p ++ p2))].
  unfold bind at 1. destruct (on_data decode_string _) as [r2 s3] eqn:E3. apply on_data_string in E3 as (p3 & d3 & Hp3 & -> & Hl3).
  cbn [d_data d_table d_out] in *. rewrite Hp3, app_assoc in Hp.
  destruct r2 as [v|e]; [|intros [= _ <-]; by apply (dec_step_read s d3 b ((p ++ p2) ++ p3))].
  destruct (has_uppercase nm) eqn:Eu; [intros [= _ <-]; by apply (dec_step_read s d3 b ((p ++ p2) ++ p3))|].
  set (h := mkHpack nm v _). assert (Hh : table_ok (d_table s) -> name_ok h).
  { intros Hok. split; [split; [by apply (Hl2 nm)|by apply (Hl3 v)]|done]. }
  destruct (negb (Z.land (b2z b0) 64 =? 0)); intros [= _ <-]; apply (dec_step_push s d3 b ((p ++ p2) ++ p3) h); auto; [|lia].
  unfold add_to_dynamic, evict_all. rewrite evict_max. done.
Qed.

Lemma decode_step_step b s r s' : d_data s <> [] -> decode_step b s = (r, s') -> dec_step s s'.
Proof.
  intros Hd. unfold decode_step. destruct (negb _); [by apply decode_indexed_step|].
  destruct (negb _); [by apply decode_size_update_step|by apply decode_literal_step].
Qed.

Lemma decode_loop_inv fuel s r s' :
  decode_loop fuel s = (r, s') ->
  (table_ok (d_table s) -> table_ok (d_table s')) /\ max_table_size_ (d_table s') <= max_table_size_ (d_table s) /\
  exists new, d_out s' = d_out s ++ new /\ len new + len (d_data s') <= len (d_data s) /\
              (table_ok (d_table s) -> Forall name_ok new).
Proof.
  revert s; induction fuel as [|fuel IH]; intros s E; cbn [decode_loop] in E.
  - injection E as _ <-. split_and!; [done|lia|]. exists []. rewrite app_nil_r, len_nil. split_and!; [done|lia|by constructor].
  - destruct (d_data s) as [|b rest] eqn:Ed.
    { injection E as _ <-. split_and!; [done|lia|]. exists []. rewrite app_nil_r, Ed. by split_and!; [| |constructor]. }
    unfold bind in E. destruct (decode_step b s) as [r1 s1] eqn:E1.
    apply decode_step_step in E1 as [Ht Hm (n1 & Ho1 & Hl1 & Hn1) (b1 & p1 & Hd1)]; [|by rewrite Ed].
    assert (Hlen : len n1 + len (d_data s1) <= len (b :: rest))
      by (rewrite <- Ed, Hd1, len_cons, len_app; unfold len; lia).
    destruct r1 as [[]|e].
    + destruct (IH s1 E) as (Ht2 & Hm2 & n2 & Ho2 & Hl2 & Hn2). split_and!; [auto|lia|].
      exists (n1 ++ n2). rewrite Ho2, Ho1, <- app_assoc, len_app. split_and!; [done|lia|].
      intros Hok. apply Forall_app. auto.
    + injection E as _ <-. split_and!; [done|done|]. by exists n1.
Qed.

(** The loop's bound is enough: it stops at an error or at the end of the input. *)
Lemma decode_loop_stops fuel s s' :
  decode_loop fuel s = (Ok tt, s') -> (length (d_data s) <= fuel)%nat -> d_data s' = [].
Proof.
  revert s; induction fuel as [|fuel IH]; intros s E Hf; cbn [decode_loop] in E.
  - injection E as <-. destruct (d_data s); [done|cbn in Hf; lia].
  - destruct (d_data s) as [|b rest] eqn:Ed; [by injection E as <-|].
    unfold bind in E. destruct (decode_step b s) as [[[]|e] s1] eqn:E1; [|done].
    apply decode_step_step in E1 as [_ _ _ (b1 & p1 & Hd1)]; [|by rewrite Ed]. apply (IH s1 E).
    rewrite <- Ed, Hd1 in Hf. cbn in Hf. rewrite length_app in Hf. lia.
Qed.

(** ** Properties *)

(** (C8) Header lists survive the wire and the two ends stay in step.  For
    every list of headers with non-empty names and values of at most 65535
    bytes and no upper-case letter in a name, and every state of the dynamic
    table, the encoder succeeds on any buffer with room; the decoder, started
    with the same table, accepts exactly what was written, delivers the same
    names and values in order, marks as sensitive what the encoder treats as
    sensitive, and both tables are equal afterwards. *)
Theorem hpack_roundtrip {B} `{BufferSpec B} (b : B) (hs out : list HpackHeader) (t : HpackTable) :
  Forall encodable hs -> buf_ok b -> contents b = [] -> len (list_bytes hs) <= BUF_LIMIT ->
  exists b' t', encode hs (t, b) = (Ok tt, (t', b')) /\
    decode (contents b') t out = (Ok tt, t', out ++ map as_received hs).
Proof.
  intros Hh Hb Hc Hl. assert (Hu : Forall (fun h => has_uppercase (hp_name h) = false) hs)
    by (apply (Forall_impl _ _ _ Hh); intros h (_ & _ & ?); done).
  destruct (encode_writes hs t b Hu Hb) as (b' & E & _ & C); [rewrite Hc, len_nil; lia|].
  eexists b', _. split; [exact E|]. rewrite C, Hc. cbn [app]. unfold decode. by rewrite decode_loop_bytes.
Qed.

Definition hpack_demo2 : list HpackHeader :=
  [mkHpack (str ":status") (str "200") false; mkHpack (str "cookie") (str "id=1") false].

Lemma hpack_demo2_ok : Forall encodable hpack_demo2.
Proof. repeat constructor; vm_compute; congruence. Qed.

Lemma hpack_roundtrip_witness :
  exists b' t', encode hpack_demo2 (HpackTable_default, ([] : bytes)) = (Ok tt, (t', b')) /\
    decode b' HpackTable_default [] =
    (Ok tt, t', [mkHpack (str ":status") (str "200") false; mkHpack (str "cookie") (str "id=1") true]).
Proof.
  destruct (hpack_roundtrip (B := bytes) [] hpack_demo2 [] HpackTable_default hpack_demo2_ok ltac:(exact I) eq_refl)
    as (b' & t' & E & D); [vm_compute; discriminate|].
  exists b', t'. split; [exact E|]. rewrite list_contents in D. exact D.
Defined.

(** (C25) No input breaks the decoder.  For every sequence of bytes, whether
    it is accepted or not: the table keeps its invariant (its size field is
    the sum of the entry sizes and within the limit), the limit is never
    raised, headers already delivered stay, at most one header is delivered
    per input byte, and no delivered name contains an upper-case letter; when
    the input is accepted all of it was consumed. *)
Theorem hpack_decode_safe (data : bytes) (t : HpackTable) (out : list HpackHeader) :
  table_ok t ->
  let '(r, t', out') := decode data t out in
  table_ok t' /\ max_table_size_ t' <= max_table_size_ t /\
  (exists new, out' = out ++ new /\ len new <= len data /\ Forall (fun h => has_uppercase (hp_name h) = false) new) /\
  (r = Ok tt -> d_data (decode_loop (length data) (mkDec t data out)).2 = []).
Proof.
  intros Ht. unfold decode. destruct (decode_loop (length data) (mkDec t data out)) as [r s'] eqn:E.
  destruct (decode_loop_inv _ _ _ _ E) as (Hok & Hm & new & Ho & Hl & Hn). cbn [d_table d_data d_out] in *.
  split_and!; [auto|done| |intros ->; by apply (decode_loop_stops _ _ _ E)].
  exists new. pose proof (len_nonneg (d_data s')). split_and!; [done|lia|].
  apply (Forall_impl _ _ _ (Hn Ht)). intros h [_ ?]. done.
Qed.

Lemma hpack_decode_safe_witness :
  table_ok (decode (map z2b [0x82; 0x3f; 0x00; 0x40]) HpackTable_default []).1.2.
Proof.
  pose proof (hpack_decode_safe (map z2b [0x82; 0x3f; 0x00; 0x40]) HpackTable_default [] table_ok_default) as H.
  destruct (decode (map z2b [0x82; 0x3f; 0x00; 0x40]) HpackTable_default []) as [[r t'] o]. exact (proj1 H).
Defined.

(** Integers: what [encode_int] writes for any value below 2^63 is read
    back exactly and nothing else is consumed, for each prefix the encoder
    uses; and for any input at all, an accepted integer is the exact sum of
    its digits, at most nine of them, so the 64-bit accumulator never wraps. *)
Theorem decode_int_correct (pb prefix v : Z) (rest data : bytes) (b : byte) :
  prefixed pb prefix -> 0 <= v < 2 ^ 63 -> (pb = 7 -> v <> 0) ->
  decode_int pb (int_bytes v pb prefix ++ rest) = (Ok v, rest) /\
  (forall w rest', Z.land (b2z b) (2 ^ pb - 1) = 2 ^ pb - 1 -> decode_int pb (b :: data) = (Ok w, rest') ->
   exists ds, data = ds ++ rest' /\ len ds <= 9 /\ w = 2 ^ pb - 1 + le128 ds /\ w < 2 ^ 64).
Proof.
  intros Hp Hv H0. split; [by apply decode_int_bytes|]. intros w rest' Hb E.
  pose proof (prefixed_range _ _ Hp) as [Hpb Hpow]. unfold decode_int in E. rewrite Z.shiftl_1_l in E.
  destruct (Z.leb_spec pb 0); [lia|]. destruct (Z.ltb_spec 8 pb); [lia|]. cbn [orb] in E.
  rewrite Hb, Z.ltb_irrefl in E.
  destruct (decode_int_loop_exact data (2 ^ pb - 1) 0 w rest' ltac:(lia) ltac:(change (2 ^ (7 * 0)) with 1; lia) E)
    as (ds & -> & _ & Hl & -> & Hlt). exists ds. change (2 ^ (7 * 0)) with 1 in *. split_and!; [done|lia|lia|lia].
Qed.

Lemma decode_int_correct_witness :
  decode_int 7 (int_bytes 1337 7 128 ++ str "x") = (Ok 1337, str "x").
Proof.
  refine (proj1 (decode_int_correct 7 128 1337 (str "x") [] Byte.x00 _ _ _)); [unfold prefixed; tauto|lia|lia].
Defined.

(** The dynamic table holds exactly the newest entries that fit: adding
    an entry and lowering the limit both leave the longest prefix, newest
    first, whose total size is within the limit, and the size field is that
    total. *)
Theorem dynamic_table_newest (t : HpackTable) (h : HpackHeader) (n : Z) :
  table_ok t -> header_small h -> 0 <= n ->
  add_to_dynamic h t =
    mkTable (fit (max_table_size_ t) (h :: dynamic_table_ t))
      (total_size (fit (max_table_size_ t) (h :: dynamic_table_ t))) (max_table_size_ t) /\
  set_max_table_size n t = mkTable (fit n (dynamic_table_ t)) (total_size (fit n (dynamic_table_ t))) n.
Proof. intros Ht Hh Hn. split; [by apply add_to_dynamic_fit|by apply set_max_fit]. Qed.

Lemma dynamic_table_newest_witness :
  let h := mkHpack (str "a") (str "b") false in
  add_to_dynamic h HpackTable_default = mkTable [h] 34 4096 /\
  dynamic_table_ (set_max_table_size 30 (add_to_dynamic h HpackTable_default)) = [].
Proof.
  set (h := mkHpack (str "a") (str "b") false). cbv zeta.
  assert (Hh : header_small h) by (split; vm_compute; discriminate).
  destruct (dynamic_table_newest HpackTable_default h 0 table_ok_default Hh ltac:(lia)) as [E _].
  assert (Ht : table_ok (add_to_dynamic h HpackTable_default)) by (apply add_to_dynamic_ok; [apply table_ok_default|exact Hh|reflexivity]).
  destruct (dynamic_table_newest _ h 30 Ht Hh ltac:(lia)) as [_ E2]. rewrite E2, E. split; vm_compute; reflexivity.
Defined.

Lemma int_bytes_length v pb prefix : len (int_bytes v pb prefix) <= 11.
Proof.
  assert (G : forall fuel w, len (int_digits fuel w) <= Z.of_nat fuel).
  { induction fuel as [|fuel IH]; intros w; cbn [int_digits]; [done|].
    destruct (128 <=? w); [rewrite len_cons; specialize (IH (w / 128)); lia|unfold len; cbn; lia]. }
  unfold int_bytes. cbv zeta. destruct (_ <? _); [unfold len; cbn; lia|]. rewrite len_cons. specialize (G 10%nat (v - (Z.shiftl 1 pb - 1))). lia.
Qed.

Lemma string_bytes_length s : len s <= 2 ^ 32 -> len (string_bytes s) <= 11 + len s.
Proof.
  intros Hl. unfold string_bytes. pose proof (huffman_bytes_spec s ltac:(lia)).
  destruct (Z.ltb_spec (huffman_bytes s) (len s)); rewrite len_app.
  - pose proof (int_bytes_length (huffman_bytes s) 7 128). lia.
  - pose proof (int_bytes_length (len s) 7 0). lia.
Qed.

Lemma lookup_newest t h l : dynamic_table_ t = h :: l -> lookup_ 63 t = Some h.
Proof.
  intros Ht. unfold lookup_. rewrite Ht. change (len HPACK_STATIC_TABLE) with 62. change (63 - 62) with 1.
  rewrite len_cons. pose proof (len_nonneg l). by destruct (Z.ltb_spec (1 + len l) 1); [lia|].
Qed.

Lemma decode_empty_value c n rest t out :
  c = Byte.x10 \/ c = Byte.x40 -> string_ok n ->
  decode_step c (mkDec t (c :: string_bytes n ++ Byte.x00 :: rest) out) =
  (Err (from_code HpackError (str "invalid index 0")), mkDec t rest out).
Proof.
  intros Hc Hn. assert (Hd : decode_step c = decode_literal c) by (by destruct Hc; subst).
  rewrite Hd. unfold decode_literal.
  erewrite bind_ok; [|apply (on_data_ok _ _ 0 (string_bytes n ++ Byte.x00 :: rest)); by destruct Hc; subst].
  cbn [d_table d_out]. unfold decode_name. cbn [Z.eqb].
  erewrite bind_ok; [|apply on_data_ok; cbn [d_data]; by apply decode_string_bytes].
  cbn [d_table d_out]. by erewrite bind_err; [|done].
Qed.

(** (C39) What the decoder does not understand of its own encoder and of the
    specification.  A header with an empty value is encoded without
    complaint but its encoding is rejected, whatever the table and whatever
    follows; index 62, the first dynamic index of RFC 7541, is rejected for
    every table, and the newest entry answers to 63. *)
Theorem hpack_gaps (n rest : bytes) (t : HpackTable) (h : HpackHeader) (l : list HpackHeader) :
  string_ok n -> has_uppercase n = false ->
  (exists t' b', encode [mkHpack n [] false] (t, ([] : bytes)) = (Ok tt, (t', b')) /\
     (decode (b' ++ rest) t []).1.1 = Err (from_code HpackError (str "invalid index 0"))) /\
  lookup_ 62 t = None /\
  (dynamic_table_ t = h :: l -> lookup_ 63 t = Some h).
Proof.
  intros Hn Hu. split_and!; [|done|by apply lookup_newest].
  destruct (encode_writes (B := bytes) [mkHpack n [] false] t []) as (b' & E & _ & C);
    [by repeat constructor|exact I| |].
  { rewrite list_contents, len_nil. unfold list_bytes. cbn [map concat]. unfold header_bytes. cbn [hp_name hp_value].
    change (string_bytes []) with [Byte.x00]. rewrite app_nil_r, !len_app. destruct Hn as [_ Hn].
    pose proof (string_bytes_length n ltac:(lia)). unfold BUF_LIMIT. cbn [is_sensitive]. unfold len at 1 3. cbn [length]. lia. }
  eexists _, b'. split; [exact E|]. rewrite !list_contents in C. cbn [app] in C. rewrite C. unfold decode.
  assert (Hb : exists c, list_bytes [mkHpack n [] false] ++ rest = c :: string_bytes n ++ Byte.x00 :: rest /\
               (c = Byte.x10 \/ c = Byte.x40)).
  { unfold list_bytes. cbn [map concat]. unfold header_bytes. cbn [hp_name hp_value]. rewrite app_nil_r, <- !app_assoc.
    eexists. split; [done|]. destruct (is_sensitive _); tauto. }
  destruct Hb as (c & -> & Hc). rewrite length_cons. cbn [decode_loop d_data]. unfold bind at 1.
  rewrite decode_empty_value by done. done.
Qed.

Lemma hpack_gaps_witness :
  exists t' b', encode [mkHpack (str "x-a") [] false] (HpackTable_default, ([] : bytes)) = (Ok tt, (t', b')) /\
     (decode b' HpackTable_default []).1.1 = Err (from_code HpackError (str "invalid index 0")).
Proof.
  destruct (hpack_gaps (str "x-a") [] HpackTable_default entry_default []) as [(t' & b' & E & D) _];
    [split; vm_compute; discriminate|reflexivity|].
  exists t', b'. split; [exact E|]. rewrite app_nil_r in D. exact D.
Defined.
