(* ===== verification/Http2.v ===== *)
(** * HTTP/2 framing and connection (src/src/http2.cpp, src/include/uproxy/http2.h)

    Frames are read from and written to any buffer that offers [BufferOps];
    a connection keeps two buffers, the HPACK tables of both directions and
    its streams.  A call that mutates the connection and can fail returns the
    connection on the error paths too. *)

From stdpp Require Import prelude gmap.
From S2P Require Import Prelude Result CxxString Buffer Huffman Hpack Http1.

Inductive H2FrameType :=
  | DATA | HEADERS | PRIORITY | RST_STREAM | SETTINGS | PUSH_PROMISE | PING | GOAWAY | WINDOW_UPDATE
  | CONTINUATION
  | OtherType (v : byte).   (* an enumeration of uint8_t holds every byte *)

#[global] Instance H2FrameType_eq_dec : EqDecision H2FrameType.
Proof. solve_decision. Defined.

(** The enumerators, in the order of their values. *)
Definition frame_types : list H2FrameType :=
  [DATA; HEADERS; PRIORITY; RST_STREAM; SETTINGS; PUSH_PROMISE; PING; GOAWAY; WINDOW_UPDATE; CONTINUATION].

(** [static_cast<H2FrameType>(b)]. *)
Definition type_of_byte (b : byte) : H2FrameType := nth (Z.to_nat (b2z b)) frame_types (OtherType b).

Definition byte_of_type (t : H2FrameType) : byte :=
  match t with
  | DATA => Byte.x00 | HEADERS => Byte.x01 | PRIORITY => Byte.x02 | RST_STREAM => Byte.x03
  | SETTINGS => Byte.x04 | PUSH_PROMISE => Byte.x05 | PING => Byte.x06 | GOAWAY => Byte.x07
  | WINDOW_UPDATE => Byte.x08 | CONTINUATION => Byte.x09 | OtherType v => v
  end.

Module H2Flags.
Definition END_STREAM : Z := 1.
Definition END_HEADERS : Z := 4.
Definition ACK : Z := 1.
End H2Flags.

(** [(flags & f) != 0]. *)
Definition has_flag (flags f : Z) : bool := negb (Z.land flags f =? 0).

Inductive H2Error :=
  | NO_ERROR | PROTOCOL_ERROR | INTERNAL_ERROR | FLOW_CONTROL_ERROR | SETTINGS_TIMEOUT | STREAM_CLOSED
  | FRAME_SIZE_ERROR | REFUSED_STREAM | CANCEL | COMPRESSION_ERROR | CONNECT_ERROR | ENHANCE_YOUR_CALM
  | INADEQUATE_SECURITY | HTTP_1_1_REQUIRED.

Definition h2_error_code (e : H2Error) : Z :=
  match e with
  | NO_ERROR => 0 | PROTOCOL_ERROR => 1 | INTERNAL_ERROR => 2 | FLOW_CONTROL_ERROR => 3 | SETTINGS_TIMEOUT => 4
  | STREAM_CLOSED => 5 | FRAME_SIZE_ERROR => 6 | REFUSED_STREAM => 7 | CANCEL => 8 | COMPRESSION_ERROR => 9
  | CONNECT_ERROR => 10 | ENHANCE_YOUR_CALM => 11 | INADEQUATE_SECURITY => 12 | HTTP_1_1_REQUIRED => 13
  end.

Inductive H2Setting :=
  | HEADER_TABLE_SIZE | ENABLE_PUSH | MAX_CONCURRENT_STREAMS | INITIAL_WINDOW_SIZE | MAX_FRAME_SIZE
  | MAX_HEADER_LIST_SIZE.

Definition h2_setting_id (s : H2Setting) : Z :=
  match s with
  | HEADER_TABLE_SIZE => 1 | ENABLE_PUSH => 2 | MAX_CONCURRENT_STREAMS => 3 | INITIAL_WINDOW_SIZE => 4
  | MAX_FRAME_SIZE => 5 | MAX_HEADER_LIST_SIZE => 6
  end.

Record H2Frame := mkFrame {
  f_length : Z;
  f_type : H2FrameType;
  f_flags : Z;
  f_stream_id : Z;
  f_payload : bytes;
}.

Definition H2Frame_default : H2Frame := mkFrame 0 DATA 0 0 [].

Definition H2_PREFACE : bytes := str "PRI * HTTP/2.0" ++ CRLF ++ CRLF ++ str "SM" ++ CRLF ++ CRLF.

(** [byte(v, shift)]. *)
Definition byte_at (v shift : Z) : byte := z2b (Z.land (Z.shiftr v shift) 255).

Definition be32_bytes (v : Z) : bytes := [byte_at v 24; byte_at v 16; byte_at v 8; byte_at v 0].

(** The big-endian loads of [read_frame] and of the WINDOW_UPDATE payload. *)
Definition be24 (b0 b1 b2 : byte) : Z :=
  Z.lor (Z.lor (Z.shiftl (b2z b0) 16) (Z.shiftl (b2z b1) 8)) (b2z b2).

Definition be31 (b0 b1 b2 b3 : byte) : Z :=
  Z.land (Z.lor (Z.lor (Z.lor (Z.shiftl (b2z b0) 24) (Z.shiftl (b2z b1) 16)) (Z.shiftl (b2z b2) 8)) (b2z b3))
    2147483647.

(** ** Frames *)

Section Frames.
Context {B : Type} `{BufferOps B}.

Definition FRAME_HEADER_SIZE : Z := 9.

(** [h[i]]. *)
Definition byte_i (h : bytes) (i : nat) : byte := nth i h Byte.x00.

Definition read_frame (buf : B) (frame : H2Frame) (max_frame_size : Z) : ParseResult * H2Frame * B :=
  if buf_readable buf <? FRAME_HEADER_SIZE then (Incomplete, frame, buf)
  else
    let h := buf_peek buf FRAME_HEADER_SIZE in
    let n := be24 (byte_i h 0) (byte_i h 1) (byte_i h 2) in
    if max_frame_size <? n then (PError, frame, buf)
    else if buf_readable buf <? FRAME_HEADER_SIZE + n then (Incomplete, frame, buf)
    else
      let type := type_of_byte (byte_i h 3) in
      let flags := b2z (byte_i h 4) in
      let stream_id := be31 (byte_i h 5) (byte_i h 6) (byte_i h 7) (byte_i h 8) in
      let buf := buf_commit_read buf FRAME_HEADER_SIZE in
      let payload := buf_peek buf n in
      (Complete, mkFrame n type flags stream_id payload, buf_commit_read buf n).

Definition frame_header (length : Z) (type : H2FrameType) (flags stream_id : Z) : bytes :=
  [byte_at length 16; byte_at length 8; byte_at length 0; byte_of_type type; z2b flags;
   byte_at stream_id 24; byte_at stream_id 16; byte_at stream_id 8; byte_at stream_id 0].

Definition write_frame_header (length : Z) (type : H2FrameType) (flags stream_id : Z) : M B unit :=
  if (16777215 <? length) || negb (Z.land stream_id 2147483648 =? 0)
  then fail_with (from_code Http2Protocol (str "invalid frame header"))
  else buf_append (frame_header length type flags stream_id).

Definition append_u32 (v : Z) : M B unit := buf_append (be32_bytes v).

Definition setting_bytes (s : H2Setting * Z) : bytes :=
  [byte_at (h2_setting_id s.1) 8; byte_at (h2_setting_id s.1) 0;
   byte_at s.2 24; byte_at s.2 16; byte_at s.2 8; byte_at s.2 0].

Fixpoint write_settings_loop (settings : list (H2Setting * Z)) : M B unit :=
  match settings with
  | [] => ret tt
  | s :: settings' => buf_append (setting_bytes s) ;;; write_settings_loop settings'
  end.

Definition write_settings (settings : list (H2Setting * Z)) : M B unit :=
  write_frame_header (u32 (len settings * 6)) SETTINGS 0 0 ;;; write_settings_loop settings.

Definition write_settings_ack : M B unit := write_frame_header 0 SETTINGS H2Flags.ACK 0.

Definition u64_bytes (data : Z) : bytes :=
  map (fun i => z2b (Z.land (Z.shiftr data (Z.of_nat i * 8)) 255)) [7; 6; 5; 4; 3; 2; 1; 0]%nat.

Definition write_ping (data : Z) (ack : bool) : M B unit :=
  write_frame_header 8 PING (if ack then H2Flags.ACK else 0) 0 ;;; buf_append (u64_bytes data).

Definition write_window_update (stream_id increment : Z) : M B unit :=
  if (increment =? 0) || (2147483647 <? increment)
  then fail_with (from_code Http2Protocol (str "invalid window increment"))
  else write_frame_header 4 WINDOW_UPDATE 0 stream_id ;;; append_u32 increment.

Definition write_goaway (last_stream_id : Z) (error : H2Error) (debug_data : bytes) : M B unit :=
  write_frame_header (u32 (8 + len debug_data)) GOAWAY 0 0 ;;;
  append_u32 (Z.land last_stream_id 2147483647) ;;;
  append_u32 (h2_error_code error) ;;;
  buf_append debug_data.

Definition write_rst_stream (stream_id : Z) (error : H2Error) : M B unit :=
  if stream_id =? 0 then fail_with (from_code Http2Protocol (str "RST_STREAM on stream 0"))
  else write_frame_header 4 RST_STREAM 0 stream_id ;;; append_u32 (h2_error_code error).

Definition write_headers (stream_id : Z) (header_block : bytes) (end_stream : bool) (max_frame_size : Z) : M B unit :=
  if (stream_id =? 0) || (max_frame_size <? len header_block)
  then fail_with (from_code Http2Protocol (str "invalid HEADERS frame"))
  else
    let flags := Z.lor H2Flags.END_HEADERS (if end_stream then H2Flags.END_STREAM else 0) in
    write_frame_header (u32 (len header_block)) HEADERS flags stream_id ;;; buf_append header_block.

(** [while (offset < data.size())]: [rest] is the data from [offset] on. *)
Fixpoint write_data_loop (fuel : nat) (stream_id : Z) (rest : bytes) (end_stream : bool) (max_frame_size : Z) : M B unit :=
  match fuel with
  | O => ret tt
  | S fuel' =>
      if len rest =? 0 then ret tt
      else
        let chunk := Z.min max_frame_size (len rest) in
        let final_chunk := end_stream && (chunk =? len rest) in
        write_frame_header (u32 chunk) DATA (if final_chunk then H2Flags.END_STREAM else 0) stream_id ;;;
        buf_append (take (Z.to_nat chunk) rest) ;;;
        write_data_loop fuel' stream_id (drop (Z.to_nat chunk) rest) end_stream max_frame_size
  end.

Definition write_data (stream_id : Z) (data : bytes) (end_stream : bool) (max_frame_size : Z) : M B unit :=
  if (stream_id =? 0) || (max_frame_size =? 0)
  then fail_with (from_code Http2Protocol (str "invalid DATA frame"))
  else write_data_loop (length data) stream_id data end_stream max_frame_size.

(** ** Connections *)

Inductive H2StreamState := Idle | Open | HalfClosedLocal | HalfClosedRemote | Closed.

#[global] Instance H2StreamState_eq_dec : EqDecision H2StreamState.
Proof. solve_decision. Defined.

Record H2Stream := mkStream {
  st_id : Z;
  st_state : H2StreamState;
  st_recv_window : Z;
  st_send_window : Z;
  st_recv_buf : B;
  st_send_buf : B;
  st_request_headers : list HpackHeader;
  st_response_headers : list HpackHeader;
  st_end_stream_recv : bool;
  st_end_stream_sent : bool;
}.

Definition H2Stream_default : H2Stream :=
  mkStream 0 Idle 65535 65535 (buf_new 65536) (buf_new 65536) [] [] false false.

Record H2Conn := mkConn {
  is_server_ : bool;
  hpack_enc_ : HpackTable;
  hpack_dec_ : HpackTable;
  streams_ : gmap Z H2Stream;
  last_peer_stream_ : Z;
  max_frame_size_ : Z;
  recv_buf_ : B;
  send_buf_ : B;
  done_ : bool;
  saw_preface_ : bool;
}.

Definition H2Conn_make (is_server : bool) : H2Conn :=
  mkConn is_server HpackTable_default HpackTable_default ∅ 0 16384 (buf_new 65536)
    (if is_server then buf_new 65536 else snd (buf_append H2_PREFACE (buf_new 65536))) false false.

(** Writes of single members. *)
Definition set_send_buf (b : B) (c : H2Conn) : H2Conn :=
  mkConn (is_server_ c) (hpack_enc_ c) (hpack_dec_ c) (streams_ c) (last_peer_stream_ c) (max_frame_size_ c)
    (recv_buf_ c) b (done_ c) (saw_preface_ c).
Definition set_recv_buf (b : B) (c : H2Conn) : H2Conn :=
  mkConn (is_server_ c) (hpack_enc_ c) (hpack_dec_ c) (streams_ c) (last_peer_stream_ c) (max_frame_size_ c)
    b (send_buf_ c) (done_ c) (saw_preface_ c).
Definition set_done (c : H2Conn) : H2Conn :=
  mkConn (is_server_ c) (hpack_enc_ c) (hpack_dec_ c) (streams_ c) (last_peer_stream_ c) (max_frame_size_ c)
    (recv_buf_ c) (send_buf_ c) true (saw_preface_ c).
Definition set_saw_preface (c : H2Conn) : H2Conn :=
  mkConn (is_server_ c) (hpack_enc_ c) (hpack_dec_ c) (streams_ c) (last_peer_stream_ c) (max_frame_size_ c)
    (recv_buf_ c) (send_buf_ c) (done_ c) true.
Definition set_streams (m : gmap Z H2Stream) (c : H2Conn) : H2Conn :=
  mkConn (is_server_ c) (hpack_enc_ c) (hpack_dec_ c) m (last_peer_stream_ c) (max_frame_size_ c)
    (recv_buf_ c) (send_buf_ c) (done_ c) (saw_preface_ c).
Definition set_last_peer (n : Z) (c : H2Conn) : H2Conn :=
  mkConn (is_server_ c) (hpack_enc_ c) (hpack_dec_ c) (streams_ c) n (max_frame_size_ c)
    (recv_buf_ c) (send_buf_ c) (done_ c) (saw_preface_ c).
Definition set_hpack_dec (t : HpackTable) (c : H2Conn) : H2Conn :=
  mkConn (is_server_ c) (hpack_enc_ c) t (streams_ c) (last_peer_stream_ c) (max_frame_size_ c)
    (recv_buf_ c) (send_buf_ c) (done_ c) (saw_preface_ c).
Definition set_hpack_enc (t : HpackTable) (c : H2Conn) : H2Conn :=
  mkConn (is_server_ c) t (hpack_dec_ c) (streams_ c) (last_peer_stream_ c) (max_frame_size_ c)
    (recv_buf_ c) (send_buf_ c) (done_ c) (saw_preface_ c).

(** A writer applied to the connection's output. *)
Definition send (m : M B unit) : M H2Conn unit := fun c =>
  let '(r, b) := m (send_buf_ c) in (r, set_send_buf b c).

Definition feed (data : bytes) : M H2Conn unit := fun c =>
  let '(r, b) := buf_append data (recv_buf_ c) in (r, set_recv_buf b c).

(** [streams_.try_emplace(id)]; [it->second.id = id]. *)
Definition get_or_create_stream (id : Z) (c : H2Conn) : H2Stream * H2Conn :=
  let s := match streams_ c !! id with Some s => s | None => H2Stream_default end in
  let s := mkStream id (st_state s) (st_recv_window s) (st_send_window s) (st_recv_buf s) (st_send_buf s)
             (st_request_headers s) (st_response_headers s) (st_end_stream_recv s) (st_end_stream_sent s) in
  (s, set_streams (<[id := s]> (streams_ c)) c).

(** The stream reference [stream] of [handle_frame] is the map entry. *)
Definition put_stream (id : Z) (s : H2Stream) (c : H2Conn) : H2Conn := set_streams (<[id := s]> (streams_ c)) c.

Definition set_state (st : H2StreamState) (s : H2Stream) : H2Stream :=
  mkStream (st_id s) st (st_recv_window s) (st_send_window s) (st_recv_buf s) (st_send_buf s)
    (st_request_headers s) (st_response_headers s) (st_end_stream_recv s) (st_end_stream_sent s).
Definition set_request_headers (hs : list HpackHeader) (s : H2Stream) : H2Stream :=
  mkStream (st_id s) (st_state s) (st_recv_window s) (st_send_window s) (st_recv_buf s) (st_send_buf s)
    hs (st_response_headers s) (st_end_stream_recv s) (st_end_stream_sent s).
Definition set_st_recv_buf (b : B) (s : H2Stream) : H2Stream :=
  mkStream (st_id s) (st_state s) (st_recv_window s) (st_send_window s) b (st_send_buf s)
    (st_request_headers s) (st_response_headers s) (st_end_stream_recv s) (st_end_stream_sent s).
Definition set_send_window (w : Z) (s : H2Stream) : H2Stream :=
  mkStream (st_id s) (st_state s) (st_recv_window s) w (st_recv_buf s) (st_send_buf s)
    (st_request_headers s) (st_response_headers s) (st_end_stream_recv s) (st_end_stream_sent s).

(** The connection and the list [ready] that [process] passes down. *)
Abbreviation Handler := (H2Conn * list Z -> Result unit * (H2Conn * list Z)).

Definition proto_error (msg : String.string) : Error := from_code Http2Protocol (str msg).
Arguments proto_error msg%_string_scope.

Definition handle_settings (frame : H2Frame) : Handler := fun '(c, ready) =>
  if negb (f_stream_id frame =? 0) || negb (f_length frame mod 6 =? 0)
  then (Err (proto_error "bad SETTINGS"), (c, ready))
  else if negb (has_flag (f_flags frame) H2Flags.ACK)
  then let '(r, c) := send write_settings_ack c in (r, (c, ready))
  else (Ok tt, (c, ready)).

Definition handle_ping (frame : H2Frame) : Handler := fun '(c, ready) =>
  if negb (f_stream_id frame =? 0) || negb (f_length frame =? 8)
  then (Err (proto_error "bad PING"), (c, ready))
  else
    let data := fold_left (fun d b => Z.lor (u64 (Z.shiftl d 8)) (b2z b)) (f_payload frame) 0 in
    if negb (has_flag (f_flags frame) H2Flags.ACK)
    then let '(r, c) := send (write_ping data true) c in (r, (c, ready))
    else (Ok tt, (c, ready)).

(** The state after END_STREAM or its absence in HEADERS. *)
Definition headers_state (st : H2StreamState) (end_stream : bool) : H2StreamState :=
  match st with
  | Idle => if end_stream then HalfClosedRemote else Open
  | Open => if end_stream then HalfClosedRemote else Open
  | HalfClosedLocal => if end_stream then Closed else HalfClosedLocal
  | st => st
  end.

Definition handle_headers (frame : H2Frame) (stream : H2Stream) : Handler := fun '(c, ready) =>
  let id := f_stream_id frame in
  let end_stream := has_flag (f_flags frame) H2Flags.END_STREAM in
  if bool_decide (st_state stream <> Idle) && bool_decide (st_state stream <> Open)
     && bool_decide (st_state stream <> HalfClosedLocal)
  then let '(r, c) := send (write_rst_stream id STREAM_CLOSED) c in (r, (c, ready))
  else if negb (has_flag (f_flags frame) H2Flags.END_HEADERS)
  then (Err (proto_error "CONTINUATION unsupported in simple block"), (c, ready))
  else
    let '(decoded, t, hs) := decode (f_payload frame) (hpack_dec_ c) (st_request_headers stream) in
    let stream := set_request_headers hs stream in
    let c := put_stream id stream (set_hpack_dec t c) in
    match decoded with
    | Err e => (Err e, (c, ready))
    | Ok _ =>
        let c := put_stream id (set_state (headers_state (st_state stream) end_stream) stream) c in
        (Ok tt, (c, if end_stream then ready ++ [id] else ready))
    end.

Definition handle_data (frame : H2Frame) (stream : H2Stream) : Handler := fun '(c, ready) =>
  let id := f_stream_id frame in
  match st_state stream with
  | Idle => (Err (proto_error "DATA on idle stream"), (c, ready))
  | HalfClosedRemote | Closed =>
      let '(r, c) := send (write_rst_stream id STREAM_CLOSED) c in (r, (c, ready))
  | Open | HalfClosedLocal =>
      let '(r, b) := buf_append (f_payload frame) (st_recv_buf stream) in
      let stream := set_st_recv_buf b stream in
      let c := put_stream id stream c in
      match r with
      | Err e => (Err e, (c, ready))
      | Ok _ =>
          if has_flag (f_flags frame) H2Flags.END_STREAM then
            let st := match st_state stream with
                      | Open => HalfClosedRemote
                      | HalfClosedLocal => Closed
                      | st => st
                      end in
            (Ok tt, (put_stream id (set_state st stream) c, ready ++ [id]))
          else (Ok tt, (c, ready))
      end
  end.

(** The signed addition is written with its two's-complement result. *)
Definition handle_window_update (frame : H2Frame) (stream : H2Stream) : Handler := fun '(c, ready) =>
  if negb (f_length frame =? 4) || negb (len (f_payload frame) =? 4)
  then (Err (proto_error "bad WINDOW_UPDATE"), (c, ready))
  else
    let p := f_payload frame in
    let inc := be31 (byte_i p 0) (byte_i p 1) (byte_i p 2) (byte_i p 3) in
    if inc =? 0 then (Err (proto_error "zero WINDOW_UPDATE"), (c, ready))
    else (Ok tt, (put_stream (f_stream_id frame) (set_send_window (i32 (st_send_window stream + inc)) stream) c, ready)).

Definition handle_frame (frame : H2Frame) : Handler := fun '(c, ready) =>
  if bool_decide (f_type frame = SETTINGS) then handle_settings frame (c, ready)
  else if bool_decide (f_type frame = PING) then handle_ping frame (c, ready)
  else if bool_decide (f_type frame = GOAWAY) then (Ok tt, (set_done c, ready))
  else if f_stream_id frame =? 0 then (Err (proto_error "stream frame on stream 0"), (c, ready))
  else
    let c := set_last_peer (Z.max (last_peer_stream_ c) (f_stream_id frame)) c in
    let '(stream, c) := get_or_create_stream (f_stream_id frame) c in
    match f_type frame with
    | HEADERS => handle_headers frame stream (c, ready)
    | DATA => handle_data frame stream (c, ready)
    | WINDOW_UPDATE => handle_window_update frame stream (c, ready)
    | _ => (Ok tt, (c, ready))
    end.

(** The [for (;;)] of [process]: every complete frame takes at least nine
    bytes from the input, so one turn more than its length is enough. *)
Fixpoint process_loop (fuel : nat) (c : H2Conn) (ready : list Z) : Result (list Z) * H2Conn :=
  match fuel with
  | O => (Ok ready, c)
  | S fuel' =>
      let '(parsed, frame, b) := read_frame (recv_buf_ c) H2Frame_default (max_frame_size_ c) in
      let c := set_recv_buf b c in
      match parsed with
      | Incomplete => (Ok ready, c)
      | PError => (Err (proto_error "invalid HTTP/2 frame"), set_done c)
      | Complete =>
          match handle_frame frame (c, ready) with
          | (Err e, (c, _)) => (Err e, c)
          | (Ok _, (c, ready)) => process_loop fuel' c ready
          end
      end
  end.

Definition process_frames (c : H2Conn) : Result (list Z) * H2Conn :=
  process_loop (S (Z.to_nat (buf_readable (recv_buf_ c)))) c [].

Definition process : M H2Conn (list Z) := fun c =>
  if is_server_ c && negb (saw_preface_ c) then
    if buf_readable (recv_buf_ c) <? len H2_PREFACE then (Ok [], c)
    else if negb (bool_decide (buf_peek (recv_buf_ c) (len H2_PREFACE) = H2_PREFACE))
    then (Err (proto_error "invalid HTTP/2 preface"), set_done c)
    else
      let c := set_saw_preface (set_recv_buf (buf_commit_read (recv_buf_ c) (len H2_PREFACE)) c) in
      match send (write_settings []) c with
      | (Err e, c) => (Err e, c)
      | (Ok _, c) => process_frames c
      end
  else process_frames c.

(** [streams_.at(id)] throws for an unknown stream: [None]. *)
Definition stream_headers (id : Z) (c : H2Conn) : option (list HpackHeader) := st_request_headers <$> streams_ c !! id.

Definition stream_body (id : Z) (c : H2Conn) : option bytes := (fun s => contents (st_recv_buf s)) <$> streams_ c !! id.

Definition consume_body (id n : Z) (c : H2Conn) : option H2Conn :=
  (fun s => put_stream id (set_st_recv_buf (buf_commit_read (st_recv_buf s) n) s) c) <$> streams_ c !! id.

Definition send_response (id : Z) (headers : list HpackHeader) (body : bytes) (end_stream : bool) : M H2Conn unit := fun c =>
  let '(r, (t, encoded)) := encode headers (hpack_enc_ c, buf_new 4096) in
  let c := set_hpack_enc t c in
  match r with
  | Err e => (Err e, c)
  | Ok _ =>
      let block := contents encoded in
      (send (write_headers id block (bool_decide (body = []) && end_stream) (max_frame_size_ c)) ;;;
       (if bool_decide (body = []) then ret tt
        else send (write_data id body end_stream (max_frame_size_ c)))) c
  end.

Definition send_window_update (id increment : Z) : M H2Conn unit := send (write_window_update id increment).

Definition pending_output (c : H2Conn) : bytes := contents (send_buf_ c).

Definition consume_output (n : Z) (c : H2Conn) : H2Conn := set_send_buf (buf_commit_read (send_buf_ c) n) c.

Definition goaway (error : H2Error) (debug_data : bytes) : M H2Conn unit := fun c =>
  send (write_goaway (last_peer_stream_ c) error debug_data) (set_done c).

Definition is_done (c : H2Conn) : bool := done_ c.
End Frames.

Arguments H2Stream : clear implicits.
Arguments H2Conn : clear implicits.
