(* ===== verification/Http2Proofs.v ===== *)
(** * Correctness of HTTP/2 framing and of the connection

    Frames survive the wire, bodies are cut and reassembled, every request
    stream is reported once, and requests and responses are delivered from
    end to end through HPACK, framing and the stream states. *)

From stdpp Require Import prelude gmap.
From S2P Require Import Prelude Result CxxString Buffer BufferProofs Huffman HuffmanProofs Hpack HpackProofs Http1 Http2.

(** ** Big-endian integers *)

Lemma lor_shiftl_add a b k : 0 <= k -> 0 <= b < 2 ^ k -> Z.lor (Z.shiftl a k) b = a * 2 ^ k + b.
Proof.
  intros Hk Hb. rewrite <- Z.shiftl_mul_pow2 by done. symmetry. apply Z.add_nocarry_lor.
  apply Z.bits_inj'. intros i Hi. rewrite Z.land_spec, Z.bits_0. destruct (Z.ltb_spec i k).
  - by rewrite Z.shiftl_spec_low by lia.
  - replace (Z.testbit b i) with false; [apply andb_false_r|]. symmetry.
    destruct (Z.eq_dec b 0) as [->|]; [apply Z.testbit_0_l|].
    apply Z.bits_above_log2; [lia|]. assert (Z.log2 b < k) by (apply Z.log2_lt_pow2; lia). lia.
Qed.

Lemma b2z_byte_at v s : 0 <= s -> b2z (byte_at v s) = v / 2 ^ s mod 256.
Proof.
  intros Hs. unfold byte_at. rewrite b2z_z2b. change 255 with (Z.ones 8). rewrite Z.land_ones by lia. change (2 ^ 8) with 256.
  rewrite Z.mod_mod by lia. by rewrite Z.shiftr_div_pow2.
Qed.

Lemma be24_val b0 b1 b2 : be24 b0 b1 b2 = (b2z b0 * 256 + b2z b1) * 256 + b2z b2.
Proof.
  unfold be24. pose proof (b2z_range b1). pose proof (b2z_range b2).
  replace (Z.shiftl (b2z b0) 16) with (Z.shiftl (Z.shiftl (b2z b0) 8) 8) by (rewrite Z.shiftl_shiftl by lia; done).
  rewrite <- Z.shiftl_lor. rewrite !lor_shiftl_add by (change (2 ^ 8) with 256; lia). done.
Qed.

Lemma be31_val b0 b1 b2 b3 :
  be31 b0 b1 b2 b3 = (((b2z b0 * 256 + b2z b1) * 256 + b2z b2) * 256 + b2z b3) mod 2 ^ 31.
Proof.
  unfold be31. pose proof (b2z_range b1). pose proof (b2z_range b2). pose proof (b2z_range b3).
  change 2147483647 with (Z.ones 31). rewrite Z.land_ones by lia. f_equal.
  replace (Z.shiftl (b2z b0) 24) with (Z.shiftl (Z.shiftl (Z.shiftl (b2z b0) 8) 8) 8) by (rewrite !Z.shiftl_shiftl by lia; done).
  replace (Z.shiftl (b2z b1) 16) with (Z.shiftl (Z.shiftl (b2z b1) 8) 8) by (rewrite !Z.shiftl_shiftl by lia; done).
  rewrite <- !Z.shiftl_lor. rewrite !lor_shiftl_add by (change (2 ^ 8) with 256; lia). done.
Qed.

Lemma be24_bytes n : 0 <= n < 2 ^ 24 -> be24 (byte_at n 16) (byte_at n 8) (byte_at n 0) = n.
Proof.
  intros Hn. rewrite be24_val, !b2z_byte_at by lia. change (2 ^ 16) with 65536. change (2 ^ 8) with 256. change (2 ^ 0) with 1.
  change (2 ^ 24) with 16777216 in Hn. Z.to_euclidean_division_equations. lia.
Qed.

Lemma be31_bytes n : 0 <= n < 2 ^ 31 -> be31 (byte_at n 24) (byte_at n 16) (byte_at n 8) (byte_at n 0) = n.
Proof.
  intros Hn. rewrite be31_val, !b2z_byte_at by lia. change (2 ^ 24) with 16777216. change (2 ^ 16) with 65536.
  change (2 ^ 8) with 256. change (2 ^ 0) with 1.
  change (2 ^ 31) with 2147483648 in *.
  assert (E : ((n / 16777216 mod 256 * 256 + n / 65536 mod 256) * 256 + n / 256 mod 256) * 256 + n / 1 mod 256 = n).
  { Z.to_euclidean_division_equations. lia. }
  rewrite E. apply Z.mod_small. lia.
Qed.

(** ** Frames *)

Definition type_ok (t : H2FrameType) : Prop := type_of_byte (byte_of_type t) = t.

Record frame_ok (f : H2Frame) : Prop := {
  fo_length : f_length f = len (f_payload f);
  fo_size : f_length f < 2 ^ 24;
  fo_type : type_ok (f_type f);
  fo_flags : 0 <= f_flags f < 256;
  fo_id : 0 <= f_stream_id f < 2 ^ 31;
}.

Definition frame_bytes (f : H2Frame) : bytes :=
  frame_header (f_length f) (f_type f) (f_flags f) (f_stream_id f) ++ f_payload f.

Definition frames_bytes (fs : list H2Frame) : bytes := concat (map frame_bytes fs).

Lemma frame_bytes_length f : len (frame_bytes f) = 9 + len (f_payload f).
Proof. unfold frame_bytes. rewrite len_app. done. Qed.

Lemma frames_bytes_cons f fs : frames_bytes (f :: fs) = frame_bytes f ++ frames_bytes fs.
Proof. done. Qed.

Lemma stream_id_bit n : 0 <= n < 2 ^ 31 -> Z.land n 2147483648 = 0.
Proof.
  intros Hn. apply Z.bits_inj'. intros i Hi. rewrite Z.land_spec, Z.bits_0. change 2147483648 with (2 ^ 31).
  destruct (Z.eq_dec i 31) as [->|]; [|rewrite Z.pow2_bits_false by lia; apply andb_false_r].
  destruct (Z.eq_dec n 0) as [->|]; [done|]. rewrite Z.bits_above_log2; [done|lia|]. apply Z.log2_lt_pow2; lia.
Qed.

Section OnBuffer.
Context {B : Type} `{BufferSpec B}.

(** A frame at the front of the input is read as it was written. *)
Lemma read_frame_bytes (buf : B) f f0 rest max :
  buf_ok buf -> frame_ok f -> f_length f <= max -> contents buf = frame_bytes f ++ rest ->
  exists buf', read_frame buf f0 max = (Complete, f, buf') /\ buf_ok buf' /\ contents buf' = rest.
Proof.
  intros Hok [Hl Hs Ht Hf Hi] Hm Hc. pose proof (len_nonneg (f_payload f)) as Hp. pose proof (len_nonneg rest).
  assert (Hr : buf_readable buf = 9 + f_length f + len rest)
    by (rewrite readable_len, Hc, len_app, frame_bytes_length by done; lia).
  unfold read_frame, FRAME_HEADER_SIZE. rewrite Hr. destruct (Z.ltb_spec (9 + f_length f + len rest) 9); [lia|].
  assert (Hh : buf_peek buf 9 = frame_header (f_length f) (f_type f) (f_flags f) (f_stream_id f))
    by (rewrite peek_take, Hc by (done || lia); done).
  rewrite Hh. unfold byte_i, frame_header. cbn [nth].
  rewrite be24_bytes by lia. destruct (Z.ltb_spec max (f_length f)); [lia|].
  destruct (Z.ltb_spec (9 + f_length f + len rest) (9 + f_length f)); [lia|].
  exists (buf_commit_read (buf_commit_read buf 9) (f_length f)).
  assert (Hn : Z.to_nat (f_length f) = length (f_payload f)) by (rewrite Hl; unfold len; lia).
  pose proof (commit_read_ok buf 9 Hok ltac:(lia)) as Hok1.
  assert (Hc1 : contents (buf_commit_read buf 9) = f_payload f ++ rest)
    by (rewrite commit_read_drop, Hc by (done || lia); done).
  split_and!; [|apply commit_read_ok; [done|lia]|].
  - rewrite be31_bytes, b2z_z2b_small, peek_take, Hc1 by (done || lia).
    rewrite Hn, take_app_length, Ht. by destruct f.
  - rewrite commit_read_drop, Hc1, Hn by (done || lia). by rewrite drop_app_length.
Qed.

(** A frame that has not arrived completely is left alone. *)
Lemma read_frame_prefix (buf : B) f f0 max k :
  buf_ok buf -> frame_ok f -> f_length f <= max -> (k < length (frame_bytes f))%nat ->
  contents buf = take k (frame_bytes f) -> read_frame buf f0 max = (Incomplete, f0, buf).
Proof.
  intros Hok [Hl Hs Ht Hf Hi] Hm Hk Hc. pose proof (frame_bytes_length f) as Hlen. pose proof (len_nonneg (f_payload f)).
  assert (Hr : buf_readable buf = Z.of_nat k)
    by (rewrite readable_len, Hc by done; unfold len; rewrite length_take; lia).
  unfold read_frame, FRAME_HEADER_SIZE. rewrite Hr. destruct (Z.ltb_spec (Z.of_nat k) 9); [done|].
  assert (Hh : buf_peek buf 9 = frame_header (f_length f) (f_type f) (f_flags f) (f_stream_id f)).
  { rewrite peek_take, Hc, take_take by (done || lia). by replace (Z.to_nat 9 `min` k)%nat with 9%nat by lia. }
  rewrite Hh. unfold byte_i, frame_header. cbn [nth]. rewrite be24_bytes by lia.
  destruct (Z.ltb_spec max (f_length f)); [lia|]. destruct (Z.ltb_spec (Z.of_nat k) (9 + f_length f)); [done|].
  unfold len in Hlen. rewrite Hl in *. unfold len in *. lia.
Qed.

(** Header and payload written one after the other are a frame. *)
Lemma write_frame_writes n t fl id (p : bytes) (m : M B unit) :
  n = len p -> n < 2 ^ 24 -> 0 <= id < 2 ^ 31 -> writes m p ->
  writes (write_frame_header n t fl id ;;; m) (frame_bytes (mkFrame n t fl id p)).
Proof.
  intros Hn Hs Hi Hm. apply writes_seq; [|done]. cbn. unfold write_frame_header.
  destruct (Z.ltb_spec 16777215 n); [lia|]. rewrite stream_id_bit by done. apply writes_append.
Qed.

Lemma be32_length v : len (be32_bytes v) = 4.
Proof. done. Qed.

Lemma write_headers_writes id block es max :
  0 < id < 2 ^ 31 -> len block <= max -> max < 2 ^ 24 ->
  writes (B := B) (write_headers id block es max)
    (frame_bytes (mkFrame (len block) HEADERS (if es then 5 else 4) id block)).
Proof.
  intros Hi Hb Hm. unfold write_headers. destruct (Z.eqb_spec id 0); [lia|]. destruct (Z.ltb_spec max (len block)); [lia|].
  cbn [orb]. rewrite u32_small by (pose proof (len_nonneg block); lia). destruct es;
    apply write_frame_writes; (done || lia || apply writes_append).
Qed.

Lemma write_rst_writes id e :
  0 < id < 2 ^ 31 ->
  writes (B := B) (write_rst_stream id e) (frame_bytes (mkFrame 4 RST_STREAM 0 id (be32_bytes (h2_error_code e)))).
Proof.
  intros Hi. unfold write_rst_stream. destruct (Z.eqb_spec id 0); [lia|].
  apply write_frame_writes; (done || lia || apply writes_append).
Qed.

Lemma write_ping_writes data ack :
  writes (B := B) (write_ping data ack) (frame_bytes (mkFrame 8 PING (if ack then 1 else 0) 0 (u64_bytes data))).
Proof. apply write_frame_writes; (done || lia || apply writes_append). Qed.

Lemma write_settings_none : writes (B := B) (write_settings []) (frame_bytes (mkFrame 0 SETTINGS 0 0 [])).
Proof. apply write_frame_writes; (done || lia || apply writes_ret). Qed.

Lemma write_settings_ack_writes : writes (B := B) write_settings_ack (frame_bytes (mkFrame 0 SETTINGS 1 0 [])).
Proof. unfold write_settings_ack. intros b Hb Hl. by apply append_app. Qed.

(** The frames of a body. *)
Fixpoint data_frames (fuel : nat) (id : Z) (rest : bytes) (es : bool) (max : Z) : list H2Frame :=
  match fuel with
  | O => []
  | S fuel' =>
      if len rest =? 0 then []
      else
        let chunk := Z.min max (len rest) in
        mkFrame chunk DATA (if es && (chunk =? len rest) then 1 else 0) id (take (Z.to_nat chunk) rest)
        :: data_frames fuel' id (drop (Z.to_nat chunk) rest) es max
  end.

Lemma write_data_writes id data es max :
  0 < id < 2 ^ 31 -> 1 <= max < 2 ^ 24 ->
  writes (B := B) (write_data id data es max) (frames_bytes (data_frames (length data) id data es max)).
Proof.
  intros Hi Hm. unfold write_data. destruct (Z.eqb_spec id 0); [lia|]. destruct (Z.eqb_spec max 0); [lia|]. cbn [orb].
  generalize (length data) as fuel. intros fuel. revert data; induction fuel as [|fuel IH]; intros data; cbn [write_data_loop data_frames];
    [apply writes_ret|].
  destruct (len data =? 0) eqn:El; [apply writes_ret|]. zbool. pose proof (len_nonneg data).
  rewrite frames_bytes_cons. rewrite u32_small by lia. unfold frame_bytes. cbn [f_length f_type f_flags f_stream_id f_payload].
  rewrite <- app_assoc. apply writes_seq.
  - unfold write_frame_header. destruct (Z.ltb_spec 16777215 (Z.min max (len data))); [lia|]. rewrite stream_id_bit by lia.
    apply writes_append.
  - apply writes_seq; [apply writes_append|apply IH].
Qed.
End OnBuffer.

(** The frames of a body carry it, in pieces of at most the limit, and only
    the last one ends the stream. *)
Record body_frames (id : Z) (body : bytes) (es : bool) (max : Z) (fs : list H2Frame) : Prop := {
  bf_body : concat (map f_payload fs) = body;
  bf_frames : Forall (fun f => frame_ok f /\ f_type f = DATA /\ f_stream_id f = id /\ 1 <= f_length f <= max) fs;
  bf_end : body <> [] -> exists pre l, fs = pre ++ [l] /\ Forall (fun f => f_flags f = 0) pre /\ f_flags l = if es then 1 else 0;
}.

Lemma data_frames_body fuel id body es max :
  0 <= id < 2 ^ 31 -> 1 <= max < 2 ^ 24 -> (length body <= fuel)%nat -> body_frames id body es max (data_frames fuel id body es max).
Proof.
  intros Hi Hm. revert body; induction fuel as [|fuel IH]; intros body Hf; cbn [data_frames].
  { destruct body; [|cbn in Hf; lia]. split; done. }
  destruct (Z.eqb_spec (len body) 0) as [E|E]; [apply len_0_nil in E; subst; by split|].
  pose proof (len_nonneg body). set (chunk := Z.min max (len body)).
  assert (Hc : 1 <= chunk <= len body) by lia. assert (Hd : length (drop (Z.to_nat chunk) body) = (length body - Z.to_nat chunk)%nat) by apply length_drop.
  destruct (IH (drop (Z.to_nat chunk) body)) as [Hb Hfs He]; [unfold len in *; lia|]. split.
  - cbn [map concat f_payload]. rewrite Hb. apply take_drop.
  - constructor; [|done]. split_and!; try done; cbn; try lia. split; cbn; try lia; try done.
    + unfold len in *. rewrite length_take. lia.
    + destruct (_ && _); lia.
  - intros _. destruct (Z.eqb_spec chunk (len body)) as [Ec|Ec].
    + exists [], (mkFrame chunk DATA (if es && true then 1 else 0) id (take (Z.to_nat chunk) body)).
      assert (drop (Z.to_nat chunk) body = []) as -> by (apply drop_ge; unfold len in *; lia).
      rewrite andb_true_r. split_and!; [by destruct fuel|constructor|done].
    + destruct He as (pre & l & -> & Hpre & Hl); [intros Hn; rewrite Hn in Hd; cbn in Hd; unfold len in *; lia|].
      eexists (_ :: pre), l. split_and!; [done| |done]. constructor; [|done]. cbn. by rewrite andb_false_r.
Qed.

(** The wire size of a body. *)
Lemma body_size id max fs :
  Forall (fun f => frame_ok f /\ f_type f = DATA /\ f_stream_id f = id /\ 1 <= f_length f <= max) fs ->
  len (frames_bytes fs) <= 10 * len (concat (map f_payload fs)).
Proof.
  induction 1 as [|f fs ([Hl _ _ _ _] & _ & _ & Hr) _ IH]; [done|].
  rewrite frames_bytes_cons. cbn [map concat]. rewrite !len_app, frame_bytes_length. lia.
Qed.

(** ** Processing input *)

Section OnConn.
Context {B : Type} `{BufferSpec B}.
Implicit Types (c : H2Conn B) (s : H2Stream B).

Lemma process_step fuel c ready f rest :
  buf_ok (recv_buf_ c) -> frame_ok f -> f_length f <= max_frame_size_ c -> contents (recv_buf_ c) = frame_bytes f ++ rest ->
  exists b, buf_ok b /\ contents b = rest /\
    process_loop (S fuel) c ready =
    match handle_frame f (set_recv_buf b c, ready) with
    | (Err e, (c, _)) => (Err e, c)
    | (Ok _, (c, ready)) => process_loop fuel c ready
    end.
Proof.
  intros Hok Hf Hl Hc. destruct (read_frame_bytes _ f H2Frame_default rest (max_frame_size_ c) Hok Hf Hl Hc) as (b & E & Hb & Hr).
  exists b. split_and!; [done|done|]. cbn [process_loop]. by rewrite E.
Qed.

Lemma process_end fuel c ready :
  buf_ok (recv_buf_ c) -> contents (recv_buf_ c) = [] -> process_loop (S fuel) c ready = (Ok ready, c).
Proof.
  intros Hok Hc. cbn [process_loop]. unfold read_frame. rewrite readable_len, Hc by done. cbn. by destruct c.
Qed.

(** ** Which streams have been reported *)

(** [served] are the streams reported so far, over the whole life of the
    connection. *)
Record conn_inv (c : H2Conn B) (served : list Z) : Prop := {
  ci_table : table_ok (hpack_dec_ c);
  ci_nonzero id s : streams_ c !! id = Some s -> id <> 0 /\ id <= last_peer_stream_ c;
  ci_states id s : streams_ c !! id = Some s ->
    st_state s = Idle \/ st_state s = Open \/ st_state s = HalfClosedRemote;
  ci_served id s : streams_ c !! id = Some s -> (st_state s = HalfClosedRemote <-> id ∈ served);
  ci_known id : id ∈ served -> is_Some (streams_ c !! id);
  ci_once : NoDup served;
}.

Lemma conn_inv_other c c' served :
  streams_ c' = streams_ c -> hpack_dec_ c' = hpack_dec_ c -> last_peer_stream_ c' = last_peer_stream_ c ->
  conn_inv c served -> conn_inv c' served.
Proof. intros E1 E2 E3 [? ? ? ? ? ?]. split; rewrite ?E1, ?E2, ?E3; done. Qed.

Lemma send_inv m c r c' served : send m c = (r, c') -> conn_inv c served -> conn_inv c' served.
Proof. unfold send. destruct (m (send_buf_ c)) as [r0 b]. intros [= <- <-]. by apply conn_inv_other. Qed.

(** Rewriting an entry without touching its state. *)
Lemma put_same_inv c id s s' served :
  streams_ c !! id = Some s -> st_state s' = st_state s -> conn_inv c served -> conn_inv (put_stream id s' c) served.
Proof.
  intros E Es [Ht Hn Hst Hsv Hk Ho]. unfold put_stream. split; cbn; [done| | | | |done].
  - intros i x Hx. destruct (decide (i = id)) as [->|]; [by eapply Hn|].
    rewrite lookup_insert_ne in Hx by done. by eapply Hn.
  - intros i x Hx. destruct (decide (i = id)) as [->|].
    + rewrite lookup_insert_eq in Hx. simplify_eq. rewrite Es. by eapply Hst.
    + rewrite lookup_insert_ne in Hx by done. by eapply Hst.
  - intros i x Hx. destruct (decide (i = id)) as [->|].
    + rewrite lookup_insert_eq in Hx. simplify_eq. rewrite Es. by eapply Hsv.
    + rewrite lookup_insert_ne in Hx by done. by eapply Hsv.
  - intros i Hi. destruct (decide (i = id)) as [->|]; [rewrite lookup_insert_eq; by eexists|].
    rewrite lookup_insert_ne by done. by apply Hk.
Qed.

(** A transition of one stream between unfinished states or to its end. *)
Lemma put_state_inv c id s st served (fin : bool) :
  streams_ c !! id = Some s -> st_state s <> HalfClosedRemote ->
  (if fin then st = HalfClosedRemote else st = Idle \/ st = Open) ->
  conn_inv c served ->
  conn_inv (put_stream id (set_state st s) c) (if fin then served ++ [id] else served).
Proof.
  intros E Hne Hst' [Ht Hn Hst Hsv Hk Ho].
  assert (Hni : id ∉ served) by (intros Hi; by apply (Hsv id s E) in Hi).
  assert (Hmem : forall i, i ∈ (if fin then served ++ [id] else served) <-> i ∈ served \/ (fin = true /\ i = id))
    by (intros i; destruct fin; rewrite ?elem_of_app, ?list_elem_of_singleton; naive_solver).
  unfold put_stream. split; cbn; [done| | | | |].
  - intros i x Hx. destruct (decide (i = id)) as [->|]; [by eapply Hn|].
    rewrite lookup_insert_ne in Hx by done. by eapply Hn.
  - intros i x Hx. destruct (decide (i = id)) as [->|].
    + rewrite lookup_insert_eq in Hx. simplify_eq. cbn. destruct fin; naive_solver.
    + rewrite lookup_insert_ne in Hx by done. by eapply Hst.
  - intros i x Hx. rewrite Hmem. destruct (decide (i = id)) as [->|].
    + rewrite lookup_insert_eq in Hx. simplify_eq. cbn. destruct fin; naive_solver.
    + rewrite lookup_insert_ne in Hx by done. rewrite (Hsv i x Hx). naive_solver.
  - intros i Hi%Hmem. destruct (decide (i = id)) as [->|]; [rewrite lookup_insert_eq; by eexists|].
    rewrite lookup_insert_ne by done. apply Hk. naive_solver.
  - destruct fin; [|done]. apply NoDup_app. split_and!; [done| |apply NoDup_singleton].
    intros i Hi ->%list_elem_of_singleton. done.
Qed.

Lemma get_or_create_inv c served id s c' :
  id <> 0 -> get_or_create_stream id (set_last_peer (Z.max (last_peer_stream_ c) id) c) = (s, c') ->
  conn_inv c served -> conn_inv c' served /\ streams_ c' !! id = Some s /\ st_id s = id.
Proof.
  intros Hid E [Ht Hn Hst Hsv Hk Ho]. unfold get_or_create_stream in E. injection E as <- <-. cbn.
  split; [|split; [apply lookup_insert_eq|done]]. split; cbn; [done| | | | |done].
  - intros i x Hx. destruct (decide (i = id)) as [->|]; [lia|].
    rewrite lookup_insert_ne in Hx by done. destruct (Hn i x Hx). lia.
  - intros i x Hx. destruct (decide (i = id)) as [->|].
    + rewrite lookup_insert_eq in Hx. simplify_eq. cbn. destruct (streams_ c !! id) as [y|] eqn:Ey; [by eapply Hst|by left].
    + rewrite lookup_insert_ne in Hx by done. by eapply Hst.
  - intros i x Hx. destruct (decide (i = id)) as [->|].
    + rewrite lookup_insert_eq in Hx. simplify_eq. cbn. destruct (streams_ c !! id) as [y|] eqn:Ey; [by apply Hsv|].
      cbn. split; [done|]. intros Hi. apply Hk in Hi. rewrite Ey in Hi. by destruct Hi.
    + rewrite lookup_insert_ne in Hx by done. by apply Hsv.
  - intros i Hi. destruct (decide (i = id)) as [->|]; [rewrite lookup_insert_eq; by eexists|].
    rewrite lookup_insert_ne by done. by apply Hk.
Qed.

Lemma decode_table_ok data t out r t' out' : decode data t out = (r, t', out') -> table_ok t -> table_ok t'.
Proof.
  unfold decode. destruct (decode_loop (length data) (mkDec t data out)) as [r0 s'] eqn:E. intros [= <- <- <-].
  apply decode_loop_inv in E as (Hok & _). exact Hok.
Qed.

(** The lists [ready] only grow. *)
Definition grows (served0 ready ready' : list Z) (c' : H2Conn B) : Prop :=
  conn_inv c' (served0 ++ ready') /\ exists new, ready' = ready ++ new.

Lemma grows_same served0 ready c' : conn_inv c' (served0 ++ ready) -> grows served0 ready ready c'.
Proof. intros Hi. split; [done|]. exists []. by rewrite app_nil_r. Qed.

Lemma grows_one served0 ready id c' : conn_inv c' (served0 ++ ready ++ [id]) -> grows served0 ready (ready ++ [id]) c'.
Proof. intros Hi. split; [done|]. by exists [id]. Qed.

Lemma lookup_put c id s : streams_ (put_stream id s c) !! id = Some s.
Proof. apply lookup_insert_eq. Qed.

(** One more state change on top of a rewritten entry. *)
Lemma put_put c id s1 s2 : put_stream id s2 (put_stream id s1 c) = put_stream id s2 c.
Proof. unfold put_stream, set_streams. cbn. by rewrite insert_insert_eq. Qed.

Lemma handle_headers_inv f s c served0 ready r c' ready' :
  streams_ c !! f_stream_id f = Some s -> conn_inv c (served0 ++ ready) ->
  handle_headers f s (c, ready) = (r, (c', ready')) -> grows served0 ready ready' c'.
Proof.
  intros Es Hi. unfold handle_headers. destruct (_ && _) eqn:Est.
  { destruct (send _ c) as [r0 c0] eqn:E0. intros [= <- <- <-]. apply grows_same. by eapply send_inv. }
  destruct (negb _); [intros [= <- <- <-]; by apply grows_same|].
  destruct (decode (f_payload f) (hpack_dec_ c) (st_request_headers s)) as [[d t] hs] eqn:Ed.
  pose proof (decode_table_ok _ _ _ _ _ _ Ed (ci_table _ _ Hi)) as Ht.
  assert (Hi1 : conn_inv (set_hpack_dec t c) (served0 ++ ready)) by (destruct Hi; split; done).
  assert (Hi2 : conn_inv (put_stream (f_stream_id f) (set_request_headers hs s) (set_hpack_dec t c)) (served0 ++ ready))
    by (by apply (put_same_inv _ _ s)).
  destruct d as [[]|e]; [|intros [= <- <- <-]; by apply grows_same].
  assert (Hst : st_state s = Idle \/ st_state s = Open).
  { destruct (ci_states _ _ Hi _ _ Es) as [?|[?|Hs]]; auto. rewrite Hs in Est. done. }
  intros [= <- <- <-]. set (fin := has_flag (f_flags f) H2Flags.END_STREAM).
  pose proof (put_state_inv _ (f_stream_id f) (set_request_headers hs s) (headers_state (st_state s) fin) (served0 ++ ready) fin
    (lookup_put (set_hpack_dec t c) _ _)) as Hp.
  specialize (Hp ltac:(cbn; destruct Hst as [->| ->]; done)
                 ltac:(destruct Hst as [->| ->], fin; cbn; auto) Hi2).
  destruct fin; [apply grows_one; by rewrite app_assoc|by apply grows_same].
Qed.

Lemma handle_data_inv f s c served0 ready r c' ready' :
  streams_ c !! f_stream_id f = Some s -> conn_inv c (served0 ++ ready) ->
  handle_data f s (c, ready) = (r, (c', ready')) -> grows served0 ready ready' c'.
Proof.
  intros Es Hi. unfold handle_data. destruct (ci_states _ _ Hi _ _ Es) as [Hst|[Hst|Hst]]; rewrite Hst.
  - intros [= <- <- <-]. by apply grows_same.
  - destruct (buf_append _ _) as [[[]|e] b].
    + assert (Hi2 : conn_inv (put_stream (f_stream_id f) (set_st_recv_buf b s) c) (served0 ++ ready))
        by (by apply (put_same_inv _ _ s)).
      cbn [st_state set_st_recv_buf]. rewrite Hst. destruct (has_flag _ _); intros [= <- <- <-]; [|by apply grows_same].
      apply grows_one. rewrite app_assoc.
      apply (put_state_inv _ _ (set_st_recv_buf b s) HalfClosedRemote _ true (lookup_put _ _ _)); [cbn; by rewrite Hst|done|done].
    + intros [= <- <- <-]. apply grows_same. by apply (put_same_inv _ _ s).
  - destruct (send _ c) as [r0 c0] eqn:E0. intros [= <- <- <-]. apply grows_same. by eapply send_inv.
Qed.

Lemma handle_window_update_inv f s c served0 ready r c' ready' :
  streams_ c !! f_stream_id f = Some s -> conn_inv c (served0 ++ ready) ->
  handle_window_update f s (c, ready) = (r, (c', ready')) -> grows served0 ready ready' c'.
Proof.
  intros Es Hi. unfold handle_window_update. destruct (_ || _); [intros [= <- <- <-]; by apply grows_same|].
  destruct (_ =? 0); intros [= <- <- <-]; apply grows_same; [done|]. by apply (put_same_inv _ _ s).
Qed.

Lemma handle_frame_inv f c served0 ready r c' ready' :
  conn_inv c (served0 ++ ready) -> handle_frame f (c, ready) = (r, (c', ready')) -> grows served0 ready ready' c'.
Proof.
  intros Hi. unfold handle_frame. case_bool_decide.
  { unfold handle_settings. destruct (_ || _); [intros [= <- <- <-]; by apply grows_same|].
    destruct (negb _); [|intros [= <- <- <-]; by apply grows_same].
    destruct (send _ c) as [r0 c0] eqn:E0. intros [= <- <- <-]. apply grows_same. by eapply send_inv. }
  case_bool_decide.
  { unfold handle_ping. destruct (_ || _); [intros [= <- <- <-]; by apply grows_same|].
    destruct (negb _); [|intros [= <- <- <-]; by apply grows_same].
    destruct (send _ c) as [r0 c0] eqn:E0. intros [= <- <- <-]. apply grows_same. by eapply send_inv. }
  case_bool_decide; [intros [= <- <- <-]; apply grows_same; by apply (conn_inv_other c)|].
  destruct (Z.eqb_spec (f_stream_id f) 0) as [|Hid]; [intros [= <- <- <-]; by apply grows_same|].
  destruct (get_or_create_stream _ _) as [s c1] eqn:Eg.
  destruct (get_or_create_inv _ _ _ _ _ Hid Eg Hi) as (Hi1 & Hl & _).
  destruct (f_type f); try (intros [= <- <- <-]; by apply grows_same).
  - by apply handle_data_inv.
  - by apply handle_headers_inv.
  - by apply handle_window_update_inv.
Qed.

Lemma process_loop_inv fuel c served0 ready r c' :
  conn_inv c (served0 ++ ready) -> process_loop fuel c ready = (r, c') ->
  exists ready', conn_inv c' (served0 ++ ready') /\ (forall out, r = Ok out -> out = ready').
Proof.
  revert c ready; induction fuel as [|fuel IH]; intros c ready Hi; cbn [process_loop].
  { intros [= <- <-]. exists ready. split; [done|]. by intros out [= ->]. }
  destruct (read_frame (recv_buf_ c) H2Frame_default (max_frame_size_ c)) as [[p f] b].
  assert (Hi1 : conn_inv (set_recv_buf b c) (served0 ++ ready)) by (by apply (conn_inv_other c)).
  destruct p.
  - destruct (handle_frame f (set_recv_buf b c, ready)) as [[[]|e] [c1 ready1]] eqn:Eh;
      destruct (handle_frame_inv _ _ _ _ _ _ _ Hi1 Eh) as [Hi2 _]; [by apply IH|].
    intros [= <- <-]. by exists ready1.
  - intros [= <- <-]. exists ready. split; [done|]. by intros out [= ->].
  - intros [= <- <-]. exists ready. split; [|done]. by apply (conn_inv_other c).
Qed.

Lemma process_inv c served0 r c' :
  conn_inv c served0 -> process c = (r, c') ->
  exists ready, conn_inv c' (served0 ++ ready) /\ (forall out, r = Ok out -> out = ready).
Proof.
  intros Hi. assert (Hi0 : conn_inv c (served0 ++ [])) by (by rewrite app_nil_r). unfold process.
  destruct (is_server_ c && negb (saw_preface_ c)).
  2: { by apply process_loop_inv. }
  destruct (_ <? _); [intros [= <- <-]; exists []; split; [done|]; by intros out [= ->]|].
  destruct (negb _); [intros [= <- <-]; exists []; split; [by apply (conn_inv_other c)|done]|].
  destruct (send _ _) as [[[]|e] c1] eqn:Es; apply (send_inv _ _ _ _ (served0 ++ [])) in Es; try (by apply (conn_inv_other c)).
  - by apply process_loop_inv.
  - intros [= <- <-]. by exists [].
Qed.

(** ** What handling a frame leaves alone *)

Lemma send_recv m c r c' : send m c = (r, c') -> recv_buf_ c' = recv_buf_ c /\ max_frame_size_ c' = max_frame_size_ c.
Proof. unfold send. destruct (m (send_buf_ c)) as [r0 b]. by intros [= <- <-]. Qed.

Lemma handle_frame_recv f c ready r c' ready' :
  handle_frame f (c, ready) = (r, (c', ready')) ->
  recv_buf_ c' = recv_buf_ c /\ max_frame_size_ c' = max_frame_size_ c.
Proof.
  unfold handle_frame, handle_settings, handle_ping, handle_headers, handle_data, handle_window_update, get_or_create_stream.
  intros E. repeat first [dmatch_in E | progress cbv zeta in E]; injection E as <- <- <-; try done;
    match goal with Hs : send _ _ = _ |- _ => apply send_recv in Hs as [-> ->]; done end.
Qed.

(** ** No complete frame is left behind *)

Lemma be24_nonneg b0 b1 b2 : 0 <= be24 b0 b1 b2.
Proof. rewrite be24_val. pose proof (b2z_range b0). pose proof (b2z_range b1). pose proof (b2z_range b2). lia. Qed.

Lemma read_frame_shrinks (b : B) f0 max f b' :
  buf_ok b -> read_frame b f0 max = (Complete, f, b') -> buf_ok b' /\ buf_readable b' + 9 <= buf_readable b.
Proof.
  intros Hok. unfold read_frame, FRAME_HEADER_SIZE. destruct (_ <? 9) eqn:E1; [done|]. set (n := be24 _ _ _).
  destruct (max <? n); [done|]. destruct (_ <? 9 + n) eqn:E2; [done|]. intros [= <- <-]. zbool.
  assert (Hn : 0 <= n) by apply be24_nonneg. pose proof (commit_read_ok b 9 Hok ltac:(lia)) as Hok1.
  pose proof (commit_read_ok _ n Hok1 Hn) as Hok2. split; [done|].
  rewrite readable_len, !commit_read_drop by done. rewrite readable_len in * by done.
  unfold len in *. rewrite !length_drop. lia.
Qed.

Lemma process_loop_exhausts fuel c ready out c' :
  buf_ok (recv_buf_ c) -> buf_readable (recv_buf_ c) < Z.of_nat fuel -> process_loop fuel c ready = (Ok out, c') ->
  (read_frame (recv_buf_ c') H2Frame_default (max_frame_size_ c')).1.1 = Incomplete.
Proof.
  revert c ready; induction fuel as [|fuel IH]; intros c ready Hok Hf.
  { rewrite readable_len in Hf by done. pose proof (len_nonneg (contents (recv_buf_ c))). lia. }
  cbn [process_loop]. destruct (read_frame (recv_buf_ c) H2Frame_default (max_frame_size_ c)) as [[p f] b] eqn:E. destruct p.
  - destruct (read_frame_shrinks _ _ _ _ _ Hok E) as [Hb Hs].
    destruct (handle_frame f (set_recv_buf b c, ready)) as [[[]|e] [c1 ready1]] eqn:Eh; [|done].
    destruct (handle_frame_recv _ _ _ _ _ _ Eh) as [Er Em]. cbn in Er, Em. intros E1. apply (IH c1 ready1); [by rewrite Er| |done].
    rewrite Er. lia.
  - intros [= <- <-]. cbn. unfold read_frame in E. destruct (buf_readable (recv_buf_ c) <? FRAME_HEADER_SIZE) eqn:E1.
    + injection E as <- <-. unfold read_frame. by rewrite E1.
    + destruct (_ <? be24 _ _ _) eqn:E2; [done|]. destruct (_ <? FRAME_HEADER_SIZE + _) eqn:E3; [|done].
      injection E as <- <-. unfold read_frame. by rewrite E1, E2, E3.
  - done.
Qed.

(** ** PING *)

Definition be_value (p : bytes) : Z := fold_left (fun d b => d * 256 + b2z b) p 0.

Lemma ping_data p : len p = 8 -> fold_left (fun d b => Z.lor (u64 (Z.shiftl d 8)) (b2z b)) p 0 = be_value p.
Proof.
  intros Hl. unfold be_value.
  assert (G : forall n d, 0 <= d < 2 ^ (64 - 8 * Z.of_nat (length n)) -> (length n <= 8)%nat ->
    fold_left (fun d b => Z.lor (u64 (Z.shiftl d 8)) (b2z b)) n d = fold_left (fun d b => d * 256 + b2z b) n d).
  { induction n as [|b n IH]; intros d Hd Hn; cbn [fold_left length] in *; [done|].
    pose proof (b2z_range b). rewrite Z.shiftl_mul_pow2 by lia. change (2 ^ 8) with 256.
    assert (Hp : 2 ^ (64 - 8 * Z.of_nat (length n)) = 256 * 2 ^ (64 - 8 * Z.of_nat (S (length n))))
      by (replace (64 - 8 * Z.of_nat (length n)) with (8 + (64 - 8 * Z.of_nat (S (length n)))) by lia;
          rewrite Z.pow_add_r by lia; done).
    assert (2 ^ (64 - 8 * Z.of_nat (length n)) <= 2 ^ 64) by (apply Z.pow_le_mono_r; lia).
    rewrite u64_small by lia. replace (d * 256) with (Z.shiftl d 8) at 1 by (rewrite Z.shiftl_mul_pow2 by lia; done).
    rewrite lor_shiftl_add by (change (2 ^ 8) with 256; lia). change (2 ^ 8) with 256. apply IH; lia. }
  apply G; unfold len in Hl; [|lia]. assert (length p = 8%nat) as -> by lia. cbn. lia.
Qed.

Lemma be_value_snoc p b : be_value (p ++ [b]) = be_value p * 256 + b2z b.
Proof. unfold be_value. by rewrite fold_left_app. Qed.

Lemma be_value_app p q : be_value (p ++ q) = be_value p * 256 ^ len q + be_value q /\ 0 <= be_value q < 256 ^ len q.
Proof.
  induction q as [|b q IH] using rev_ind.
  { rewrite app_nil_r. change (be_value []) with 0. change (256 ^ len (@nil byte)) with 1. lia. }
  destruct IH as [IH1 IH2]. rewrite app_assoc, !be_value_snoc, IH1, len_app. change (len [b]) with 1.
  rewrite Z.pow_add_r by (apply len_nonneg || lia). pose proof (b2z_range b). lia.
Qed.

Lemma be_value_byte p b q : be_value (p ++ b :: q) / 256 ^ len q mod 256 = b2z b.
Proof.
  change (b :: q) with ([b] ++ q). rewrite app_assoc. destruct (be_value_app (p ++ [b]) q) as [-> Hq].
  rewrite Z.div_add_l, (Z.div_small (be_value q)), Z.add_0_r, be_value_snoc by lia.
  pose proof (b2z_range b). rewrite Z.add_comm, Z.mod_add by lia. by apply Z.mod_small.
Qed.

Lemma ping_byte p b q k :
  Z.of_nat k = len q -> z2b (Z.land (Z.shiftr (be_value (p ++ b :: q)) (Z.of_nat k * 8)) 255) = b.
Proof.
  intros Hk. apply b2z_inj. rewrite b2z_z2b. change 255 with (Z.ones 8). rewrite Z.land_ones by lia. change (2 ^ 8) with 256.
  rewrite Z.mod_mod, Z.shiftr_div_pow2 by lia. rewrite <- (be_value_byte p b q). do 2 f_equal.
  rewrite Hk, Z.mul_comm, Z.pow_mul_r by (lia || apply len_nonneg). done.
Qed.

Lemma u64_bytes_value p : len p = 8 -> u64_bytes (be_value p) = p.
Proof.
  intros Hl. assert (Hn : length p = 8%nat) by (unfold len in Hl; lia). clear Hl.
  destruct p as [|a0 [|a1 [|a2 [|a3 [|a4 [|a5 [|a6 [|a7 [|]]]]]]]]]; cbn in Hn; try lia.
  unfold u64_bytes. cbn [map].
  apply (f_equal2 cons); [exact (ping_byte [] a0 [a1; a2; a3; a4; a5; a6; a7] 7 eq_refl)|].
  apply (f_equal2 cons); [exact (ping_byte [a0] a1 [a2; a3; a4; a5; a6; a7] 6 eq_refl)|].
  apply (f_equal2 cons); [exact (ping_byte [a0; a1] a2 [a3; a4; a5; a6; a7] 5 eq_refl)|].
  apply (f_equal2 cons); [exact (ping_byte [a0; a1; a2] a3 [a4; a5; a6; a7] 4 eq_refl)|].
  apply (f_equal2 cons); [exact (ping_byte [a0; a1; a2; a3] a4 [a5; a6; a7] 3 eq_refl)|].
  apply (f_equal2 cons); [exact (ping_byte [a0; a1; a2; a3; a4] a5 [a6; a7] 2 eq_refl)|].
  apply (f_equal2 cons); [exact (ping_byte [a0; a1; a2; a3; a4; a5] a6 [a7] 1 eq_refl)|].
  apply (f_equal2 cons); [exact (ping_byte [a0; a1; a2; a3; a4; a5; a6] a7 [] 0 eq_refl)|].
  done.
Qed.

(** ** Delivery of one message *)

(** The state of a stream, up to its buffers' representation. *)
Definition stream_at c (id : Z) (st : H2StreamState) (hs : list HpackHeader) (body : bytes) : Prop :=
  exists s, streams_ c !! id = Some s /\ st_state s = st /\ st_request_headers s = hs /\
            buf_ok (st_recv_buf s) /\ contents (st_recv_buf s) = body.

(** The parts of a connection that only its reader side uses. *)
Definition same_input c c' : Prop := recv_buf_ c' = recv_buf_ c /\ max_frame_size_ c' = max_frame_size_ c.

(** A frame of a request on the stream [id], as a peer may send it: of any
    flags, and of any size up to the limit. *)
Record request_frame (id max : Z) (t : H2FrameType) (f : H2Frame) : Prop := {
  rf_ok : frame_ok f;
  rf_type : f_type f = t;
  rf_id : f_stream_id f = id;
  rf_size : f_length f <= max;
}.

Definition ends_stream (f : H2Frame) : bool := has_flag (f_flags f) H2Flags.END_STREAM.

(** DATA frames, of which the last and no other ends the stream, and the
    body they carry. *)
Inductive body_run (id max : Z) : bytes -> list H2Frame -> Prop :=
  | body_last f : request_frame id max DATA f -> ends_stream f = true -> body_run id max (f_payload f) [f]
  | body_more f body fs :
      request_frame id max DATA f -> ends_stream f = false -> body_run id max body fs ->
      body_run id max (f_payload f ++ body) (f :: fs).

(** The frames of a request: one HEADERS frame with the whole block, which
    ends the stream or is followed by the body. *)
Inductive request_run (id max : Z) (block : bytes) : bytes -> list H2Frame -> Prop :=
  | request_head f :
      request_frame id max HEADERS f -> f_payload f = block -> has_flag (f_flags f) H2Flags.END_HEADERS = true ->
      ends_stream f = true -> request_run id max block [] [f]
  | request_body f body fs :
      request_frame id max HEADERS f -> f_payload f = block -> has_flag (f_flags f) H2Flags.END_HEADERS = true ->
      ends_stream f = false -> body_run id max body fs -> request_run id max block body (f :: fs).

Lemma headers_delivered c id f t hs ready :
  0 < id -> f_type f = HEADERS -> f_stream_id f = id -> has_flag (f_flags f) H2Flags.END_HEADERS = true ->
  streams_ c !! id = None -> decode (f_payload f) (hpack_dec_ c) [] = (Ok tt, t, hs) ->
  exists c', handle_frame f (c, ready) = (Ok tt, (c', if ends_stream f then ready ++ [id] else ready)) /\
    same_input c c' /\ hpack_dec_ c' = t /\ stream_at c' id (if ends_stream f then HalfClosedRemote else Open) hs [].
Proof.
  intros Hid Ht Hi He Hfresh Hd. unfold handle_frame. rewrite Ht, Hi. rewrite !bool_decide_eq_false_2 by done.
  destruct (Z.eqb_spec id 0); [lia|]. unfold get_or_create_stream. cbn [streams_ set_last_peer]. rewrite Hfresh.
  unfold handle_headers. rewrite Hi, He. cbn [st_state H2Stream_default st_request_headers negb].
  rewrite (bool_decide_eq_false_2 (Idle <> Idle)) by (intros Hn; by apply Hn). cbn [andb].
  cbn [hpack_dec_ set_streams set_last_peer]. rewrite Hd. unfold ends_stream.
  destruct (has_flag _ H2Flags.END_STREAM); cbn; (eexists; split; [reflexivity|]); (split_and!; [done|done|]);
    (eexists; split; [apply lookup_insert_eq|]); cbn; split_and!; try done;
    (apply new_ok || apply new_contents); unfold BUF_LIMIT; lia.
Qed.

Lemma data_delivered c id hs body f ready :
  0 < id -> f_type f = DATA -> f_stream_id f = id ->
  stream_at c id Open hs body -> len body + len (f_payload f) <= BUF_LIMIT ->
  exists c', handle_frame f (c, ready) = (Ok tt, (c', if ends_stream f then ready ++ [id] else ready)) /\
    same_input c c' /\ hpack_dec_ c' = hpack_dec_ c /\
    stream_at c' id (if ends_stream f then HalfClosedRemote else Open) hs (body ++ f_payload f).
Proof.
  intros Hid Ht Hi (s & Hs & Hst & Hh & Hok & Hb) Hl. unfold handle_frame. rewrite Ht, Hi.
  rewrite !bool_decide_eq_false_2 by done. destruct (Z.eqb_spec id 0); [lia|].
  unfold get_or_create_stream. cbn [streams_ set_last_peer]. rewrite Hs. unfold handle_data. rewrite Hi.
  cbn [st_state st_recv_buf]. rewrite Hst.
  destruct (append_app (st_recv_buf s) (f_payload f) Hok) as (b & Eb & Hok' & Hb'); [by rewrite Hb|]. rewrite Eb. unfold ends_stream.
  destruct (has_flag _ H2Flags.END_STREAM); cbn; rewrite ?Hst; (eexists; split; [reflexivity|]); (split_and!; [done|done|]);
    (eexists; split; [apply lookup_insert_eq|]); cbn; rewrite Hb', Hb; done.
Qed.

(** The frames of a body are taken in one after the other. *)
Lemma body_delivered id hs body fs : forall fuel c ready got,
  body_run id (max_frame_size_ c) body fs -> 0 < id -> (length fs < fuel)%nat ->
  buf_ok (recv_buf_ c) -> contents (recv_buf_ c) = frames_bytes fs ->
  stream_at c id Open hs got -> len got + len body <= BUF_LIMIT ->
  exists c', process_loop fuel c ready = (Ok (ready ++ [id]), c') /\ hpack_dec_ c' = hpack_dec_ c /\
    stream_at c' id HalfClosedRemote hs (got ++ body).
Proof.
  intros fuel c ready got Hb. revert fuel ready got. remember (max_frame_size_ c) as mx eqn:Em. revert c Em.
  induction Hb as [f [Ho Ht Hi Hsz] He|f body fs [Ho Ht Hi Hsz] He Hb IH]; intros c -> fuel ready got Hid Hf Hok Hc Hst Hlim;
    (destruct fuel as [|fuel]; [cbn in Hf; lia|]); rewrite frames_bytes_cons in Hc;
    destruct (process_step fuel c ready f _ Hok Ho Hsz Hc) as (b & Hbok & Hbc & ->).
  - destruct (data_delivered (set_recv_buf b c) id hs got f ready) as (c' & E & [Hr Hm] & Hd & Hs); [done..|].
    rewrite He in *. rewrite E. cbn [length] in Hf. destruct fuel as [|fuel]; [lia|].
    rewrite process_end by (rewrite Hr; done). by exists c'.
  - rewrite len_app in Hlim. pose proof (len_nonneg body).
    destruct (data_delivered (set_recv_buf b c) id hs got f ready) as (c1 & E & [Hr Hm] & Hd & Hs); [done..|lia|].
    rewrite He in *. rewrite E. cbn in Hr, Hm.
    destruct (IH c1 ltac:(by rewrite Hm) fuel ready (got ++ f_payload f)) as (c' & E' & Hd' & Hs'); try done.
    + cbn in Hf. lia.
    + by rewrite Hr.
    + by rewrite Hr.
    + rewrite len_app. lia.
    + exists c'. rewrite Hd', Hd, app_assoc. done.
Qed.

Lemma frames_count fs : 9 * Z.of_nat (length fs) <= len (frames_bytes fs).
Proof.
  induction fs as [|f fs IH]; [done|]. rewrite frames_bytes_cons, len_app, frame_bytes_length. cbn [length].
  pose proof (len_nonneg (f_payload f)). lia.
Qed.

(** A request that is the whole input, for a new stream. *)
Lemma request_received c id block body fs t hs :
  request_run id (max_frame_size_ c) block body fs -> 0 < id -> len body <= BUF_LIMIT ->
  decode block (hpack_dec_ c) [] = (Ok tt, t, hs) -> streams_ c !! id = None ->
  buf_ok (recv_buf_ c) -> contents (recv_buf_ c) = frames_bytes fs ->
  exists c', process_frames c = (Ok [id], c') /\ hpack_dec_ c' = t /\ stream_at c' id HalfClosedRemote hs body.
Proof.
  intros Hrun Hid Hbl Hdec Hnew Hok Hc. unfold process_frames. rewrite readable_len, Hc by done.
  pose proof (frames_count fs) as Hcnt. set (fuel := Z.to_nat (len (frames_bytes fs))). assert (Hf : (length fs <= fuel)%nat) by lia.
  clearbody fuel. destruct Hrun as [f [Ho Ht Hi Hsz] Hp Hh He|f body fs [Ho Ht Hi Hsz] Hp Hh He Hb]; subst block;
    rewrite frames_bytes_cons in Hc; destruct (process_step fuel c [] f _ Hok Ho Hsz Hc) as (b & Hbok & Hbc & ->);
    destruct (headers_delivered (set_recv_buf b c) id f t hs []) as (c1 & E1 & [Hr1 Hm1] & Hd1 & Hs1); try done;
    rewrite He in *; rewrite E1; cbn in Hr1, Hm1; cbn [length] in Hf; (destruct fuel as [|fuel]; [lia|]).
  - rewrite process_end by (rewrite Hr1; done). by exists c1.
  - destruct (body_delivered id hs body fs (S fuel) c1 [] []) as (c2 & E2 & Hd2 & Hs2); try done.
    + by rewrite Hm1.
    + by rewrite Hr1.
    + by rewrite Hr1.
    + exists c2. rewrite E2, Hd2. done.
Qed.

Lemma send_writes m d c :
  writes m d -> buf_ok (send_buf_ c) -> len (pending_output c) + len d <= BUF_LIMIT ->
  exists b, send m c = (Ok tt, set_send_buf b c) /\ buf_ok b /\ contents b = pending_output c ++ d.
Proof.
  intros Hm Hok Hl. destruct (Hm (send_buf_ c) Hok Hl) as (b & E & Hb & Hc). exists b. unfold send. by rewrite E.
Qed.

(** The frames of a message. *)
Definition message_bytes (id : Z) (block body : bytes) (max : Z) : bytes :=
  frame_bytes (mkFrame (len block) HEADERS (if bool_decide (body = []) then 5 else 4) id block)
  ++ frames_bytes (data_frames (length body) id body true max).

Lemma send_response_output c id hs body :
  0 < id < 2 ^ 31 -> Forall (fun h => has_uppercase (hp_name h) = false) hs ->
  len (list_bytes hs) <= max_frame_size_ c -> 1 <= max_frame_size_ c < 2 ^ 24 -> buf_ok (send_buf_ c) ->
  len (pending_output c) + len (message_bytes id (list_bytes hs) body (max_frame_size_ c)) <= BUF_LIMIT ->
  exists c', send_response id hs body true c = (Ok tt, c') /\ buf_ok (send_buf_ c') /\
    pending_output c' = pending_output c ++ message_bytes id (list_bytes hs) body (max_frame_size_ c) /\
    hpack_enc_ c' = fold_left (fun t h => table_after h t) hs (hpack_enc_ c).
Proof.
  intros Hid Hu Hb Hm Hok Hl. unfold message_bytes in *. set (D := frames_bytes (data_frames (length body) id body true (max_frame_size_ c))) in *.
  rewrite len_app in Hl. pose proof (len_nonneg D).
  destruct (encode_writes hs (hpack_enc_ c) (buf_new 4096) Hu) as (eb & Ee & _ & Ce);
    [apply new_ok; unfold BUF_LIMIT; lia|rewrite new_contents, len_nil by (unfold BUF_LIMIT; lia); unfold BUF_LIMIT; lia|].
  rewrite new_contents in Ce by (unfold BUF_LIMIT; lia). cbn [app] in Ce.
  unfold send_response. rewrite Ee, Ce. cbn [max_frame_size_ set_hpack_enc].
  set (c1 := set_hpack_enc _ c). set (es := bool_decide (body = []) && true).
  replace es with (bool_decide (body = [])) by (unfold es; by rewrite andb_true_r).
  pose proof (write_headers_writes (B := B) id (list_bytes hs) (bool_decide (body = [])) (max_frame_size_ c) Hid Hb ltac:(lia)) as Hw.
  destruct (send_writes _ _ c1 Hw Hok) as (b1 & E1 & Hb1 & C1); [change (pending_output c1) with (pending_output c); lia|].
  rewrite (bind_ok _ _ _ _ _ E1).
  case_bool_decide as Hbody.
  - subst body. eexists. split; [reflexivity|]. split_and!; [done| |done].
    change (contents b1 = pending_output c ++ frame_bytes (mkFrame (len (list_bytes hs)) HEADERS 5 id (list_bytes hs)) ++ D).
    rewrite C1. by rewrite app_nil_r.
  - destruct (send_writes _ _ (set_send_buf b1 c1) (write_data_writes id body true (max_frame_size_ c) Hid Hm) Hb1) as (b2 & E2 & Hb2 & C2).
    { change (pending_output (set_send_buf b1 c1)) with (contents b1). rewrite C1, len_app. fold D. change (pending_output c1) with (pending_output c). lia. }
    eexists. split; [exact E2|]. split_and!; [done| |done].
    change (contents b2 = pending_output c ++ frame_bytes (mkFrame (len (list_bytes hs)) HEADERS 4 id (list_bytes hs)) ++ D).
    rewrite C2. change (pending_output (set_send_buf b1 c1)) with (contents b1). rewrite C1. by rewrite <- app_assoc.
Qed.

(** The frames of [send_response] are those of a message. *)
Lemma data_frames_run id body max :
  0 <= id < 2 ^ 31 -> 1 <= max < 2 ^ 24 -> body <> [] -> body_run id max body (data_frames (length body) id body true max).
Proof.
  intros Hi Hm Hne. destruct (data_frames_body (length body) id body true max Hi Hm (le_n _)) as [Hb Hfs He].
  destruct (He Hne) as (pre & l & E & Hpre & Hl). rewrite E in *. clear E. rewrite <- Hb. clear Hb He Hne.
  assert (Hrf : Forall (request_frame id max DATA) (pre ++ [l]))
    by (apply (Forall_impl _ _ _ Hfs); intros f (? & ? & ? & ?); split; try done; lia).
  clear Hfs. induction pre as [|f pre IH]; cbn [app map concat] in *.
  - rewrite app_nil_r. apply Forall_cons in Hrf as [Hrf _]. apply body_last; [exact Hrf|]. unfold ends_stream. by rewrite Hl.
  - apply Forall_cons in Hrf as [Hf Hrf]. apply Forall_cons in Hpre as [Hp Hpre]. apply body_more; [done| |by apply IH].
    unfold ends_stream. by rewrite Hp.
Qed.

Lemma message_run id block body max :
  0 < id < 2 ^ 31 -> 1 <= max < 2 ^ 24 -> len block <= max ->
  exists fs, message_bytes id block body max = frames_bytes fs /\ request_run id max block body fs.
Proof.
  intros Hid Hm Hb. unfold message_bytes. set (F := mkFrame _ HEADERS _ _ _). pose proof (len_nonneg block).
  assert (HF : request_frame id max HEADERS F) by (split; cbn; try done; split; cbn; try done; try lia; case_bool_decide; lia).
  exists (F :: data_frames (length body) id body true max). split; [done|]. unfold F in *. case_bool_decide as Hn.
  - subst body. by apply request_head.
  - apply request_body; try done. apply data_frames_run; [lia|done|done].
Qed.

(** A message at the front of the input, for a new stream. *)
Lemma message_received c id hs body :
  0 < id < 2 ^ 31 -> Forall encodable hs -> len (list_bytes hs) <= max_frame_size_ c -> 1 <= max_frame_size_ c < 2 ^ 24 ->
  len body <= BUF_LIMIT -> streams_ c !! id = None -> buf_ok (recv_buf_ c) ->
  contents (recv_buf_ c) = message_bytes id (list_bytes hs) body (max_frame_size_ c) ->
  exists c', process_frames c = (Ok [id], c') /\
    hpack_dec_ c' = fold_left (fun t h => table_after h t) hs (hpack_dec_ c) /\
    stream_at c' id HalfClosedRemote (map as_received hs) body.
Proof.
  intros Hid Hh Hb Hm Hbl Hnew Hok Hc. destruct (message_run id (list_bytes hs) body _ Hid Hm Hb) as (fs & E & Hrun). rewrite E in Hc.
  eapply request_received; try done; [lia|]. unfold decode. by rewrite decode_loop_bytes.
Qed.
End OnConn.

(** ** Sequences of calls on a connection *)

Inductive conn_op :=
  | OpFeed (d : bytes)
  | OpProcess
  | OpRespond (id : Z) (hs : list HpackHeader) (body : bytes) (es : bool)
  | OpConsumeBody (id n : Z)
  | OpConsumeOutput (n : Z)
  | OpWindowUpdate (id n : Z)
  | OpGoaway (e : H2Error) (d : bytes).

Section Calls.
Context {B : Type} `{BufferSpec B}.

(** The streams a call reports, and the connection after it; an exception
    of [streams_.at] leaves the connection as it is. *)
Definition run_conn_op (o : conn_op) (c : H2Conn B) : list Z * H2Conn B :=
  match o with
  | OpFeed d => ([], (feed d c).2)
  | OpProcess => match process c with (Ok ready, c) => (ready, c) | (Err _, c) => ([], c) end
  | OpRespond id hs body es => ([], (send_response id hs body es c).2)
  | OpConsumeBody id n => ([], default c (consume_body id n c))
  | OpConsumeOutput n => ([], consume_output n c)
  | OpWindowUpdate id n => ([], (send_window_update id n c).2)
  | OpGoaway e d => ([], (goaway e d c).2)
  end.

Fixpoint run_conn (os : list conn_op) (c : H2Conn B) : list Z * H2Conn B :=
  match os with
  | [] => ([], c)
  | o :: os' => let '(r1, c1) := run_conn_op o c in let '(r2, c2) := run_conn os' c1 in (r1 ++ r2, c2)
  end.

Lemma send_inv_snd m (c : H2Conn B) served : conn_inv c served -> conn_inv (send m c).2 served.
Proof. intros Hi. destruct (send m c) as [r c'] eqn:E. by eapply send_inv. Qed.

Lemma send_response_inv id hs body es (c : H2Conn B) served :
  conn_inv c served -> conn_inv (send_response id hs body es c).2 served.
Proof.
  intros Hi. unfold send_response. destruct (encode hs _) as [[[]|e] [t eb]]; cbn; [|by apply (conn_inv_other c)].
  set (c1 := set_hpack_enc t c). assert (Hi1 : conn_inv c1 served) by (by apply (conn_inv_other c)).
  unfold bind. destruct (send _ c1) as [[[]|e] c2] eqn:E; pose proof (send_inv _ _ _ _ _ E Hi1) as Hi2; [|done].
  case_bool_decide; [done|by apply send_inv_snd].
Qed.

Lemma consume_body_inv id n (c c' : H2Conn B) served :
  consume_body id n c = Some c' -> conn_inv c served -> conn_inv c' served.
Proof.
  unfold consume_body. destruct (streams_ c !! id) as [s|] eqn:E; [|done]. intros [= <-] Hi. by apply (put_same_inv _ _ s).
Qed.

(** Every call keeps the invariant; streams a failed [process] would have
    reported count as served. *)
Lemma run_conn_op_inv o (c : H2Conn B) served :
  conn_inv c served ->
  exists lost, conn_inv (run_conn_op o c).2 (served ++ (run_conn_op o c).1 ++ lost).
Proof.
  intros Hi. assert (Hsame : forall c' : H2Conn B, conn_inv c' served -> exists lost, conn_inv c' (served ++ [] ++ lost))
    by (intros c' Hc; exists []; by rewrite !app_nil_r).
  destruct o; cbn [run_conn_op fst snd].
  - apply Hsame. unfold feed. destruct (buf_append _ _). by apply (conn_inv_other c).
  - destruct (process c) as [r c'] eqn:E. destruct (process_inv _ _ _ _ Hi E) as (ready & Hi' & Hr). destruct r as [out|e].
    + rewrite (Hr out eq_refl). exists []. by rewrite app_nil_r.
    + by exists ready.
  - apply Hsame. by apply send_response_inv.
  - apply Hsame. destruct (consume_body id n c) as [c'|] eqn:E; [by eapply consume_body_inv|done].
  - apply Hsame. by apply (conn_inv_other c).
  - apply Hsame. by apply send_inv_snd.
  - apply Hsame. apply send_inv_snd. by apply (conn_inv_other c).
Qed.

Lemma run_conn_inv os : forall (c : H2Conn B) served,
  conn_inv c served ->
  exists all, conn_inv (run_conn os c).2 (served ++ all) /\ sublist (run_conn os c).1 all.
Proof.
  induction os as [|o os IH]; intros c served Hi; cbn [run_conn].
  - exists []. by rewrite app_nil_r.
  - destruct (run_conn_op_inv o c served Hi) as [lost Hi1].
    destruct (run_conn_op o c) as [r1 c1]. cbn [fst snd] in Hi1. destruct (IH c1 _ Hi1) as (all & Hi2 & Hsub).
    destruct (run_conn os c1) as [r2 c2]. cbn [fst snd] in *.
    exists (r1 ++ lost ++ all). rewrite <- !app_assoc in Hi2. split; [done|].
    apply sublist_app; [done|]. by apply sublist_inserts_l.
Qed.

Lemma conn_inv_make srv : conn_inv (B := B) (H2Conn_make srv) [].
Proof.
  split; cbn; [apply table_ok_default|intros i s Hs; by rewrite lookup_empty in Hs..| |constructor].
  intros i Hi. by apply elem_of_nil in Hi.
Qed.

(** ** The frames behind a report

    The frames that [process] reads and hands to [handle_frame], in order,
    computed from the state it starts in. *)

Fixpoint loop_frames (fuel : nat) (c : H2Conn B) (ready : list Z) : list H2Frame :=
  match fuel with
  | O => []
  | S fuel' =>
      match read_frame (recv_buf_ c) H2Frame_default (max_frame_size_ c) with
      | (Complete, frame, b) =>
          frame :: match handle_frame frame (set_recv_buf b c, ready) with
                   | (Ok _, (c, ready)) => loop_frames fuel' c ready
                   | (Err _, _) => []
                   end
      | _ => []
      end
  end.

Definition frames_of (c : H2Conn B) : list H2Frame := loop_frames (S (Z.to_nat (buf_readable (recv_buf_ c)))) c [].

Definition process_frames_of (c : H2Conn B) : list H2Frame :=
  if is_server_ c && negb (saw_preface_ c) then
    if buf_readable (recv_buf_ c) <? len H2_PREFACE then []
    else if negb (bool_decide (buf_peek (recv_buf_ c) (len H2_PREFACE) = H2_PREFACE)) then []
    else
      match send (write_settings []) (set_saw_preface (set_recv_buf (buf_commit_read (recv_buf_ c) (len H2_PREFACE)) c)) with
      | (Err _, _) => []
      | (Ok _, c) => frames_of c
      end
  else frames_of c.

(** The frames handled over a sequence of calls. *)
Fixpoint run_frames (os : list conn_op) (c : H2Conn B) : list H2Frame :=
  match os with
  | [] => []
  | o :: os' => (match o with OpProcess => process_frames_of c | _ => [] end) ++ run_frames os' (run_conn_op o c).2
  end.

(** A HEADERS frame with a complete block that the decoder has accepted. *)
Definition opens (id : Z) (f : H2Frame) : Prop :=
  f_type f = HEADERS /\ f_stream_id f = id /\ has_flag (f_flags f) H2Flags.END_HEADERS = true /\
  exists t out, (decode (f_payload f) t out).1.1 = Ok tt.

(** A frame of the stream that ends it. *)
Definition closes (id : Z) (f : H2Frame) : Prop :=
  (f_type f = HEADERS \/ f_type f = DATA) /\ f_stream_id f = id /\ ends_stream f = true.

(** Both are there, the first not after the second. *)
Definition requested (log : list H2Frame) (id : Z) : Prop :=
  exists i j f g, (i <= j)%nat /\ log !! i = Some f /\ opens id f /\ log !! j = Some g /\ closes id g.

Lemma requested_app log more id : requested log id -> requested (log ++ more) id.
Proof.
  intros (i & j & f & g & Hij & Hi & Hf & Hj & Hg). exists i, j, f, g. split_and!; try done; by apply lookup_app_l_Some.
Qed.

(** Streams that are no longer idle were opened. *)
Definition opened (log : list H2Frame) (c : H2Conn B) : Prop :=
  forall id s, streams_ c !! id = Some s -> st_state s <> Idle -> exists f, f ∈ log /\ opens id f.

Lemma opened_other log c c' : streams_ c' = streams_ c -> opened log c -> opened log c'.
Proof. unfold opened. by intros ->. Qed.

Lemma opened_app log more c : opened log c -> opened (log ++ more) c.
Proof. intros Ho id s Es Hs. destruct (Ho id s Es Hs) as (f & Hf & ?). exists f. rewrite elem_of_app. auto. Qed.

Lemma opened_put log c id s :
  opened log c -> (st_state s <> Idle -> exists f, f ∈ log /\ opens id f) -> opened log (put_stream id s c).
Proof.
  intros Ho Hs i x Hx Hi. cbn in Hx. apply lookup_insert_Some in Hx as [[<- <-]|[_ Hx]]; [by apply Hs|by eapply Ho].
Qed.

Lemma send_streams m (c : H2Conn B) : streams_ (send m c).2 = streams_ c.
Proof. unfold send. by destruct (m (send_buf_ c)). Qed.

Lemma opened_send log m (c : H2Conn B) r c' : send m c = (r, c') -> opened log c -> opened log c'.
Proof. intros E. apply opened_other. pose proof (send_streams m c) as Hs. by rewrite E in Hs. Qed.

(** What handling one frame means for the streams and the report: a stream is
    reported when a frame ends it, and only if it was opened. *)
Lemma handle_frame_opened f c ready r c' ready' log :
  handle_frame f (c, ready) = (r, (c', ready')) -> opened log c ->
  opened (log ++ [f]) c' /\
  forall id, id ∈ ready' -> id ∈ ready \/ closes id f /\ exists g, g ∈ log ++ [f] /\ opens id g.
Proof.
  intros E Ho. apply (opened_app _ [f]) in Ho. set (log' := log ++ [f]) in *.
  assert (Hlog : f ∈ log') by (apply elem_of_app; right; apply list_elem_of_here).
  assert (Hsend : forall m r0 c0, send m c = (r0, c0) -> (r0, (c0, ready)) = (r, (c', ready')) ->
    opened log' c' /\ forall id, id ∈ ready' -> id ∈ ready \/ closes id f /\ exists g, g ∈ log' /\ opens id g).
  { intros m r0 c0 Es [= <- <- <-]. split; [by eapply opened_send|auto]. }
  unfold handle_frame in E. destruct (bool_decide (f_type f = SETTINGS)).
  { unfold handle_settings in E. repeat (dmatch_in E); simplify_eq; try (split; [done|auto]). by eapply Hsend. }
  destruct (bool_decide (f_type f = PING)).
  { unfold handle_ping in E. repeat (dmatch_in E); simplify_eq; try (split; [done|auto]). by eapply Hsend. }
  destruct (bool_decide (f_type f = GOAWAY)); [simplify_eq; split; [done|auto]|]. clear Hsend.
  destruct (f_stream_id f =? 0); [simplify_eq; split; [done|auto]|].
  set (id := f_stream_id f) in *. set (c1 := set_last_peer _ c) in E.
  destruct (get_or_create_stream id c1) as [s c2] eqn:Eg.
  assert (Hs : st_state s <> Idle -> exists g, g ∈ log' /\ opens id g).
  { unfold get_or_create_stream in Eg. injection Eg as <- _. cbn. intros Hne. destruct (streams_ c !! id) as [s0|] eqn:Es0; [|done].
    by eapply Ho. }
  assert (Ho2 : opened log' c2).
  { unfold get_or_create_stream in Eg. injection Eg as <- <-. by apply (opened_put log' c1). }
  clear Eg. destruct (f_type f) eqn:Et; try (simplify_eq; split; [done|auto]; fail).
  - (* DATA *)
    unfold handle_data in E. fold id in E. destruct (st_state s) eqn:Est; try (simplify_eq; split; [done|auto]; fail).
    3,4: destruct (send _ c2) as [r0 c0] eqn:Es; simplify_eq; (split; [by eapply opened_send|auto]).
    all: destruct (Hs ltac:(done)) as (g & Hg & Hog); destruct (buf_append _ _) as [[u|e] b];
      [|simplify_eq; split; [by apply opened_put; eauto|auto]];
      (destruct (has_flag (f_flags f) H2Flags.END_STREAM) eqn:Ee; simplify_eq; [|split; [by apply opened_put; eauto|auto]]);
      (split; [apply opened_put; [by apply opened_put; eauto|eauto]|]);
      intros i [Hi|Hi%list_elem_of_singleton]%elem_of_app; [by left|]; subst i; right;
      (split; [split_and!; [by right|done|exact Ee]|eauto]).
  - (* HEADERS *)
    unfold handle_headers in E. fold id in E. destruct (_ && _ && _).
    { destruct (send _ c2) as [r0 c0] eqn:Es. simplify_eq. split; [by eapply opened_send|auto]. }
    destruct (has_flag (f_flags f) H2Flags.END_HEADERS) eqn:Eh; cbn [negb] in E; [|simplify_eq; split; [done|auto]].
    destruct (decode (f_payload f) (hpack_dec_ c2) (st_request_headers s)) as [[rd t] hs] eqn:Ed.
    assert (Hput : opened log' (put_stream id (set_request_headers hs s) (set_hpack_dec t c2)))
      by (apply opened_put; [by apply (opened_other _ c2)|exact Hs]).
    destruct rd as [u|e]; simplify_eq; [|split; [done|auto]].
    assert (Hf : opens id f).
    { split_and!; [done|done|done|]. exists (hpack_dec_ c2), (st_request_headers s). rewrite Ed. cbn. by destruct u. }
    split; [apply opened_put; [done|eauto]|]. destruct (has_flag (f_flags f) H2Flags.END_STREAM) eqn:Ee; [|auto].
    intros i [Hi|Hi%list_elem_of_singleton]%elem_of_app; [by left|]. subst i. right. split; [split_and!; [by left|done|exact Ee]|eauto].
  - (* WINDOW_UPDATE *)
    unfold handle_window_update in E. repeat (dmatch_in E); simplify_eq; (split; [|auto]); try done. by apply opened_put.
Qed.

(** The reported streams of one frame, placed in the log. *)
Lemma closes_requested log f id g : closes id f -> g ∈ log ++ [f] -> opens id g -> requested (log ++ [f]) id.
Proof.
  intros Hc [i Hi]%list_elem_of_lookup_1 Hg. exists i, (length log), g, f.
  pose proof (lookup_lt_Some _ _ _ Hi) as Hl. rewrite length_app in Hl. cbn in Hl. split_and!; try done; [lia|].
  by apply list_lookup_middle.
Qed.

Lemma process_loop_opened fuel : forall c ready r c' log,
  process_loop fuel c ready = (r, c') -> opened log c -> (forall id, id ∈ ready -> requested log id) ->
  let log' := log ++ loop_frames fuel c ready in
  opened log' c' /\ forall out id, r = Ok out -> id ∈ out -> requested log' id.
Proof.
  induction fuel as [|fuel IH]; intros c ready r c' log E Ho Hr; cbn [process_loop loop_frames] in *.
  { simplify_eq. rewrite app_nil_r. split; [done|]. intros out id [= <-]. auto. }
  destruct (read_frame (recv_buf_ c) _ _) as [[v f] b]. destruct v.
  - destruct (handle_frame f (set_recv_buf b c, ready)) as [[u|e] [c1 ready1]] eqn:Eh;
      eapply handle_frame_opened in Eh as [Ho1 Hr1]; try (by apply (opened_other log c)).
    + change (f :: ?l) with ([f] ++ l). rewrite app_assoc. eapply IH; [done|done|].
      intros id Hid. destruct (Hr1 id Hid) as [Hin|[Hc (g & Hg & Hog)]]; [by apply requested_app, Hr|by eapply closes_requested].
    + simplify_eq. split; [done|]. done.
  - simplify_eq. rewrite app_nil_r. split; [by apply (opened_other log c)|]. intros out id [= <-]. auto.
  - simplify_eq. rewrite app_nil_r. split; [by apply (opened_other log c)|done].
Qed.

Lemma process_opened c r c' log :
  process c = (r, c') -> opened log c ->
  let log' := log ++ process_frames_of c in
  opened log' c' /\ forall out id, r = Ok out -> id ∈ out -> requested log' id.
Proof.
  assert (Hnil : forall id, id ∈ @nil Z -> requested log id) by (intros id Hid; by apply elem_of_nil in Hid).
  intros E Ho. unfold process, process_frames_of in *. destruct (_ && _); [|by eapply process_loop_opened].
  destruct (_ <? _); [simplify_eq; rewrite app_nil_r; split; [done|]; intros out id [= <-]; auto|].
  destruct (negb _); [simplify_eq; rewrite app_nil_r; split; [by apply (opened_other log c)|done]|].
  destruct (send _ _) as [[u|e] c1] eqn:Es; eapply (opened_send log) in Es; try (by apply (opened_other log c)).
  - by eapply process_loop_opened.
  - simplify_eq. rewrite app_nil_r. split; [done|done].
Qed.

Lemma run_conn_op_opened o c log :
  opened log c ->
  let log' := log ++ (match o with OpProcess => process_frames_of c | _ => [] end) in
  opened log' (run_conn_op o c).2 /\ forall id, id ∈ (run_conn_op o c).1 -> requested log' id.
Proof.
  intros Ho. assert (Hsame : forall c', streams_ c' = streams_ c -> opened (log ++ []) c' /\ forall id, id ∈ @nil Z -> requested (log ++ []) id).
  { intros c' Es. rewrite app_nil_r. split; [by apply (opened_other log c)|]. intros id Hid. by apply elem_of_nil in Hid. }
  destruct o; cbn [run_conn_op fst snd].
  - apply Hsame. unfold feed. by destruct (buf_append _ _).
  - destruct (process c) as [r c'] eqn:E. apply (process_opened _ _ _ log) in E as [Ho' Hr]; [|done].
    destruct r as [out|e]; (split; [done|]); intros id Hid; [by eapply Hr|]. by apply elem_of_nil in Hid.
  - apply Hsame. unfold send_response. destruct (encode hs _) as [[u|e] [t eb]]; [|done]. unfold bind.
    match goal with |- context [send ?m (set_hpack_enc t c)] => pose proof (send_streams m (set_hpack_enc t c)) as H1';
      destruct (send m (set_hpack_enc t c)) as [[u1|e1] c1] end; cbn in H1'; [|done].
    case_bool_decide; [done|]. by rewrite send_streams.
  - rewrite app_nil_r. split; [|intros i Hi; by apply elem_of_nil in Hi]. unfold consume_body.
    destruct (streams_ c !! id) as [s|] eqn:Es; [|done]. cbn. apply opened_put; [done|]. intros Hs. by apply (Ho id s).
  - by apply Hsame.
  - apply Hsame. apply send_streams.
  - apply Hsame. unfold goaway. by rewrite send_streams.
Qed.

Lemma run_conn_opened os : forall c log,
  opened log c -> forall id, id ∈ (run_conn os c).1 -> requested (log ++ run_frames os c) id.
Proof.
  induction os as [|o os IH]; intros c log Ho id; cbn [run_conn run_frames]; [intros Hid; by apply elem_of_nil in Hid|].
  destruct (run_conn_op_opened o c log Ho) as [Ho1 Hr1]. destruct (run_conn_op o c) as [r1 c1]. cbn [fst snd] in *.
  specialize (IH c1 _ Ho1 id). destruct (run_conn os c1) as [r2 c2]. cbn [fst snd] in *. rewrite app_assoc.
  intros [Hid|Hid]%elem_of_app; [by apply requested_app, Hr1|by apply IH].
Qed.

(** ** Properties *)

(** (C22) A stream is reported at most once, and only for a request.  Over any
    sequence of calls on a connection, with any input, valid or not: the stream
    numbers returned by all successful calls of [process] are pairwise
    different and not zero, and each reported stream is then known and half
    closed, so that no request can be forwarded twice.  And among the frames
    that were read, there are for each of them a HEADERS frame of that stream
    with the whole header block, which the decoder has accepted, and, not
    before it, a HEADERS or DATA frame of that stream with END_STREAM: a
    request is never reported without its headers or before its end. *)
Theorem streams_reported_once (srv : bool) (os : list conn_op) :
  let '(ready, c) := run_conn os (H2Conn_make (B := B) srv) in
  let log := run_frames os (H2Conn_make (B := B) srv) in
  NoDup ready /\
  forall id, id ∈ ready ->
    id <> 0 /\ (exists s, streams_ c !! id = Some s /\ st_state s = HalfClosedRemote) /\
    exists i j f g, (i <= j)%nat /\ log !! i = Some f /\ opens id f /\ log !! j = Some g /\ closes id g.
Proof.
  destruct (run_conn_inv os _ [] (conn_inv_make srv)) as (all & Hi & Hsub).
  pose proof (run_conn_opened os (H2Conn_make (B := B) srv) []) as Hreq.
  destruct (run_conn os (H2Conn_make srv)) as [ready c]. cbn [fst snd app] in *. split.
  - apply (sublist_NoDup _ _ (ci_once _ _ Hi)) in Hsub. exact Hsub.
  - intros id Hid. assert (Hin : id ∈ all) by (by eapply elem_of_sublist).
    destruct (ci_known _ _ Hi id Hin) as [s Hs]. split; [by apply (ci_nonzero _ _ Hi id s Hs)|]. split.
    + exists s. split; [done|]. by apply (ci_served _ _ Hi id s Hs).
    + apply Hreq; [|done]. intros i x Hx. cbn in Hx. by rewrite lookup_empty in Hx.
Qed.
End Calls.

Section Properties.
Context {B : Type} `{BufferSpec B}.

(** (C7) A request is delivered.  The peer, whatever it is, writes the frames
    of a request on a new stream: one HEADERS frame that holds the whole header
    block, coded in any way the decoder accepts in its current state (indexed
    fields, table updates, Huffman), and, unless that frame ends the stream,
    any number of DATA frames with payloads of any sizes up to the frame limit,
    empty ones too, of which the last ends the stream.  Other flags may have
    any value: the code looks at none, and takes the payload as it is.  Feeding
    these bytes, behind the connection preface where it is still due, and
    processing them reports exactly that stream; its headers are exactly those
    the decoder reads from the block, its body is exactly the payloads of the
    DATA frames one after the other, and the decoder's table is the one the
    block leaves.  (Header blocks that continue in a CONTINUATION frame are
    refused by the code, and frames of other streams in between are not part
    of this statement.) *)
Theorem h2_request_delivered (c : H2Conn B) (id : Z) (block body : bytes) (fs : list H2Frame)
    (t : HpackTable) (hs : list HpackHeader) :
  request_run id (max_frame_size_ c) block body fs -> 0 < id ->
  decode block (hpack_dec_ c) [] = (Ok tt, t, hs) -> streams_ c !! id = None ->
  buf_ok (recv_buf_ c) -> contents (recv_buf_ c) = [] -> buf_ok (send_buf_ c) -> len (pending_output c) + 9 <= BUF_LIMIT ->
  let preface := if is_server_ c && negb (saw_preface_ c) then H2_PREFACE else [] in
  len (preface ++ frames_bytes fs) <= BUF_LIMIT -> len body <= BUF_LIMIT ->
  exists c', (feed (preface ++ frames_bytes fs) ;;; process) c = (Ok [id], c') /\
    stream_headers id c' = Some hs /\ stream_body id c' = Some body /\ hpack_dec_ c' = t.
Proof.
  intros Hrun Hid Hdec Hnew Hok Hempty Hsb Hroom preface Hwire Hbl.
  destruct (append_app (recv_buf_ c) (preface ++ frames_bytes fs) Hok) as (b & Eb & Hb & Hbc); [by rewrite Hempty, len_nil|].
  rewrite Hempty in Hbc. cbn [app] in Hbc. unfold bind, feed. rewrite Eb.
  assert (Hdone : forall c1, streams_ c1 = streams_ c -> hpack_dec_ c1 = hpack_dec_ c -> max_frame_size_ c1 = max_frame_size_ c ->
    buf_ok (recv_buf_ c1) -> contents (recv_buf_ c1) = frames_bytes fs ->
    exists c', process_frames c1 = (Ok [id], c') /\ stream_headers id c' = Some hs /\ stream_body id c' = Some body /\ hpack_dec_ c' = t).
  { intros c1 E1 E2 E3 Hb1 Hc1. destruct (request_received c1 id block body fs t hs) as (c' & E & Hd & s & Hs & _ & Hhs & _ & Hbd);
      rewrite ?E1, ?E2, ?E3; try done. exists c'. unfold stream_headers, stream_body. rewrite Hs. cbn. by rewrite Hhs, Hbd. }
  unfold process. cbn [is_server_ saw_preface_ set_recv_buf recv_buf_]. unfold preface in *.
  destruct (is_server_ c && negb (saw_preface_ c)); [|by apply Hdone].
  rewrite readable_len, Hbc, len_app by done. pose proof (len_nonneg (frames_bytes fs)).
  destruct (Z.ltb_spec (len H2_PREFACE + len (frames_bytes fs)) (len H2_PREFACE)); [lia|].
  rewrite peek_take, Hbc by (done || apply len_nonneg). replace (Z.to_nat (len H2_PREFACE)) with (length H2_PREFACE) by (unfold len; lia).
  rewrite take_app_length, bool_decide_eq_true_2 by done. cbn [negb].
  set (c1 := set_saw_preface _). destruct (send_writes (write_settings []) _ c1 write_settings_none Hsb) as (b1 & E1 & Hb1 & _); [done|].
  rewrite E1. apply Hdone; try done; cbn.
  - apply commit_read_ok; [done|]. apply len_nonneg.
  - rewrite commit_read_drop, Hbc by (done || apply len_nonneg).
    replace (Z.to_nat (len H2_PREFACE)) with (length H2_PREFACE) by (unfold len; lia). by rewrite drop_app_length.
Qed.

(** A message sent by one end is received by the other.  When the
    sender's encoder table equals the receiver's decoder table, the header
    list can be encoded within one frame and the stream is new to the
    receiver, then [send_response] succeeds, and feeding its output to the
    receiver and processing it reports exactly that stream, with the same
    names and values in the same order and exactly the bytes of the body,
    however many DATA frames were needed; the tables are equal again. *)
Theorem h2_message_delivery (c1 c2 : H2Conn B) (id : Z) (hs : list HpackHeader) (body : bytes) :
  0 < id < 2 ^ 31 -> Forall encodable hs -> len (list_bytes hs) <= 16384 -> len body <= 2 ^ 32 ->
  max_frame_size_ c1 = 16384 -> buf_ok (send_buf_ c1) -> pending_output c1 = [] ->
  max_frame_size_ c2 = 16384 -> buf_ok (recv_buf_ c2) -> contents (recv_buf_ c2) = [] ->
  is_server_ c2 && negb (saw_preface_ c2) = false -> streams_ c2 !! id = None ->
  hpack_enc_ c1 = hpack_dec_ c2 ->
  exists c1', send_response id hs body true c1 = (Ok tt, c1') /\
  exists c2', (feed (pending_output c1') ;;; process) c2 = (Ok [id], c2') /\
    stream_headers id c2' = Some (map as_received hs) /\ stream_body id c2' = Some body /\
    hpack_enc_ c1' = hpack_dec_ c2'.
Proof.
  intros Hid Hh Hb Hbl Hm1 Hok1 Hp1 Hm2 Hok2 Hr2 Hpre Hnew Htab.
  assert (Hu : Forall (fun h => has_uppercase (hp_name h) = false) hs)
    by (apply (Forall_impl _ _ _ Hh); intros h (_ & _ & ?); done).
  pose proof (len_nonneg body) as Hb0.
  assert (Hsize : len (message_bytes id (list_bytes hs) body 16384) <= BUF_LIMIT).
  { destruct (data_frames_body (length body) id body true 16384 ltac:(lia) ltac:(lia) ltac:(lia)) as [Hbody Hfs _].
    unfold message_bytes. rewrite len_app, frame_bytes_length. cbn [f_payload].
    pose proof (body_size _ _ _ Hfs) as Hsz. rewrite Hbody in Hsz. unfold BUF_LIMIT. lia. }
  destruct (send_response_output c1 id hs body Hid Hu) as (c1' & E1 & Hok1' & Hout & Henc);
    [rewrite Hm1; lia|rewrite Hm1; lia|done|by rewrite Hp1, Hm1, len_nil|].
  exists c1'. split; [done|]. rewrite Hp1, Hm1 in Hout. cbn [app] in Hout.
  destruct (append_app (recv_buf_ c2) (pending_output c1') Hok2) as (b & Eb & Hbok & Hbc); [by rewrite Hr2, Hout, len_nil|].
  rewrite Hr2, Hout in Hbc. cbn [app] in Hbc.
  destruct (message_received (set_recv_buf b c2) id hs body) as (c2' & E2 & Hd2 & s & Hs & Hst & Hhs & _ & Hbd);
    cbn [max_frame_size_ set_recv_buf recv_buf_ streams_ hpack_dec_]; try (done || lia || by rewrite Hm2 || (rewrite Hm2; lia)).
  { unfold BUF_LIMIT. lia. }
  exists c2'. split_and!.
  - unfold bind, feed. rewrite Eb. unfold process. cbn [is_server_ saw_preface_ set_recv_buf]. by rewrite Hpre.
  - unfold stream_headers. rewrite Hs. cbn. by rewrite Hhs.
  - unfold stream_body. rewrite Hs. cbn. by rewrite Hbd.
  - rewrite Henc, Hd2, Htab. done.
Qed.

(** Frames survive the wire: a frame of any type with a payload below
    2^24 bytes, written as header and payload behind anything the reader has
    consumed, is read back with all its fields, and exactly its bytes are
    consumed; the reader waits for the missing bytes of every proper prefix. *)
Theorem frame_roundtrip (buf : B) (f f0 : H2Frame) (rest : bytes) (max : Z) (k : nat) :
  buf_ok buf -> frame_ok f -> f_length f <= max ->
  (contents buf = frame_bytes f ++ rest ->
   exists buf', read_frame buf f0 max = (Complete, f, buf') /\ contents buf' = rest) /\
  ((k < length (frame_bytes f))%nat -> contents buf = take k (frame_bytes f) ->
   read_frame buf f0 max = (Incomplete, f0, buf)).
Proof.
  intros Hok Hf Hm. split.
  - intros Hc. destruct (read_frame_bytes buf f f0 rest max Hok Hf Hm Hc) as (b & ? & ? & ?). by exists b.
  - intros Hk Hc. apply (read_frame_prefix buf f f0 max k); done.
Qed.

(** (C23) [process] is complete and terminates: it runs over all of its input,
    so that after a successful call what remains in the input buffer is not
    a whole frame, however many frames one call of [feed] delivered. *)
Theorem process_takes_all_frames (c c' : H2Conn B) (ready : list Z) :
  buf_ok (recv_buf_ c) -> process_frames c = (Ok ready, c') ->
  (read_frame (recv_buf_ c') H2Frame_default (max_frame_size_ c')).1.1 = Incomplete.
Proof.
  intros Hok. unfold process_frames. apply process_loop_exhausts; [done|].
  rewrite readable_len by done. pose proof (len_nonneg (contents (recv_buf_ c))). lia.
Qed.

(** A PING is answered with its own payload: eight bytes go through a
    64-bit integer and come back unchanged, with the ACK flag, and a PING
    that is itself an acknowledgement is not answered. *)
Theorem ping_echo (c : H2Conn B) (p : bytes) (ready : list Z) :
  len p = 8 -> buf_ok (send_buf_ c) -> len (pending_output c) + 17 <= BUF_LIMIT ->
  (exists c', handle_frame (mkFrame 8 PING 0 0 p) (c, ready) = (Ok tt, (c', ready)) /\
     pending_output c' = pending_output c ++ frame_bytes (mkFrame 8 PING H2Flags.ACK 0 p)) /\
  handle_frame (mkFrame 8 PING H2Flags.ACK 0 p) (c, ready) = (Ok tt, (c, ready)).
Proof.
  intros Hp Hok Hl. split; [|done]. unfold handle_frame. cbn [f_type]. rewrite bool_decide_eq_false_2, bool_decide_eq_true_2 by done.
  unfold handle_ping. cbn [f_stream_id f_length f_payload f_flags]. rewrite ping_data by done.
  change (negb (0 =? 0) || negb (8 =? 8)) with false. change (negb (has_flag 0 H2Flags.ACK)) with true. cbv iota.
  destruct (send_writes _ _ c (write_ping_writes (be_value p) true) Hok) as (b & E & _ & Hc).
  { rewrite frame_bytes_length. cbn [f_payload]. change (len (u64_bytes (be_value p))) with 8. lia. }
  rewrite E. eexists. split; [done|]. change (contents b = pending_output c ++ frame_bytes (mkFrame 8 PING 1 0 p)).
  by rewrite Hc, u64_bytes_value.
Qed.

(** (C40) A response whose header names are not all in lower case is lost: the
    call fails and nothing is queued for the peer.  Header names keep the
    case an HTTP/1.1 upstream gave them, and the caller ignores the result. *)
Theorem uppercase_response_lost (c : H2Conn B) (id : Z) (pre hs : list HpackHeader) (h : HpackHeader) (body : bytes) (es : bool) :
  Forall (fun h => has_uppercase (hp_name h) = false) pre -> has_uppercase (hp_name h) = true ->
  len (list_bytes pre) <= BUF_LIMIT ->
  (send_response id (pre ++ h :: hs) body es c).1 = Err (from_code HpackError (str "uppercase HTTP/2 header name")) /\
  pending_output (send_response id (pre ++ h :: hs) body es c).2 = pending_output c.
Proof.
  intros Hpre Hh Hl. unfold send_response.
  destruct (encode_uppercase pre h hs (hpack_enc_ c) (buf_new 4096) Hpre Hh) as (t & b & E);
    [apply new_ok; unfold BUF_LIMIT; lia|rewrite new_contents, len_nil by (unfold BUF_LIMIT; lia); lia|].
  rewrite E. done.
Qed.
End Properties.

(** ** Witnesses *)

Definition demo_headers : list HpackHeader :=
  [mkHpack (str ":status") (str "200") false; mkHpack (str "content-type") (str "text/plain") false].

Lemma demo_headers_ok : Forall encodable demo_headers.
Proof. repeat constructor; vm_compute; congruence. Qed.

(** A request with indexed fields, to a server that has not seen the preface;
    its body comes in three frames, one of them empty. *)
Definition demo_block : bytes := [Byte.x83; Byte.x84; Byte.x86].

Definition demo_frames : list H2Frame :=
  [mkFrame 3 HEADERS 4 1 demo_block; mkFrame 2 DATA 0 1 (str "he"); mkFrame 0 DATA 0 1 []; mkFrame 3 DATA 1 1 (str "llo")].

Lemma demo_frames_run : request_run 1 16384 demo_block (str "hello") demo_frames.
Proof.
  assert (Hf : forall t f, frame_ok f -> f_type f = t -> f_stream_id f = 1 -> f_length f <= 16384 -> request_frame 1 16384 t f) by (by split).
  assert (Hb : body_run 1 16384 (str "he" ++ [] ++ str "llo") (drop 1 demo_frames)).
  { apply (body_more 1 16384 (mkFrame 2 DATA 0 1 (str "he"))); [apply Hf; [split; cbn; (reflexivity || lia)|done|done|cbn; lia]|done|].
    apply (body_more 1 16384 (mkFrame 0 DATA 0 1 [])); [apply Hf; [split; cbn; (reflexivity || lia)|done|done|cbn; lia]|done|].
    apply (body_last 1 16384 (mkFrame 3 DATA 1 1 (str "llo"))); [apply Hf; [split; cbn; (reflexivity || lia)|done|done|cbn; lia]|done]. }
  refine (request_body _ _ _ (mkFrame 3 HEADERS 4 1 demo_block) _ _ _ _ _ _ Hb); try done.
Qed.

Lemma h2_request_delivered_witness :
  exists c', (feed (H2_PREFACE ++ frames_bytes demo_frames) ;;; process) (H2Conn_make (B := bytes) true) = (Ok [1], c') /\
    stream_headers 1 c' = Some [mkHpack (str ":method") (str "POST") false; mkHpack (str ":path") (str "/") false;
                                mkHpack (str ":scheme") (str "http") false] /\
    stream_body 1 c' = Some (str "hello").
Proof.
  destruct (h2_request_delivered (B := bytes) (H2Conn_make true) 1 demo_block (str "hello") demo_frames HpackTable_default
    [mkHpack (str ":method") (str "POST") false; mkHpack (str ":path") (str "/") false; mkHpack (str ":scheme") (str "http") false]
    demo_frames_run) as (c' & E & Hh & Hb & _);
    [lia|vm_compute; reflexivity|reflexivity|exact I|reflexivity|exact I|vm_compute; discriminate|vm_compute; discriminate|vm_compute; discriminate|].
  exists c'. split; [exact E|]. split; [exact Hh|exact Hb].
Defined.

(** The same request in two pieces. *)
Lemma streams_reported_once_witness :
  let wire := H2_PREFACE ++ frames_bytes demo_frames in
  let os := [OpFeed (take 40 wire); OpProcess; OpFeed (drop 40 wire); OpProcess] in
  let '(ready, c) := run_conn os (H2Conn_make (B := bytes) true) in
  ready = [1] /\ NoDup ready /\
  exists i j f g, (i <= j)%nat /\ demo_frames !! i = Some f /\ opens 1 f /\ demo_frames !! j = Some g /\ closes 1 g.
Proof.
  intros wire os. pose proof (streams_reported_once (B := bytes) true os) as H.
  assert (Hr : (run_conn os (H2Conn_make (B := bytes) true)).1 = [1]) by (vm_compute; reflexivity).
  assert (Hf : run_frames os (H2Conn_make (B := bytes) true) = demo_frames) by (vm_compute; reflexivity).
  destruct (run_conn os (H2Conn_make (B := bytes) true)) as [ready c]. cbn [fst] in Hr. cbv zeta in H. rewrite Hf in H. destruct H as [H1 H2].
  split; [exact Hr|]. split; [exact H1|]. apply (H2 1). rewrite Hr. apply list_elem_of_here.
Defined.

Lemma h2_message_delivery_witness :
  exists c1', send_response 1 demo_headers (str "hello") true (H2Conn_make (B := bytes) true) = (Ok tt, c1') /\
  exists c2', (feed (pending_output c1') ;;; process) (set_saw_preface (H2Conn_make (B := bytes) true)) = (Ok [1], c2') /\
    stream_body 1 c2' = Some (str "hello").
Proof.
  destruct (h2_message_delivery (B := bytes) (H2Conn_make true) (set_saw_preface (H2Conn_make true)) 1 demo_headers (str "hello"))
    as (c1' & E1 & c2' & E2 & _ & Hb & _);
    [lia|exact demo_headers_ok|vm_compute; discriminate|vm_compute; discriminate|reflexivity|exact I|reflexivity|reflexivity
    |exact I|reflexivity|reflexivity|reflexivity|reflexivity|].
  exists c1'. split; [exact E1|]. exists c2'. split; [exact E2|exact Hb].
Defined.

Lemma frame_roundtrip_witness :
  exists b', read_frame (B := bytes) (frame_bytes (mkFrame 2 DATA 1 3 (str "hi")) ++ str "x") H2Frame_default 16384 =
             (Complete, mkFrame 2 DATA 1 3 (str "hi"), b') /\ contents b' = str "x".
Proof.
  refine (proj1 (frame_roundtrip (B := bytes) _ (mkFrame 2 DATA 1 3 (str "hi")) H2Frame_default (str "x") 16384 0 _ _ _) _);
    [exact I|split; cbn; (reflexivity || lia)|cbn; lia|reflexivity].
Defined.

Lemma process_takes_all_frames_witness :
  exists c', process_frames (set_recv_buf (frame_bytes (mkFrame 0 SETTINGS 0 0 []) ++ str "x") (H2Conn_make (B := bytes) true)) = (Ok [], c') /\
    (read_frame (recv_buf_ c') H2Frame_default (max_frame_size_ c')).1.1 = Incomplete.
Proof.
  eexists. assert (E : process_frames (set_recv_buf (frame_bytes (mkFrame 0 SETTINGS 0 0 []) ++ str "x") (H2Conn_make (B := bytes) true)) = (Ok [], _))
    by (vm_compute; reflexivity).
  split; [exact E|]. refine (process_takes_all_frames (B := bytes) _ _ _ _ E). exact I.
Defined.

Lemma ping_echo_witness :
  exists c', handle_frame (mkFrame 8 PING 0 0 (str "12345678")) (H2Conn_make (B := bytes) true, []) = (Ok tt, (c', [])) /\
    pending_output c' = frame_bytes (mkFrame 8 PING H2Flags.ACK 0 (str "12345678")).
Proof.
  refine (proj1 (ping_echo (B := bytes) (H2Conn_make true) (str "12345678") [] _ _ _));
    [reflexivity|exact I|vm_compute; discriminate].
Defined.

Lemma uppercase_response_lost_witness :
  pending_output (send_response 1 [mkHpack (str ":status") (str "200") false; mkHpack (str "Content-Type") (str "text/plain") false]
                    (str "hello") true (H2Conn_make (B := bytes) true)).2 = [].
Proof.
  refine (proj2 (uppercase_response_lost (B := bytes) (H2Conn_make true) 1 [mkHpack (str ":status") (str "200") false] []
    (mkHpack (str "Content-Type") (str "text/plain") false) (str "hello") true _ _ _));
    [repeat constructor|reflexivity|vm_compute; discriminate].
Defined.
