(* ===== verification/Forward.v ===== *)
(** * Forwarding a request to an upstream (src/src/proxy.cpp, the functions of
    the unnamed namespace that talk to upstreams)

    Retry loops are bounded by the answers the operating system still gives:
    every turn makes a system call, and a call without an answer fails with
    an error that no loop retries. *)

From stdpp Require Import prelude gmap.
From S2P Require Import Prelude Result CxxString Buffer Config LoadBalancer World Fd UpstreamPool Http1.

Definition MAX_PROXY_RESPONSE_BYTES : Z := 64 * 1024 * 1024.

Definition header_name_eq (a b : bytes) : bool :=
  if negb (len a =? len b) then false else forallb (fun '(x, y) => Byte.eqb (tolower x) (tolower y)) (zip a b).

(** ** Waiting and writing *)

(** The [for (;;)] of [wait_fd]. *)
Fixpoint wait_loop (fuel : nat) (fd event timeout_ms : Z) (op : bytes) : M World unit := fun w =>
  let '(r, w) := sys (SysPoll fd event timeout_ms) w in
  if 0 <? sr_ret r then
    if negb (Z.land (sr_out r) (Z.lor (Z.lor POLLERR POLLHUP) POLLNVAL) =? 0) && (Z.land (sr_out r) event =? 0)
    then (Err (from_code SysError op), w)
    else (Ok tt, w)
  else if sr_ret r =? 0 then (Err (from_code Timeout_ op), w)
  else if negb (sr_errno r =? EINTR) then (Err (from_errno (sr_errno r) op), w)
  else match fuel with
       | O => (Err (from_errno (sr_errno r) op), w)
       | S fuel' => wait_loop fuel' fd event timeout_ms op w
       end.

Definition wait_fd (fd event timeout_ms : Z) (op : bytes) : M World unit := fun w =>
  wait_loop (length (script w)) fd event timeout_ms op w.

(** [while (off < bytes.size())]: [rest] is what is left from [off] on. *)
Fixpoint write_loop (fuel : nat) (fd : Z) (rest : bytes) (timeout_ms : Z) : M World unit := fun w =>
  if len rest =? 0 then (Ok tt, w)
  else
    let again rest w := match fuel with
                        | O => (Err (from_errno EIO (str "write upstream")), w)
                        | S fuel' => write_loop fuel' fd rest timeout_ms w
                        end in
    let '(n, errno, w) := sys_send fd rest w in
    if 0 <? n then again (drop (Z.to_nat n) rest) w
    else if (n <? 0) && ((errno =? EAGAIN) || (errno =? EWOULDBLOCK)) then
      match wait_fd fd POLLOUT (i32 timeout_ms) (str "write upstream") w with
      | (Err e, w) => (Err e, w)
      | (Ok _, w) => again rest w
      end
    else if (n <? 0) && (errno =? EINTR) then again rest w
    else (Err (from_errno errno (str "write upstream")), w).

Definition write_all (fd : Z) (d : bytes) (timeout_ms : Z) : M World unit := fun w =>
  write_loop (S (length (script w))) fd d timeout_ms w.

Definition is_would_block (e : Error) : bool := bool_decide (code e = WouldBlock).

(** ** Reading the response *)

Section OnBuffer.
Context {B : Type} `{BufferOps B}.

(** The sum of a [size_t] and a [uint64_t] wraps at 64 bits. *)
Definition response_complete (response : B) (parsed : HttpResponse) : bool * HttpResponse :=
  match parse_response response parsed with
  | (Complete, parsed) =>
      (if resp_chunked parsed then
         let text := contents response in
         bool_decide (find_from (CRLF ++ str "0" ++ CRLF ++ CRLF) text (Z.to_nat (resp_header_bytes parsed)) <> None)
         || bool_decide (find_sub (CRLF ++ str "0;") text <> None)
       else if existsb (fun h => header_name_eq (h_name h) (str "content-length")) (resp_headers parsed) then
         u64 (resp_header_bytes parsed + resp_content_length parsed) <=? buf_readable response
       else (resp_status parsed =? 204) || (resp_status parsed =? 304), parsed)
  | (_, parsed) => (false, parsed)
  end.

Definition RECV_SIZE : Z := 16384.

(** The [for (;;)] of [read_response]: the buffer and the message parsed so
    far are its locals. *)
Fixpoint read_loop (fuel : nat) (fd timeout_ms : Z) (response : B) (parsed : HttpResponse) : M World bytes := fun w =>
  let '(complete, parsed) := response_complete response parsed in
  if complete then (Ok (contents response), w)
  else if MAX_PROXY_RESPONSE_BYTES <=? buf_readable response
  then (Err (from_code HttpMalformed (str "upstream response too large")), w)
  else
    match wait_fd fd POLLIN (i32 timeout_ms) (str "read upstream") w with
    | (Err e, w) =>
        if (0 <? resp_header_bytes parsed) && (resp_content_length parsed =? 0) && negb (resp_chunked parsed)
        then (Ok (contents response), w)
        else (Err e, w)
    | (Ok _, w) =>
        let again response w := match fuel with
                                | O => (Err (from_errno EIO (str "read upstream")), w)
                                | S fuel' => read_loop fuel' fd timeout_ms response parsed w
                                end in
        let '(n, errno, d, w) := sys_recv fd RECV_SIZE w in
        if 0 <? n then
          match buf_append d response with
          | (Err e, _) => (Err e, w)
          | (Ok _, response) => again response w
          end
        else if n =? 0 then (Ok (contents response), w)
        else if (errno =? EAGAIN) || (errno =? EWOULDBLOCK) || (errno =? EINTR) then again response w
        else (Err (from_errno errno (str "read upstream")), w)
    end.

Definition read_response (fd timeout_ms : Z) : M World bytes := fun w =>
  read_loop (S (length (script w))) fd timeout_ms (buf_new 65536) HttpResponse_default w.

(** ** Forwarding *)

Definition upstream_host (ep : UpstreamEndpoint) : bytes := addr ep ++ str ":" ++ to_string (port ep).

(** What forwarding works on: the calls, the balancer that owns the
    endpoints and the pools. *)
Record FwdState := mkFwd { fw_world : World; fw_lb : WeightedRoundRobin; fw_pools : PoolManager }.

Definition set_world (w : World) (s : FwdState) : FwdState := mkFwd w (fw_lb s) (fw_pools s).

Definition put_pool (key : bytes) (p : UpstreamPool) (pm : PoolManager) : PoolManager :=
  mkPoolManager (<[key := p]> (pools_ pm)) (pm_cfg_ pm).

Definition put_endpoint (i : nat) (ep : UpstreamEndpoint) (lb : WeightedRoundRobin) : WeightedRoundRobin :=
  mkWRR (<[i := ep]> (endpoints_ lb)) (current_weights_ lb).

(** A reference to a pool or an endpoint that the code holds always denotes
    one; the default is never taken. *)
Definition pool_at (key : bytes) (s : FwdState) : UpstreamPool :=
  default (UpstreamPool_make 0 (pm_cfg_ (fw_pools s))) (pools_ (fw_pools s) !! key).

Definition endpoint_default : UpstreamEndpoint := mkUpstreamEndpoint [] 0 1 [] true 0 0 0.

Definition endpoint_at (i : nat) (s : FwdState) : UpstreamEndpoint := nth i (endpoints_ (fw_lb s)) endpoint_default.

Context (inet_pton : bytes -> bool).

(** [up_pool.acquire(loop)]; the server runs one thread, so nobody else
    touches the pool during the wait. *)
Definition fw_acquire (key : bytes) : M FwdState PooledConn := fun s =>
  let p := pool_at key s in
  let i := endpoint_ p in
  let '(r, a) := acquire inet_pton id (mkAcquire (fw_world s) (endpoint_at i s) p) in
  (r, mkFwd (aq_world a) (put_endpoint i (aq_ep a) (fw_lb s)) (put_pool key (aq_pool a) (fw_pools s))).

Definition fw_release (key : bytes) (c : option PooledConn) (s : FwdState) : FwdState :=
  let '(p, w) := release c (pool_at key s) (fw_world s) in
  mkFwd w (fw_lb s) (put_pool key p (fw_pools s)).

(** The end of the scope of [conn] destroys the connection. *)
Definition drop_conn (c : PooledConn) (s : FwdState) : FwdState := set_world (fd_destroy (pc_fd c) (fw_world s)) s.

Definition count_use (c : PooledConn) : PooledConn :=
  mkPooledConn (pc_fd c) (in_use c) (u64 (request_count c + 1)) (created_at_ms c) (last_used_at_ms c).

(** The attempts that are left; [last_attempt] is [attempt != 0]. *)
Fixpoint forward_attempts (n : nat) (key request : bytes) : M FwdState bytes := fun s =>
  match n with
  | O => (Err (from_code NoUpstream (str "upstream request failed after retry")), s)
  | S n' =>
      match fw_acquire key s with
      | (Err e, s) => (Err e, s)
      | (Ok conn, s) =>
          let failed e s :=
            let s := drop_conn conn (fw_release key None s) in
            match n' with
            | O => (Err e, s)
            | S _ => forward_attempts n' key request s
            end in
          match write_all (fd_ (pc_fd conn)) request 5000 (fw_world s) with
          | (Err e, w) => failed e (set_world w s)
          | (Ok _, w) =>
              match read_response (fd_ (pc_fd conn)) 5000 w with
              | (Err e, w) => failed e (set_world w s)
              | (Ok response, w) => (Ok response, fw_release key (Some (count_use conn)) (set_world w s))
              end
          end
      end
  end.

(** [forward_http1]; [i] is the endpoint [upstream] points to. *)
Definition forward_http1 (req : HttpRequest) (body : bytes) (i : nat) : M FwdState bytes := fun s =>
  let ep := endpoint_at i s in
  match write_request req (upstream_host ep) (buf_new (65536 + len body) : B) with
  | (Err e, _) => (Err e, s)
  | (Ok _, buf) =>
      match (if len body =? 0 then (Ok tt, buf) else buf_append body buf) with
      | (Err e, _) => (Err e, s)
      | (Ok _, buf) =>
          let '(key, pm) := pool_get i ep (fw_pools s) in
          forward_attempts 2 key (contents buf) (mkFwd (fw_world s) (fw_lb s) pm)
      end
  end.
End OnBuffer.
