(* ===== verification/ForwardProofs.v ===== *)
(** * Correctness of forwarding

    What reaches the wire and what is read from it, for every behaviour of
    the operating system; that the bounds of the retry loops are never
    reached; and what a forwarded request does to the books of the pool. *)

From stdpp Require Import prelude gmap.
From S2P Require Import Prelude Result CxxString Buffer BufferProofs Config LoadBalancer World Fd UpstreamPool UpstreamPoolProofs Http1 Http1Proofs Forward.

(** ** Waiting *)

Definition polls (fd event : Z) (c : Syscall) : Prop := exists t, c = SysPoll fd event t.

Lemma wait_loop_ran fuel fd ev t op w r w' :
  wait_loop fuel fd ev t op w = (r, w') -> exists cs, ran w w' cs /\ Forall (polls fd ev) cs /\ cs <> [].
Proof.
  revert w; induction fuel as [|fuel IH]; intros w E; cbn [wait_loop] in E;
    destruct (sys (SysPoll fd ev t) w) as [a w1] eqn:Es; apply sys_ran in Es as [Hr _];
    (assert (Hp : polls fd ev (SysPoll fd ev t)) by (by exists t));
    repeat case_match; simplify_eq; eauto 8.
  apply IH in E as (cs & Hc & Hf & _). exists (SysPoll fd ev t :: cs).
  split_and!; [by eapply (ran_trans _ _ _ [_])|by constructor|done].
Qed.

Lemma wait_loop_eq fuel fd ev t op w :
  wait_loop fuel fd ev t op w =
  (let '(r, w) := sys (SysPoll fd ev t) w in
   if 0 <? sr_ret r then
     if negb (Z.land (sr_out r) (Z.lor (Z.lor POLLERR POLLHUP) POLLNVAL) =? 0) && (Z.land (sr_out r) ev =? 0)
     then (Err (from_code SysError op), w) else (Ok tt, w)
   else if sr_ret r =? 0 then (Err (from_code Timeout_ op), w)
   else if negb (sr_errno r =? EINTR) then (Err (from_errno (sr_errno r) op), w)
   else match fuel with
        | O => (Err (from_errno (sr_errno r) op), w)
        | S fuel' => wait_loop fuel' fd ev t op w
        end).
Proof. by destruct fuel. Qed.

(** More turns than answers never matter. *)
Lemma wait_loop_fuel fuel fd ev t op w :
  (length (script w) <= fuel)%nat ->
  wait_loop (S fuel) fd ev t op w = wait_loop fuel fd ev t op w.
Proof.
  revert w; induction fuel as [|fuel IH]; intros w Hf; rewrite wait_loop_eq, (wait_loop_eq _ _ _ _ _ w);
    destruct (sys (SysPoll fd ev t) w) as [a w1] eqn:Es; apply sys_ran in Es as [[_ Hs] Ha].
  - destruct (script w); [|cbn in Hf; lia]. destruct Ha as [Ha|[_ ->]]; done.
  - rewrite IH; [done|]. rewrite Hs, length_drop. cbn. lia.
Qed.

(** The answer to the last of a series of calls. *)
Definition last_answer (cs : list Syscall) (rs : list SysResult) : SysResult := default sys_failure (rs !! pred (length cs)).

Lemma last_answer_app a b rs : b <> [] -> last_answer (a ++ b) rs = last_answer b (drop (length a) rs).
Proof.
  intros Hb. unfold last_answer. rewrite lookup_drop, length_app. destruct b as [|x b]; [done|]. cbn.
  by replace (pred (length a + S (length b))) with (length a + length b)%nat by lia.
Qed.

Lemma sys_last_answer c w r w' : sys c w = (r, w') -> last_answer [c] (script w) = r.
Proof.
  intros E. apply sys_ran in E as [_ [Hh|[-> ->]]]; [|done]. unfold last_answer. by destruct (script w); simplify_eq/=.
Qed.

(** Answers of [poll] on which a wait gives up: the time is over, the call
    failed, or the descriptor is in an error state and not ready. *)
Definition gives_up (event : Z) (r : SysResult) : Prop :=
  sr_ret r = 0 \/ sr_ret r < 0 /\ sr_errno r <> EINTR \/
  0 < sr_ret r /\ Z.land (sr_out r) event = 0 /\ Z.land (sr_out r) (Z.lor (Z.lor POLLERR POLLHUP) POLLNVAL) <> 0.

(** A wait fails only on such an answer. *)
Lemma wait_loop_fails fuel fd ev t op w e w' :
  (length (script w) <= fuel)%nat -> wait_loop fuel fd ev t op w = (Err e, w') ->
  exists cs, ran w w' cs /\ Forall (polls fd ev) cs /\ last cs = Some (SysPoll fd ev t) /\ gives_up ev (last_answer cs (script w)).
Proof.
  revert w; induction fuel as [|fuel IH]; intros w Hf E; rewrite wait_loop_eq in E;
    destruct (sys (SysPoll fd ev t) w) as [a w1] eqn:Es; pose proof Es as Hl%sys_last_answer; apply sys_ran in Es as [Hr Ha];
    (assert (Hp : Forall (polls fd ev) [SysPoll fd ev t]) by (constructor; [by exists t|done]));
    (destruct (Z.ltb_spec 0 (sr_ret a));
     [destruct (negb _ && _) eqn:Ew; [|done]; injection E as <- <-; apply andb_true_iff in Ew as [Hw1 Hw2]; exists [SysPoll fd ev t];
      split_and!; [done..|]; rewrite Hl; right; right; apply negb_true_iff in Hw1; zbool; done|]);
    (destruct (Z.eqb_spec (sr_ret a) 0);
     [injection E as <- <-; exists [SysPoll fd ev t]; split_and!; [done..|]; rewrite Hl; by left|]);
    (destruct (Z.eqb_spec (sr_errno a) EINTR) as [Hi|Hi]; cbn [negb] in E;
     [|injection E as <- <-; exists [SysPoll fd ev t]; split_and!; [done..|]; rewrite Hl; right; left; split; [lia|done]]).
  - destruct (script w); [|cbn in Hf; lia]. by destruct Ha as [Ha|[_ ->]].
  - apply IH in E as (cs & Hc & Hfa & Hla & Hg); [|destruct Hr as [_ ->]; rewrite length_drop; cbn; lia].
    exists ([SysPoll fd ev t] ++ cs). assert (cs <> []) by (by intros ->).
    split_and!; [by eapply ran_trans|by apply Forall_app|by rewrite last_app, Hla|]. rewrite last_answer_app by done. by destruct Hr as [_ <-].
Qed.

Lemma wait_fd_ran fd ev t op w r w' :
  wait_fd fd ev t op w = (r, w') -> exists cs, ran w w' cs /\ Forall (polls fd ev) cs /\ cs <> [].
Proof. apply wait_loop_ran. Qed.

Lemma polls_sent fd ev cs rs f : Forall (polls fd ev) cs -> sent f cs rs = [].
Proof.
  intros H. unfold sent. revert rs; induction H as [|c cs [t ->] _ IH]; intros rs; [done|].
  destruct rs; [done|]. cbn. apply IH.
Qed.

Lemma polls_received fd ev cs rs f : Forall (polls fd ev) cs -> received f cs rs = [].
Proof.
  intros H. unfold received. revert rs; induction H as [|c cs [t ->] _ IH]; intros rs; [done|].
  destruct rs; [done|]. cbn. apply IH.
Qed.

Lemma ran_script_le w w' cs : ran w w' cs -> (length (script w') <= length (script w))%nat.
Proof. intros [_ ->]. rewrite length_drop. lia. Qed.

(** ** Writing *)

(** What a writer may call. *)
Definition writes_to (fd : Z) (c : Syscall) : Prop := (exists d, c = SysSend fd d) \/ polls fd POLLOUT c.

Lemma polls_writes fd c : polls fd POLLOUT c -> writes_to fd c.
Proof. by right. Qed.

Lemma take_min {A} (n : Z) (l : list A) : take (Z.to_nat (Z.min n (len l))) l = take (Z.to_nat n) l.
Proof.
  unfold len. destruct (Z.min_spec n (Z.of_nat (length l))) as [[? ->]|[? ->]]; [done|].
  rewrite !take_ge; [done|lia..].
Qed.

(** One [send]: what it put on the wire, and that it used up an answer unless
    it failed for lack of one. *)
Lemma sys_send_ran fd d w n e w' :
  sys_send fd d w = (n, e, w') ->
  ran w w' [SysSend fd d] /\ sent fd [SysSend fd d] (script w) = take (Z.to_nat n) d /\
  (script w = [] /\ n < 0 /\ e = EIO \/ S (length (script w')) = length (script w)).
Proof.
  unfold sys_send. intros E. destruct (sys (SysSend fd d) w) as [r w1] eqn:Es. simplify_eq.
  pose proof (sys_ran _ _ _ _ Es) as [Hr Ha]. split; [done|]. unfold sent. rewrite take_min.
  destruct Ha as [Ha|[Hs ->]].
  - destruct (script w) as [|x s] eqn:Ew; [done|]. cbn in Ha. simplify_eq. cbn. rewrite Z.eqb_refl, app_nil_r.
    split; [done|right]. destruct Hr as [_ ->]. rewrite Ew. done.
  - rewrite Hs. cbn. split; [done|left]. pose proof (len_nonneg d). split_and!; [done|lia|done].
Qed.

(** A run that goes on from the rest after some calls. *)
Definition written (fd : Z) (rest : bytes) (w : World) (r : Result unit) (w' : World) : Prop :=
  exists cs, ran w w' cs /\ Forall (writes_to fd) cs /\
    match r with
    | Ok _ => sent fd cs (script w) = rest
    | Err _ => exists left, left <> [] /\ rest = sent fd cs (script w) ++ left
    end.

Lemma written_after fd a rest w w1 r w' cs :
  ran w w1 cs -> Forall (writes_to fd) cs -> sent fd cs (script w) = a ->
  written fd rest w1 r w' -> written fd (a ++ rest) w r w'.
Proof.
  intros Hr Hf Ha (cs' & Hr' & Hf' & Hm). exists (cs ++ cs').
  split_and!; [by eapply ran_trans|by apply Forall_app|]. rewrite sent_app, Ha. destruct Hr as [_ <-].
  destruct r as [u|e].
  - by rewrite Hm.
  - destruct Hm as (l & Hl & ->). exists l. by rewrite app_assoc.
Qed.

Lemma write_loop_spec fuel fd t : forall rest w r w',
  (length (script w) < fuel)%nat -> write_loop fuel fd rest t w = (r, w') -> written fd rest w r w'.
Proof.
  induction fuel as [|fuel IH]; intros rest w r w' Hf E; [lia|]. cbn [write_loop] in E.
  destruct (Z.eqb_spec (len rest) 0) as [Hz|Hz].
  { simplify_eq; exists []; split_and!; [apply ran_refl|done|by rewrite (len_0_nil _ Hz)]. }
  assert (Hne : rest <> []) by (by intros ->).
  destruct (sys_send fd rest w) as [[n e] w1] eqn:Es. apply sys_send_ran in Es as (Hr & Hs & Ha).
  assert (Hw : Forall (writes_to fd) [SysSend fd rest]) by (constructor; [left; by eexists|done]).
  destruct (Z.ltb_spec 0 n) as [Hn|Hn].
  { rewrite <- (take_drop (Z.to_nat n) rest). eapply written_after; [done..|]. apply IH; [|done]. lia. }
  replace (Z.to_nat n) with 0%nat in Hs by lia.
  assert (Hstop : forall cs x, ran w1 w' cs -> Forall (polls fd POLLOUT) cs -> written fd rest w (Err x) w').
  { intros cs x Hr2 Hp. exists ([SysSend fd rest] ++ cs).
    split_and!; [by eapply ran_trans|by apply Forall_app; eauto using Forall_impl, polls_writes|].
    exists rest. rewrite sent_app, Hs, (polls_sent _ _ _ _ _ Hp). done. }
  assert (Hgo : forall cs w2, ran w1 w2 cs -> Forall (polls fd POLLOUT) cs ->
    (length (script w1) < fuel)%nat -> write_loop fuel fd rest t w2 = (r, w') -> written fd rest w r w').
  { intros cs w2 Hr2 Hp Hf2 E2. apply (written_after fd [] rest w w2 r w' ([SysSend fd rest] ++ cs)).
    - by eapply ran_trans.
    - apply Forall_app; eauto using Forall_impl, polls_writes.
    - by rewrite sent_app, Hs, (polls_sent _ _ _ _ _ Hp).
    - apply IH; [|done]. apply ran_script_le in Hr2. lia. }
  destruct ((n <? 0) && ((e =? EAGAIN) || (e =? EWOULDBLOCK))) eqn:Eb.
  - assert ((length (script w1) < fuel)%nat).
    { destruct Ha as [(_ & _ & ->)|Ha]; [by rewrite andb_false_r in Eb|lia]. }
    destruct (wait_fd fd POLLOUT (i32 t) (str "write upstream") w1) as [[u|x] w2] eqn:Ew;
      apply wait_fd_ran in Ew as (cs & Hr2 & Hp & _); [eauto|simplify_eq; eauto].
  - destruct ((n <? 0) && (e =? EINTR)) eqn:Ei; [|simplify_eq; eauto using ran_refl].
    destruct Ha as [(_ & _ & ->)|Ha]; [by rewrite andb_false_r in Ei|].
    apply (Hgo [] w1); [apply ran_refl|done|lia|done].
Qed.

Lemma write_loop_eq fuel fd rest t w :
  write_loop fuel fd rest t w =
  (if len rest =? 0 then (Ok tt, w)
   else
     let again rest w := match fuel with
                         | O => (Err (from_errno EIO (str "write upstream")), w)
                         | S fuel' => write_loop fuel' fd rest t w
                         end in
     let '(n, errno, w) := sys_send fd rest w in
     if 0 <? n then again (drop (Z.to_nat n) rest) w
     else if (n <? 0) && ((errno =? EAGAIN) || (errno =? EWOULDBLOCK)) then
       match wait_fd fd POLLOUT (i32 t) (str "write upstream") w with
       | (Err e, w) => (Err e, w)
       | (Ok _, w) => again rest w
       end
     else if (n <? 0) && (errno =? EINTR) then again rest w
     else (Err (from_errno errno (str "write upstream")), w)).
Proof. by destruct fuel. Qed.

(** The bound on the turns is never reached. *)
Lemma write_loop_fuel fuel fd t : forall rest w,
  (length (script w) < fuel)%nat -> write_loop (S fuel) fd rest t w = write_loop fuel fd rest t w.
Proof.
  induction fuel as [|fuel IH]; intros rest w Hf; [lia|].
  rewrite write_loop_eq, (write_loop_eq (S fuel)). destruct (len rest =? 0); [done|].
  destruct (sys_send fd rest w) as [[n e] w1] eqn:Es. apply sys_send_ran in Es as (_ & _ & Ha). cbv zeta.
  destruct (Z.ltb_spec 0 n); [rewrite IH; [done|lia]|].
  destruct Ha as [(_ & _ & ->)|Ha]; [by rewrite !andb_false_r|].
  destruct (_ && _).
  - destruct (wait_fd _ _ _ _ w1) as [[u|x] w2] eqn:Ew; [|done].
    apply wait_fd_ran in Ew as (cs & Hr & _). apply ran_script_le in Hr. rewrite IH; [done|lia].
  - rewrite IH; [done|lia].
Qed.

(** As long as the system takes something each time, everything is written. *)
Lemma write_loop_live fuel fd t : forall rest w,
  Forall (fun a => 0 < sr_ret a) (script w) -> (length rest <= length (script w))%nat ->
  (length (script w) < fuel)%nat -> (write_loop fuel fd rest t w).1 = Ok tt.
Proof.
  induction fuel as [|fuel IH]; intros rest w Hp Hl Hf; [lia|].
  rewrite write_loop_eq. destruct (Z.eqb_spec (len rest) 0); [done|]. cbv zeta.
  unfold sys_send, sys. destruct (script w) as [|a s] eqn:Es; [unfold len in *; cbn in Hl; lia|].
  inversion_clear Hp. cbn in Hl, Hf.
  destruct (Z.ltb_spec 0 (Z.min (sr_ret a) (len rest))); [|unfold len in *; lia].
  apply IH; cbn; [done|rewrite length_drop; unfold len in *; lia|lia].
Qed.

(** (C11) Writing to an upstream, whatever the system answers to each call.
    Only sends and polls for writability on that descriptor are made; on
    success the bytes accepted by the system are exactly the request, in
    order and without repetition, and on an error they are a proper prefix of
    it.  If the system accepts at least one byte each time, the write
    succeeds; and the bound on the retry loop is never what ends it. *)
Theorem write_all_delivers (fd : Z) (d : bytes) (t : Z) (w : World) :
  let '(r, w') := write_all fd d t w in
  (exists cs, ran w w' cs /\ Forall (writes_to fd) cs /\
    match r with
    | Ok _ => sent fd cs (script w) = d
    | Err _ => exists left, left <> [] /\ d = sent fd cs (script w) ++ left
    end) /\
  (Forall (fun a => 0 < sr_ret a) (script w) -> (length d <= length (script w))%nat -> r = Ok tt) /\
  (forall k, write_loop (k + S (length (script w))) fd d t w = (r, w')).
Proof.
  destruct (write_all fd d t w) as [r w'] eqn:E. unfold write_all in E. split_and!.
  - eapply write_loop_spec; [|exact E]. lia.
  - intros Hp Hl. change r with (fst (r, w')). rewrite <- E. apply write_loop_live; [done|done|lia].
  - induction k as [|k IH]; [done|]. rewrite <- IH. cbn [Nat.add]. apply write_loop_fuel. lia.
Qed.

(** A request taken in two pieces. *)
Lemma write_all_delivers_witness :
  let w := mkWorld [] [mkSys 2 0 0 []; mkSys 9 0 0 []; mkSys 9 0 0 []] in
  (write_all 7 (str "hey") 5000 w).1 = Ok tt /\
  exists cs, sent 7 cs (script w) = str "hey".
Proof.
  cbv zeta. set (w := mkWorld [] _).
  pose proof (write_all_delivers 7 (str "hey") 5000 w) as H.
  destruct (write_all 7 (str "hey") 5000 w) as [r w']. destruct H as ((cs & _ & _ & Hs) & Hl & _).
  assert (Hok : r = Ok tt).
  { apply Hl; [repeat constructor; vm_compute; reflexivity|vm_compute; repeat constructor]. }
  rewrite Hok in Hs. split; [exact Hok|]. exists cs. exact Hs.
Defined.

(** ** Reading *)

(** The verdict on a response depends only on the bytes received. *)
Lemma parse_headers_resp b p q :
  (parse_headers b (MResp p)).1 = (parse_headers b (MResp q)).1 /\
  ((parse_headers b (MResp p)).1 = Complete -> (parse_headers b (MResp p)).2 = (parse_headers b (MResp q)).2).
Proof.
  unfold parse_headers. destruct (find_sub _ b) as [e|]; [|by destruct (_ || _)].
  destruct (_ <? _); [done|]. destruct (has_bare_lf _ _); [done|].
  destruct (find_sub CRLF _) as [le|]; [|done]. cbn [parse_start].
  destruct (parse_status_line _) as [[st re]|]; [|done]. cbn.
  by destruct (header_loop _ _ _) as [m|s].
Qed.

Definition complete_response (b : bytes) : bool := (response_complete b HttpResponse_default).1.

Lemma parse_headers_kind b p m : parse_headers b (MResp p) = (Complete, m) -> exists q, m = MResp q.
Proof.
  intros Ep. destruct (parse_complete_inv _ _ _ Ep) as (e & le & m1 & s & _ & _ & _ & _ & Hp & Hl & _ & ->).
  cbn in Hp. destruct (parse_status_line _) as [[st re]|]; simplify_eq.
  apply header_loop_flags in Hl as [_ Hk]; [|done]. destruct (hs_msg s); cbn; [done|eauto|done].
Qed.

Lemma parse_response_eq {B} `{BufferSpec B} (buf : B) p q :
  buf_ok buf ->
  (parse_response buf p).1 = (parse_response (contents buf) q).1 /\
  ((parse_response buf p).1 = Complete -> (parse_response buf p).2 = (parse_response (contents buf) q).2).
Proof.
  intros Hok. unfold parse_response. assert (Hl : buf_ok (contents buf : bytes)) by done.
  rewrite (parse_window_take buf Hok), (parse_window_take _ Hl), list_contents.
  set (b := take _ (contents buf)). destruct (parse_headers_resp b p q) as [Hv Hm].
  destruct (parse_headers b (MResp p)) as [v m] eqn:Ep, (parse_headers b (MResp q)) as [v' m'] eqn:Eq.
  cbn in Hv, Hm. subst v'. split; [by destruct m, m'|]. intros Hc.
  assert (Hv : v = Complete) by (by destruct m). rewrite <- (Hm Hv). subst v.
  by destruct (parse_headers_kind _ _ _ Ep) as [r ->].
Qed.

Lemma response_complete_eq {B} `{BufferSpec B} (buf : B) p :
  buf_ok buf -> (response_complete buf p).1 = complete_response (contents buf).
Proof.
  intros Hok. unfold complete_response, response_complete. rewrite list_contents, (readable_len buf Hok).
  destruct (parse_response_eq buf p HttpResponse_default Hok) as [Hv Hm].
  destruct (parse_response buf p) as [v m], (parse_response (contents buf) _) as [v' m'].
  cbn in Hv, Hm. subst v'. destruct v; [|done..]. by rewrite Hm.
Qed.

(** What a reader may call. *)
Definition reads_from (fd : Z) (c : Syscall) : Prop := c = SysRecv fd RECV_SIZE \/ polls fd POLLIN c.

Lemma polls_reads fd c : polls fd POLLIN c -> reads_from fd c.
Proof. by right. Qed.

Lemma sys_recv_ran fd n w k e d w' :
  sys_recv fd n w = (k, e, d, w') ->
  ran w w' [SysRecv fd n] /\ received fd [SysRecv fd n] (script w) = d /\
  (length d <= Z.to_nat n)%nat /\ (k <= 0 -> d = []) /\
  (script w = [] /\ k < 0 /\ e = EIO \/ S (length (script w')) = length (script w)).
Proof.
  unfold sys_recv. intros E. destruct (sys (SysRecv fd n) w) as [r w1] eqn:Es. simplify_eq.
  pose proof (sys_ran _ _ _ _ Es) as [Hr Ha]. rewrite length_take.
  assert (Hk : (if len (take (Z.to_nat n) (sr_data r)) =? 0 then Z.min (sr_ret r) 0
                else len (take (Z.to_nat n) (sr_data r))) <= 0 -> take (Z.to_nat n) (sr_data r) = []).
  { destruct (Z.eqb_spec (len (take (Z.to_nat n) (sr_data r))) 0) as [Hz|Hz]; intros ?.
    - by apply len_0_nil.
    - unfold len in *. lia. }
  unfold received. destruct Ha as [Ha|[Hs ->]].
  - destruct (script w) as [|x s] eqn:Ew; [done|]. cbn in Ha. simplify_eq. cbn. rewrite Z.eqb_refl, app_nil_r.
    split_and!; [done|done|lia|exact Hk|right]. destruct Hr as [_ ->]. by rewrite Ew.
  - rewrite Hs. cbn. rewrite take_nil. split_and!; try done; [lia|by left].
Qed.

Lemma read_loop_eq {B} `{BufferOps B} fuel fd t (response : B) parsed w :
  read_loop fuel fd t response parsed w =
  (let '(complete, parsed) := response_complete response parsed in
   if complete then (Ok (contents response), w)
   else if MAX_PROXY_RESPONSE_BYTES <=? buf_readable response
   then (Err (from_code HttpMalformed (str "upstream response too large")), w)
   else
     match wait_fd fd POLLIN (i32 t) (str "read upstream") w with
     | (Err e, w) =>
         if (0 <? resp_header_bytes parsed) && (resp_content_length parsed =? 0) && negb (resp_chunked parsed)
         then (Ok (contents response), w) else (Err e, w)
     | (Ok _, w) =>
         let again response w := match fuel with
                                 | O => (Err (from_errno EIO (str "read upstream")), w)
                                 | S fuel' => read_loop fuel' fd t response parsed w
                                 end in
         let '(n, errno, d, w) := sys_recv fd RECV_SIZE w in
         if 0 <? n then
           match buf_append d response with
           | (Err e, _) => (Err e, w)
           | (Ok _, response) => again response w
           end
         else if n =? 0 then (Ok (contents response), w)
         else if (errno =? EAGAIN) || (errno =? EWOULDBLOCK) || (errno =? EINTR) then again response w
         else (Err (from_errno errno (str "read upstream")), w)
     end).
Proof. by destruct fuel. Qed.

(** The bound on the turns is never reached. *)
Lemma read_loop_fuel {B} `{BufferOps B} fuel fd t : forall (buf : B) p w,
  (length (script w) < fuel)%nat -> read_loop (S fuel) fd t buf p w = read_loop fuel fd t buf p w.
Proof.
  induction fuel as [|fuel IH]; intros buf p w Hf; [lia|].
  rewrite read_loop_eq, (read_loop_eq (S fuel)). destruct (response_complete buf p) as [[] q]; [done|].
  destruct (_ <=? _); [done|].
  destruct (wait_fd _ _ _ _ w) as [[u|x] w1] eqn:Ew; [|done]. apply wait_fd_ran in Ew as (cs & Hr & _).
  apply ran_script_le in Hr. destruct (sys_recv fd RECV_SIZE w1) as [[[n e] d] w2] eqn:Es.
  apply sys_recv_ran in Es as (_ & _ & _ & Hz & Ha). cbv zeta.
  destruct Ha as [(_ & Hn & ->)|Ha].
  { destruct (Z.ltb_spec 0 n); [lia|]. by destruct (n =? 0). }
  destruct (0 <? n).
  - destruct (buf_append d buf) as [[u2|x] b']; [|done]. apply IH. lia.
  - rewrite IH by lia. done.
Qed.

Section Reading.
Context {B : Type} `{BufferSpec B}.

(** Answers of [recv] that mean the end of the stream. *)
Definition at_end (r : SysResult) : Prop := take (Z.to_nat RECV_SIZE) (sr_data r) = [] /\ 0 <= sr_ret r.

(** Why reading may stop with a result: the response is complete; the last
    call found the end of the stream; or the last call was a wait that gave
    up, with the blank line after the head already there. *)
Definition may_stop (fd t : Z) (cs : list Syscall) (rs : list SysResult) (resp : bytes) : Prop :=
  complete_response resp = true \/
  (last cs = Some (SysRecv fd RECV_SIZE) /\ at_end (last_answer cs rs)) \/
  (last cs = Some (SysPoll fd POLLIN (i32 t)) /\ gives_up POLLIN (last_answer cs rs) /\ find_sub (CRLF ++ CRLF) resp <> None).

Lemma may_stop_app fd t a b rs resp : may_stop fd t b (drop (length a) rs) resp -> may_stop fd t (a ++ b) rs resp.
Proof.
  intros [?|[[Hl ?]|[Hl ?]]]; [by left| |]; (assert (b <> []) by (by intros ->)); right; [left|right];
    rewrite last_app, Hl, last_answer_app; done.
Qed.

(** How the reader ended: [got] is what it had before, the calls follow. *)
Definition read_to (fd t : Z) (got : bytes) (w : World) (r : Result bytes) (w' : World) : Prop :=
  exists cs, ran w w' cs /\ Forall (reads_from fd) cs /\
    match r with
    | Ok resp =>
        resp = got ++ received fd cs (script w) /\ len resp < MAX_PROXY_RESPONSE_BYTES + RECV_SIZE /\
        may_stop fd t cs (script w) resp
    | Err _ => complete_response (got ++ received fd cs (script w)) = false
    end.

Lemma read_after fd t got a w w1 r w' cs :
  ran w w1 cs -> Forall (reads_from fd) cs -> received fd cs (script w) = a ->
  read_to fd t (got ++ a) w1 r w' -> read_to fd t got w r w'.
Proof.
  intros Hr Hf Ha (cs' & Hr' & Hf' & Hm). exists (cs ++ cs').
  split_and!; [by eapply ran_trans|by apply Forall_app|]. rewrite received_app, Ha. destruct Hr as [_ Hs]. rewrite <- Hs.
  rewrite app_assoc. destruct r as [resp|e]; [|done].
  destruct Hm as (Hm1 & Hm2 & Hm3). split_and!; [done..|]. apply may_stop_app. by rewrite <- Hs.
Qed.

Definition room (got : bytes) : Prop := len got < MAX_PROXY_RESPONSE_BYTES + RECV_SIZE.

(** A head has a size only once its blank line is there. *)
Definition head_seen (got : bytes) (p : HttpResponse) : Prop :=
  0 < resp_header_bytes p -> find_sub (CRLF ++ CRLF) got <> None.

Lemma head_seen_app got a p : head_seen got p -> head_seen (got ++ a) p.
Proof.
  intros Hh Hp. specialize (Hh Hp). destruct (find_sub _ got) as [i|] eqn:E; [|done]. by rewrite (find_sub_app_l _ _ _ _ E).
Qed.

Lemma head_seen_complete (buf : B) p c q :
  buf_ok buf -> response_complete buf p = (c, q) -> head_seen (contents buf) p -> head_seen (contents buf) q.
Proof.
  intros Hok E Hh. assert (q = (parse_response buf p).2) as -> by (unfold response_complete in E; destruct (parse_response buf p) as [[] x]; by simplify_eq).
  unfold parse_response. rewrite (parse_window_take buf Hok). set (n := Z.to_nat _). set (b := take n (contents buf)).
  destruct (find_sub (CRLF ++ CRLF) b) as [i|] eqn:Ef.
  - intros _. rewrite <- (take_drop n (contents buf)). fold b. by rewrite (find_sub_app_l _ _ _ _ Ef).
  - unfold parse_headers. rewrite Ef. by destruct (_ || _).
Qed.

Lemma recv_at_end fd w n e d w' :
  sys_recv fd RECV_SIZE w = (n, e, d, w') -> n = 0 -> at_end (last_answer [SysRecv fd RECV_SIZE] (script w)).
Proof.
  unfold sys_recv. destruct (sys (SysRecv fd RECV_SIZE) w) as [r w1] eqn:Es. apply sys_last_answer in Es as ->.
  intros E Hn. simplify_eq. unfold at_end. destruct (Z.eqb_spec (len (take (Z.to_nat RECV_SIZE) (sr_data r))) 0) as [Hz|Hz]; [|lia].
  split; [by apply len_0_nil|lia].
Qed.

Lemma read_loop_spec fuel fd t : forall (buf : B) p w r w',
  buf_ok buf -> room (contents buf) -> head_seen (contents buf) p ->
  (length (script w) < fuel)%nat -> read_loop fuel fd t buf p w = (r, w') -> read_to fd t (contents buf) w r w'.
Proof.
  induction fuel as [|fuel IH]; intros buf p w r w' Hok Hroom Hhead Hf E; [lia|]. cbn [read_loop] in E.
  pose proof (response_complete_eq buf p Hok) as Hc. destruct (response_complete buf p) as [c q] eqn:Erc. cbn in Hc. subst c.
  apply head_seen_complete in Erc; [|done|done].
  destruct (complete_response (contents buf)) eqn:Hc.
  { simplify_eq. exists []. cbn. rewrite app_nil_r. split_and!; [apply ran_refl|done|done|done|by left]. }
  rewrite readable_len in E by done.
  destruct (Z.leb_spec MAX_PROXY_RESPONSE_BYTES (len (contents buf))).
  { simplify_eq. exists []. cbn. rewrite app_nil_r. split_and!; [apply ran_refl|done|done]. }
  destruct (wait_fd fd POLLIN (i32 t) (str "read upstream") w) as [[u|x] w1] eqn:Ew.
  2:{ apply wait_loop_fails in Ew as (cs & Hr1 & Hp & Hla & Hg); [|lia].
      exists cs. rewrite (polls_received fd POLLIN cs (script w) fd Hp), app_nil_r.
      pose proof (Forall_impl _ _ _ Hp (polls_reads fd)) as Hp1. destruct (_ && _) eqn:Eb; simplify_eq; split_and!; try done.
      right; right. split_and!; [done|done|]. apply Erc. apply andb_true_iff in Eb as [Eb _]. apply andb_true_iff in Eb as [Eb _]. by zbool. }
  apply wait_fd_ran in Ew as (cs & Hr1 & Hp & Hn);
    pose proof (Forall_impl _ _ _ Hp (polls_reads fd)) as Hp1;
    pose proof (polls_received fd POLLIN cs (script w) fd Hp) as Hg.
  destruct (sys_recv fd RECV_SIZE w1) as [[[n e] d] w2] eqn:Es. pose proof (recv_at_end _ _ _ _ _ _ Es) as Hend.
  apply sys_recv_ran in Es as (Hr2 & Hd & Hl & Hz & Ha).
  assert (Hr : ran w w2 (cs ++ [SysRecv fd RECV_SIZE])) by (by eapply ran_trans).
  assert (Hfr : Forall (reads_from fd) (cs ++ [SysRecv fd RECV_SIZE])).
  { apply Forall_app. split; [done|]. by constructor; [left|]. }
  assert (Hg2 : received fd (cs ++ [SysRecv fd RECV_SIZE]) (script w) = d).
  { rewrite received_app, Hg. by destruct Hr1 as [_ <-]. }
  apply ran_script_le in Hr1 as Hl1.
  destruct (Z.ltb_spec 0 n) as [Hpos|Hneg].
  - destruct (append_app buf d Hok) as (b' & Ea & Hok' & Hcb).
    { unfold room, MAX_PROXY_RESPONSE_BYTES, RECV_SIZE, BUF_LIMIT, len in *. lia. }
    rewrite Ea in E. eapply read_after; [done..|]. rewrite <- Hcb. eapply IH; [done| | |lia|exact E]; rewrite Hcb.
    + unfold room in *. rewrite len_app. unfold RECV_SIZE, len in *. lia.
    + by apply head_seen_app.
  - rewrite (Hz Hneg) in Hg2.
    destruct (Z.eqb_spec n 0) as [->|Hn0].
    + simplify_eq. exists (cs ++ [SysRecv fd RECV_SIZE]). rewrite Hg2, app_nil_r.
      split_and!; [done..|]. right; left. rewrite last_snoc, last_answer_app by done. destruct Hr1 as [_ Hs1]. rewrite <- Hs1.
      split; [done|by apply Hend].
    + destruct ((e =? EAGAIN) || _ || _) eqn:Ee.
      * destruct Ha as [(_ & _ & ->)|Ha]; [done|]. eapply read_after; [done..|]. rewrite app_nil_r.
        eapply IH; [done|done|exact Erc|lia|exact E].
      * simplify_eq. exists (cs ++ [SysRecv fd RECV_SIZE]). by rewrite Hg2, app_nil_r.
Qed.

Lemma read_response_spec fd t w r w' : read_response (B := B) fd t w = (r, w') -> read_to fd t [] w r w'.
Proof.
  unfold read_response. intros E. assert (Hcap : 0 <= 65536 <= BUF_LIMIT) by (unfold BUF_LIMIT; lia).
  pose proof (new_contents (B := B) _ Hcap) as Hc. pose proof (new_ok (B := B) _ Hcap) as Hok.
  eapply read_loop_spec in E; [|done|unfold room, MAX_PROXY_RESPONSE_BYTES, RECV_SIZE; rewrite Hc; done|by intros Hp|lia].
  by rewrite Hc in E.
Qed.

(** ** Reading a response that arrives in pieces *)

(** The answers of a system that delivers the pieces one by one. *)
Definition deliveries (ds : list bytes) : list SysResult :=
  concat (map (fun d => [mkSys 1 0 POLLIN []; mkSys (len d) 0 0 d]) ds).

Definition piece_ok (d : bytes) : Prop := d <> [] /\ len d <= RECV_SIZE.

Lemma wait_fd_ready fd t op cs s :
  wait_fd fd POLLIN t op (mkWorld cs (mkSys 1 0 POLLIN [] :: s)) = (Ok tt, mkWorld (cs ++ [SysPoll fd POLLIN t]) s).
Proof. done. Qed.

Lemma sys_recv_piece fd cs d s :
  piece_ok d ->
  sys_recv fd RECV_SIZE (mkWorld cs (mkSys (len d) 0 0 d :: s)) =
    (len d, 0, d, mkWorld (cs ++ [SysRecv fd RECV_SIZE]) s).
Proof.
  intros [Hne Hl]. unfold sys_recv. cbn [sys script trace sr_data sr_ret sr_errno mkSys].
  rewrite take_ge by (unfold len in *; lia). destruct (Z.eqb_spec (len d) 0) as [Hz|Hz]; [|done].
  by apply len_0_nil in Hz.
Qed.

Lemma read_loop_pieces fd t more : forall ds fuel (buf : B) p tr,
  buf_ok buf -> Forall piece_ok ds ->
  (forall k, (k < length ds)%nat -> complete_response (contents buf ++ concat (take k ds)) = false) ->
  complete_response (contents buf ++ concat ds) = true ->
  len (contents buf ++ concat ds) < MAX_PROXY_RESPONSE_BYTES -> (length ds <= fuel)%nat ->
  exists tr', read_loop fuel fd t buf p (mkWorld tr (deliveries ds ++ more)) =
    (Ok (contents buf ++ concat ds), mkWorld tr' more).
Proof.
  induction ds as [|d ds IH]; intros fuel buf p tr Hok Hd Hinc Hc Hlen Hf; rewrite read_loop_eq;
    pose proof (response_complete_eq buf p Hok) as Hv; destruct (response_complete buf p) as [c q]; cbn in Hv; subst c.
  { cbn in Hc. rewrite app_nil_r in *. rewrite Hc. by exists tr. }
  specialize (Hinc 0%nat ltac:(cbn; lia)) as H0'. cbn in H0'. rewrite app_nil_r in H0'. rewrite H0'.
  rewrite readable_len by done. cbn [concat] in *. autorewrite with uplen in Hlen.
  pose proof (len_nonneg d). pose proof (len_nonneg (concat ds)).
  destruct (Z.leb_spec MAX_PROXY_RESPONSE_BYTES (len (contents buf))); [lia|].
  inversion_clear Hd as [|?? Hd1 Hd2].
  change (deliveries (d :: ds) ++ more)
    with (mkSys 1 0 POLLIN [] :: mkSys (len d) 0 0 d :: (deliveries ds ++ more)).
  rewrite wait_fd_ready, (sys_recv_piece fd _ d _ Hd1).
  destruct (Z.ltb_spec 0 (len d)) as [_|Hz].
  2:{ destruct Hd1 as [Hne _]. destruct Hne. apply len_0_nil. lia. }
  destruct (append_app buf d Hok) as (b' & -> & Hok' & Hcb).
  { unfold MAX_PROXY_RESPONSE_BYTES, BUF_LIMIT in *. lia. }
  destruct fuel as [|fuel]; [cbn in Hf; lia|].
  rewrite app_assoc, <- Hcb in *. apply IH; [done|done| |done| |cbn in Hf; lia].
  - intros k Hk. rewrite Hcb, <- app_assoc. apply (Hinc (S k)). cbn. lia.
  - rewrite Hcb. autorewrite with uplen. lia.
Qed.
End Reading.

(** (C12) Reading a response, whatever the system answers to each call.  Only
    polls for readability and receives on that descriptor are made.  A
    successful result is every byte received, in order, less than 16 KiB over
    the limit of 64 MiB.  And there is a result only for one of three reasons:
    the response is complete; the last call was a receive that the system
    answered with the end of the stream; or the last call was a wait that the
    system answered with a timeout or an error, and the head of the response,
    up to its blank line, had arrived.  An error is never returned for a
    complete response.  The bound on the loop is never what ends it. *)
Theorem read_response_faithful {B} `{BufferSpec B} (fd t : Z) (w : World) :
  let '(r, w') := read_response (B := B) fd t w in
  (exists cs, ran w w' cs /\ Forall (reads_from fd) cs /\
    match r with
    | Ok resp =>
        resp = received fd cs (script w) /\ len resp < MAX_PROXY_RESPONSE_BYTES + RECV_SIZE /\
        (complete_response resp = true \/
         (last cs = Some (SysRecv fd RECV_SIZE) /\ at_end (last_answer cs (script w))) \/
         (last cs = Some (SysPoll fd POLLIN (i32 t)) /\ gives_up POLLIN (last_answer cs (script w)) /\
          find_sub (CRLF ++ CRLF) resp <> None))
    | Err _ => complete_response (received fd cs (script w)) = false
    end) /\
  (forall k, read_loop (k + S (length (script w))) fd t (buf_new 65536 : B) HttpResponse_default w = (r, w')).
Proof.
  destruct (read_response fd t w) as [r w'] eqn:E. split; [by apply read_response_spec in E|].
  unfold read_response in E. induction k as [|k IH]; [done|]. rewrite <- IH. cbn [Nat.add]. apply read_loop_fuel. lia.
Qed.

(** A response whose end is the end of the stream: two receives, the second
    of which finds nothing more.  Receiving the first piece alone is no reason
    to stop. *)
Lemma read_response_faithful_witness :
  let text := text_lines [str "HTTP/1.1 200 OK"] ++ str "hi" in
  let w := mkWorld [] [mkSys 1 0 POLLIN []; mkSys 0 0 0 text; mkSys 1 0 POLLIN []; mkSys 0 0 0 []] in
  complete_response text = false /\ (read_response (B := bytes) 7 5000 w).1 = Ok text /\
  exists cs, ran w (read_response (B := bytes) 7 5000 w).2 cs /\ received 7 cs (script w) = text /\
    last cs = Some (SysRecv 7 RECV_SIZE) /\ at_end (last_answer cs (script w)).
Proof.
  intros text w. pose proof (read_response_faithful (B := bytes) 7 5000 w) as H.
  assert (Hr : (read_response (B := bytes) 7 5000 w).1 = Ok text) by (vm_compute; reflexivity).
  assert (Ht : trace (read_response (B := bytes) 7 5000 w).2 = [SysPoll 7 POLLIN 5000; SysRecv 7 RECV_SIZE; SysPoll 7 POLLIN 5000; SysRecv 7 RECV_SIZE])
    by (vm_compute; reflexivity).
  assert (Hn : complete_response text = false) by (vm_compute; reflexivity).
  destruct (read_response (B := bytes) 7 5000 w) as [r w']. cbn [fst snd] in *. subst r.
  destruct H as [(cs & Hc & _ & Hre & _ & Hwhy) _]. split; [exact Hn|]. split; [reflexivity|]. exists cs.
  assert (Hcs : cs = [SysPoll 7 POLLIN 5000; SysRecv 7 RECV_SIZE; SysPoll 7 POLLIN 5000; SysRecv 7 RECV_SIZE])
    by (destruct Hc as [Hc _]; rewrite Ht in Hc; symmetry; exact Hc).
  split; [exact Hc|]. split; [symmetry; exact Hre|]. destruct Hwhy as [Hw|[Hw|[Hw _]]]; [congruence|exact Hw|].
  rewrite Hcs in Hw. discriminate Hw.
Defined.

(** (C20) A response is read wherever the network cuts it: if the pieces
    delivered make up a response that is complete with the last piece and
    not before, reading returns exactly their concatenation and consumes
    exactly the answers that delivered them. *)
Theorem read_response_framed {B} `{BufferSpec B} (fd t : Z) (ds : list bytes) (tr : list Syscall)
    (more : list SysResult) :
  Forall piece_ok ds ->
  (forall k, (k < length ds)%nat -> complete_response (concat (take k ds)) = false) ->
  complete_response (concat ds) = true -> len (concat ds) < MAX_PROXY_RESPONSE_BYTES ->
  exists tr', read_response (B := B) fd t (mkWorld tr (deliveries ds ++ more)) = (Ok (concat ds), mkWorld tr' more).
Proof.
  intros Hd Hinc Hc Hl. assert (Hcap : 0 <= 65536 <= BUF_LIMIT) by (unfold BUF_LIMIT; lia).
  pose proof (new_contents (B := B) _ Hcap) as Hn. pose proof (new_ok (B := B) _ Hcap) as Hok.
  unfold read_response. rewrite <- (app_nil_l (concat ds)), <- Hn. apply read_loop_pieces; rewrite ?Hn; try done.
  cbn [script]. rewrite length_app. unfold deliveries.
  enough (length ds <= length (concat (map (fun d => [mkSys 1 0 POLLIN []; mkSys (len d) 0 0 d]) ds)))%nat by lia.
  clear. induction ds; cbn; lia.
Qed.

Definition demo_pieces : list bytes :=
  [str "HTTP/1.1 200 OK" ++ CRLF ++ str "Content-Len"; str "gth: 5" ++ CRLF ++ CRLF ++ str "he"; str "llo"].

Lemma read_response_framed_witness :
  exists tr', read_response (B := RingBuffer) 9 5000 (mkWorld [] (deliveries demo_pieces)) =
    (Ok (concat demo_pieces), mkWorld tr' []).
Proof.
  rewrite <- (app_nil_r (deliveries demo_pieces)).
  apply (read_response_framed (B := RingBuffer) 9 5000 demo_pieces [] []).
  - repeat constructor; vm_compute; intuition discriminate.
  - intros [|[|[|k]]] Hk; [vm_compute; reflexivity..|]. cbn in Hk. lia.
  - vm_compute. reflexivity.
  - vm_compute. reflexivity.
Defined.

(** ** Content-Length *)

Lemma forallb_zip_tolower : forall (a b : bytes), length a = length b ->
  forallb (fun '(x, y) => Byte.eqb (tolower x) (tolower y)) (zip a b) = true <-> lower a = lower b.
Proof.
  unfold lower. induction a as [|x a IH]; intros [|y b] Hl; try done. cbn in *. rewrite andb_true_iff, IH by lia.
  rewrite byte_eqb_eq. split; [intros [Hx Hy]; by rewrite Hx, Hy|]. intros E. by injection E.
Qed.

Lemma header_name_eq_lower a b : header_name_eq a b = true <-> lower a = lower b.
Proof.
  unfold header_name_eq, len. destruct (Z.eqb_spec (Z.of_nat (length a)) (Z.of_nat (length b))) as [E|E]; cbn.
  - apply forallb_zip_tolower. lia.
  - split; [done|]. intros Hl. destruct E. f_equal. apply (f_equal length) in Hl.
    unfold lower in Hl. by rewrite !length_map in Hl.
Qed.

Lemma parse_response_sizes (b : bytes) p0 p h :
  parse_response b p0 = (Complete, p) -> h ∈ resp_headers p -> is_content_length h ->
  resp_chunked p = false /\ 4 <= resp_header_bytes p <= len b /\ resp_header_bytes p <= HTTP1_MAX_HEADER_BYTES /\
  0 <= resp_content_length p < 2 ^ 64.
Proof.
  unfold parse_response. intros E Hh Hcl. destruct (parse_headers (parse_window b) (MResp p0)) as [v m] eqn:Ep.
  assert (Hv : v = Complete) by (by destruct m; simplify_eq). subst v.
  destruct (parse_headers_kind _ _ _ Ep) as [q ->]. simplify_eq.
  destruct (parse_complete_inv _ _ _ Ep) as (e & le & m1 & s & Hf & He & _ & _ & Hp & Hl & Hc & Hm).
  cbn in Hp. destruct (parse_status_line _) as [[st re]|]; simplify_eq.
  apply header_loop_inv in Hl as Hinv; [|split; cbn; [done|constructor|unfold HTTP1_MAX_HEADER_COUNT; done|apply framing_nil]].
  apply header_loop_flags in Hl as [_ Hsf]; [|done].
  destruct Hinv as [[_ _ _ Hfr] _]. destruct (hs_msg s) as [r|r|] eqn:Hq; try done.
  cbn in Hsf, Hfr, Hm, Hc. injection Hsf as _ _ Hhb. injection Hm as ->. cbn in *.
  destruct (fr_all _ _ _ Hfr h Hh Hcl) as [Hs Hval]. rewrite Hs, andb_true_r in Hc.
  apply whole_number_range in Hval. unfold UINT64_MAX in Hval.
  apply find_sub_length in Hf. cbn in Hf. unfold parse_window in Hf. cbn in Hf. rewrite length_take in Hf.
  rewrite Hhb. unfold len. split_and!; try done; lia.
Qed.

Definition declares_length (p : HttpResponse) : Prop := exists h, h ∈ resp_headers p /\ is_content_length h.

Lemma complete_response_length (b : bytes) p :
  parse_response b HttpResponse_default = (Complete, p) -> declares_length p -> resp_chunked p = false ->
  complete_response b = (u64 (resp_header_bytes p + resp_content_length p) <=? len b).
Proof.
  intros E (h & Hh & Hcl) Hc. unfold complete_response, response_complete. rewrite E, Hc.
  replace (existsb _ (resp_headers p)) with true; [done|]. symmetry. apply existsb_exists.
  exists h. split; [by apply list_elem_of_In|]. by apply header_name_eq_lower.
Qed.

(** (C36) When a response with a Content-Length counts as complete.  As long
    as header and declared length fit 64 bits together, exactly when the
    whole body has arrived.  A length so close to the top that the sum wraps
    makes the response complete as soon as its header block is. *)
Theorem response_complete_exact (b : bytes) (p : HttpResponse) :
  parse_response b HttpResponse_default = (Complete, p) -> declares_length p ->
  (resp_header_bytes p + resp_content_length p < 2 ^ 64 ->
     complete_response b = true <-> resp_header_bytes p + resp_content_length p <= len b) /\
  (2 ^ 64 <= resp_header_bytes p + resp_content_length p -> complete_response b = true).
Proof.
  intros E Hl. pose proof Hl as (h & Hh & Hcl).
  destruct (parse_response_sizes b _ p h E Hh Hcl) as (Hc & Hb & Hm & Hn).
  rewrite (complete_response_length b p E Hl Hc). split; intros Hs.
  - rewrite u64_small by lia. apply Z.leb_le.
  - apply Z.leb_le. unfold HTTP1_MAX_HEADER_BYTES, u64 in *.
    rewrite mod_once by lia. destruct (Z.ltb_spec (resp_header_bytes p + resp_content_length p) (2 ^ 64)); lia.
Qed.

(** A server announces [2^64 - 1] bytes and sends two. *)
Definition demo_huge : bytes :=
  text_lines [str "HTTP/1.1 200 OK"; str "Content-Length: 18446744073709551615"] ++ str "hi".

Lemma response_complete_exact_witness : complete_response demo_huge = true.
Proof.
  refine (proj2 (response_complete_exact demo_huge (parse_response demo_huge HttpResponse_default).2 _ _) _).
  - vm_compute. reflexivity.
  - exists (mkHeader (str "Content-Length") (str "18446744073709551615")). vm_compute. split; [left|reflexivity].
  - vm_compute. discriminate.
Defined.

(** ** Forwarding and the books of the pool *)

(** Connections the pool counts but does not hold: in use, or lost. *)
Definition away (p : UpstreamPool) : Z := total_ p - len (idle_ p).

Record pool_books (p : UpstreamPool) : Prop := {
  pb_idle : len (idle_ p) <= total_ p;
  pb_max : total_ p <= max_conns_per_upstream (cfg_ p) <= UINT32_MAX;
}.

Lemma acquire_books ip w ep p r a :
  acquire ip id (mkAcquire w ep p) = (r, a) -> pool_books p ->
  pool_books (aq_pool a) /\ cfg_ (aq_pool a) = cfg_ p /\ len (idle_ p) - 1 <= len (idle_ (aq_pool a)) /\
  match r with
  | Ok _ => away (aq_pool a) = away p + 1
  | Err _ => aq_pool a = p /\ idle_ p = []
  end.
Proof.
  intros E [H1 H2]. unfold acquire, acquire_begin, away in *. cbn in E. unfold UINT32_MAX in *.
  pose proof (len_nonneg (idle_ p)).
  assert (Hu : total_ p < max_conns_per_upstream (cfg_ p) -> u32 (total_ p + 1) = total_ p + 1)
    by (intros; apply u32_small; lia).
  destruct (idle_ p) as [|c l] eqn:Ei.
  - destruct (Z.leb_spec (max_conns_per_upstream (cfg_ p)) (total_ p)).
    + unfold acquire_after_wait, id in E. rewrite Ei in E. simplify_eq. cbn. rewrite Ei. by split_and!; [split; rewrite ?Ei|..].
    + specialize (Hu ltac:(lia)). destruct (new_connection ip ep _ w) as [[c|e] w1]; simplify_eq; cbn.
      * rewrite Hu. split_and!; [split; cbn; rewrite ?Hu; unfold UINT32_MAX; rewrite ?len_nil in *; lia|done|lia|lia].
      * unfold acquire_failed, with_pool. cbn. rewrite Hu. replace (total_ p + 1 - 1) with (total_ p) by lia.
        rewrite u32_small by lia. destruct p as [ie cf il to]. cbn in *. subst il. split_and!; [by split|done|lia|done|done].
  - simplify_eq. cbn. rewrite len_cons in *. split_and!; [split; cbn; unfold UINT32_MAX; lia|done|lia|lia].
Qed.

Lemma release_books c p w p' w' :
  release (Some c) p w = (p', w') -> pool_books p -> 1 <= away p ->
  pool_books p' /\ cfg_ p' = cfg_ p /\ away p' = away p - 1.
Proof.
  intros E [H1 H2] Ha. unfold away, UINT32_MAX in *. pose proof (len_nonneg (idle_ p)).
  apply release_spec in E as [Hc [(_ & Hi & Ht)|(_ & [now Hi] & Ht)]]; [..|unfold UINT32_MAX; lia];
    rewrite Hi, Ht; autorewrite with uplen; split_and!; try done; try lia;
    split; rewrite ?Hc, ?Hi, ?Ht; autorewrite with uplen; unfold UINT32_MAX; lia.
Qed.

Lemma pool_at_put key p w lb pm : pool_at key (mkFwd w lb (put_pool key p pm)) = p.
Proof. unfold pool_at. cbn. by rewrite lookup_insert_eq. Qed.

Section Forwarding.
Context {B : Type} `{BufferSpec B} (ip : bytes -> bool).

Lemma fw_acquire_books key s r s' :
  fw_acquire ip key s = (r, s') -> pool_books (pool_at key s) ->
  pool_books (pool_at key s') /\ len (idle_ (pool_at key s)) - 1 <= len (idle_ (pool_at key s')) /\
  match r with
  | Ok _ => away (pool_at key s') = away (pool_at key s) + 1
  | Err _ => away (pool_at key s') = away (pool_at key s) /\ idle_ (pool_at key s) = []
  end.
Proof.
  unfold fw_acquire. intros E Hb.
  destruct (acquire ip id _) as [r1 a] eqn:Ea. simplify_eq.
  rewrite pool_at_put.
  apply acquire_books in Ea as (Hb' & _ & Hi & Hm); [|done]. split_and!; [done|done|].
  destruct r; [done|]. by destruct Hm as [-> ?].
Qed.

Lemma fw_release_none key s : pool_at key (fw_release key None s) = pool_at key s.
Proof. unfold fw_release. cbn. apply pool_at_put. Qed.

Lemma fw_release_some key c s :
  pool_books (pool_at key s) -> 1 <= away (pool_at key s) ->
  pool_books (pool_at key (fw_release key (Some c) s)) /\
  away (pool_at key (fw_release key (Some c) s)) = away (pool_at key s) - 1.
Proof.
  intros Hb Ha. unfold fw_release. destruct (release (Some c) _ _) as [p w] eqn:E. rewrite pool_at_put.
  by apply release_books in E as (? & _ & ?).
Qed.

(** One exchange on a connection: the request is written, then the response
    is read, one right after the other. *)
Definition exchange (conn : PooledConn) (request : bytes) (w : World) : Result bytes * World :=
  match write_all (fd_ (pc_fd conn)) request 5000 w with
  | (Err e, w) => (Err e, w)
  | (Ok _, w) => read_response (B := B) (fd_ (pc_fd conn)) 5000 w
  end.

(** A connection whose exchange failed: the pool gets nothing back, and the
    connection is destroyed. *)
Definition abandoned (key : bytes) (conn : PooledConn) (w : World) (s : FwdState) : FwdState :=
  drop_conn conn (fw_release key None (set_world w s)).

(** [attempts n failed s r s']: with [n] attempts left in [s], [failed]
    exchanges fail and the result is [r] in [s'].  Each constructor is one way
    an attempt can go; the state of each is the one the attempt before has
    left. *)
Inductive attempts (key request : bytes) : nat -> nat -> FwdState -> Result bytes -> FwdState -> Prop :=
  | no_connection n s e s' :
      fw_acquire ip key s = (Err e, s') -> attempts key request (S n) 0 s (Err e) s'
  | answered_on n s conn s1 resp w :
      fw_acquire ip key s = (Ok conn, s1) -> exchange conn request (fw_world s1) = (Ok resp, w) ->
      attempts key request (S n) 0 s (Ok resp) (fw_release key (Some (count_use conn)) (set_world w s1))
  | last_failed s conn s1 e w :
      fw_acquire ip key s = (Ok conn, s1) -> exchange conn request (fw_world s1) = (Err e, w) ->
      attempts key request 1 1 s (Err e) (abandoned key conn w s1)
  | then_again n failed s conn s1 e w r s' :
      fw_acquire ip key s = (Ok conn, s1) -> exchange conn request (fw_world s1) = (Err e, w) ->
      attempts key request (S n) failed (abandoned key conn w s1) r s' ->
      attempts key request (S (S n)) (S failed) s r s'.

Lemma forward_attempts_eq n key request s :
  forward_attempts (B := B) ip (S n) key request s =
  match fw_acquire ip key s with
  | (Err e, s) => (Err e, s)
  | (Ok conn, s1) =>
      match exchange conn request (fw_world s1) with
      | (Ok resp, w) => (Ok resp, fw_release key (Some (count_use conn)) (set_world w s1))
      | (Err e, w) =>
          match n with
          | O => (Err e, abandoned key conn w s1)
          | S _ => forward_attempts (B := B) ip n key request (abandoned key conn w s1)
          end
      end
  end.
Proof.
  cbn [forward_attempts]. destruct (fw_acquire ip key s) as [[conn|e] s1]; [|done]. unfold exchange.
  destruct (write_all _ _ _ _) as [[u|e] w]; [|done]. by destruct (read_response _ _ w) as [[resp|e] w'].
Qed.

(** The attempts of the code. *)
Lemma forward_attempts_spec key request n : forall s r s',
  forward_attempts (B := B) ip (S n) key request s = (r, s') -> exists failed, attempts key request (S n) failed s r s'.
Proof.
  induction n as [|n IH]; intros s r s'; rewrite forward_attempts_eq;
    destruct (fw_acquire ip key s) as [[conn|e] s1] eqn:Ea; try (intros [= <- <-]; eexists; by constructor);
    destruct (exchange conn request (fw_world s1)) as [[resp|e] w] eqn:Ex;
    try (intros [= <- <-]; eexists; by econstructor).
  intros (f & Hf)%IH. exists (S f). by econstructor.
Qed.

(** The books of the pool over some attempts. *)
Lemma attempts_books key request n failed s r s' :
  attempts key request n failed s r s' -> pool_books (pool_at key s) -> 0 <= away (pool_at key s) ->
  (failed <= n)%nat /\ pool_books (pool_at key s') /\ away (pool_at key s') = away (pool_at key s) + Z.of_nat failed /\
  match r with
  | Ok _ => (failed < n)%nat
  | Err _ => Z.of_nat n <= len (idle_ (pool_at key s)) -> failed = n
  end.
Proof.
  assert (Hab : forall conn w s1, pool_at key (abandoned key conn w s1) = pool_at key s1)
    by (intros conn w s1; exact (fw_release_none key (set_world w s1))).
  induction 1 as [n s e s' Ea|n s conn s1 resp w Ea Ex|s conn s1 e w Ea Ex|n failed s conn s1 e w r s' Ea Ex _ IH];
    intros Hb Hz; apply fw_acquire_books in Ea as (Hb1 & Hi & Hm); try done.
  - destruct Hm as [Hm Hnil]. split_and!; [lia|done|lia|]. rewrite Hnil, len_nil. lia.
  - destruct (fw_release_some key (count_use conn) (set_world w s1)) as [Hb2 Ha2]; [done|unfold pool_at in *; cbn in *; lia|].
    split_and!; [lia|done| |lia]. rewrite Ha2. unfold pool_at in *. cbn in *. lia.
  - rewrite Hab. split_and!; [lia|done|lia|done].
  - destruct IH as (Hf & Hb' & Ha' & Hr); [by rewrite Hab|rewrite Hab; lia|]. rewrite Hab in *. split_and!; [lia|done|lia|].
    destruct r; [lia|]. intros Hn. rewrite Hr; lia.
Qed.

(** What an exchange that succeeds has put on the wire and taken from it. *)
Lemma exchange_ok conn request w resp w' :
  exchange conn request w = (Ok resp, w') ->
  exists w1 out inp, ran w w1 out /\ ran w1 w' inp /\
    Forall (writes_to (fd_ (pc_fd conn))) out /\ Forall (reads_from (fd_ (pc_fd conn))) inp /\
    sent (fd_ (pc_fd conn)) out (script w) = request /\ received (fd_ (pc_fd conn)) inp (script w1) = resp.
Proof.
  unfold exchange. destruct (write_all _ request 5000 w) as [[[]|e] w1] eqn:Ew; [|done].
  apply write_loop_spec in Ew as (out & Ho & Hw & Hs); [|lia].
  intros (inp & Hi & Hr & Hg & _)%read_response_spec. by exists w1, out, inp.
Qed.

(** The successful exchange of some attempts is the last one. *)
Lemma attempts_ok key request n failed s resp s' :
  attempts key request n failed s (Ok resp) s' ->
  exists s0 conn s1 w, fw_acquire ip key s0 = (Ok conn, s1) /\ exchange conn request (fw_world s1) = (Ok resp, w) /\
    s' = fw_release key (Some (count_use conn)) (set_world w s1) /\ (failed = 0%nat -> s0 = s).
Proof.
  intros Ha. remember (Ok resp) as r eqn:Er.
  induction Ha as [n s e s' Ea|n s conn s1 resp' w Ea Ex|s conn s1 e w Ea Ex|n failed s conn s1 e w r s' Ea Ex _ IH]; simplify_eq.
  - by exists s, conn, s1, w.
  - destruct (IH eq_refl) as (s0 & conn' & s2 & w' & H1 & H2 & H3 & _). exists s0, conn', s2, w'. split_and!; try done.
Qed.

Lemma pool_at_get i s :
  let ep := endpoint_at i s in
  let s0 := mkFwd (fw_world s) (fw_lb s) (pool_get i ep (fw_pools s)).2 in
  total_ (pool_at (name ep) s0) = total_ (pool_at (name ep) s) /\
  idle_ (pool_at (name ep) s0) = idle_ (pool_at (name ep) s) /\
  cfg_ (pool_at (name ep) s0) = cfg_ (pool_at (name ep) s).
Proof.
  cbv zeta. unfold pool_at, pool_get. cbn. destruct (pools_ (fw_pools s) !! name (endpoint_at i s)) eqn:E; cbn.
  - by rewrite E.
  - by rewrite lookup_insert_eq.
Qed.

Lemma forward_http1_attempts req body i s text :
  request_text req (upstream_host (endpoint_at i s)) = Ok text ->
  65536 + len text + len body <= BUF_LIMIT ->
  forward_http1 (B := B) ip req body i s =
  forward_attempts (B := B) ip 2 (name (endpoint_at i s)) (text ++ body)
    (mkFwd (fw_world s) (fw_lb s) (pool_get i (endpoint_at i s) (fw_pools s)).2).
Proof.
  intros Ht Hl. pose proof (len_nonneg text). pose proof (len_nonneg body). unfold forward_http1, write_request. rewrite Ht.
  assert (Hcap : 0 <= 65536 + len body <= BUF_LIMIT) by lia.
  destruct (append_app (B := B) (buf_new (65536 + len body)) text) as (b1 & -> & Hb1 & Hc1);
    [by apply new_ok|rewrite new_contents by done; rewrite len_nil; lia|].
  rewrite new_contents in Hc1 by done. cbn in Hc1.
  destruct (Z.eqb_spec (len body) 0) as [Hz|Hz].
  - apply len_0_nil in Hz as ->. by rewrite Hc1, app_nil_r.
  - destruct (append_app (B := B) b1 body) as (b2 & -> & Hb2 & Hc2); [done|rewrite Hc1; lia|]. by rewrite Hc2, Hc1.
Qed.

(** (C17) Forwarding a request over a pool whose books are in order.  What
    happens is a series of at most two attempts, each on a connection acquired
    from that pool: an attempt that gets no connection ends it; one whose
    exchange succeeds ends it with that response, and the connection, with one
    more use counted, is released to the pool; one whose exchange fails
    destroys the connection, and the next starts from the state it left.
    [failed] counts the exchanges that failed.  A response was read, after the
    serialized head of the request and its body were completely written, from
    the connection they were written to, the one acquired last.  Every failed
    exchange keeps its place in the pool for ever: the count of connections
    away grows by exactly [failed], which is at most one when a response is
    returned, and two when there were two idle connections and no response. *)
Theorem forward_http1_outcome (req : HttpRequest) (body text : bytes) (i : nat) (s : FwdState) :
  request_text req (upstream_host (endpoint_at i s)) = Ok text ->
  65536 + len text + len body <= BUF_LIMIT ->
  let key := name (endpoint_at i s) in
  pool_books (pool_at key s) ->
  let '(r, s') := forward_http1 (B := B) ip req body i s in
  let start := mkFwd (fw_world s) (fw_lb s) (pool_get i (endpoint_at i s) (fw_pools s)).2 in
  exists failed, attempts key (text ++ body) 2 failed start r s' /\
    (failed <= 2)%nat /\ pool_books (pool_at key s') /\
    away (pool_at key s') = away (pool_at key s) + Z.of_nat failed /\
    match r with
    | Ok resp =>
        (failed <= 1)%nat /\
        exists s0 conn s1 w1 w2 out inp, let fd := fd_ (pc_fd conn) in
          fw_acquire ip key s0 = (Ok conn, s1) /\ (failed = 0%nat -> s0 = start) /\
          ran (fw_world s1) w1 out /\ Forall (writes_to fd) out /\ sent fd out (script (fw_world s1)) = text ++ body /\
          ran w1 w2 inp /\ Forall (reads_from fd) inp /\ received fd inp (script w1) = resp /\
          s' = fw_release key (Some (count_use conn)) (set_world w2 s1)
    | Err _ => 2 <= len (idle_ (pool_at key s)) -> failed = 2%nat
    end.
Proof.
  intros Ht Hl key Hb. rewrite (forward_http1_attempts req body i s text Ht Hl). fold key.
  destruct (pool_at_get i s) as (H1 & H2 & H3). fold key in H1, H2, H3.
  set (s0 := mkFwd _ _ _) in *. cbv zeta.
  destruct (forward_attempts _ _ _ _ s0) as [r s'] eqn:E.
  apply forward_attempts_spec in E as (f & Hat). exists f.
  destruct (attempts_books _ _ _ _ _ _ _ Hat) as (Hf & Hb' & Ha & Hr).
  { destruct Hb. split; by rewrite ?H1, ?H2, ?H3. }
  { unfold away. rewrite H1, H2. destruct Hb. lia. }
  unfold away in *. rewrite H1, H2 in *. split_and!; [done..|]. destruct r as [resp|e]; [|done]. split; [lia|].
  apply attempts_ok in Hat as (sk & conn & s1 & w2 & Ea & Ex & -> & Hk).
  apply exchange_ok in Ex as (w1 & out & inp & Hout & Hinp & Wo & Ri & So & Re).
  exists sk, conn, s1, w1, w2, out, inp. by split_and!.
Qed.

(** What the system answers on a connection the upstream has closed: the
    request is taken, then the socket is readable and at its end; the last
    answer is the clock. *)
Definition closed_by_peer (size now : Z) : list SysResult :=
  [mkSys size 0 0 []; mkSys 1 0 POLLIN []; mkSys 0 0 0 []; mkSys 0 0 now []].

Lemma write_all_once fd d t n tr s :
  len d <= n -> d <> [] -> write_all fd d t (mkWorld tr (mkSys n 0 0 [] :: s)) = (Ok tt, mkWorld (tr ++ [SysSend fd d]) s).
Proof.
  intros Hn Hd. assert (Hpos : 0 < len d) by (destruct d; [done|rewrite len_cons; pose proof (len_nonneg d); lia]).
  unfold write_all. cbn [script length]. rewrite write_loop_eq. destruct (Z.eqb_spec (len d) 0); [lia|].
  unfold sys_send, sys. cbn [script trace sr_ret sr_errno mkSys]. rewrite Z.min_r by done. destruct (Z.ltb_spec 0 (len d)); [|lia].
  cbv zeta. rewrite drop_ge by (unfold len; lia). by rewrite write_loop_eq.
Qed.

Lemma read_response_closed fd t tr now :
  read_response (B := B) fd t (mkWorld tr (mkSys 1 0 POLLIN [] :: mkSys 0 0 0 [] :: [mkSys 0 0 now []])) =
  (Ok [], mkWorld (tr ++ [SysPoll fd POLLIN (i32 t); SysRecv fd RECV_SIZE]) [mkSys 0 0 now []]).
Proof.
  unfold read_response. rewrite read_loop_eq. assert (Hn : 0 <= 65536 <= BUF_LIMIT) by (unfold BUF_LIMIT; lia).
  pose proof (response_complete_eq (buf_new 65536 : B) HttpResponse_default (new_ok _ Hn)) as Hc. rewrite new_contents in Hc by done.
  destruct (response_complete _ _) as [c q]. cbn [fst] in Hc. rewrite Hc. change (complete_response []) with false. cbv iota.
  rewrite readable_len, new_contents by (done || by apply new_ok). change (MAX_PROXY_RESPONSE_BYTES <=? len []) with false. cbv iota.
  rewrite wait_fd_ready. unfold sys_recv, sys. cbn [script trace sr_data sr_ret sr_errno mkSys].
  rewrite take_nil. change (len (@nil byte)) with 0. cbn [Z.eqb Z.min Z.ltb Z.compare]. by rewrite <- app_assoc.
Qed.

(** (C34) A connection that the upstream has closed is taken for an answer.
    When the first idle connection of the pool is one the upstream has
    meanwhile closed, forwarding any request over it succeeds with an empty
    response, without an attempt on another connection, and the dead
    connection goes back to the pool for the next request, as long as it has
    not served its quota. *)
Theorem stale_connection_answers_nothing (req : HttpRequest) (body text : bytes) (i : nat) (s : FwdState)
    (c : PooledConn) (rest : list PooledConn) (tr : list Syscall) (size now : Z) :
  request_text req (upstream_host (endpoint_at i s)) = Ok text -> 65536 + len text + len body <= BUF_LIMIT -> text <> [] ->
  let key := name (endpoint_at i s) in
  pools_ (fw_pools s) !! key = Some (pool_at key s) -> idle_ (pool_at key s) = c :: rest ->
  fw_world s = mkWorld tr (closed_by_peer size now) -> len text + len body <= size ->
  worn_out (cfg_ (pool_at key s)) (count_use c) = false ->
  let '(r, s') := forward_http1 (B := B) ip req body i s in
  r = Ok [] /\ exists c', idle_ (pool_at key s') = rest ++ [c'] /\ pc_fd c' = pc_fd c /\
    ~ exists fd, SysClose fd ∈ drop (length tr) (trace (fw_world s')).
Proof.
  intros Ht Hl Hne key Hk Hidle Hw Hsize Hworn. rewrite (forward_http1_attempts req body i s text Ht Hl). fold key.
  unfold pool_get. fold key. rewrite Hk. cbn [fst snd]. set (s0 := mkFwd _ _ _).
  assert (Hs0 : pool_at key s0 = pool_at key s) by done. cbn [forward_attempts]. unfold fw_acquire. rewrite Hs0.
  unfold acquire, acquire_begin. cbn [aq_pool aq_world aq_ep]. rewrite Hidle. cbn [fw_world s0]. rewrite Hw.
  unfold closed_by_peer. cbv zeta. cbn [pc_fd set_in_use aq_world aq_ep aq_pool fw_world].
  rewrite write_all_once; [|rewrite len_app; lia|by destruct text]. rewrite read_response_closed.
  unfold fw_release, release, set_world. cbn [sys_now_ms sys script trace fw_world fw_lb fw_pools sr_out mkSys].
  rewrite (pool_at_put key). cbn [fst snd]. unfold worn_out in *. cbn [pc_fd returned count_use set_in_use request_count with_pool cfg_] in *.
  rewrite Hworn. split; [done|]. rewrite (pool_at_put key). cbn [idle_ with_pool]. eexists. split_and!; [reflexivity|done|].
  intros [fd Hin]. cbn [fw_world trace] in Hin. rewrite <- !app_assoc, drop_app_length in Hin. cbn in Hin.
  by repeat (apply elem_of_cons in Hin as [Hin|Hin]; [discriminate|]); apply elem_of_nil in Hin.
Qed.
End Forwarding.

(** Two idle connections that the upstream has closed: the client gets an
    error, and the pool counts two connections that no longer exist. *)
Definition demo_endpoint : UpstreamEndpoint := mkUpstreamEndpoint (str "127.0.0.1") 3000 1 (str "b") true 0 0 0.

Definition demo_fwd : FwdState :=
  mkFwd (mkWorld [] []) (mkWRR [demo_endpoint] [0])
    (put_pool (str "b")
       (mkUpstreamPool 0 PoolConfig_default
          [mkPooledConn (mkUniquefd 5) false 0 0 0; mkPooledConn (mkUniquefd 6) false 0 0 0] 2)
       (PoolManager_make PoolConfig_default)).

Definition demo_get : HttpRequest := mkRequest (str "GET") (str "/") (str "HTTP/1.1") [] true 0 false 0.

Lemma forward_http1_outcome_witness :
  away (pool_at (str "b") (forward_http1 (B := bytes) (fun _ => true) demo_get [] 0 demo_fwd).2) = 2.
Proof.
  pose proof (forward_http1_outcome (B := bytes) (fun _ => true) demo_get []
    (match request_text demo_get (str "127.0.0.1:3000") with Ok t => t | Err _ => [] end) 0 demo_fwd
    ltac:(vm_compute; reflexivity) ltac:(vm_compute; discriminate)
    ltac:(split; vm_compute; intuition discriminate)) as H.
  destruct (forward_http1 (B := bytes) (fun _ => true) demo_get [] 0 demo_fwd) as [[resp|e] s'] eqn:E.
  - exfalso. vm_compute in E. discriminate E.
  - destruct H as (f & _ & _ & _ & Ha & Hf). change (name (endpoint_at 0 demo_fwd)) with (str "b") in Ha, Hf.
    rewrite (Hf ltac:(vm_compute; discriminate)) in Ha. cbn [snd]. rewrite Ha. vm_compute. reflexivity.
Defined.

(** One idle connection, closed by the upstream. *)
Definition demo_stale : FwdState :=
  mkFwd (mkWorld [] (closed_by_peer 1000 7)) (mkWRR [demo_endpoint] [0])
    (put_pool (str "b") (mkUpstreamPool 0 PoolConfig_default [mkPooledConn (mkUniquefd 5) false 0 0 0] 1)
       (PoolManager_make PoolConfig_default)).

Lemma stale_connection_answers_nothing_witness :
  (forward_http1 (B := bytes) (fun _ => true) demo_get [] 0 demo_stale).1 = Ok [].
Proof.
  pose proof (stale_connection_answers_nothing (B := bytes) (fun _ => true) demo_get []
    (match request_text demo_get (str "127.0.0.1:3000") with Ok t => t | Err _ => [] end) 0 demo_stale
    (mkPooledConn (mkUniquefd 5) false 0 0 0) [] [] 1000 7
    ltac:(vm_compute; reflexivity) ltac:(vm_compute; discriminate) ltac:(vm_compute; discriminate)
    ltac:(vm_compute; reflexivity) eq_refl eq_refl ltac:(vm_compute; discriminate) eq_refl) as H.
  destruct (forward_http1 (B := bytes) (fun _ => true) demo_get [] 0 demo_stale) as [r s']. exact (proj1 H).
Defined.
