(* ===== verification/Log.v ===== *)
(** * The logger (src/src/log.cpp, src/include/uproxy/log.h)

    The stream is the text written to it so far.  The mutex makes a call of
    [log] one step.  The second half states what a reader of the JSON format
    gets back. *)

From stdpp Require Import prelude.
From S2P Require Import Prelude CxxString.

Inductive LogLevel := Trace | Debug | Info | Warn | LError.

Definition level_rank (l : LogLevel) : Z :=
  match l with Trace => 0 | Debug => 1 | Info => 2 | Warn => 3 | LError => 4 end.

Definition parse_log_level (level : bytes) : LogLevel :=
  if bool_decide (level = str "trace") then Trace
  else if bool_decide (level = str "debug") then Debug
  else if bool_decide (level = str "warn") then Warn
  else if bool_decide (level = str "error") then LError
  else Info.

Definition log_level_name (l : LogLevel) : bytes :=
  match l with
  | Trace => str "trace"
  | Debug => str "debug"
  | Info => str "info"
  | Warn => str "warn"
  | LError => str "error"
  end.

Definition BACKSLASH : byte := Byte.x5c.
Definition DQUOTE : byte := Byte.x22.

Definition escape_char (c : byte) : bytes :=
  if Byte.eqb c BACKSLASH then [BACKSLASH; BACKSLASH]
  else if Byte.eqb c DQUOTE then [BACKSLASH; DQUOTE]
  else if Byte.eqb c LF then [BACKSLASH; Byte.x6e]
  else if Byte.eqb c CR then [BACKSLASH; Byte.x72]
  else if Byte.eqb c HTAB then [BACKSLASH; Byte.x74]
  else [c].

Definition escape_json (input : bytes) : bytes := concat (map escape_char input).

(** What the overloads of [value_to_string] accept. *)
Inductive LogValue :=
  | VText (s : bytes)                 (* string_view, string *)
  | VCStr (s : option bytes)          (* const char*; None is nullptr *)
  | VInt (z : Z).                     (* operator<< of an integer *)

Definition value_to_string (v : LogValue) : bytes :=
  match v with
  | VText s => s
  | VCStr s => default [] s
  | VInt z => to_string z
  end.

(** [%s] prints up to the first null character. *)
Definition c_str (s : bytes) : bytes :=
  match find_char Byte.x00 s with Some n => take n s | None => s end.

Definition quoted (s : bytes) : bytes := DQUOTE :: s ++ [DQUOTE].

Fixpoint write_json_pairs (kv : list (LogValue * LogValue)) : bytes :=
  match kv with
  | [] => []
  | (key, value) :: rest =>
      str "," ++ quoted (c_str (escape_json (value_to_string key))) ++ str ":"
      ++ quoted (c_str (escape_json (value_to_string value))) ++ write_json_pairs rest
  end.

Fixpoint write_text_pairs (kv : list (LogValue * LogValue)) : bytes :=
  match kv with
  | [] => []
  | (key, value) :: rest =>
      str " " ++ c_str (value_to_string key) ++ str "=" ++ c_str (value_to_string value) ++ write_text_pairs rest
  end.

Record Logger := mkLogger { min_level_ : LogLevel; json_format_ : bool; out_ : bytes }.

Definition json_line (level : LogLevel) (msg : bytes) (kv : list (LogValue * LogValue)) : bytes :=
  str "{" ++ quoted (str "level") ++ str ":" ++ quoted (log_level_name level) ++ str ","
  ++ quoted (str "msg") ++ str ":" ++ quoted (c_str (escape_json msg)) ++ write_json_pairs kv ++ str "}" ++ [LF].

Definition text_line (level : LogLevel) (msg : bytes) (kv : list (LogValue * LogValue)) : bytes :=
  log_level_name level ++ str " " ++ c_str msg ++ write_text_pairs kv ++ [LF].

Definition log (level : LogLevel) (msg : bytes) (kv : list (LogValue * LogValue)) (lg : Logger) : Logger :=
  if level_rank level <? level_rank (min_level_ lg) then lg
  else mkLogger (min_level_ lg) (json_format_ lg)
         (out_ lg ++ if json_format_ lg then json_line level msg kv else text_line level msg kv).

(** ** A reader of the JSON format *)

Definition unescape (c : byte) : option byte :=
  if Byte.eqb c BACKSLASH then Some BACKSLASH
  else if Byte.eqb c DQUOTE then Some DQUOTE
  else if Byte.eqb c Byte.x6e then Some LF
  else if Byte.eqb c Byte.x72 then Some CR
  else if Byte.eqb c Byte.x74 then Some HTAB
  else None.

Definition more (c : byte) (r : option (bytes * bytes)) : option (bytes * bytes) :=
  match r with Some (s, rest) => Some (c :: s, rest) | None => None end.

(** The rest of a string after its opening quote, and what follows it;
    control characters are not allowed in a JSON string. *)
Fixpoint read_chars (s : bytes) : option (bytes * bytes) :=
  match s with
  | [] => None
  | c :: s' =>
      if Byte.eqb c DQUOTE then Some ([], s')
      else if Byte.eqb c BACKSLASH then
        match s' with
        | e :: s'' => match unescape e with Some x => more x (read_chars s'') | None => None end
        | [] => None
        end
      else if b2z c <? 32 then None
      else more c (read_chars s')
  end.

Definition read_string (s : bytes) : option (bytes * bytes) :=
  match s with c :: s' => if Byte.eqb c DQUOTE then read_chars s' else None | [] => None end.

(** [key:value]. *)
Definition read_member (s : bytes) : option (bytes * bytes * bytes) :=
  match read_string s with
  | Some (k, c :: s') =>
      if Byte.eqb c Byte.x3a then
        match read_string s' with Some (v, rest) => Some (k, v, rest) | None => None end
      else None
  | _ => None
  end.

(** The members of an object after its opening brace, up to the end of the
    line. *)
Fixpoint read_members (fuel : nat) (s : bytes) : option (list (bytes * bytes)) :=
  match fuel with
  | O => None
  | S fuel' =>
      match read_member s with
      | Some (k, v, c :: s') =>
          if Byte.eqb c Byte.x2c then cons (k, v) <$> read_members fuel' s'
          else if Byte.eqb c Byte.x7d && bool_decide (s' = [LF]) then Some [(k, v)]
          else None
      | _ => None
      end
  end.

Definition read_object (s : bytes) : option (list (bytes * bytes)) :=
  match s with c :: s' => if Byte.eqb c Byte.x7b then read_members (length s) s' else None | [] => None end.

(** ** Lemmas *)

(** Text without control characters other than those that are escaped. *)
Definition loggable_char (c : byte) : bool :=
  (32 <=? b2z c) || Byte.eqb c LF || Byte.eqb c CR || Byte.eqb c HTAB.

Definition loggable (s : bytes) : Prop := forallb loggable_char s = true.

(** An escaped character: no null or line feed in it, and the reader takes
    exactly that character. *)
Lemma escape_char_clean c :
  loggable_char c = true -> (Byte.x00 ∉ escape_char c) /\ (LF ∉ escape_char c).
Proof.
  intros H. apply (byte_implb loggable_char
    (fun c => forallb (fun x => negb (Byte.eqb x Byte.x00) && negb (Byte.eqb x LF)) (escape_char c))) in H;
    [|vm_compute; reflexivity].
  rewrite forallb_forall in H.
  split; intros Hin%list_elem_of_In%H; apply andb_true_iff in Hin as [H1 H2]; done.
Qed.

Lemma read_escaped c rest : loggable_char c = true -> read_chars (escape_char c ++ rest) = more c (read_chars rest).
Proof. destruct c; (discriminate || (intros _; reflexivity)). Qed.

Lemma read_chars_escape s rest :
  loggable s -> read_chars (escape_json s ++ DQUOTE :: rest) = Some (s, rest).
Proof.
  unfold loggable, escape_json. induction s as [|c s IH]; intros H; [reflexivity|].
  cbn in H. apply andb_true_iff in H as [Hc Hs]. cbn [map concat]. rewrite <- app_assoc, read_escaped, IH by done. done.
Qed.

Lemma escape_json_clean s : loggable s -> (Byte.x00 ∉ escape_json s) /\ (LF ∉ escape_json s).
Proof.
  unfold loggable, escape_json. induction s as [|c s IH]; intros H; cbn; [split; apply not_elem_of_nil|].
  cbn in H. apply andb_true_iff in H as [Hc Hs]. rewrite !not_elem_of_app.
  destruct (escape_char_clean c Hc), (IH Hs). done.
Qed.

Lemma c_str_id s : Byte.x00 ∉ s -> c_str s = s.
Proof.
  intros H. unfold c_str. destruct (find_char Byte.x00 s) as [n|] eqn:E; [|done].
  destruct H. apply find_sub_split in E. rewrite E. apply elem_of_app. right. by left.
Qed.

Lemma read_quoted s rest : loggable s -> read_string (quoted (c_str (escape_json s)) ++ rest) = Some (s, rest).
Proof.
  intros H. rewrite c_str_id by by apply escape_json_clean. unfold quoted, read_string.
  cbn [app]. rewrite byte_eqb_refl, <- app_assoc. by apply read_chars_escape.
Qed.

Lemma read_member_quoted k v rest :
  loggable k -> loggable v ->
  read_member (quoted (c_str (escape_json k)) ++ str ":" ++ quoted (c_str (escape_json v)) ++ rest)
    = Some (k, v, rest).
Proof.
  intros Hk Hv. unfold read_member. rewrite read_quoted by done.
  change (str ":" ++ ?x) with (Byte.x3a :: x). cbn iota. by rewrite byte_eqb_refl, read_quoted.
Qed.

Definition pair_text (p : LogValue * LogValue) : bytes * bytes := (value_to_string p.1, value_to_string p.2).

Definition loggable_pair (p : LogValue * LogValue) : Prop :=
  loggable (value_to_string p.1) /\ loggable (value_to_string p.2).

Lemma read_members_pairs kv : forall fuel k v,
  Forall loggable_pair kv -> loggable k -> loggable v -> (length kv < fuel)%nat ->
  read_members fuel (quoted (c_str (escape_json k)) ++ str ":" ++ quoted (c_str (escape_json v))
                     ++ write_json_pairs kv ++ str "}" ++ [LF])
  = Some ((k, v) :: map pair_text kv).
Proof.
  induction kv as [|[k2 v2] kv IH]; intros fuel k v Hkv Hk Hv Hf;
    (destruct fuel as [|fuel]; [cbn in Hf; lia|]); cbn [read_members]; rewrite read_member_quoted by done.
  - reflexivity.
  - inversion_clear Hkv as [|?? [H1 H2] Hr]. cbn [write_json_pairs]. rewrite <- !app_assoc. cbn [app].
    change (str "," ++ ?x) with (Byte.x2c :: x). cbn iota beta. rewrite byte_eqb_refl.
    rewrite IH by (done || cbn in Hf; lia). done.
Qed.

Definition all_pairs (level : LogLevel) (msg : bytes) (kv : list (LogValue * LogValue)) : list (LogValue * LogValue) :=
  (VText (str "level"), VText (log_level_name level)) :: (VText (str "msg"), VText msg) :: kv.

Definition json_body (level : LogLevel) (msg : bytes) (kv : list (LogValue * LogValue)) : bytes :=
  quoted (c_str (escape_json (str "level"))) ++ str ":" ++ quoted (c_str (escape_json (log_level_name level)))
  ++ write_json_pairs ((VText (str "msg"), VText msg) :: kv) ++ str "}" ++ [LF].

Lemma json_line_body level msg kv : json_line level msg kv = Byte.x7b :: json_body level msg kv.
Proof.
  unfold json_line, json_body. cbn [write_json_pairs value_to_string]. rewrite <- !app_assoc.
  destruct level; reflexivity.
Qed.

(** The line is the list of all members, less the first comma, in braces. *)
Lemma json_line_members level msg kv :
  exists members, write_json_pairs (all_pairs level msg kv) = Byte.x2c :: members /\
    json_line level msg kv = (Byte.x7b :: members ++ [Byte.x7d]) ++ [LF].
Proof.
  rewrite json_line_body. eexists. split; [reflexivity|]. unfold json_body.
  cbn [write_json_pairs all_pairs value_to_string app]. rewrite <- ?app_assoc. reflexivity.
Qed.

Lemma level_loggable l : loggable (log_level_name l).
Proof. by destruct l. Qed.

Lemma pairs_length kv rest : (length kv <= length (write_json_pairs kv ++ rest))%nat.
Proof.
  induction kv as [|[k v] kv IH]; cbn [write_json_pairs length]; [lia|].
  rewrite !length_app in *. change (length (str ",")) with 1%nat. lia.
Qed.

Lemma pairs_no_LF kv : Forall loggable_pair kv -> LF ∉ write_json_pairs kv.
Proof.
  assert (Hq : forall s, loggable s -> LF ∉ quoted (c_str (escape_json s))).
  { intros s Hs. destruct (escape_json_clean s Hs) as [H0 HL]. rewrite c_str_id by done. unfold quoted.
    rewrite not_elem_of_cons, not_elem_of_app, list_elem_of_singleton. done. }
  induction 1 as [|[k v] kv [H1 H2] _ IH]; cbn [write_json_pairs]; [apply not_elem_of_nil|].
  rewrite !not_elem_of_app. split_and!; try apply Hq; try done; vm_compute; intros Hin;
    repeat (inversion_clear Hin as [|??? Hin']; rename Hin' into Hin); done.
Qed.

(** ** Properties *)

(** (C37) The JSON log, against a reader that knows nothing of the logger.
    For text without control characters other than line feed, carriage
    return and tab, a call at or above the configured level appends one
    line: no line feed before its last character, and an object whose members are
    the level, the message and the pairs of the call, in order and with their
    exact text.  A call below the level appends nothing. *)
Theorem json_log_readable (lg : Logger) (level : LogLevel) (msg : bytes) (kv : list (LogValue * LogValue)) :
  json_format_ lg = true -> loggable msg -> Forall loggable_pair kv ->
  (level_rank level < level_rank (min_level_ lg) -> log level msg kv lg = lg) /\
  (level_rank (min_level_ lg) <= level_rank level ->
   exists line, out_ (log level msg kv lg) = out_ lg ++ line ++ [LF] /\ (LF ∉ line) /\
     read_object (line ++ [LF]) =
       Some ((str "level", log_level_name level) :: (str "msg", msg) :: map pair_text kv)).
Proof.
  intros Hj Hm Hkv. unfold log. split; intros Hr.
  { by rewrite (proj2 (Z.ltb_lt _ _) Hr). }
  rewrite (proj2 (Z.ltb_ge _ _) Hr), Hj. cbn [out_].
  destruct (json_line_members level msg kv) as (ms & Hp & Hl). eexists.
  rewrite Hl. split; [reflexivity|]. split.
  - assert (HLF : LF ∉ write_json_pairs (all_pairs level msg kv)).
    { apply pairs_no_LF. repeat (constructor; [split; cbn; (done || apply level_loggable)|]). done. }
    rewrite Hp in HLF. rewrite !not_elem_of_cons, not_elem_of_app, list_elem_of_singleton in *.
    destruct HLF. split_and!; done.
  - rewrite <- Hl, json_line_body. unfold read_object. rewrite byte_eqb_refl. unfold json_body.
    rewrite read_members_pairs; [reflexivity|constructor; [by split|done]|done|apply level_loggable|].
    pose proof (pairs_length ((VText (str "msg"), VText msg) :: kv) (str "}" ++ [LF])) as Hlen.
    revert Hlen. generalize (write_json_pairs ((VText (str "msg"), VText msg) :: kv)) as ps. intros ps Hlen.
    cbn [length] in *. rewrite !length_app in *. lia.
Qed.

Lemma json_log_readable_witness :
  let kv := [(VCStr (Some (str "fd")), VInt 7)] in
  exists line, out_ (log Warn (str "say ''hi''" ++ [LF; DQUOTE; BACKSLASH]) kv (mkLogger Info true [])) = line ++ [LF] /\
    read_object (line ++ [LF]) =
      Some [(str "level", str "warn"); (str "msg", str "say ''hi''" ++ [LF; DQUOTE; BACKSLASH]); (str "fd", str "7")].
Proof.
  cbv zeta.
  destruct (proj2 (json_log_readable (mkLogger Info true []) Warn (str "say ''hi''" ++ [LF; DQUOTE; BACKSLASH])
    [(VCStr (Some (str "fd")), VInt 7)] eq_refl eq_refl
    ltac:(repeat constructor)) ltac:(vm_compute; discriminate)) as (line & H1 & _ & H2).
  exists line. split; [exact H1|]. rewrite H2. vm_compute. reflexivity.
Defined.

(** The text format keeps line feeds: a value with one is indistinguishable
    from a second call. *)
Example text_log_forged :
  out_ (log Info (str "a" ++ [LF] ++ str "error b") [] (mkLogger Info false [])) =
  out_ (log LError (str "b") [] (log Info (str "a") [] (mkLogger Info false []))).
Proof. reflexivity. Qed.
