(* ===== verification/EventLoop.v ===== *)
(** * The event loop, as its users see it (src/include/uproxy/event_loop.h)

    [EventLoop] is the abstract class the server is written against;
    LoopEpoll and LoopKqueue implement it.  A callback is run on the state of
    its owner, which contains the loop: the owner passes a view of the calls
    and of the loop inside its state. *)

From stdpp Require Import prelude gmap.
From S2P Require Import Prelude Result World Fd.

(** ** Event sets *)

Module Event.
Definition None_ : Z := 0.
Definition Read : Z := 1.
Definition Write : Z := 2.
Definition HangUp : Z := 4.
Definition Error : Z := 8.
End Event.

Definition has (set_ flag : Z) : bool := negb (Z.land set_ flag =? 0).

(** ** The abstract class

    [CB] names the timer callbacks of the program, [L] is the loop.  [poll]
    runs callbacks on an owner of type [S]. *)

Record View (S L : Type) := mkView {
  view_get : S -> World * L;
  view_put : World * L -> S -> S;
}.
Arguments view_get {S L}.
Arguments view_put {S L}.

Class EventLoop (CB L : Type) := {
  el_add : Z -> Z -> M (World * L) unit;
  el_modify : Z -> Z -> M (World * L) unit;
  el_remove : Z -> M (World * L) unit;
  el_poll : forall S, View S L -> (CB -> S -> S) -> (Z -> Z -> S -> S) -> Z -> S -> Result unit * S;
  el_add_timer : Z -> CB -> M (World * L) Z;
  el_cancel_timer : Z -> M (World * L) unit;
}.

(** A computation on the loop, run by its owner. *)
Definition on_loop {S L A} (v : View S L) (m : M (World * L) A) : M S A := fun s =>
  let '(r, wl) := m (view_get v s) in (r, view_put v wl s).

(** ** What the server relies on

    The loop only makes calls, of which none accepts a connection, and
    polling does nothing to its owner but make calls and run the callbacks:
    whatever relation holds across those steps holds across a poll.  When
    the system answers no more the wait fails, and so does the poll. *)

Class EventLoopSpec (CB L : Type) `{EventLoop CB L} := {
  el_add_quiet fd e wl : quiet wl.1 (el_add fd e wl).2.1;
  el_modify_quiet fd e wl : quiet wl.1 (el_modify fd e wl).2.1;
  el_remove_quiet fd wl : quiet wl.1 (el_remove fd wl).2.1;
  el_add_timer_quiet d c wl : quiet wl.1 (el_add_timer d c wl).2.1;
  el_poll_rule S (v : View S L) run_cb callback (R : S -> S -> Prop) :
    PreOrder R ->
    (forall s w l, quiet (view_get v s).1 w -> R s (view_put v (w, l) s)) ->
    (forall c s, R s (run_cb c s)) ->
    (forall fd e s, R s (callback fd e s)) ->
    forall t s, R s (el_poll S v run_cb callback t s).2;
  el_poll_fails S (v : View S L) run_cb callback t s :
    script (view_get v s).1 = [] -> is_err (el_poll S v run_cb callback t s).1 = true;
}.
