(* ===== verification/LoopEpoll.v ===== *)
(** * The event loop over epoll (src/src/event_loop_epoll.cpp) *)

From stdpp Require Import prelude gmap.
From S2P Require Import Prelude Result World Fd EventLoop.

Definition EPOLLIN : Z := 1.
Definition EPOLLOUT : Z := 4.
Definition EPOLLERR : Z := 8.
Definition EPOLLHUP : Z := 16.
Definition EPOLLRDHUP : Z := 8192.
Definition EPOLLET : Z := 2 ^ 31.

Definition EPOLL_CTL_ADD : Z := 1.
Definition EPOLL_CTL_DEL : Z := 2.
Definition EPOLL_CTL_MOD : Z := 3.

Module Epoll.

Record Timer (CB : Type) := mkTimer { t_id : Z; tfd : Uniquefd; cb : CB }.
Arguments mkTimer {CB}.
Arguments t_id {CB}.
Arguments tfd {CB}.
Arguments cb {CB}.

Record EpollLoop (CB : Type) := mkEpollLoop {
  epfd_ : Uniquefd;
  timer_fd_to_id_ : gmap Z Z;
  timers_ : gmap Z (Timer CB);
  next_timer_id_ : Z;        (* uint64_t *)
}.
Arguments mkEpollLoop {CB}.
Arguments epfd_ {CB}.
Arguments timer_fd_to_id_ {CB}.
Arguments timers_ {CB}.
Arguments next_timer_id_ {CB}.

Definition to_epoll (e : Z) : Z :=
  let out := EPOLLET in
  let out := if has e Event.Read then Z.lor out (Z.lor EPOLLIN EPOLLRDHUP) else out in
  if has e Event.Write then Z.lor out EPOLLOUT else out.

Definition from_epoll (ep : Z) : Z :=
  let out := Event.None_ in
  let out := if negb (Z.land ep EPOLLIN =? 0) then Z.lor out Event.Read else out in
  let out := if negb (Z.land ep EPOLLOUT =? 0) then Z.lor out Event.Write else out in
  let out := if negb (Z.land ep (Z.lor EPOLLHUP EPOLLRDHUP) =? 0) then Z.lor out Event.HangUp else out in
  if negb (Z.land ep EPOLLERR =? 0) then Z.lor out Event.Error else out.

Section Loop.
Context {CB : Type}.
Abbreviation L := (EpollLoop CB).

Definition create : World -> L * World := fun w =>
  let '(r, w) := sys SysEpollCreate w in (mkEpollLoop (mkUniquefd (sr_ret r)) ∅ ∅ 1, w).

Definition add (fd events : Z) : M (World * L) unit := fun '(w, l) =>
  let '(r, w) := sys (SysEpollCtl (fd_ (epfd_ l)) EPOLL_CTL_ADD fd (to_epoll events)) w in
  if sr_ret r <? 0 then (Err (from_errno (sr_errno r) (str "epoll add")), (w, l)) else (Ok tt, (w, l)).

Definition modify (fd events : Z) : M (World * L) unit := fun '(w, l) =>
  let '(r, w) := sys (SysEpollCtl (fd_ (epfd_ l)) EPOLL_CTL_MOD fd (to_epoll events)) w in
  if sr_ret r <? 0 then (Err (from_errno (sr_errno r) (str "epoll mod")), (w, l)) else (Ok tt, (w, l)).

Definition remove (fd : Z) : M (World * L) unit := fun '(w, l) =>
  let '(r, w) := sys (SysEpollCtl (fd_ (epfd_ l)) EPOLL_CTL_DEL fd 0) w in
  if (sr_ret r <? 0) && negb (sr_errno r =? ENOENT)
  then (Err (from_errno (sr_errno r) (str "epoll del")), (w, l)) else (Ok tt, (w, l)).

(** [timers_.erase(it)] destroys the timer, which closes its descriptor. *)
Definition erase_timer (fd id : Z) (t : Timer CB) (wl : World * L) : World * L :=
  let '(w, l) := wl in
  (fd_destroy (tfd t) w,
   mkEpollLoop (epfd_ l) (delete fd (timer_fd_to_id_ l)) (delete id (timers_ l)) (next_timer_id_ l)).

(** One event of the [for] loop of [poll], up to the callback it runs. *)
Inductive dispatched :=
  | FireTimer (c : CB)
  | FireEvent (fd events : Z)
  | Nothing.

Definition dispatch (fd events : Z) (wl : World * L) : dispatched * (World * L) :=
  let '(w, l) := wl in
  match timer_fd_to_id_ l !! fd with
  | Some id =>
      let '(_, w) := sys (SysReadTimer fd) w in
      match timers_ l !! id with
      | Some t => (FireTimer (cb t), erase_timer fd id t (w, l))
      | None => (Nothing, (w, l))
      end
  | None => (FireEvent fd (from_epoll events), (w, l))
  end.

Definition MAX_EVENTS : nat := 256.

Section Poll.
Context (S : Type) (v : View S L) (run_cb : CB -> S -> S) (callback : Z -> Z -> S -> S).

Definition poll_event (ev : Z * Z * Z) (s : S) : S :=
  let '(fd, _, events) := ev in
  let '(d, wl) := dispatch fd events (view_get v s) in
  let s := view_put v wl s in
  match d with
  | FireTimer c => run_cb c s
  | FireEvent fd e => callback fd e s
  | Nothing => s
  end.

Definition poll (timeout_ms : Z) (s : S) : Result unit * S :=
  let '(w, l) := view_get v s in
  let '(r, w) := sys (SysEpollWait (fd_ (epfd_ l)) timeout_ms) w in
  let s := view_put v (w, l) s in
  if sr_ret r <? 0 then
    (if sr_errno r =? EINTR then Ok tt else Err (from_errno (sr_errno r) (str "epoll wait")), s)
  else (Ok tt, foldl (fun s ev => poll_event ev s) s (take (Nat.min MAX_EVENTS (Z.to_nat (sr_ret r))) (sr_events r))).
End Poll.

Definition add_timer (delay_ms : Z) (c : CB) : M (World * L) Z := fun '(w, l) =>
  let '(r, w) := sys SysTimerfdCreate w in
  let tfd := mkUniquefd (sr_ret r) in
  if negb (fd_valid tfd) then (Err (from_errno (sr_errno r) (str "timerfd_create")), (w, l))
  else
    let '(r, w) := sys (SysTimerfdSettime (fd_ tfd) (Z.quot delay_ms 1000) (Z.rem delay_ms 1000 * 1000000)) w in
    if sr_ret r <? 0
    then (Err (from_errno (sr_errno r) (str "timerfd_settime")), (fd_destroy tfd w, l))
    else
      let id := next_timer_id_ l in
      let l := mkEpollLoop (epfd_ l) (timer_fd_to_id_ l) (timers_ l) (u64 (next_timer_id_ l + 1)) in
      let '(r, w) := sys (SysEpollCtl (fd_ (epfd_ l)) EPOLL_CTL_ADD (fd_ tfd) (Z.lor EPOLLIN EPOLLET)) w in
      if sr_ret r <? 0
      then (Err (from_errno (sr_errno r) (str "epoll add timer")), (fd_destroy tfd w, l))
      else
        (* emplace keeps an element that is already there; the new timer is
           then destroyed *)
        match timers_ l !! id with
        | None =>
            (Ok id, (w, mkEpollLoop (epfd_ l) (<[fd_ tfd := id]> (timer_fd_to_id_ l))
                          (<[id := mkTimer id tfd c]> (timers_ l)) (next_timer_id_ l)))
        | Some _ =>
            (Ok id, (fd_destroy tfd w, mkEpollLoop (epfd_ l) (<[fd_ tfd := id]> (timer_fd_to_id_ l))
                          (timers_ l) (next_timer_id_ l)))
        end.

Definition cancel_timer (id : Z) : M (World * L) unit := fun '(w, l) =>
  match timers_ l !! id with
  | None => (Ok tt, (w, l))
  | Some t =>
      let fd := fd_ (tfd t) in
      let '(_, w) := sys (SysEpollCtl (fd_ (epfd_ l)) EPOLL_CTL_DEL fd 0) w in
      (Ok tt, erase_timer fd id t (w, l))
  end.

End Loop.

#[global] Instance epoll_loop CB : EventLoop CB (EpollLoop CB) := {|
  el_add := add;
  el_modify := modify;
  el_remove := remove;
  el_poll := poll;
  el_add_timer := add_timer;
  el_cancel_timer := cancel_timer;
|}.

End Epoll.
