(* ===== verification/LoopKqueue.v ===== *)
(** * The event loop over kqueue (src/src/event_loop_kqueue.cpp) *)

From stdpp Require Import prelude gmap.
From S2P Require Import Prelude Result World Fd EventLoop.

Definition EVFILT_READ : Z := -1.
Definition EVFILT_WRITE : Z := -2.
Definition EVFILT_TIMER : Z := -7.

Definition EV_ADD : Z := 1.
Definition EV_DELETE : Z := 2.
Definition EV_ENABLE : Z := 4.
Definition EV_ONESHOT : Z := 16.
Definition EV_CLEAR : Z := 32.
Definition EV_ERROR : Z := 16384.
Definition EV_EOF : Z := 32768.

Module Kqueue.

Record KqueueLoop (CB : Type) := mkKqueueLoop {
  kqfd_ : Uniquefd;
  timers_ : gmap Z CB;       (* a Timer is its callback; its id is the key *)
  next_timer_id_ : Z;        (* uint64_t *)
  registered_ : gmap Z Z;    (* uint32_t *)
}.
Arguments mkKqueueLoop {CB}.
Arguments kqfd_ {CB}.
Arguments timers_ {CB}.
Arguments next_timer_id_ {CB}.
Arguments registered_ {CB}.

Section Loop.
Context {CB : Type}.
Abbreviation L := (KqueueLoop CB).

Definition create : World -> L * World := fun w =>
  let '(r, w) := sys SysKqueue w in (mkKqueueLoop (mkUniquefd (sr_ret r)) ∅ 1 ∅, w).

Definition put_registered (fd cur : Z) (l : L) : L :=
  mkKqueueLoop (kqfd_ l) (timers_ l) (next_timer_id_ l) (<[fd := cur]> (registered_ l)).

Definition kevent (changes : list (Z * Z * Z * Z)) (w : World) (l : L) : SysResult * World :=
  sys (SysKevent (fd_ (kqfd_ l)) changes) w.

(** One half of [apply]: register or unregister the filter that [bit]
    records.  [registered_[fd]] has created the entry before. *)
Definition apply_filter (fd events flag filter bit flags : Z) (op : bytes) (cur : Z) (l : L) : M World Z := fun w =>
  if has events flag then
    let '(r, w) := kevent [(fd, filter, flags, 0)] w l in
    if sr_ret r <? 0 then (Err (from_errno (sr_errno r) op), w) else (Ok (Z.lor cur bit), w)
  else if negb (Z.land cur bit =? 0) then
    let '(_, w) := kevent [(fd, filter, EV_DELETE, 0)] w l in (Ok (Z.ldiff cur bit), w)
  else (Ok cur, w).

Definition apply (fd events flags : Z) : M (World * L) unit := fun '(w, l) =>
  let cur := default 0 (registered_ l !! fd) in
  let l := put_registered fd cur l in
  match apply_filter fd events Event.Read EVFILT_READ 1 flags (str "kevent add read") cur l w with
  | (Err e, w) => (Err e, (w, l))
  | (Ok cur, w) =>
      match apply_filter fd events Event.Write EVFILT_WRITE 2 flags (str "kevent add write") cur l w with
      | (Err e, w) => (Err e, (w, l))
      | (Ok cur, w) => (Ok tt, (w, put_registered fd cur l))
      end
  end.

Definition add (fd events : Z) : M (World * L) unit := apply fd events (Z.lor EV_ADD (Z.lor EV_ENABLE EV_CLEAR)).
Definition modify (fd events : Z) : M (World * L) unit := apply fd events (Z.lor EV_ADD (Z.lor EV_ENABLE EV_CLEAR)).

Definition remove (fd : Z) : M (World * L) unit := fun '(w, l) =>
  let '(r, w) := kevent [(fd, EVFILT_READ, EV_DELETE, 0); (fd, EVFILT_WRITE, EV_DELETE, 0)] w l in
  if (sr_ret r <? 0) && negb (sr_errno r =? ENOENT)
  then (Err (from_errno (sr_errno r) (str "kevent delete")), (w, l)) else (Ok tt, (w, l)).

Definition event_of (filter flags : Z) : Z :=
  let e := Event.None_ in
  let e := if filter =? EVFILT_READ then Z.lor e Event.Read else e in
  let e := if filter =? EVFILT_WRITE then Z.lor e Event.Write else e in
  let e := if negb (Z.land flags EV_EOF =? 0) then Z.lor e Event.HangUp else e in
  if negb (Z.land flags EV_ERROR =? 0) then Z.lor e Event.Error else e.

Definition MAX_EVENTS : nat := 256.

Section Poll.
Context (S : Type) (v : View S L) (run_cb : CB -> S -> S) (callback : Z -> Z -> S -> S).

Definition poll_event (ev : Z * Z * Z) (s : S) : S :=
  let '(ident, filter, flags) := ev in
  if filter =? EVFILT_TIMER then
    let '(w, l) := view_get v s in
    match timers_ l !! ident with
    | Some c => run_cb c (view_put v (w, mkKqueueLoop (kqfd_ l) (delete ident (timers_ l)) (next_timer_id_ l) (registered_ l)) s)
    | None => s
    end
  else callback ident (event_of filter flags) s.

Definition poll (timeout_ms : Z) (s : S) : Result unit * S :=
  let '(w, l) := view_get v s in
  let '(r, w) := sys (SysKeventWait (fd_ (kqfd_ l)) timeout_ms) w in
  let s := view_put v (w, l) s in
  if sr_ret r <? 0 then
    (if sr_errno r =? EINTR then Ok tt else Err (from_errno (sr_errno r) (str "kevent poll")), s)
  else (Ok tt, foldl (fun s ev => poll_event ev s) s (take (Nat.min MAX_EVENTS (Z.to_nat (sr_ret r))) (sr_events r))).
End Poll.

Definition add_timer (delay_ms : Z) (c : CB) : M (World * L) Z := fun '(w, l) =>
  let id := next_timer_id_ l in
  let l := mkKqueueLoop (kqfd_ l) (timers_ l) (u64 (next_timer_id_ l + 1)) (registered_ l) in
  let '(r, w) := kevent [(id, EVFILT_TIMER, Z.lor EV_ADD (Z.lor EV_ENABLE EV_ONESHOT), delay_ms)] w l in
  if sr_ret r <? 0 then (Err (from_errno (sr_errno r) (str "kevent timer add")), (w, l))
  else
    let timers := match timers_ l !! id with None => <[id := c]> (timers_ l) | Some _ => timers_ l end in
    (Ok id, (w, mkKqueueLoop (kqfd_ l) timers (next_timer_id_ l) (registered_ l))).

Definition cancel_timer (id : Z) : M (World * L) unit := fun '(w, l) =>
  let '(r, w) := kevent [(id, EVFILT_TIMER, EV_DELETE, 0)] w l in
  if (sr_ret r <? 0) && negb (sr_errno r =? ENOENT)
  then (Err (from_errno (sr_errno r) (str "kevent timer delete")), (w, l))
  else (Ok tt, (w, mkKqueueLoop (kqfd_ l) (delete id (timers_ l)) (next_timer_id_ l) (registered_ l))).

End Loop.

#[global] Instance kqueue_loop CB : EventLoop CB (KqueueLoop CB) := {|
  el_add := add;
  el_modify := modify;
  el_remove := remove;
  el_poll := poll;
  el_add_timer := add_timer;
  el_cancel_timer := cancel_timer;
|}.

End Kqueue.
