(* ===== verification/Tls.v ===== *)
(** * TLS connections, as the proxy uses them (src/include/uproxy/tls.h)

    A [TLSConn] turns plaintext into ciphertext and back between two queues
    in memory; the proxy moves the ciphertext.  [TlsOps] is its public
    interface, which TlsFallback and TlsBoring implement, and [TlsSpec] is
    what the proxy relies on.  [tls_run] records what a connection has taken
    and handed out over a series of calls. *)

From stdpp Require Import prelude.
From S2P Require Import Prelude Result Config.

Inductive TLSHandshakeState := HandshakePending | HandshakeDone.

#[global] Instance TLSHandshakeState_eq_dec : EqDecision TLSHandshakeState.
Proof. solve_decision. Defined.

(** The functions that fill a span return the bytes they put there; their
    number is the result of the code. *)
Class TlsOps (T : Type) := {
  tls_do_handshake : M T TLSHandshakeState;
  tls_feed_encrypted : bytes -> M T unit;
  tls_take_encrypted : Z -> M T bytes;
  tls_read : Z -> M T bytes;
  tls_write : bytes -> M T Z;
  tls_want_read : T -> bool;
  tls_want_write : T -> bool;
  tls_alpn_protocol : T -> bytes;
  tls_shutdown : M T unit;
  (* an upper bound on the reads that can still succeed with what was fed *)
  tls_readable_bound : T -> nat;
}.

(** [TLSContext::server], [TLSContext::client] and the constructor of [TLSConn]. *)
Class TlsContext (Ctx T : Type) := {
  ctx_server : TLSConfig -> Result Ctx;
  ctx_client : Result Ctx;
  conn_make : option Ctx -> bool -> T;
}.

(** What the proxy relies on.  [cipher_out] is the ciphertext produced and
    not taken yet. *)
Class TlsSpec (T : Type) `{TlsOps T} := {
  cipher_out : T -> bytes;
  take_encrypted_prefix n t r t' :
    0 < n < 2 ^ 31 -> tls_take_encrypted n t = (r, t') ->
    match r with
    | Ok d => cipher_out t = d ++ cipher_out t' /\ len d <= n /\ (d = [] -> cipher_out t' = [])
    | Err _ => cipher_out t' = cipher_out t
    end;
  write_appends d t r t' :
    tls_write d t = (r, t') ->
    (exists c, cipher_out t' = cipher_out t ++ c) /\ match r with Ok n => 0 <= n <= len d | Err _ => True end;
  write_progress d t n t' : d <> [] -> tls_write d t = (Ok n, t') -> 0 < n;
  read_appends n t r t' :
    0 < n < 2 ^ 31 -> tls_read n t = (r, t') ->
    (exists c, cipher_out t' = cipher_out t ++ c) /\
    match r with
    | Ok d => d <> [] /\ len d <= n /\ (tls_readable_bound t' < tls_readable_bound t)%nat
    | Err _ => True
    end;
  feed_appends d t r t' : tls_feed_encrypted d t = (r, t') -> exists c, cipher_out t' = cipher_out t ++ c;
  handshake_appends t r t' : tls_do_handshake t = (r, t') -> exists c, cipher_out t' = cipher_out t ++ c;
}.

(** ** Output through a TLS connection

    [tls_run t p q t']: by calls of [tls_write] and [tls_take_encrypted] the
    connection has gone from [t] to [t'], has taken the plaintext [p], as its
    answers to the writes say, and has handed out the ciphertext [q]. *)
Inductive tls_run {T} `{TlsOps T} : T -> bytes -> bytes -> T -> Prop :=
  | tls_idle t : tls_run t [] [] t
  | tls_wrote t d n t1 p q t' :
      tls_write d t = (Ok n, t1) -> tls_run t1 p q t' -> tls_run t (take (Z.to_nat n) d ++ p) q t'
  | tls_wrote_none t d e t1 p q t' : tls_write d t = (Err e, t1) -> tls_run t1 p q t' -> tls_run t p q t'
  | tls_took t n d t1 p q t' :
      tls_take_encrypted n t = (Ok d, t1) -> tls_run t1 p q t' -> tls_run t p (d ++ q) t'
  | tls_took_none t n e t1 p q t' : tls_take_encrypted n t = (Err e, t1) -> tls_run t1 p q t' -> tls_run t p q t'.

Lemma tls_run_trans {T} `{TlsOps T} t1 p q t2 p' q' t3 :
  tls_run t1 p q t2 -> tls_run t2 p' q' t3 -> tls_run t1 (p ++ p') (q ++ q') t3.
Proof.
  intros Hr Hr'. induction Hr as [t|t d n t1 p q t2 E _ IH|t d e t1 p q t2 E _ IH|t n d t1 p q t2 E _ IH|t n e t1 p q t2 E _ IH];
    rewrite <- ?app_assoc; [done|..]; specialize (IH Hr'); by econstructor.
Qed.
