(* ===== verification/TlsFallback.v ===== *)
(** * The build without BoringSSL (the [#else] part of src/src/tls.cpp)

    Bytes pass through unchanged; a context for enabled TLS cannot be made.
    An object that was moved from is never used again, so [impl_] is always
    there. *)

From stdpp Require Import prelude.
From S2P Require Import Prelude Result Config Tls.

Module Fallback.

Record TLSContextImpl := mkContext { ctx_is_server : bool; ctx_cfg : TLSConfig }.

Record TLSConnImpl := mkImpl {
  impl_ctx : option TLSContextImpl;      (* None is nullptr *)
  impl_server : bool;
  inbound : bytes;
  outbound : bytes;
  conn_alpn : bytes;
}.

Record TLSConn := mkConn { impl_ : TLSConnImpl; handshake_done_ : bool }.

Definition context_server (cfg : TLSConfig) : Result TLSContextImpl :=
  if tls_enabled cfg
  then Err (from_code TlsHandshake
              (str "BoringSSL submodule is required for TLS; run with --no-tls in fallback builds"))
  else Ok (mkContext true cfg).

(** [TLSConfig_default] is the [cfg] member of a fresh object. *)
Definition context_client : Result TLSContextImpl := Ok (mkContext false TLSConfig_default).

Definition TLSConn_make (ctx : option TLSContextImpl) (is_server : bool) : TLSConn :=
  mkConn (mkImpl ctx is_server [] [] (str "http/1.1")) (negb is_server).

Definition set_inbound (d : bytes) (c : TLSConn) : TLSConn :=
  mkConn (mkImpl (impl_ctx (impl_ c)) (impl_server (impl_ c)) d (outbound (impl_ c)) (conn_alpn (impl_ c))) (handshake_done_ c).

Definition set_outbound (d : bytes) (c : TLSConn) : TLSConn :=
  mkConn (mkImpl (impl_ctx (impl_ c)) (impl_server (impl_ c)) (inbound (impl_ c)) d (conn_alpn (impl_ c))) (handshake_done_ c).

Definition do_handshake : M TLSConn TLSHandshakeState := fun c =>
  if match impl_ctx (impl_ c) with Some ctx => tls_enabled (ctx_cfg ctx) | None => false end
  then (Err (from_code TlsHandshake (str "TLS unavailable in fallback build")), c)
  else (Ok HandshakeDone, mkConn (impl_ c) true).

Definition feed_encrypted (d : bytes) : M TLSConn unit := fun c =>
  (Ok tt, set_inbound (inbound (impl_ c) ++ d) c).

(** The loop of [n] turns moves the front byte [n] times. *)
Definition take_encrypted (size : Z) : M TLSConn bytes := fun c =>
  let n := Z.to_nat (Z.min size (len (outbound (impl_ c)))) in
  (Ok (take n (outbound (impl_ c))), set_outbound (drop n (outbound (impl_ c))) c).

Definition read (size : Z) : M TLSConn bytes := fun c =>
  if negb (handshake_done_ c) then (Err (from_code WouldBlock (str "handshake pending")), c)
  else
    let n := Z.min size (len (inbound (impl_ c))) in
    if n =? 0 then (Err (from_code WouldBlock (str "no TLS data")), c)
    else (Ok (take (Z.to_nat n) (inbound (impl_ c))), set_inbound (drop (Z.to_nat n) (inbound (impl_ c))) c).

Definition write (d : bytes) : M TLSConn Z := fun c =>
  if negb (handshake_done_ c) then (Err (from_code WouldBlock (str "handshake pending")), c)
  else (Ok (len d), set_outbound (outbound (impl_ c) ++ d) c).

Definition want_read (c : TLSConn) : bool := bool_decide (inbound (impl_ c) = []).
Definition want_write (c : TLSConn) : bool := negb (bool_decide (outbound (impl_ c) = [])).
Definition alpn_protocol (c : TLSConn) : bytes := conn_alpn (impl_ c).
Definition shutdown : M TLSConn unit := fun c => (Ok tt, mkConn (impl_ c) false).

#[global] Instance fallback_tls : TlsOps TLSConn := {|
  tls_do_handshake := do_handshake;
  tls_feed_encrypted := feed_encrypted;
  tls_take_encrypted := take_encrypted;
  tls_read := read;
  tls_write := write;
  tls_want_read := want_read;
  tls_want_write := want_write;
  tls_alpn_protocol := alpn_protocol;
  tls_shutdown := shutdown;
  tls_readable_bound := fun c => length (inbound (impl_ c));
|}.

#[global] Instance fallback_context : TlsContext TLSContextImpl TLSConn := {|
  ctx_server := context_server;
  ctx_client := context_client;
  conn_make := TLSConn_make;
|}.

#[global] Instance fallback_spec : TlsSpec TLSConn.
Proof.
  refine {| cipher_out c := outbound (impl_ c) |}.
  - intros n t r t' Hn E. cbn in E. unfold take_encrypted in E. simplify_eq. cbn.
    pose proof (len_nonneg (outbound (impl_ t))). rewrite take_drop. split_and!; [done|len_lia|].
    intros Ht. apply (f_equal length) in Ht. rewrite length_take in Ht. cbn in Ht.
    apply drop_ge. len_lia.
  - intros d t r t' E. cbn in E. unfold write in E. destruct (negb (handshake_done_ t)); simplify_eq; cbn.
    + split; [exists []; by rewrite app_nil_r|done].
    + split; [by exists d|]. pose proof (len_nonneg d). lia.
  - intros d t n t' Hd E. cbn in E. unfold write in E. destruct (negb (handshake_done_ t)); simplify_eq.
    destruct d; [done|]. rewrite len_cons. pose proof (len_nonneg d). lia.
  - intros n t r t' Hn E. cbn in E. unfold read in E.
    destruct (negb (handshake_done_ t)); [simplify_eq; split; [exists []; by rewrite app_nil_r|done]|].
    pose proof (len_nonneg (inbound (impl_ t))).
    destruct (Z.eqb_spec (Z.min n (len (inbound (impl_ t)))) 0); simplify_eq; cbn.
    + split; [exists []; by rewrite app_nil_r|done].
    + split; [exists []; by rewrite app_nil_r|]. split_and!.
      * intros Ht. apply (f_equal length) in Ht. rewrite length_take in Ht. cbn in Ht. len_lia.
      * len_lia.
      * rewrite length_drop. len_lia.
  - intros d t r t' E. cbn in E. unfold feed_encrypted in E. simplify_eq. cbn. exists []. by rewrite app_nil_r.
  - intros t r t' E. cbn in E. unfold do_handshake in E.
    destruct (match impl_ctx (impl_ t) with Some _ => _ | None => _ end); simplify_eq; cbn;
      exists []; by rewrite app_nil_r.
Defined.

End Fallback.
