(* ===== verification/TlsBoring.v ===== *)
(** * The build with BoringSSL (the first part of src/src/tls.cpp)

    The library is a parameter: [SslLib] lists the functions the code calls
    on a context and on an SSL object with its two memory BIOs, and [SslSpec]
    states the documented behaviour the proxy relies on.  The negotiation
    callback [alpn_select_cb] is the proxy's own code. *)

From stdpp Require Import prelude.
From S2P Require Import Prelude Result Config Tls.

(** ** Protocol negotiation *)

(** The loop over the client's list: a length byte and that many bytes, until
    the list ends or an entry does not fit.  The results are [has_h2] and
    [has_h1]. *)
Fixpoint alpn_scan (fuel : nat) (rest : bytes) (has_h2 has_h1 : bool) : bool * bool :=
  match fuel, rest with
  | S fuel', c :: rest' =>
      let n := b2z c in
      if len rest' <? n then (has_h2, has_h1)
      else
        let proto := take (Z.to_nat n) rest' in
        alpn_scan fuel' (drop (Z.to_nat n) rest')
          (if bool_decide (proto = str "h2") then true else has_h2)
          (if bool_decide (proto = str "http/1.1") then true else has_h1)
  | _, _ => (has_h2, has_h1)
  end.

(** [None] is [SSL_TLSEXT_ERR_NOACK]. *)
Definition alpn_select_cb (in_ : bytes) : option bytes :=
  let '(has_h2, has_h1) := alpn_scan (length in_) in_ false false in
  if has_h2 then Some (str "h2") else if has_h1 then Some (str "http/1.1") else None.

(** ** The library *)

Definition SSL_ERROR_WANT_READ : Z := 2.
Definition SSL_ERROR_WANT_WRITE : Z := 3.

Class SslLib (C X : Type) := {
  SSL_CTX_new : bool -> option C;                       (* for a server method, or a client's *)
  SSL_CTX_use_certificate_chain_file : bytes -> C -> Z * C;
  SSL_CTX_use_PrivateKey_file : bytes -> C -> Z * C;
  SSL_CTX_check_private_key : C -> Z;
  SSL_CTX_set_alpn_select_cb : (bytes -> option bytes) -> C -> C;
  SSL_new : bool -> C -> X;                             (* with its BIOs, in accept or connect state *)
  SSL_do_handshake : X -> Z * X;
  SSL_get_error : Z -> X -> Z;
  SSL_get0_alpn_selected : X -> bytes;
  BIO_write : bytes -> X -> Z * X;                      (* to the BIO the SSL object reads from *)
  BIO_read : Z -> X -> Z * bytes * X;                   (* from the BIO it writes to *)
  BIO_should_retry : X -> bool;
  BIO_pending : X -> Z;
  SSL_read : Z -> X -> Z * bytes * X;
  SSL_write : bytes -> X -> Z * X;
  SSL_shutdown : X -> X;
  ssl_buffered : X -> nat;                              (* bytes fed and not read yet *)
}.

(** A memory BIO is a queue; the SSL object only adds records to the one it
    writes to. *)
Class SslSpec (C X : Type) `{SslLib C X} := {
  ssl_out : X -> bytes;
  BIO_read_queue n x k d x' :
    0 < n -> BIO_read n x = (k, d, x') ->
    (0 < k -> k = len d /\ len d <= n /\ ssl_out x = d ++ ssl_out x') /\
    (k <= 0 -> ssl_out x = [] /\ ssl_out x' = []);
  SSL_write_out d x k x' : SSL_write d x = (k, x') -> (exists c, ssl_out x' = ssl_out x ++ c) /\ k <= len d;
  SSL_read_out n x k d x' :
    SSL_read n x = (k, d, x') ->
    (exists c, ssl_out x' = ssl_out x ++ c) /\
    (0 < k -> k = len d /\ len d <= n /\ (ssl_buffered x' < ssl_buffered x)%nat);
  BIO_write_out d x k x' : BIO_write d x = (k, x') -> exists c, ssl_out x' = ssl_out x ++ c;
  SSL_do_handshake_out x k x' : SSL_do_handshake x = (k, x') -> exists c, ssl_out x' = ssl_out x ++ c;
}.

Module Boring.

Section Build.
Context {C X : Type} {lib : SslLib C X}.

Record TLSContextImpl := mkContext { ctx_is_server : bool; ctx_cfg : TLSConfig; ssl_ctx : option C }.

Record TLSConnImpl := mkImpl { impl_ctx : option TLSContextImpl; impl_server : bool; ssl : option X; conn_alpn : bytes }.

Record TLSConn := mkConn { impl_ : TLSConnImpl; handshake_done_ : bool }.

Definition context_server (cfg : TLSConfig) : Result TLSContextImpl :=
  if negb (tls_enabled cfg) then Ok (mkContext true cfg None)
  else
    match SSL_CTX_new true with
    | None => Err (from_code SysError (str "SSL_CTX_new failed"))
    | Some c =>
        let '(r, c) := SSL_CTX_use_certificate_chain_file (cert_file cfg) c in
        if negb (r =? 1) then Err (from_code ConfigInvalid (str "Failed to load cert_file"))
        else
          let '(r, c) := SSL_CTX_use_PrivateKey_file (key_file cfg) c in
          if negb (r =? 1) then Err (from_code ConfigInvalid (str "Failed to load key_file"))
          else if negb (SSL_CTX_check_private_key c =? 1)
          then Err (from_code ConfigInvalid (str "Private key does not match certificate"))
          else Ok (mkContext true cfg (Some (SSL_CTX_set_alpn_select_cb alpn_select_cb c)))
    end.

Definition context_client : Result TLSContextImpl :=
  match SSL_CTX_new false with
  | None => Err (from_code SysError (str "SSL_CTX_new failed"))
  | Some c => Ok (mkContext false TLSConfig_default (Some c))
  end.

Definition TLSConn_make (ctx : option TLSContextImpl) (is_server : bool) : TLSConn :=
  let ssl := match ctx with
             | Some c => match ssl_ctx c with Some sc => Some (SSL_new is_server sc) | None => None end
             | None => None
             end in
  mkConn (mkImpl ctx is_server ssl (str "http/1.1")) (negb is_server).

Definition set_ssl (x : X) (c : TLSConn) : TLSConn :=
  mkConn (mkImpl (impl_ctx (impl_ c)) (impl_server (impl_ c)) (Some x) (conn_alpn (impl_ c))) (handshake_done_ c).

Definition want_retry (err : Z) : bool := (err =? SSL_ERROR_WANT_READ) || (err =? SSL_ERROR_WANT_WRITE).

Definition do_handshake : M TLSConn TLSHandshakeState := fun c =>
  match ssl (impl_ c) with
  | None => (Ok HandshakeDone, mkConn (impl_ c) true)
  | Some x =>
      if handshake_done_ c then (Ok HandshakeDone, c)
      else
        let '(ret, x) := SSL_do_handshake x in
        if ret =? 1 then
          let sel := SSL_get0_alpn_selected x in
          let alpn := if bool_decide (sel = []) then conn_alpn (impl_ c) else sel in
          (Ok HandshakeDone, mkConn (mkImpl (impl_ctx (impl_ c)) (impl_server (impl_ c)) (Some x) alpn) true)
        else if want_retry (SSL_get_error ret x) then (Ok HandshakePending, set_ssl x c)
        else (Err (from_code TlsHandshake (str "TLS handshake failed")), set_ssl x c)
  end.

Definition feed_encrypted (d : bytes) : M TLSConn unit := fun c =>
  match ssl (impl_ c) with
  | None => (Ok tt, c)
  | Some x =>
      if bool_decide (d = []) then (Ok tt, c)
      else
        let '(ret, x) := BIO_write d x in
        if ret <=? 0 then (Err (from_code SysError (str "BIO_write failed")), set_ssl x c)
        else (Ok tt, set_ssl x c)
  end.

Definition take_encrypted (size : Z) : M TLSConn bytes := fun c =>
  match ssl (impl_ c) with
  | None => (Ok [], c)
  | Some x =>
      let '(ret, d, x) := BIO_read (i32 size) x in
      if 0 <? ret then (Ok d, set_ssl x c)
      else if BIO_should_retry x then (Ok [], set_ssl x c)
      else (Err (from_code SysError (str "BIO_read failed")), set_ssl x c)
  end.

Definition read (size : Z) : M TLSConn bytes := fun c =>
  match ssl (impl_ c) with
  | None => (Err (from_code WouldBlock (str "no mock data")), c)
  | Some x =>
      if negb (handshake_done_ c) then (Err (from_code WouldBlock (str "handshake pending")), c)
      else
        let '(ret, d, x) := SSL_read (i32 size) x in
        if 0 <? ret then (Ok d, set_ssl x c)
        else if want_retry (SSL_get_error ret x) then (Err (from_code WouldBlock (str "SSL_read would block")), set_ssl x c)
        else (Err (from_code SysError (str "SSL_read failed")), set_ssl x c)
  end.

(** The length passed to the library is an [int]: what it sees of the data is
    that many bytes, none when the conversion is negative. *)
Definition write (d : bytes) : M TLSConn Z := fun c =>
  match ssl (impl_ c) with
  | None => (Err (from_code WouldBlock (str "no mock data")), c)
  | Some x =>
      if negb (handshake_done_ c) then (Err (from_code WouldBlock (str "handshake pending")), c)
      else
        let '(ret, x) := SSL_write (take (Z.to_nat (i32 (len d))) d) x in
        if 0 <? ret then (Ok ret, set_ssl x c)
        else if want_retry (SSL_get_error ret x) then (Err (from_code WouldBlock (str "SSL_write would block")), set_ssl x c)
        else (Err (from_code SysError (str "SSL_write failed")), set_ssl x c)
  end.

Definition want_read (c : TLSConn) : bool := true.

Definition want_write (c : TLSConn) : bool :=
  match ssl (impl_ c) with None => false | Some x => 0 <? BIO_pending x end.

Definition alpn_protocol (c : TLSConn) : bytes := conn_alpn (impl_ c).

Definition shutdown : M TLSConn unit := fun c =>
  (Ok tt, mkConn (mkImpl (impl_ctx (impl_ c)) (impl_server (impl_ c)) (SSL_shutdown <$> ssl (impl_ c)) (conn_alpn (impl_ c))) false).

#[global] Instance boring_tls : TlsOps TLSConn := {|
  tls_do_handshake := do_handshake;
  tls_feed_encrypted := feed_encrypted;
  tls_take_encrypted := take_encrypted;
  tls_read := read;
  tls_write := write;
  tls_want_read := want_read;
  tls_want_write := want_write;
  tls_alpn_protocol := alpn_protocol;
  tls_shutdown := shutdown;
  tls_readable_bound := fun c => match ssl (impl_ c) with Some x => ssl_buffered x | None => O end;
|}.

#[global] Instance boring_context : TlsContext TLSContextImpl TLSConn := {|
  ctx_server := context_server;
  ctx_client := context_client;
  conn_make := TLSConn_make;
|}.

(** ** The interface, from the documented behaviour of the library *)

Context `{!SslSpec C X}.

Definition boring_out (c : TLSConn) : bytes := match ssl (impl_ c) with Some x => ssl_out x | None => [] end.

Lemma length_take_len {A} n (l : list A) : len (take n l) = Z.min (Z.of_nat n) (len l).
Proof. unfold len. rewrite length_take. lia. Qed.


#[global] Instance boring_spec : TlsSpec TLSConn.
Proof.
  refine {| cipher_out := boring_out |}.
  - intros n t r t' Hn E. cbn in E. unfold take_encrypted in E. rewrite i32_small in E by lia.
    unfold boring_out. destruct (ssl (impl_ t)) as [x|] eqn:Ex; [|simplify_eq; rewrite Ex; split_and!; [done|rewrite len_nil; lia|done]].
    destruct (BIO_read n x) as [[k d] x'] eqn:Er. apply BIO_read_queue in Er as [Hp Hz]; [|lia].
    destruct (Z.ltb_spec 0 k) as [Hk|Hk].
    + simplify_eq. cbn. destruct (Hp Hk) as (-> & Hl & ->). split_and!; [done|done|]. intros ->. by destruct (Z.lt_irrefl 0).
    + destruct (Hz Hk) as [H1 H2]. destruct (BIO_should_retry x'); simplify_eq; cbn; rewrite H1, H2; [|done].
      split_and!; [done|rewrite len_nil; lia|done].
  - intros d t r t' E. cbn in E. unfold write in E. unfold boring_out.
    destruct (ssl (impl_ t)) as [x|] eqn:Ex; [|simplify_eq; rewrite Ex; split; [by exists []|done]].
    destruct (negb (handshake_done_ t)); [simplify_eq; rewrite Ex; split; [exists []; by rewrite app_nil_r|done]|].
    destruct (SSL_write _ x) as [k x'] eqn:Ew. apply SSL_write_out in Ew as [Ho Hk].
    destruct (Z.ltb_spec 0 k); [simplify_eq; cbn; split; [done|]|].
    + split; [lia|]. etrans; [exact Hk|]. rewrite length_take_len. lia.
    + destruct (want_retry _); simplify_eq; cbn; done.
  - intros d t n t' Hd E. cbn in E. unfold write in E. destruct (ssl (impl_ t)) as [x|]; [|done].
    destruct (negb (handshake_done_ t)); [done|]. destruct (SSL_write _ x) as [k x'].
    destruct (Z.ltb_spec 0 k); [by simplify_eq|]. destruct (want_retry _); done.
  - intros n t r t' Hn E. cbn in E. unfold read in E. rewrite i32_small in E by lia. unfold boring_out. cbn.
    destruct (ssl (impl_ t)) as [x|] eqn:Ex; [|simplify_eq; rewrite Ex; split; [by exists []|done]].
    destruct (negb (handshake_done_ t)); [simplify_eq; rewrite Ex; split; [exists []; by rewrite app_nil_r|done]|].
    destruct (SSL_read n x) as [[k d] x'] eqn:Er. apply SSL_read_out in Er as [Ho Hk].
    destruct (Z.ltb_spec 0 k) as [Hp|Hp]; [simplify_eq; cbn; split; [done|]|].
    + destruct (Hk Hp) as (-> & Hl & Hb). split_and!; [|done|done]. intros ->. by destruct (Z.lt_irrefl 0).
    + destruct (want_retry _); simplify_eq; cbn; done.
  - intros d t r t' E. cbn in E. unfold feed_encrypted in E. unfold boring_out.
    destruct (ssl (impl_ t)) as [x|] eqn:Ex; [|simplify_eq; rewrite Ex; by exists []].
    destruct (bool_decide (d = [])); [simplify_eq; rewrite Ex; exists []; by rewrite app_nil_r|].
    destruct (BIO_write d x) as [k x'] eqn:Ew. apply BIO_write_out in Ew.
    destruct (_ <=? _); simplify_eq; done.
  - intros t r t' E. cbn in E. unfold do_handshake in E. unfold boring_out.
    destruct (ssl (impl_ t)) as [x|] eqn:Ex; [|simplify_eq; cbn; rewrite Ex; by exists []].
    destruct (handshake_done_ t); [simplify_eq; rewrite Ex; exists []; by rewrite app_nil_r|].
    destruct (SSL_do_handshake x) as [k x'] eqn:Ew. apply SSL_do_handshake_out in Ew.
    destruct (_ =? _); [simplify_eq; done|]. destruct (want_retry _); simplify_eq; done.
Defined.
End Build.

Arguments TLSContextImpl : clear implicits.
Arguments TLSConnImpl : clear implicits.
Arguments TLSConn : clear implicits.
End Boring.
