(* ===== verification/Client.v ===== *)
(** * Client connections: moving bytes
    (src/include/uproxy/proxy.h, and the functions of src/src/proxy.cpp that
    read from and write to a client)

    A connection is written over any buffer and any TLS implementation.  The
    members of [ClientConn] that the sources never use ([current_req],
    [upstream_conn], [up_rbuf], [up_wbuf], [request_at_ms]) are left out, and
    [h1parser] has no state.  Loops are bounded by the answers the system
    still gives, by the bytes in the buffer and by the reads a TLS object can
    still serve; ClientProofs shows that no bound is ever reached. *)

From stdpp Require Import prelude gmap.
From S2P Require Import Prelude Result CxxString Buffer Config World Fd Tls Http1 Hpack Http2 Forward.

Inductive ConnState := TLSHandshake | ReadRequest | ConnectUpstream | SendRequest | ReadResponse | SendResponse | Done | ConnError.

#[global] Instance ConnState_eq_dec : EqDecision ConnState.
Proof. solve_decision. Defined.

Inductive ClientProto := ProtoHTTP1 | ProtoHTTP2.

#[global] Instance ClientProto_eq_dec : EqDecision ClientProto.
Proof. solve_decision. Defined.

Section OnBuffer.
Context {B T : Type} `{BufferOps B} `{TlsOps T}.

Record ClientConn := mkClient {
  cc_fd : Uniquefd;
  cc_state : ConnState;
  cc_proto : ClientProto;
  rbuf : B;
  wbuf : B;
  keep_alive : bool;
  req_count : Z;                (* int *)
  h2conn : option (H2Conn B);
  cc_upstream : option nat;
  connected_at_ms : Z;
  remote_addr : bytes;
  tls_conn : option T;
  tls_pending : B;
}.

Definition ClientConn_default : ClientConn :=
  mkClient fd_none ReadRequest ProtoHTTP1 (buf_new 65536) (buf_new 65536) true 0 None None 0 [] None (buf_new 65536).

(** Writes of single members. *)
Definition set_rbuf (b : B) (c : ClientConn) : ClientConn :=
  mkClient (cc_fd c) (cc_state c) (cc_proto c) b (wbuf c) (keep_alive c) (req_count c) (h2conn c) (cc_upstream c)
    (connected_at_ms c) (remote_addr c) (tls_conn c) (tls_pending c).
Definition set_wbuf (b : B) (c : ClientConn) : ClientConn :=
  mkClient (cc_fd c) (cc_state c) (cc_proto c) (rbuf c) b (keep_alive c) (req_count c) (h2conn c) (cc_upstream c)
    (connected_at_ms c) (remote_addr c) (tls_conn c) (tls_pending c).
Definition set_tls_conn (t : T) (c : ClientConn) : ClientConn :=
  mkClient (cc_fd c) (cc_state c) (cc_proto c) (rbuf c) (wbuf c) (keep_alive c) (req_count c) (h2conn c) (cc_upstream c)
    (connected_at_ms c) (remote_addr c) (Some t) (tls_pending c).
Definition set_tls_pending (b : B) (c : ClientConn) : ClientConn :=
  mkClient (cc_fd c) (cc_state c) (cc_proto c) (rbuf c) (wbuf c) (keep_alive c) (req_count c) (h2conn c) (cc_upstream c)
    (connected_at_ms c) (remote_addr c) (tls_conn c) b.
Definition set_keep_alive (k : bool) (c : ClientConn) : ClientConn :=
  mkClient (cc_fd c) (cc_state c) (cc_proto c) (rbuf c) (wbuf c) k (req_count c) (h2conn c) (cc_upstream c)
    (connected_at_ms c) (remote_addr c) (tls_conn c) (tls_pending c).
Definition set_req_count (n : Z) (c : ClientConn) : ClientConn :=
  mkClient (cc_fd c) (cc_state c) (cc_proto c) (rbuf c) (wbuf c) (keep_alive c) n (h2conn c) (cc_upstream c)
    (connected_at_ms c) (remote_addr c) (tls_conn c) (tls_pending c).
Definition set_h2conn (h : H2Conn B) (c : ClientConn) : ClientConn :=
  mkClient (cc_fd c) (cc_state c) (cc_proto c) (rbuf c) (wbuf c) (keep_alive c) (req_count c) (Some h) (cc_upstream c)
    (connected_at_ms c) (remote_addr c) (tls_conn c) (tls_pending c).
Definition set_upstream (i : nat) (c : ClientConn) : ClientConn :=
  mkClient (cc_fd c) (cc_state c) (cc_proto c) (rbuf c) (wbuf c) (keep_alive c) (req_count c) (h2conn c) (Some i)
    (connected_at_ms c) (remote_addr c) (tls_conn c) (tls_pending c).
Definition set_ready (p : ClientProto) (c : ClientConn) : ClientConn :=
  mkClient (cc_fd c) ReadRequest p (rbuf c) (wbuf c) (keep_alive c) (req_count c) (h2conn c) (cc_upstream c)
    (connected_at_ms c) (remote_addr c) (tls_conn c) (tls_pending c).

(** What these functions change: the connection and the calls made. *)
Abbreviation Conn := (ClientConn * World)%type.

Definition would_block (errno : Z) : bool := (errno =? EAGAIN) || (errno =? EWOULDBLOCK).

Definition tls_write_blocked : Error := from_code WouldBlock (str "tls write").

(** A loop whose bound is used up. *)
Definition stuck {A S} : M S A := fail_with (from_errno EIO []).

(** ** flush_tls_ciphertext *)

(** [while (conn.tls_pending.readable() > 0)]. *)
Fixpoint flush_pending (fuel : nat) (fd : Z) : M Conn unit := fun '(c, w) =>
  if buf_readable (tls_pending c) <=? 0 then (Ok tt, (c, w))
  else
    let again s := match fuel with O => stuck s | S fuel' => flush_pending fuel' fd s end in
    let '(sent, errno, w) := sys_send fd (contents (tls_pending c)) w in
    if 0 <? sent then again (set_tls_pending (buf_commit_read (tls_pending c) sent) c, w)
    else if (sent <? 0) && (errno =? EINTR) then again (c, w)
    else if (sent <? 0) && would_block errno then (Err tls_write_blocked, (c, w))
    else (Err (from_errno errno (str "tls write")), (c, w)).

(** [while (off < encrypted.value())]: [rest] is what is left of the chunk. *)
Fixpoint send_chunk (fuel : nat) (fd : Z) (rest : bytes) : M Conn unit := fun '(c, w) =>
  if len rest =? 0 then (Ok tt, (c, w))
  else
    let again rest s := match fuel with O => stuck s | S fuel' => send_chunk fuel' fd rest s end in
    let '(sent, errno, w) := sys_send fd rest w in
    if 0 <? sent then again (drop (Z.to_nat sent) rest) (c, w)
    else if (sent <? 0) && (errno =? EINTR) then again rest (c, w)
    else if (sent <? 0) && would_block errno then
      match buf_append rest (tls_pending c) with
      | (Err e, b) => (Err e, (set_tls_pending b c, w))
      | (Ok _, b) => (Err tls_write_blocked, (set_tls_pending b c, w))
      end
    else (Err (from_errno errno (str "tls write")), (c, w)).

Definition TLS_CHUNK : Z := 8192.

(** The [for (;;)] over the chunks of new ciphertext. *)
Fixpoint flush_fresh (fuel : nat) (fd : Z) : M Conn unit := fun '(c, w) =>
  match tls_conn c with
  | None => (Ok tt, (c, w))
  | Some t =>
      let '(encrypted, t) := tls_take_encrypted TLS_CHUNK t in
      let c := set_tls_conn t c in
      match encrypted with
      | Err e => (Err e, (c, w))
      | Ok d =>
          if len d =? 0 then (Ok tt, (c, w))
          else
            match send_chunk (length (script w)) fd d (c, w) with
            | (Err e, s) => (Err e, s)
            | (Ok _, s) => match fuel with O => stuck s | S fuel' => flush_fresh fuel' fd s end
            end
      end
  end.

Definition flush_tls_ciphertext (fd : Z) : M Conn unit := fun '(c, w) =>
  match tls_conn c with
  | None => (Ok tt, (c, w))
  | Some _ =>
      match flush_pending (length (script w)) fd (c, w) with
      | (Err e, s) => (Err e, s)
      | (Ok _, (c, w)) => flush_fresh (length (script w)) fd (c, w)
      end
  end.

(** ** read_client_input *)

Definition append_client_plaintext (d : bytes) (c : ClientConn) : Result unit * ClientConn :=
  let '(r, b) := buf_append d (rbuf c) in (r, set_rbuf b c).

Definition CLIENT_RECV : Z := 8192.

(** What a received block is: ciphertext, or input. *)
Definition take_input (d : bytes) (c : ClientConn) : Result unit * ClientConn :=
  match tls_conn c with
  | Some t => let '(r, t) := tls_feed_encrypted d t in (r, set_tls_conn t c)
  | None => append_client_plaintext d c
  end.

(** The first [for (;;)]; the result is [saw_eof]. *)
Fixpoint recv_loop (fuel : nat) (fd : Z) : M Conn bool := fun '(c, w) =>
  let again s := match fuel with O => stuck s | S fuel' => recv_loop fuel' fd s end in
  let '(n, errno, d, w) := sys_recv fd CLIENT_RECV w in
  if 0 <? n then
    match take_input d c with
    | (Err e, c) => (Err e, (c, w))
    | (Ok _, c) => again (c, w)
    end
  else if n =? 0 then (Ok true, (c, w))
  else if errno =? EINTR then again (c, w)
  else if would_block errno then (Ok false, (c, w))
  else (Err (from_errno errno (str "read client")), (c, w)).

(** The [for (;;)] over the decrypted data. *)
Fixpoint decrypt_loop (fuel : nat) (c : ClientConn) : Result unit * ClientConn :=
  match tls_conn c with
  | None => (Ok tt, c)
  | Some t =>
      let '(decrypted, t) := tls_read CLIENT_RECV t in
      let c := set_tls_conn t c in
      match decrypted with
      | Ok d =>
          match append_client_plaintext d c with
          | (Err e, c) => (Err e, c)
          | (Ok _, c) => match fuel with O => stuck c | S fuel' => decrypt_loop fuel' c end
          end
      | Err e => if is_would_block e then (Ok tt, c) else (Err e, c)
      end
  end.

(** An error that only says "later" is dropped. *)
Definition unless_blocked {S} (r : Result unit * S) : Result unit * S :=
  match r with
  | (Err e, s) => if is_would_block e then (Ok tt, s) else (Err e, s)
  | r => r
  end.

Definition read_client_input (fd : Z) : M Conn bool := fun '(c, w) =>
  match recv_loop (length (script w)) fd (c, w) with
  | (Err e, s) => (Err e, s)
  | (Ok saw_eof, (c, w)) =>
      match tls_conn c with
      | None => (Ok saw_eof, (c, w))
      | Some t =>
          match decrypt_loop (tls_readable_bound t) c with
          | (Err e, c) => (Err e, (c, w))
          | (Ok _, c) =>
              match unless_blocked (flush_tls_ciphertext fd (c, w)) with
              | (Err e, s) => (Err e, s)
              | (Ok _, s) => (Ok saw_eof, s)
              end
          end
      end
  end.

(** ** write_client_output *)

(** One turn of [while (conn.wbuf.readable() > 0)] with TLS; [Ok tt] is
    [continue]. *)
Definition write_tls (fd : Z) (t : T) : M Conn unit := fun '(c, w) =>
  let '(written, t) := tls_write (contents (wbuf c)) t in
  let c := set_tls_conn t c in
  match written with
  | Err e =>
      if is_would_block e then
        match unless_blocked (flush_tls_ciphertext fd (c, w)) with
        | (Err e, s) => (Err e, s)
        | (Ok _, s) => (Err (from_code WouldBlock (str "tls write pending")), s)
        end
      else (Err e, (c, w))
  | Ok n => flush_tls_ciphertext fd (set_wbuf (buf_commit_read (wbuf c) n) c, w)
  end.

Fixpoint write_client_loop (fuel : nat) (fd : Z) : M Conn unit := fun '(c, w) =>
  if buf_readable (wbuf c) <=? 0 then (Ok tt, (c, w))
  else
    let again s := match fuel with O => stuck s | S fuel' => write_client_loop fuel' fd s end in
    match tls_conn c with
    | Some t =>
        match write_tls fd t (c, w) with
        | (Err e, s) => (Err e, s)
        | (Ok _, s) => again s
        end
    | None =>
        let '(n, errno, w) := sys_send fd (contents (wbuf c)) w in
        if 0 <? n then again (set_wbuf (buf_commit_read (wbuf c) n) c, w)
        else if (n <? 0) && (errno =? EINTR) then again (c, w)
        else if (n <? 0) && would_block errno then (Err (from_code WouldBlock (str "write client")), (c, w))
        else (Err (from_errno errno (str "write client")), (c, w))
    end.

Definition write_client_output (fd : Z) : M Conn unit := fun '(c, w) =>
  match write_client_loop (length (script w) + Z.to_nat (buf_readable (wbuf c))) fd (c, w) with
  | (Err e, s) => (Err e, s)
  | (Ok _, (c, w)) =>
      match tls_conn c with
      | Some _ => flush_tls_ciphertext fd (c, w)
      | None => (Ok tt, (c, w))
      end
  end.

End OnBuffer.
Arguments ClientConn : clear implicits.
