(* ===== verification/ClientProofs.v ===== *)
(** * Correctness of moving bytes to and from clients

    Over any buffer that keeps the queue contract, any TLS implementation
    that keeps [TlsSpec] and any behaviour of the system: output is sent in
    order, without loss or repetition, input is stored as it was received,
    and the bounds of the loops are never reached. *)

From stdpp Require Import prelude gmap.
From S2P Require Import Prelude Result CxxString Buffer BufferProofs Config World Fd Tls Http1 Hpack Http2 Forward ForwardProofs Client TlsFallback.

(** The calls of a writer, and of a reader, on a client. *)
Definition sends (fd : Z) (c : Syscall) : Prop := exists d, c = SysSend fd d.
Definition receives (fd : Z) (c : Syscall) : Prop := exists n, c = SysRecv fd n.

Lemma sends_received fd cs rs f : Forall (sends fd) cs -> received f cs rs = [].
Proof.
  intros H. unfold received. revert rs; induction H as [|c cs [d ->] _ IH]; intros rs; [done|].
  destruct rs; [done|]. cbn. apply IH.
Qed.

Lemma receives_sent fd cs rs f : Forall (receives fd) cs -> sent f cs rs = [].
Proof.
  intros H. unfold sent. revert rs; induction H as [|c cs [d ->] _ IH]; intros rs; [done|].
  destruct rs; [done|]. cbn. apply IH.
Qed.

(** An error that ends the connection; the others say "later". *)
Definition fatal {A} (r : Result A) : bool :=
  match r with Ok _ => false | Err e => negb (is_would_block e) end.

Section Client.
Context {B T : Type} `{BufferSpec B} `{TlsSpec T}.
Abbreviation Client := (ClientConn B T).

(** Everything of a connection but its output, input and TLS side. *)
Definition core (c : Client) :=
  (cc_fd c, cc_state c, cc_proto c, keep_alive c, req_count c, h2conn c, cc_upstream c, connected_at_ms c, remote_addr c).

Record client_ok (c : Client) : Prop := {
  ok_rbuf : buf_ok (rbuf c);
  ok_wbuf : buf_ok (wbuf c);
  ok_pending : buf_ok (tls_pending c);
}.

Definition with_tls (c : Client) : bool := match tls_conn c with Some _ => true | None => false end.

(** The connection was changed on its TLS side only. *)
Record same_plain (c c' : Client) : Prop := {
  sp_core : core c' = core c;
  sp_rbuf : rbuf c' = rbuf c;
  sp_wbuf : wbuf c' = wbuf c;
  sp_tls : with_tls c' = with_tls c;
}.

Lemma same_plain_refl c : same_plain c c.
Proof. by split. Qed.

Lemma same_plain_trans c1 c2 c3 : same_plain c1 c2 -> same_plain c2 c3 -> same_plain c1 c3.
Proof. intros [? ? ? ?] [? ? ? ?]. split; congruence. Qed.

Lemma same_plain_pending c b : same_plain c (set_tls_pending b c).
Proof. by split. Qed.

Lemma same_plain_tls c t : with_tls c = true -> same_plain c (set_tls_conn t c).
Proof. intros. by split. Qed.

(** Ciphertext in hand: saved from an earlier flush, then in the TLS object. *)
Definition fresh_out (c : Client) : bytes := match tls_conn c with Some t => cipher_out t | None => [] end.
Definition cipher (c : Client) : bytes := contents (tls_pending c) ++ fresh_out c.

(** Some sends took the connection from [c] to [c'] and the ciphertext [a] is
    what was sent and what is left, [a']. *)
Definition drained (fd : Z) (c : Client) (w : World) (a a' : bytes) (c' : Client) (w' : World) : Prop :=
  exists cs, ran w w' cs /\ Forall (sends fd) cs /\ same_plain c c' /\ buf_ok (tls_pending c') /\
    a = sent fd cs (script w) ++ a'.

Lemma drained_refl fd c w a : buf_ok (tls_pending c) -> drained fd c w a a c w.
Proof. intros. exists []. split_and!; [apply ran_refl|done|apply same_plain_refl|done|done]. Qed.

Lemma drained_trans fd c1 w1 a1 c2 w2 a2 c3 w3 a3 :
  drained fd c1 w1 a1 a2 c2 w2 -> drained fd c2 w2 a2 a3 c3 w3 -> drained fd c1 w1 a1 a3 c3 w3.
Proof.
  intros (cs & Hr & Hf & Hs & _ & ->) (cs' & Hr' & Hf' & Hs' & Hb & ->). exists (cs ++ cs').
  split_and!; [by eapply ran_trans|by apply Forall_app|by eapply same_plain_trans|done|].
  rewrite sent_app, app_assoc. by destruct Hr as [_ <-].
Qed.

Lemma drained_script fd c w a a' c' w' : drained fd c w a a' c' w' -> (length (script w') <= length (script w))%nat.
Proof. intros (cs & Hr & _). by eapply ran_script_le. Qed.

(** One [send] of [d], of which [n] bytes were taken. *)
Lemma send_drains fd c w d n e w' :
  sys_send fd d w = (n, e, w') -> buf_ok (tls_pending c) ->
  drained fd c w d (drop (Z.to_nat n) d) c w' /\
  (script w = [] /\ n < 0 /\ e = EIO \/ S (length (script w')) = length (script w)).
Proof.
  intros Es Hb. apply sys_send_ran in Es as (Hr & Hs & Ha). split; [|done].
  exists [SysSend fd d]. split_and!; [done|by repeat econstructor|apply same_plain_refl|done|].
  by rewrite Hs, take_drop.
Qed.

Lemma set_pending_tls b (c : Client) : tls_conn (set_tls_pending b c) = tls_conn c.
Proof. done. Qed.

Lemma drained_pending fd c w a a' c' w' b :
  drained fd c w a a' c' w' -> buf_ok b -> drained fd c w a a' (set_tls_pending b c') w'.
Proof.
  intros (cs & Hr & Hf & Hs & _ & Ha) Hb. exists cs. split_and!; try done.
  eapply same_plain_trans; [done|apply same_plain_pending].
Qed.

Lemma flush_pending_eq fuel fd (c : Client) w :
  flush_pending fuel fd (c, w) =
  (if buf_readable (tls_pending c) <=? 0 then (Ok tt, (c, w))
   else
     let again s := match fuel with O => stuck s | S fuel' => flush_pending fuel' fd s end in
     let '(sent, errno, w) := sys_send fd (contents (tls_pending c)) w in
     if 0 <? sent then again (set_tls_pending (buf_commit_read (tls_pending c) sent) c, w)
     else if (sent <? 0) && (errno =? EINTR) then again (c, w)
     else if (sent <? 0) && would_block errno then (Err tls_write_blocked, (c, w))
     else (Err (from_errno errno (str "tls write")), (c, w))).
Proof. by destruct fuel. Qed.

(** What a retrying send loop does with its answer: stop when there was none. *)
Lemma no_retry_EIO n : (n <? 0) && (EIO =? EINTR) = false /\ (n <? 0) && would_block EIO = false.
Proof. by rewrite !andb_false_r. Qed.

Lemma flush_pending_spec fd : forall fuel (c : Client) w r c' w',
  flush_pending fuel fd (c, w) = (r, (c', w')) -> buf_ok (tls_pending c) ->
  drained fd c w (contents (tls_pending c)) (contents (tls_pending c')) c' w' /\ tls_conn c' = tls_conn c /\
  (r = Ok tt -> contents (tls_pending c') = []).
Proof.
  induction fuel as [|fuel IH]; intros c w r c' w' E Hb; rewrite flush_pending_eq in E;
    rewrite (readable_len _ Hb) in E; pose proof (len_nonneg (contents (tls_pending c)));
    (destruct (Z.leb_spec (len (contents (tls_pending c))) 0) as [Hz|Hz];
      [simplify_eq; split_and!; [by apply drained_refl|done|intros _; apply len_0_nil; lia]|]);
    destruct (sys_send fd (contents (tls_pending c)) w) as [[n e] w1] eqn:Es;
    apply (send_drains fd c) in Es as [Hd _]; try done; cbv zeta in E;
    (destruct (Z.ltb_spec 0 n) as [Hn|Hn];
      [set (b := buf_commit_read (tls_pending c) n) in *;
       assert (Hb' : buf_ok b) by (apply commit_read_ok; [done|lia]);
       assert (Hcb : contents b = drop (Z.to_nat n) (contents (tls_pending c))) by (apply commit_read_drop; [done|lia]);
       apply (drained_pending _ _ _ _ _ _ _ b) in Hd; [|done]; rewrite <- Hcb in Hd
      |replace (Z.to_nat n) with 0%nat in Hd by lia; rewrite drop_0 in Hd]).
  - unfold stuck, fail_with in E. simplify_eq. done.
  - repeat case_match; unfold stuck, fail_with in *; simplify_eq; done.
  - apply IH in E as (Hd2 & Ht & Hz2); [|done]. split_and!; [by eapply drained_trans|done|done].
  - destruct ((n <? 0) && (e =? EINTR)).
    + apply IH in E as (Hd2 & Ht & Hz2); [|done]. split_and!; [by eapply drained_trans|done|done].
    + destruct (_ && _); simplify_eq; done.
Qed.

Lemma flush_pending_fuel fd : forall fuel (c : Client) w,
  buf_ok (tls_pending c) -> (length (script w) <= fuel)%nat ->
  flush_pending (S fuel) fd (c, w) = flush_pending fuel fd (c, w).
Proof.
  induction fuel as [|fuel IH]; intros c w Hb Hf; rewrite flush_pending_eq, (flush_pending_eq _ _ c w);
    (destruct (buf_readable (tls_pending c) <=? 0); [done|]);
    destruct (sys_send fd (contents (tls_pending c)) w) as [[n e] w1] eqn:Es;
    apply (send_drains fd c) in Es as [_ Ha]; try done; cbv zeta.
  - destruct Ha as [(_ & Hn & ->)|Ha]; [|lia]. destruct (Z.ltb_spec 0 n); [lia|].
    by destruct (no_retry_EIO n) as [-> ->].
  - destruct Ha as [(_ & Hn & ->)|Ha].
    + destruct (Z.ltb_spec 0 n); [lia|]. by destruct (no_retry_EIO n) as [-> ->].
    + destruct (Z.ltb_spec 0 n); [rewrite IH; [done|apply commit_read_ok; [done|lia]|lia]|].
      rewrite IH; [done|done|lia].
Qed.

Lemma drained_app fd c w a a' c' w' x : drained fd c w a a' c' w' -> drained fd c w (a ++ x) (a' ++ x) c' w'.
Proof. intros (cs & Hr & Hf & Hs & Hb & ->). exists cs. by rewrite <- app_assoc. Qed.

Lemma drained_from fd c0 c w a a' c' w' : same_plain c0 c -> drained fd c w a a' c' w' -> drained fd c0 w a a' c' w'.
Proof.
  intros Hs0 (cs & Hr & Hf & Hs & Hb & Ha). exists cs. split_and!; try done. by eapply same_plain_trans.
Qed.

Lemma send_chunk_eq fuel fd rest (c : Client) w :
  send_chunk fuel fd rest (c, w) =
  (if len rest =? 0 then (Ok tt, (c, w))
   else
     let again rest s := match fuel with O => stuck s | S fuel' => send_chunk fuel' fd rest s end in
     let '(sent, errno, w) := sys_send fd rest w in
     if 0 <? sent then again (drop (Z.to_nat sent) rest) (c, w)
     else if (sent <? 0) && (errno =? EINTR) then again rest (c, w)
     else if (sent <? 0) && would_block errno then
       match buf_append rest (tls_pending c) with
       | (Err e, b) => (Err e, (set_tls_pending b c, w))
       | (Ok _, b) => (Err tls_write_blocked, (set_tls_pending b c, w))
       end
     else (Err (from_errno errno (str "tls write")), (c, w))).
Proof. by destruct fuel. Qed.

(** The result of sending a chunk: what is left of it is saved, or the error
    is fatal. *)
Definition chunk_result (fd : Z) (c : Client) (w : World) (rest : bytes) (r : Result unit) (c' : Client) (w' : World) : Prop :=
  exists left, drained fd c w rest left c' w' /\ tls_conn c' = tls_conn c /\
    (fatal r = false -> contents (tls_pending c') = left) /\ (r = Ok tt -> left = []).

(** One turn of the loop, given that going on is right. *)
Lemma send_chunk_turn fuel fd rest (c : Client) w r c' w' :
  send_chunk fuel fd rest (c, w) = (r, (c', w')) -> buf_ok (tls_pending c) -> contents (tls_pending c) = [] ->
  len rest <= BUF_LIMIT ->
  (forall rest' w1, len rest' <= len rest -> drained fd c w rest rest' c w1 ->
     match fuel with O => stuck (c, w1) | S fuel' => send_chunk fuel' fd rest' (c, w1) end = (r, (c', w')) ->
     chunk_result fd c w rest r c' w') ->
  chunk_result fd c w rest r c' w'.
Proof.
  intros E Hb Hp Hl Hgo. rewrite send_chunk_eq in E.
  destruct (Z.eqb_spec (len rest) 0) as [Hz|Hz].
  { simplify_eq. exists []. rewrite (len_0_nil _ Hz). split_and!; [by apply drained_refl|done|done|done]. }
  destruct (sys_send fd rest w) as [[n e] w1] eqn:Es. apply (send_drains fd c) in Es as [Hd _]; [|done]. cbv zeta in E.
  destruct (Z.ltb_spec 0 n) as [Hn|Hn].
  { eapply Hgo; [|exact Hd|exact E]. unfold len. rewrite length_drop. lia. }
  replace (Z.to_nat n) with 0%nat in Hd by lia. rewrite drop_0 in Hd.
  destruct ((n <? 0) && (e =? EINTR)); [eapply Hgo; [|exact Hd|exact E]; lia|].
  destruct ((n <? 0) && would_block e); [|simplify_eq; exists rest; by split_and!].
  destruct (append_app (tls_pending c) rest Hb) as (b & Ea & Hb' & Hcb); [rewrite Hp, len_nil; lia|].
  rewrite Ea in E. simplify_eq. exists rest.
  split_and!; [by apply drained_pending|done|intros _; cbn; by rewrite Hcb, Hp|done].
Qed.

Lemma send_chunk_spec fd : forall fuel rest (c : Client) w r c' w',
  send_chunk fuel fd rest (c, w) = (r, (c', w')) -> buf_ok (tls_pending c) -> contents (tls_pending c) = [] ->
  len rest <= BUF_LIMIT -> chunk_result fd c w rest r c' w'.
Proof.
  induction fuel as [|fuel IH]; intros rest c w r c' w' E Hb Hp Hl; apply (send_chunk_turn _ _ _ _ _ _ _ _ E Hb Hp Hl);
    intros rest' w1 Hlr Hd Ek.
  - unfold stuck, fail_with in Ek. simplify_eq. exists rest'. by split_and!.
  - apply IH in Ek as (lf & Hd2 & Ht & H3 & H4); [|done|done|lia]. exists lf.
    split_and!; [by eapply drained_trans|done..].
Qed.

Lemma send_chunk_fuel fd : forall fuel rest (c : Client) w,
  (length (script w) <= fuel)%nat -> buf_ok (tls_pending c) ->
  send_chunk (S fuel) fd rest (c, w) = send_chunk fuel fd rest (c, w).
Proof.
  induction fuel as [|fuel IH]; intros rest c w Hf Hb; rewrite send_chunk_eq, (send_chunk_eq _ _ rest c w);
    (destruct (len rest =? 0); [done|]);
    destruct (sys_send fd rest w) as [[n e] w1] eqn:Es;
    apply (send_drains fd c) in Es as [_ Ha]; try done; cbv zeta;
    (destruct Ha as [(_ & Hn & ->)|Ha];
      [destruct (Z.ltb_spec 0 n); [lia|]; by destruct (no_retry_EIO n) as [-> ->]|]); [lia|].
  rewrite !IH by (done || lia). done.
Qed.

Lemma flush_fresh_eq fuel fd (c : Client) w :
  flush_fresh fuel fd (c, w) =
  match tls_conn c with
  | None => (Ok tt, (c, w))
  | Some t =>
      let '(encrypted, t) := tls_take_encrypted TLS_CHUNK t in
      let c := set_tls_conn t c in
      match encrypted with
      | Err e => (Err e, (c, w))
      | Ok d =>
          if len d =? 0 then (Ok tt, (c, w))
          else
            match send_chunk (length (script w)) fd d (c, w) with
            | (Err e, s) => (Err e, s)
            | (Ok _, s) => match fuel with O => stuck s | S fuel' => flush_fresh fuel' fd s end
            end
      end
  end.
Proof. by destruct fuel. Qed.

(** The result of a flush: unless it is fatal, all ciphertext that was not
    sent is still in hand; after success none is. *)
Definition flush_result (fd : Z) (c : Client) (w : World) (r : Result unit) (c' : Client) (w' : World) : Prop :=
  exists left, drained fd c w (cipher c) left c' w' /\ (fatal r = false -> left = cipher c') /\
    (r = Ok tt -> with_tls c = true -> cipher c' = []).

Lemma chunk_size : 0 < TLS_CHUNK < 2 ^ 31.
Proof. unfold TLS_CHUNK. lia. Qed.

Lemma flush_fresh_spec fd : forall fuel (c : Client) w r c' w',
  flush_fresh fuel fd (c, w) = (r, (c', w')) -> buf_ok (tls_pending c) -> contents (tls_pending c) = [] ->
  flush_result fd c w r c' w'.
Proof.
  induction fuel as [|fuel IH]; intros c w r c' w' E Hb Hp; rewrite flush_fresh_eq in E;
    unfold flush_result, cipher at 1, fresh_out, with_tls; rewrite Hp; destruct (tls_conn c) as [t|] eqn:Ht; cbn [app];
    try (simplify_eq; exists []; split_and!; [by apply drained_refl|intros _; unfold cipher, fresh_out; by rewrite Hp, Ht|done]);
    destruct (tls_take_encrypted TLS_CHUNK t) as [[d|x] t1] eqn:Et;
    pose proof (take_encrypted_prefix _ _ _ _ chunk_size Et) as Hpre; cbv zeta in E;
    set (c1 := set_tls_conn t1 c) in *;
    (assert (Hs1 : same_plain c c1) by (apply same_plain_tls; unfold with_tls; by rewrite Ht));
    (assert (Hc1 : cipher c1 = cipher_out t1) by (unfold cipher, fresh_out; cbn; by rewrite Hp)).
  2,4: simplify_eq; exists (cipher_out t); split_and!; [eapply drained_from; [exact Hs1|by apply drained_refl]|intros _; congruence|done].
  all: destruct Hpre as (Hpre & Hlen & Hnil);
    (destruct (Z.eqb_spec (len d) 0) as [Hz|Hz];
      [apply len_0_nil in Hz; subst d; simplify_eq; exists (cipher_out t1); rewrite Hpre, Hc1;
       split_and!; [eapply drained_from; [exact Hs1|by apply drained_refl]|done|intros _ _; by apply Hnil]|]);
    destruct (send_chunk (length (script w)) fd d (c1, w)) as [r2 [c2 w2]] eqn:Ec;
    (apply send_chunk_spec in Ec as (lf & Hd & Ht2 & Hlf & Hok);
       [|done|done|unfold TLS_CHUNK, BUF_LIMIT in *; lia]);
    apply (drained_app _ _ _ _ _ _ _ (cipher_out t1)) in Hd; rewrite <- Hpre in Hd;
    apply (drained_from _ c) in Hd; [|done]; cbn in Ht2.
  all: assert (Hc2 : cipher c2 = contents (tls_pending c2) ++ cipher_out t1) by (unfold cipher, fresh_out; by rewrite Ht2).
  all: destruct r2 as [[]|x]; [|simplify_eq; exists (lf ++ cipher_out t1); split_and!;
         [done|intros Hf; rewrite Hc2; by rewrite Hlf|done]].
  all: rewrite (Hok eq_refl) in Hd, Hlf; specialize (Hlf eq_refl); rewrite Hlf in Hc2; cbn in Hd, Hc2.
  - unfold stuck, fail_with in E. simplify_eq. exists (cipher_out t1). by split_and!.
  - apply IH in E as (lf2 & Hd2 & H3 & H4); [|by destruct Hd as (? & ? & ? & ? & ? & ?)|done].
    rewrite Hc2 in Hd2. exists lf2. split_and!; [by eapply drained_trans|done|].
    intros Hr _. apply H4; [done|]. unfold with_tls. by rewrite Ht2.
Qed.

Lemma flush_spec fd (c : Client) w r c' w' :
  flush_tls_ciphertext fd (c, w) = (r, (c', w')) -> buf_ok (tls_pending c) -> flush_result fd c w r c' w'.
Proof.
  unfold flush_tls_ciphertext. intros E Hb. destruct (tls_conn c) as [t|] eqn:Ht.
  2:{ simplify_eq. exists (cipher c'). unfold with_tls. rewrite Ht. split_and!; [by apply drained_refl|done|done]. }
  destruct (flush_pending _ fd (c, w)) as [r1 [c1 w1]] eqn:E1.
  apply flush_pending_spec in E1 as (Hd & Ht1 & Hz); [|done].
  apply (drained_app _ _ _ _ _ _ _ (fresh_out c)) in Hd. fold (cipher c) in Hd.
  assert (Hc1 : cipher c1 = contents (tls_pending c1) ++ fresh_out c) by (unfold cipher, fresh_out; by rewrite Ht1).
  rewrite <- Hc1 in Hd. destruct r1 as [[]|x].
  - apply flush_fresh_spec in E as (lf & Hd2 & H3 & H4); [|by destruct Hd as (? & ? & ? & ? & ? & ?)|by apply Hz].
    exists lf. split_and!; [by eapply drained_trans|done|]. intros Hr Hw. apply H4; [done|].
    unfold with_tls in *. by rewrite Ht1.
  - simplify_eq. exists (cipher c'). by split_and!.
Qed.

(** The TLS connection over a flush: the ciphertext [q] it hands out goes
    behind what was saved before, and unless the result is fatal all of it is
    sent or saved. *)
Definition flush_engine (fd : Z) (c : Client) (w : World) (r : Result unit) (c' : Client) (w' : World) : Prop :=
  forall t, tls_conn c = Some t -> exists q t' left, tls_conn c' = Some t' /\ tls_run t [] q t' /\
    drained fd c w (contents (tls_pending c) ++ q) left c' w' /\ (fatal r = false -> left = contents (tls_pending c')).

Lemma flush_fresh_engine fd : forall fuel (c : Client) w r c' w',
  flush_fresh fuel fd (c, w) = (r, (c', w')) -> buf_ok (tls_pending c) -> contents (tls_pending c) = [] ->
  flush_engine fd c w r c' w'.
Proof.
  induction fuel as [|fuel IH]; intros c w r c' w' E Hb Hp t Ht; rewrite flush_fresh_eq, Ht in E; rewrite Hp; cbn [app];
    destruct (tls_take_encrypted TLS_CHUNK t) as [[d|x] t1] eqn:Et; cbv zeta in E; set (c1 := set_tls_conn t1 c) in *;
    (assert (Hs1 : same_plain c c1) by (apply same_plain_tls; unfold with_tls; by rewrite Ht)).
  2,4: simplify_eq; exists [], t1, []; split_and!;
    [done|by eapply tls_took_none, tls_idle|eapply drained_from; [exact Hs1|by apply drained_refl]|intros _; symmetry; exact Hp].
  all: pose proof (take_encrypted_prefix _ _ _ _ chunk_size Et) as (_ & Hlen & _);
    pose proof (tls_took t TLS_CHUNK d t1 [] [] t1 Et (tls_idle t1)) as Hrun; rewrite app_nil_r in Hrun;
    (destruct (Z.eqb_spec (len d) 0) as [Hz|Hz];
      [apply len_0_nil in Hz; subst d; simplify_eq; exists [], t1, []; split_and!;
       [done|done|eapply drained_from; [exact Hs1|by apply drained_refl]|intros _; symmetry; exact Hp]|]);
    destruct (send_chunk (length (script w)) fd d (c1, w)) as [r2 [c2 w2]] eqn:Ec;
    (apply send_chunk_spec in Ec as (lf & Hd & Ht2 & Hlf & Hok);
       [|done|done|unfold TLS_CHUNK, BUF_LIMIT in *; lia]);
    apply (drained_from _ c) in Hd; [|done]; cbn in Ht2;
    (destruct r2 as [[]|x]; [|simplify_eq; exists d, t1, lf; split_and!; [done|done|done|intros Hf; by rewrite Hlf]]);
    rewrite (Hok eq_refl) in Hd, Hlf; specialize (Hlf eq_refl).
  - unfold stuck, fail_with in E. simplify_eq. by exists d, t1, [].
  - destruct (IH c2 w2 r c' w' E) with (t := t1) as (q & t' & lf2 & Ht' & Hr2 & Hd2 & Hl2);
      [by destruct Hd as (? & ? & ? & ? & ? & ?)|done|done|]. rewrite Hlf in Hd2. cbn [app] in Hd2.
    exists (d ++ q), t', lf2. split_and!; [done|exact (tls_run_trans _ _ _ _ _ _ _ Hrun Hr2)| |done].
    apply (drained_app _ _ _ _ _ _ _ q) in Hd. by eapply drained_trans.
Qed.

Lemma flush_engine_spec fd (c : Client) w r c' w' :
  flush_tls_ciphertext fd (c, w) = (r, (c', w')) -> buf_ok (tls_pending c) -> flush_engine fd c w r c' w'.
Proof.
  unfold flush_tls_ciphertext. intros E Hb t Ht. rewrite Ht in E.
  destruct (flush_pending _ fd (c, w)) as [r1 [c1 w1]] eqn:E1.
  apply flush_pending_spec in E1 as (Hd & Ht1 & Hz); [|done]. rewrite Ht in Ht1. destruct r1 as [[]|x].
  - destruct (flush_fresh_engine _ _ _ _ _ _ _ E) with (t := t) as (q & t' & lf & Ht' & Hr & Hd2 & Hl);
      [by destruct Hd as (? & ? & ? & ? & ? & ?)|by apply Hz|done|].
    exists q, t', lf. split_and!; [done..| |done]. apply (drained_app _ _ _ _ _ _ _ q) in Hd. by eapply drained_trans.
  - simplify_eq. exists [], t, (contents (tls_pending c')). rewrite app_nil_r. split_and!; [done|constructor|done|done].
Qed.

Lemma send_chunk_later fd fuel rest (c : Client) w r c' w' :
  send_chunk fuel fd rest (c, w) = (r, (c', w')) -> buf_ok (tls_pending c) -> contents (tls_pending c) = [] ->
  len rest <= BUF_LIMIT -> (length (script w') <= length (script w))%nat /\ buf_ok (tls_pending c').
Proof.
  intros E Hb Hp Hl. apply send_chunk_spec in E as (lf & Hd & _); [|done..]. split; [by eapply drained_script|].
  by destruct Hd as (? & ? & ? & ? & ? & ?).
Qed.

Lemma send_chunk_consumes fd fuel rest (c : Client) w c' w' :
  send_chunk fuel fd rest (c, w) = (Ok tt, (c', w')) -> buf_ok (tls_pending c) -> contents (tls_pending c) = [] ->
  len rest <= BUF_LIMIT -> rest <> [] -> (length (script w') < length (script w))%nat.
Proof.
  intros E Hb Hp Hl Hne. rewrite send_chunk_eq in E.
  destruct (Z.eqb_spec (len rest) 0) as [Hz|Hz]; [by apply len_0_nil in Hz|].
  destruct (sys_send fd rest w) as [[n e] w1] eqn:Es. apply (send_drains fd c) in Es as [_ Ha]; [|done]. cbv zeta in E.
  destruct Ha as [(_ & Hn & ->)|Ha].
  { destruct (Z.ltb_spec 0 n); [lia|]. destruct (no_retry_EIO n) as [E1 E2]. rewrite E1, E2 in E. done. }
  assert (Hgo : forall rest', len rest' <= len rest ->
    match fuel with O => stuck (c, w1) | S fuel' => send_chunk fuel' fd rest' (c, w1) end = (Ok tt, (c', w')) ->
    (length (script w') < length (script w))%nat).
  { intros rest' Hl' E'. destruct fuel; [done|]. apply send_chunk_later in E' as [? _]; [lia|done|done|lia]. }
  destruct (0 <? n); [eapply Hgo; [|exact E]; unfold len; rewrite length_drop; lia|].
  destruct (_ && _); [eapply Hgo; [|exact E]; lia|].
  destruct (_ && _); [|done]. by destruct (buf_append rest _) as [[]].
Qed.

Lemma flush_fresh_fuel fd : forall fuel (c : Client) w,
  (length (script w) <= fuel)%nat -> buf_ok (tls_pending c) -> contents (tls_pending c) = [] ->
  flush_fresh (S fuel) fd (c, w) = flush_fresh fuel fd (c, w).
Proof.
  induction fuel as [|fuel IH]; intros c w Hf Hb Hp; rewrite flush_fresh_eq, (flush_fresh_eq _ _ c w);
    destruct (tls_conn c) as [t|]; try done;
    destruct (tls_take_encrypted TLS_CHUNK t) as [[d|x] t1] eqn:Et; try done; cbv zeta;
    pose proof (take_encrypted_prefix _ _ _ _ chunk_size Et) as (_ & Hlen & _);
    (destruct (Z.eqb_spec (len d) 0) as [Hz|Hz]; [done|]);
    (assert (Hl : len d <= BUF_LIMIT) by (unfold TLS_CHUNK, BUF_LIMIT in *; lia));
    (assert (Hne : d <> []) by (by intros ->));
    destruct (send_chunk (length (script w)) fd d (set_tls_conn t1 c, w)) as [[[]|x] [c2 w2]] eqn:Ec; try done;
    pose proof (send_chunk_consumes _ _ _ _ _ _ _ Ec Hb Hp Hl Hne); [lia|].
  apply send_chunk_spec in Ec as (lf & Hd & _ & Hlf & Hok); [|done..].
  apply IH; [lia|by destruct Hd as (? & ? & ? & ? & ? & ?)|]. rewrite Hlf by done. by apply Hok.
Qed.

(** ** Writing to a client *)

Lemma write_client_eq fuel fd (c : Client) w :
  write_client_loop fuel fd (c, w) =
  (if buf_readable (wbuf c) <=? 0 then (Ok tt, (c, w))
   else
     let again s := match fuel with O => stuck s | S fuel' => write_client_loop fuel' fd s end in
     match tls_conn c with
     | Some t =>
         match write_tls fd t (c, w) with
         | (Err e, s) => (Err e, s)
         | (Ok _, s) => again s
         end
     | None =>
         let '(n, errno, w) := sys_send fd (contents (wbuf c)) w in
         if 0 <? n then again (set_wbuf (buf_commit_read (wbuf c) n) c, w)
         else if (n <? 0) && (errno =? EINTR) then again (c, w)
         else if (n <? 0) && would_block errno then (Err (from_code WouldBlock (str "write client")), (c, w))
         else (Err (from_errno errno (str "write client")), (c, w))
     end).
Proof. by destruct fuel. Qed.

(** The TLS connection over some writing by the calls [cs]: the plaintext it
    took is what has left the output, and unless the result is fatal the
    ciphertext it handed out was sent, or saved, behind what was saved
    before. *)
Definition engine (fd : Z) (c : Client) (w : World) (cs : list Syscall) (r : Result unit) (c' : Client) : Prop :=
  forall t, tls_conn c = Some t -> exists p q t', tls_conn c' = Some t' /\ tls_run t p q t' /\
    contents (wbuf c) = p ++ contents (wbuf c') /\
    (fatal r = false -> contents (tls_pending c) ++ q = sent fd cs (script w) ++ contents (tls_pending c')).

(** What writing has done: [k] bytes of output were handed over; without TLS
    those were sent, with TLS they became ciphertext [x], and all ciphertext
    was sent or is in hand, unless the result is fatal. *)
Definition wrote (fd : Z) (c : Client) (w : World) (r : Result unit) (c' : Client) (w' : World) : Prop :=
  exists cs k, ran w w' cs /\ Forall (sends fd) cs /\ core c' = core c /\ rbuf c' = rbuf c /\ with_tls c' = with_tls c /\
    client_ok c' /\ contents (wbuf c') = drop k (contents (wbuf c)) /\
    (with_tls c = false -> cipher c' = cipher c /\ contents (wbuf c) = sent fd cs (script w) ++ contents (wbuf c')) /\
    (with_tls c = true -> fatal r = false -> exists x, cipher c ++ x = sent fd cs (script w) ++ cipher c') /\
    engine fd c w cs r c'.

Lemma wrote_refl fd c w r : client_ok c -> wrote fd c w r c w.
Proof.
  intros Hok. exists [], 0%nat. split_and!; try done; [apply ran_refl| |].
  - intros _ _. exists []. by rewrite app_nil_r.
  - intros t Ht. exists [], [], t. split_and!; [done|constructor|done|]. intros _. by rewrite app_nil_r.
Qed.

Lemma engine_trans fd c1 w1 cs c2 w2 cs' r c3 :
  script w2 = drop (length cs) (script w1) ->
  engine fd c1 w1 cs (Ok tt) c2 -> engine fd c2 w2 cs' r c3 -> engine fd c1 w1 (cs ++ cs') r c3.
Proof.
  intros Hs H12 H23 t Ht. destruct (H12 t Ht) as (p & q & t2 & Ht2 & R1 & P1 & Q1).
  destruct (H23 t2 Ht2) as (p' & q' & t3 & Ht3 & R2 & P2 & Q2). exists (p ++ p'), (q ++ q'), t3.
  split_and!; [done|by eapply tls_run_trans|by rewrite <- app_assoc, <- P2|]. intros Hf.
  rewrite app_assoc, Q1, sent_app, <- Hs, <- !app_assoc, Q2; done.
Qed.

Lemma wrote_trans fd c1 w1 c2 w2 r c3 w3 :
  wrote fd c1 w1 (Ok tt) c2 w2 -> wrote fd c2 w2 r c3 w3 -> wrote fd c1 w1 r c3 w3.
Proof.
  intros (cs & k & Hr & Hf & Hco & Hrb & Htl & _ & Hw & Hp & Hx & He) (cs' & k' & Hr' & Hf' & Hco' & Hrb' & Htl' & Hok & Hw' & Hp' & Hx' & He').
  exists (cs ++ cs'), (k + k')%nat. destruct Hr as [Hrt Hrs] eqn:Hreq. clear Hreq.
  split_and!; [by eapply ran_trans|by apply Forall_app|congruence|congruence|congruence|done| | | |by eapply engine_trans].
  - by rewrite Hw', Hw, drop_drop.
  - intros Hn. destruct (Hp Hn) as [H3 H4]. destruct Hp' as [H5 H6]; [congruence|].
    split; [congruence|]. rewrite sent_app, <- Hrs, H4, H6. by rewrite app_assoc.
  - intros Hn Hfa. destruct (Hx Hn eq_refl) as [x H3]. destruct (Hx' ltac:(congruence) Hfa) as [x' H4].
    exists (x ++ x'). by rewrite app_assoc, H3, sent_app, <- Hrs, <- !app_assoc, H4.
Qed.

(** A flush after [k] bytes of output became ciphertext [x], the TLS
    connection having taken the plaintext [p]. *)
Lemma flush_wrote fd (c c1 : Client) w t t1 p k x r r' c' w' :
  core c1 = core c -> rbuf c1 = rbuf c -> client_ok c1 ->
  tls_conn c = Some t -> tls_conn c1 = Some t1 -> tls_run t p [] t1 -> tls_pending c1 = tls_pending c ->
  contents (wbuf c) = p ++ contents (wbuf c1) ->
  contents (wbuf c1) = drop k (contents (wbuf c)) -> cipher c1 = cipher c ++ x ->
  flush_result fd c1 w r' c' w' -> flush_engine fd c1 w r' c' w' -> (fatal r = false -> fatal r' = false) -> wrote fd c w r c' w'.
Proof.
  intros Hco Hrb [Hok1 Hok2 Hok3] Ht Ht1 Hrun Hpe Hpl Hw Hx (lf & (cs & Hr & Hf & [Hs1 Hs2 Hs3 Hs4] & Hb & Hd) & Hl & _) Hen Hfat.
  assert (Hwt : with_tls c = true) by (unfold with_tls; by rewrite Ht).
  assert (Hwt1 : with_tls c1 = true) by (unfold with_tls; by rewrite Ht1).
  exists cs, k. split_and!; try congruence.
  - split; [congruence|congruence|done].
  - intros _ Hf2. exists x. rewrite <- Hx, Hd, (Hl (Hfat Hf2)). done.
  - intros t0 Ht0. simplify_eq. destruct (Hen t1 Ht1) as (q & t' & left & Ht' & Hr2 & (cs' & Hrc & _ & _ & _ & Hd') & Hl').
    rewrite (ran_unique _ _ _ _ Hrc Hr) in Hd'. exists p, q, t'. rewrite Hs3, <- Hpe. split_and!; [done| |done|].
    + pose proof (tls_run_trans _ _ _ _ _ _ _ Hrun Hr2) as Hall. by rewrite app_nil_r in Hall.
    + intros Hf2. by rewrite Hd', (Hl' (Hfat Hf2)).
Qed.

Lemma write_tls_spec fd t (c : Client) w r c' w' :
  write_tls fd t (c, w) = (r, (c', w')) -> tls_conn c = Some t -> client_ok c ->
  wrote fd c w r c' w' /\
  (r = Ok tt -> contents (wbuf c) <> [] -> (length (contents (wbuf c')) < length (contents (wbuf c)))%nat).
Proof.
  unfold write_tls. intros E Ht Hok. pose proof Hok as [Hk1 Hk2 Hk3].
  assert (Hwt : with_tls c = true) by (unfold with_tls; by rewrite Ht).
  destruct (tls_write (contents (wbuf c)) t) as [[n|e] t1] eqn:Ew;
    pose proof (write_appends _ _ _ _ Ew) as [[x Hx] Hn]; cbv zeta in E.
  - set (c1 := set_wbuf _ _) in E. destruct (flush_tls_ciphertext fd (c1, w)) as [r1 [c2 w2]] eqn:Ef.
    simplify_eq. pose proof (flush_engine_spec _ _ _ _ _ _ Ef Hk3) as Hen. apply flush_spec in Ef; [|done].
    assert (Hwb : contents (wbuf c1) = drop (Z.to_nat n) (contents (wbuf c))) by (apply commit_read_drop; [done|lia]).
    split.
    + eapply flush_wrote with (p := take (Z.to_nat n) (contents (wbuf c)) ++ []) (k := Z.to_nat n) (x := x);
        [..|exact Ef|exact Hen|done]; try done.
      * split; [done|apply commit_read_ok; [done|lia]|done].
      * by eapply tls_wrote, tls_idle.
      * by rewrite app_nil_r, Hwb, take_drop.
      * unfold cipher, fresh_out. cbn. by rewrite Ht, Hx, app_assoc.
    + intros _ Hne. pose proof (write_progress _ _ _ _ Hne Ew).
      destruct Ef as (lf & (cs & _ & _ & [_ _ Hs3 _] & _) & _). rewrite Hs3, Hwb, length_drop.
      destruct (contents (wbuf c)); [done|cbn; lia].
  - set (c1 := set_tls_conn t1 c) in E.
    assert (Hc1 : cipher c1 = cipher c ++ x) by (unfold cipher, fresh_out; cbn; by rewrite Ht, Hx, app_assoc).
    destruct (is_would_block e) eqn:Ebl.
    + destruct (flush_tls_ciphertext fd (c1, w)) as [r1 [c2 w2]] eqn:Ef.
      pose proof (flush_engine_spec _ _ _ _ _ _ Ef Hk3) as Hen. apply flush_spec in Ef; [|done].
      destruct r1 as [[]|e1]; cbn in E; [|destruct (is_would_block e1) eqn:Ebl1]; simplify_eq;
        (split; [|done]); (eapply flush_wrote with (p := []) (k := 0%nat) (x := x); [..|exact Ef|exact Hen|]; try done; try by eapply tls_wrote_none, tls_idle).
      intros _. cbn. by rewrite Ebl1.
    + simplify_eq. split; [|done]. exists [], 0%nat. split_and!; try done; [apply ran_refl|by rewrite Hwt|..].
      * intros _ Hf. cbn in Hf. by rewrite Ebl in Hf.
      * intros t0 Ht0. simplify_eq. exists [], [], t1. split_and!; [done|by eapply tls_wrote_none, tls_idle|done|].
        intros Hf. cbn in Hf. by rewrite Ebl in Hf.
Qed.

(** One [send] of the output of a connection without TLS. *)
Lemma send_wrote fd (c c' : Client) w n e w' r :
  sys_send fd (contents (wbuf c)) w = (n, e, w') -> client_ok c -> with_tls c = false ->
  c' = (if 0 <? n then set_wbuf (buf_commit_read (wbuf c) n) c else c) -> wrote fd c w r c' w'.
Proof.
  intros Es Hok Ht ->. pose proof Hok as [Hk1 Hk2 Hk3]. apply sys_send_ran in Es as (Hr & Hs & _).
  exists [SysSend fd (contents (wbuf c))], (Z.to_nat n).
  assert (Hdrop : contents (wbuf (if 0 <? n then set_wbuf (buf_commit_read (wbuf c) n) c else c)) =
                  drop (Z.to_nat n) (contents (wbuf c))).
  { destruct (Z.ltb_spec 0 n); cbn; [apply commit_read_drop; [done|lia]|].
    by replace (Z.to_nat n) with 0%nat by lia. }
  split_and!; [done|by repeat econstructor|..]; try (by destruct (0 <? n)).
  - destruct (Z.ltb_spec 0 n); [|done]. split; cbn; [done|apply commit_read_ok; [done|lia]|done].
  - intros _. split; [by destruct (0 <? n)|]. by rewrite Hs, Hdrop, take_drop.
  - rewrite Ht. done.
  - intros t Ht'. unfold with_tls in Ht. by rewrite Ht' in Ht.
Qed.

Lemma wrote_script fd c w r c' w' : wrote fd c w r c' w' -> (length (script w') <= length (script w))%nat.
Proof. intros (cs & k & Hr & _). by eapply ran_script_le. Qed.

Lemma wrote_ok fd c w r c' w' : wrote fd c w r c' w' -> client_ok c' /\ (length (contents (wbuf c')) <= length (contents (wbuf c)))%nat.
Proof. intros (cs & k & _ & _ & _ & _ & _ & Hok & Hw & _). split; [done|]. rewrite Hw, length_drop. lia. Qed.

Definition work (c : Client) (w : World) : nat := length (script w) + length (contents (wbuf c)).

(** One turn: it ends there, or it goes on with less work. *)
Lemma write_client_turn fuel fd (c : Client) w r c' w' :
  write_client_loop fuel fd (c, w) = (r, (c', w')) -> client_ok c ->
  wrote fd c w r c' w' /\ (r = Ok tt -> contents (wbuf c') = []) \/
  exists c1 w1, wrote fd c w (Ok tt) c1 w1 /\ (work c1 w1 < work c w)%nat /\
    match fuel with O => stuck (c1, w1) | S fuel' => write_client_loop fuel' fd (c1, w1) end = (r, (c', w')).
Proof.
  intros E Hok. pose proof Hok as [Hk1 Hk2 Hk3]. rewrite write_client_eq, (readable_len _ Hk2) in E.
  pose proof (len_nonneg (contents (wbuf c))).
  destruct (Z.leb_spec (len (contents (wbuf c))) 0) as [Hz|Hz].
  { simplify_eq. left. split; [by apply wrote_refl|intros _; apply len_0_nil; lia]. }
  assert (Hne : contents (wbuf c) <> []) by (intros Hn; rewrite Hn in Hz; unfold len in Hz; cbn in Hz; lia).
  cbv zeta in E. destruct (tls_conn c) as [t|] eqn:Ht.
  - destruct (write_tls fd t (c, w)) as [[[]|e] [c1 w1]] eqn:Ew; apply write_tls_spec in Ew as [Hw Hless]; try done.
    + right. exists c1, w1. split_and!; [done| |done]. specialize (Hless eq_refl Hne).
      apply wrote_script in Hw. unfold work. lia.
    + simplify_eq. by left.
  - assert (Hwt : with_tls c = false) by (unfold with_tls; by rewrite Ht).
    destruct (sys_send fd (contents (wbuf c)) w) as [[n e] w1] eqn:Es.
    pose proof (fun c' r => send_wrote fd c c' w n e w1 r Es Hok Hwt) as Hsw.
    apply sys_send_ran in Es as (_ & _ & Ha).
    destruct (Z.ltb_spec 0 n) as [Hn|Hn].
    + right. eexists _, w1. split_and!; [by apply Hsw| |exact E].
      destruct Ha as [(_ & ? & _)|Ha]; [lia|]. destruct (wrote_ok _ _ _ _ _ _ (Hsw _ (Ok tt) eq_refl)). unfold work. lia.
    + destruct ((n <? 0) && (e =? EINTR)) eqn:Ei.
      * destruct Ha as [(_ & _ & ->)|Ha]; [by rewrite andb_false_r in Ei|].
        right. exists c, w1. split_and!; [by apply Hsw|unfold work; lia|exact E].
      * left. destruct ((n <? 0) && would_block e); simplify_eq; (split; [by apply Hsw|done]).
Qed.

Lemma write_client_spec fd : forall fuel (c : Client) w r c' w',
  write_client_loop fuel fd (c, w) = (r, (c', w')) -> client_ok c ->
  wrote fd c w r c' w' /\ (r = Ok tt -> contents (wbuf c') = []).
Proof.
  induction fuel as [|fuel IH]; intros c w r c' w' E Hok;
    apply write_client_turn in E as [E|(c1 & w1 & Hw & _ & E)]; try done.
  - unfold stuck, fail_with in E. simplify_eq. split; [|done].
    destruct Hw as (cs & k & H1' & H2' & H3' & H4' & H5' & H6' & H7' & H8' & _ & He). exists cs, k. split_and!; try done.
    intros t Ht. destruct (He t Ht) as (p & q & t' & ? & ? & ? & ?). by exists p, q, t'.
  - destruct (wrote_ok _ _ _ _ _ _ Hw) as [Hok1 _]. apply IH in E as [Hw2 Hz]; [|done].
    split; [by eapply wrote_trans|done].
Qed.

(** The bound on the turns is never reached. *)
Lemma write_client_fuel fd : forall fuel (c : Client) w,
  client_ok c -> (work c w <= fuel)%nat -> write_client_loop (S fuel) fd (c, w) = write_client_loop fuel fd (c, w).
Proof.
  assert (Hgo : forall fuel (c : Client) w, client_ok c -> (work c w <= fuel)%nat ->
    (forall c1 w1, client_ok c1 -> (work c1 w1 < work c w)%nat ->
       write_client_loop fuel fd (c1, w1) =
       match fuel with O => stuck (c1, w1) | S fuel' => write_client_loop fuel' fd (c1, w1) end) ->
    write_client_loop (S fuel) fd (c, w) = write_client_loop fuel fd (c, w)).
  { intros fuel c w Hok Hf Hr. pose proof Hok as [Hk1 Hk2 Hk3]. rewrite write_client_eq, (write_client_eq fuel).
    rewrite (readable_len _ Hk2). destruct (Z.leb_spec (len (contents (wbuf c))) 0) as [Hz|Hz]; [done|].
    assert (Hne : contents (wbuf c) <> []) by (intros Hn; rewrite Hn in Hz; unfold len in Hz; cbn in Hz; lia).
    cbv zeta. destruct (tls_conn c) as [t|] eqn:Ht.
    - destruct (write_tls fd t (c, w)) as [[[]|e] [c1 w1]] eqn:Ew; [|done].
      apply write_tls_spec in Ew as [Hw Hless]; [|done..]. specialize (Hless eq_refl Hne).
      destruct (wrote_ok _ _ _ _ _ _ Hw) as [Hok1 _]. apply wrote_script in Hw. apply Hr; [done|]. unfold work. lia.
    - assert (Hwt : with_tls c = false) by (unfold with_tls; by rewrite Ht).
      destruct (sys_send fd (contents (wbuf c)) w) as [[n e] w1] eqn:Es.
      pose proof (send_wrote fd c _ w n e w1 (Ok tt) Es Hok Hwt eq_refl) as Hsw.
      destruct (wrote_ok _ _ _ _ _ _ Hsw) as [Hok1 Hlen]. apply sys_send_ran in Es as (_ & _ & Ha).
      destruct Ha as [(_ & Hn & ->)|Ha].
      { destruct (Z.ltb_spec 0 n); [lia|]. by destruct (no_retry_EIO n) as [-> ->]. }
      destruct (0 <? n); [apply Hr; [done|unfold work; lia]|].
      destruct (_ && _); [apply Hr; [done|unfold work; lia]|done]. }
  induction fuel as [|fuel IH]; intros c w Hok Hf; apply Hgo; try done.
  - intros c1 w1 _ Hlt. lia.
  - intros c1 w1 Hok1 Hlt. apply IH; [done|lia].
Qed.

(** (C10) Output to a client, over any behaviour of the system and any TLS
    implementation that keeps its interface.  Only sends on the client's
    descriptor are made.  Without TLS, a prefix of the buffered output was
    sent and the rest stays.  With TLS, let [p] be the plaintext that the TLS
    connection has taken, as its own answers to the calls of [write] count it,
    and [q] the ciphertext that it has handed out: [p] is exactly the prefix
    that is gone from the buffered output, so that no plaintext is dropped
    or written twice, also when only a part is taken; and unless the error
    ends the connection, the saved ciphertext from before followed by [q] is
    exactly what was sent followed by what is saved now: none is lost,
    repeated or reordered, however the sends are cut.  Success means that
    nothing is left to send.  Input, protocol state and the rest of the
    connection are untouched, and the bound on the loop is never what ends
    it. *)
Theorem client_output_conserved (fd : Z) (c : Client) (w : World) :
  client_ok c ->
  let '(r, (c', w')) := write_client_output fd (c, w) in
  (exists cs k, ran w w' cs /\ Forall (sends fd) cs /\ core c' = core c /\ rbuf c' = rbuf c /\ client_ok c' /\
     contents (wbuf c') = drop k (contents (wbuf c)) /\
     (with_tls c = false -> contents (wbuf c) = sent fd cs (script w) ++ contents (wbuf c')) /\
     (with_tls c = true -> fatal r = false -> exists x, cipher c ++ x = sent fd cs (script w) ++ cipher c') /\
     (forall t, tls_conn c = Some t -> exists p q t', tls_conn c' = Some t' /\ tls_run t p q t' /\
        contents (wbuf c) = p ++ contents (wbuf c') /\
        (fatal r = false -> contents (tls_pending c) ++ q = sent fd cs (script w) ++ contents (tls_pending c')))) /\
  (r = Ok tt -> contents (wbuf c') = [] /\ (with_tls c = true -> cipher c' = [])) /\
  (forall n, write_client_loop (n + (length (script w) + Z.to_nat (buf_readable (wbuf c)))) fd (c, w) =
             write_client_loop (length (script w) + Z.to_nat (buf_readable (wbuf c))) fd (c, w)).
Proof.
  intros Hok. pose proof Hok as [_ Hk2 _]. unfold write_client_output. set (bound := (length (script w) + _)%nat).
  assert (Hfuel : forall n, write_client_loop (n + bound) fd (c, w) = write_client_loop bound fd (c, w)).
  { induction n as [|n IH]; [done|]. rewrite <- IH. cbn [Nat.add]. apply write_client_fuel; [done|].
    unfold bound, work. rewrite (readable_len _ Hk2). unfold len. lia. }
  destruct (write_client_loop bound fd (c, w)) as [r1 [c1 w1]] eqn:E1.
  apply write_client_spec in E1 as [Hw Hz]; [|done]. destruct r1 as [[]|e].
  - assert (Hfl : exists r c' w', (match tls_conn c1 with Some _ => flush_tls_ciphertext fd (c1, w1) | None => (Ok tt, (c1, w1)) end)
              = (r, (c', w')) /\ wrote fd c w r c' w' /\ wbuf c' = wbuf c1 /\
              (r = Ok tt -> with_tls c = true -> cipher c' = [])).
    { destruct (tls_conn c1) as [t|] eqn:Ht.
      - destruct (flush_tls_ciphertext fd (c1, w1)) as [r2 [c2 w2]] eqn:Ef. exists r2, c2, w2. split; [done|].
        destruct (wrote_ok _ _ _ _ _ _ Hw) as [Hok1 _]. pose proof Hok1 as [_ _ Hk3].
        pose proof (flush_engine_spec _ _ _ _ _ _ Ef Hk3) as Hen.
        apply flush_spec in Ef; [|done]. assert (Hwt : with_tls c1 = true) by (unfold with_tls; by rewrite Ht).
        split_and!.
        + eapply wrote_trans; [exact Hw|].
          eapply flush_wrote with (p := []) (k := 0%nat) (x := []); [..|exact Ef|exact Hen|done]; try done;
            [constructor|by rewrite app_nil_r].
        + by destruct Ef as (lf & (cs & _ & _ & [_ _ Hs3 _] & _) & _).
        + intros Hr _. destruct Ef as (lf & _ & _ & He). by apply He.
      - exists (Ok tt), c1, w1. split_and!; try done. intros _ Hwt.
        destruct Hw as (? & ? & _ & _ & _ & _ & Htl & _). unfold with_tls in *. rewrite Ht in Htl. congruence. }
    destruct Hfl as (r & c' & w' & -> & Hw2 & Hwb & He).
    destruct Hw2 as (cs & k & P1 & P2 & P3 & P4 & P5 & P6 & P7 & P8 & P9 & P10). split_and!;
      [|intros Hr; split; [rewrite Hwb; by apply Hz|by apply He]|done].
    exists cs, k. split_and!; try done. intros Hn. by apply P8.
  - destruct Hw as (cs & k & P1 & P2 & P3 & P4 & P5 & P6 & P7 & P8 & P9 & P10). split_and!; [|done|done].
    exists cs, k. split_and!; try done. intros Hn. by apply P8.
Qed.

(** ** Reading from a client *)

(** All the data the system may still deliver. *)
Definition deliverable (rs : list SysResult) : Z := foldr (fun r n => len (sr_data r) + n) 0 rs.

Lemma deliverable_nonneg rs : 0 <= deliverable rs.
Proof. induction rs as [|r rs IH]; cbn; [lia|]. pose proof (len_nonneg (sr_data r)). unfold deliverable in IH. lia. Qed.

Lemma recv_loop_eq fuel fd (c : Client) w :
  recv_loop fuel fd (c, w) =
  (let again s := match fuel with O => stuck s | S fuel' => recv_loop fuel' fd s end in
   let '(n, errno, d, w) := sys_recv fd CLIENT_RECV w in
   if 0 <? n then
     match take_input d c with
     | (Err e, c) => (Err e, (c, w))
     | (Ok _, c) => again (c, w)
     end
   else if n =? 0 then (Ok true, (c, w))
   else if errno =? EINTR then again (c, w)
   else if would_block errno then (Ok false, (c, w))
   else (Err (from_errno errno (str "read client")), (c, w))).
Proof. by destruct fuel. Qed.

(** One [recv]: its data comes out of what can be delivered. *)
Lemma sys_recv_deliverable fd n w k e d w' :
  sys_recv fd n w = (k, e, d, w') -> len d + deliverable (script w') <= deliverable (script w).
Proof.
  unfold sys_recv. intros E. destruct (sys (SysRecv fd n) w) as [r w1] eqn:Es. simplify_eq.
  unfold sys in Es. destruct (script w) as [|x s]; simplify_eq; cbn; [|fold (deliverable s)];
    unfold len; rewrite ?length_take; cbn; lia.
Qed.

(** Input of a connection without TLS: it is stored as received. *)
Definition stored (fd : Z) (c : Client) (w : World) (r : Result bool) (c' : Client) (w' : World) : Prop :=
  exists cs, ran w w' cs /\ Forall (receives fd) cs /\ core c' = core c /\ wbuf c' = wbuf c /\ tls_conn c' = tls_conn c /\
    tls_pending c' = tls_pending c /\ client_ok c' /\ contents (rbuf c') = contents (rbuf c) ++ received fd cs (script w) /\
    (r = Ok true -> exists cs0, cs = cs0 ++ [SysRecv fd CLIENT_RECV]).

Lemma stored_after fd c w c1 w1 d r c' w' :
  ran w w1 [SysRecv fd CLIENT_RECV] -> received fd [SysRecv fd CLIENT_RECV] (script w) = d ->
  core c1 = core c -> wbuf c1 = wbuf c -> tls_conn c1 = tls_conn c -> tls_pending c1 = tls_pending c ->
  contents (rbuf c1) = contents (rbuf c) ++ d -> stored fd c1 w1 r c' w' -> stored fd c w r c' w'.
Proof.
  intros Hr Hd H1' H2' H3' H4' H5' (cs & Hr2 & Hf & P1 & P2 & P3 & P4 & Hok & P5 & P6).
  exists ([SysRecv fd CLIENT_RECV] ++ cs). split_and!; try congruence.
  - by eapply ran_trans.
  - constructor; [by eexists|done].
  - rewrite P5, H5', received_app, Hd, <- app_assoc. by destruct Hr as [_ <-].
  - intros Ht. destruct (P6 Ht) as [cs0 ->]. by exists ([SysRecv fd CLIENT_RECV] ++ cs0).
Qed.

Lemma stored_last fd c w w1 r :
  ran w w1 [SysRecv fd CLIENT_RECV] -> received fd [SysRecv fd CLIENT_RECV] (script w) = [] -> client_ok c ->
  stored fd c w r c w1.
Proof.
  intros Hr Hd Hok. exists [SysRecv fd CLIENT_RECV]. split_and!; try done; [by repeat econstructor|by rewrite Hd, app_nil_r|].
  intros _. by exists [].
Qed.

Lemma recv_loop_spec fd : forall fuel (c : Client) w r c' w',
  recv_loop fuel fd (c, w) = (r, (c', w')) -> client_ok c -> tls_conn c = None ->
  len (contents (rbuf c)) + deliverable (script w) <= BUF_LIMIT -> (length (script w) <= fuel)%nat ->
  stored fd c w r c' w'.
Proof.
  induction fuel as [|fuel IH]; intros c w r c' w' E Hok Ht Hl Hf; pose proof Hok as [Hk1 Hk2 Hk3];
    rewrite recv_loop_eq in E; destruct (sys_recv fd CLIENT_RECV w) as [[[n e] d] w1] eqn:Es;
    pose proof (sys_recv_deliverable _ _ _ _ _ _ _ Es) as Hdel; pose proof (deliverable_nonneg (script w1));
    apply sys_recv_ran in Es as (Hr & Hd & _ & Hz & Ha); cbv zeta in E.
  - destruct Ha as [(_ & Hn & ->)|Ha]; [|lia]. destruct (Z.ltb_spec 0 n); [lia|]. destruct (Z.eqb_spec n 0); [lia|].
    rewrite (Hz ltac:(lia)) in Hd. cbn in E. simplify_eq. by apply stored_last.
  - destruct (Z.ltb_spec 0 n) as [Hn|Hn].
    + unfold take_input, append_client_plaintext in E. rewrite Ht in E.
      destruct (append_app (rbuf c) d Hk1) as (b & Ea & Hb & Hcb); [pose proof (len_nonneg d); lia|]. rewrite Ea in E.
      destruct Ha as [(_ & ? & _)|Ha]; [lia|].
      apply IH in E; [|by split|done|cbn; rewrite Hcb, len_app; lia|lia].
      eapply stored_after; [exact Hr|exact Hd|..|exact E]; done.
    + rewrite (Hz Hn) in Hd. destruct (Z.eqb_spec n 0) as [Hn0|Hn0]; [simplify_eq; by apply stored_last|].
      destruct (e =? EINTR) eqn:Ei.
      * destruct Ha as [(_ & _ & ->)|Ha]; [done|]. apply IH in E; [|done|done|pose proof (len_nonneg d); lia|lia].
        eapply stored_after; [exact Hr|exact Hd|..|exact E]; try done. by rewrite app_nil_r.
      * destruct (would_block e); simplify_eq; by apply stored_last.
Qed.

(** Input from a client without TLS, over any behaviour of the system:
    only receives on the client's descriptor are made, every byte received
    is appended to the input buffer in order, whatever the outcome, and the
    rest of the connection is untouched. *)
Theorem client_input_stored (fd : Z) (c : Client) (w : World) :
  client_ok c -> tls_conn c = None -> len (contents (rbuf c)) + deliverable (script w) <= BUF_LIMIT ->
  let '(r, (c', w')) := read_client_input fd (c, w) in
  exists cs, ran w w' cs /\ Forall (receives fd) cs /\ core c' = core c /\ wbuf c' = wbuf c /\
    contents (rbuf c') = contents (rbuf c) ++ received fd cs (script w).
Proof.
  intros Hok Ht Hl. unfold read_client_input.
  destruct (recv_loop (length (script w)) fd (c, w)) as [r1 [c1 w1]] eqn:E1.
  apply recv_loop_spec in E1 as (cs & P1 & P2 & P3 & P4 & P5 & P6 & P7 & P8 & P9); [|done..|lia].
  destruct r1 as [eof|e]; [rewrite P5, Ht|]; exists cs; by split_and!.
Qed.
End Client.

(** ** Witnesses *)

Definition demo_tls : Fallback.TLSConn := Fallback.mkConn (Fallback.mkImpl None true [] [] (str "http/1.1")) true.

(** A connection with TLS: three bytes were left by an earlier flush, five
    are to be written; the system takes two and then blocks. *)
Definition demo_client (t : option Fallback.TLSConn) (pending out : bytes) : ClientConn bytes Fallback.TLSConn :=
  mkClient (mkUniquefd 6) ReadRequest ProtoHTTP1 [] out true 0 None None 0 [] t pending.

Lemma client_output_conserved_witness :
  let c := demo_client (Some demo_tls) (str "abc") (str "hello") in
  let w := mkWorld [] [mkSys 2 0 0 []; mkSys (-1) EAGAIN 0 []] in
  let '(r, (c', w')) := write_client_output 6 (c, w) in
  exists cs p q t', ran w w' cs /\ tls_run demo_tls p q t' /\ str "hello" = p ++ contents (wbuf c') /\
    str "abc" ++ q = sent 6 cs (script w) ++ contents (tls_pending c').
Proof.
  cbv zeta. set (c := demo_client _ _ _). set (w := mkWorld _ _).
  assert (Hok : client_ok c) by (split; exact I).
  pose proof (client_output_conserved 6 c w Hok) as P.
  destruct (write_client_output 6 (c, w)) as [r [c' w']] eqn:E.
  destruct P as ((cs & k & P1 & _ & _ & _ & _ & _ & _ & _ & P3) & _).
  destruct (P3 demo_tls eq_refl) as (p & q & t' & _ & H1 & H2 & H3).
  exists cs, p, q, t'. split; [exact P1|]. split; [exact H1|]. split; [exact H2|]. apply H3.
  assert (Hr : r = Err tls_write_blocked) by (change r with (fst (r, (c', w'))); rewrite <- E; vm_compute; reflexivity). rewrite Hr. reflexivity.
Defined.

Lemma client_input_stored_witness :
  let c := demo_client None [] [] in
  let w := mkWorld [] [mkSys 0 0 0 (str "GET"); mkSys (-1) EAGAIN 0 []] in
  let '(r, (c', w')) := read_client_input 6 (c, w) in
  exists cs, ran w w' cs /\ contents (rbuf c') = received 6 cs (script w).
Proof.
  cbv zeta. set (c := demo_client _ _ _). set (w := mkWorld _ _).
  pose proof (client_input_stored 6 c w ltac:(split; exact I) eq_refl ltac:(vm_compute; discriminate)) as P.
  destruct (read_client_input 6 (c, w)) as [r [c' w']]. destruct P as (cs & P1 & _ & _ & _ & P2).
  exists cs. split; [exact P1|exact P2].
Defined.
