(* ===== verification/Server.v ===== *)
(** * The proxy server (src/src/proxy.cpp, src/include/uproxy/proxy.h)

    [ProxyServer] over any buffer, TLS implementation and event loop.  The
    server runs in one thread: an operation is a function from state to
    state.  A [ClientConn&] of the code is the entry of [conns_], read again
    after every call that may change it. *)

From stdpp Require Import prelude gmap.
From S2P Require Import Prelude Result CxxString Buffer Config LoadBalancer World Fd UpstreamPool Http1 Hpack Http2 Forward EventLoop Tls Log Client.

(** The only timer of the program. *)
Inductive TimerCB := OnTick.

Section Server.
Context {B T Ctx L : Type} `{BufferOps B} `{TlsOps T} `{TlsContext Ctx T} `{EventLoop TimerCB L}.
Context (inet_pton : bytes -> bool) (strerror : Z -> bytes).

Abbreviation Client := (ClientConn B T).

Record ProxyServer := mkServer {
  sv_cfg : ProxyConfig;
  sv_world : World;
  sv_loop : L;
  listen_fd_ : Uniquefd;
  tls_listen_fd_ : Uniquefd;
  tls_ctx_ : option Ctx;
  lb_ : WeightedRoundRobin;
  sv_pools : PoolManager;
  conns_ : gmap Z Client;
  g_log : option Logger;
}.

(** Writes of single members. *)
Definition set_sv_world (w : World) (s : ProxyServer) : ProxyServer :=
  mkServer (sv_cfg s) w (sv_loop s) (listen_fd_ s) (tls_listen_fd_ s) (tls_ctx_ s) (lb_ s) (sv_pools s) (conns_ s) (g_log s).
Definition set_sv_loop (l : L) (s : ProxyServer) : ProxyServer :=
  mkServer (sv_cfg s) (sv_world s) l (listen_fd_ s) (tls_listen_fd_ s) (tls_ctx_ s) (lb_ s) (sv_pools s) (conns_ s) (g_log s).
Definition set_listen_fd (u : Uniquefd) (s : ProxyServer) : ProxyServer :=
  mkServer (sv_cfg s) (sv_world s) (sv_loop s) u (tls_listen_fd_ s) (tls_ctx_ s) (lb_ s) (sv_pools s) (conns_ s) (g_log s).
Definition set_tls_listen_fd (u : Uniquefd) (s : ProxyServer) : ProxyServer :=
  mkServer (sv_cfg s) (sv_world s) (sv_loop s) (listen_fd_ s) u (tls_ctx_ s) (lb_ s) (sv_pools s) (conns_ s) (g_log s).
Definition set_tls_ctx (c : Ctx) (s : ProxyServer) : ProxyServer :=
  mkServer (sv_cfg s) (sv_world s) (sv_loop s) (listen_fd_ s) (tls_listen_fd_ s) (Some c) (lb_ s) (sv_pools s) (conns_ s) (g_log s).
Definition set_lb (lb : WeightedRoundRobin) (s : ProxyServer) : ProxyServer :=
  mkServer (sv_cfg s) (sv_world s) (sv_loop s) (listen_fd_ s) (tls_listen_fd_ s) (tls_ctx_ s) lb (sv_pools s) (conns_ s) (g_log s).
Definition set_pools (p : PoolManager) (s : ProxyServer) : ProxyServer :=
  mkServer (sv_cfg s) (sv_world s) (sv_loop s) (listen_fd_ s) (tls_listen_fd_ s) (tls_ctx_ s) (lb_ s) p (conns_ s) (g_log s).
Definition set_conns (m : gmap Z Client) (s : ProxyServer) : ProxyServer :=
  mkServer (sv_cfg s) (sv_world s) (sv_loop s) (listen_fd_ s) (tls_listen_fd_ s) (tls_ctx_ s) (lb_ s) (sv_pools s) m (g_log s).
Definition set_g_log (lg : option Logger) (s : ProxyServer) : ProxyServer :=
  mkServer (sv_cfg s) (sv_world s) (sv_loop s) (listen_fd_ s) (tls_listen_fd_ s) (tls_ctx_ s) (lb_ s) (sv_pools s) (conns_ s) lg.

Definition put_conn (fd : Z) (c : Client) (s : ProxyServer) : ProxyServer := set_conns (<[fd := c]> (conns_ s)) s.

Definition server_view : View ProxyServer L :=
  mkView _ _ (fun s => (sv_world s, sv_loop s)) (fun wl s => set_sv_loop wl.2 (set_sv_world wl.1 s)).

(** [(void)loop_->...]: the result is dropped. *)
Definition loop_do {A} (m : M (World * L) A) (s : ProxyServer) : ProxyServer := (on_loop server_view m s).2.

(** The [LOG_*] macros. *)
Definition logged (level : LogLevel) (msg : bytes) (kv : list (LogValue * LogValue)) (s : ProxyServer) : ProxyServer :=
  set_g_log (Log.log level msg kv <$> g_log s) s.

Definition kv (key : String.string) (value : bytes) : LogValue * LogValue := (VCStr (Some (str key)), VText value).
Arguments kv key%_string_scope value.

(** A function on the connection, run on its entry. *)
Definition on_conn {A} (fd : Z) (c : Client) (m : M (Client * World) A) (s : ProxyServer) : Result A * Client * ProxyServer :=
  let '(r, (c, w)) := m (c, sv_world s) in (r, c, put_conn fd c (set_sv_world w s)).

(** ** Construction *)

Definition ProxyServer_make (cfg : ProxyConfig) (loop : L) (lg : option Logger) (w : World) : ProxyServer :=
  mkServer cfg w loop fd_none fd_none None (WeightedRoundRobin_make (upstreams cfg)) (PoolManager_make (pool cfg)) ∅ lg.

(** ** setup_listeners *)

(** The texts in which the two listeners differ. *)
Record ListenTexts := mkTexts { lt_socket : bytes; lt_log : bytes; lt_addr : bytes; lt_bind : bytes; lt_listen : bytes }.

Definition plain_texts : ListenTexts :=
  mkTexts (str "socket listen") (str "invalid listen_addr, inet_pton failed") (str "invalid listen address: ")
    (str "bind listen") (str "listen").
Definition tls_texts : ListenTexts :=
  mkTexts (str "socket tls listen") (str "invalid listen_addr for TLS, inet_pton failed")
    (str "invalid TLS listen address: ") (str "bind tls listen") (str "listen tls").

Definition on_world {A} (m : M World A) : M ProxyServer A := fun s =>
  let '(r, w) := m (sv_world s) in (r, set_sv_world w s).

(** A call whose failure is an error of the given text. *)
Definition checked (c : Syscall) (op : bytes) : M World unit := fun w =>
  let '(r, w) := sys c w in
  if sr_ret r <? 0 then (Err (from_errno (sr_errno r) op), w) else (Ok tt, w).

(** From [set_reuse] on, for the socket that was just opened. *)
Definition start_listener (fd : Uniquefd) (port : Z) (t : ListenTexts) : M ProxyServer unit :=
  on_world (set_reuse fd) ;;;
  on_world (set_nonblocking fd) ;;;
  (fun s => if inet_pton (listen_addr (sv_cfg s)) then (Ok tt, s)
            else (Err (from_code SysError (lt_addr t ++ listen_addr (sv_cfg s))),
                  logged LError (lt_log t) [kv "addr" (listen_addr (sv_cfg s))] s)) ;;;
  (fun s => on_world (checked (SysBind (fd_ fd) (listen_addr (sv_cfg s)) port) (lt_bind t)) s) ;;;
  on_world (checked (SysListen (fd_ fd)) (lt_listen t)) ;;;
  on_loop server_view (el_add (fd_ fd) Event.Read).

(** [fd.reset(::socket(...))]: the new owner of the socket, and [errno]. *)
Definition reset_socket (old : Uniquefd) (w : World) : Uniquefd * Z * World :=
  let '(r, w) := sys SysSocket w in
  let '(u, w) := fd_reset (sr_ret r) old w in (u, sr_errno r, w).

Definition setup_plain : M ProxyServer unit := fun s =>
  let '(u, errno, w) := reset_socket (listen_fd_ s) (sv_world s) in
  let s := set_listen_fd u (set_sv_world w s) in
  if negb (fd_valid u) then (Err (from_errno errno (lt_socket plain_texts)), s)
  else start_listener u (listen_port (sv_cfg s)) plain_texts s.

Definition setup_tls : M ProxyServer unit := fun s =>
  let '(u, errno, w) := reset_socket (tls_listen_fd_ s) (sv_world s) in
  let s := set_tls_listen_fd u (set_sv_world w s) in
  if negb (fd_valid u) then (Err (from_errno errno (lt_socket tls_texts)), s)
  else start_listener u (tls_port (sv_cfg s)) tls_texts s.

Definition setup_listeners : M ProxyServer unit :=
  setup_plain ;;; (fun s => if tls_enabled (tls (sv_cfg s)) then setup_tls s else (Ok tt, s)).

(** ** Connections *)

Definition close_conn (fd : Z) (reason : bytes) (s : ProxyServer) : ProxyServer :=
  let s := loop_do (el_remove fd) s in
  match conns_ s !! fd with
  | None => s
  | Some c =>
      let s := logged Info (str "connection closed") [(VCStr (Some (str "fd")), VInt fd); kv "reason" reason] s in
      set_conns (delete fd (conns_ s)) (set_sv_world (fd_destroy (cc_fd c) (sv_world s)) s)
  end.

(** The connection made for an accepted socket; [addr] is its address as
    [inet_ntop] prints it. *)
Definition new_client (fd : Uniquefd) (tls_ : bool) (now : Z) (addr : bytes) (ctx : option Ctx) : Client :=
  mkClient fd (if tls_ then TLSHandshake else ReadRequest) ProtoHTTP1 (buf_new 65536) (buf_new 65536) true 0 None None
    now addr (if tls_ then Some (conn_make ctx true) else None) (buf_new 65536).

(** One accepted socket, after [fd.valid()]. *)
Definition accepted (fd : Uniquefd) (tls_ : bool) (addr : bytes) (s : ProxyServer) : ProxyServer :=
  let w := (set_nonblocking fd (sv_world s)).2 in
  let '(now, w) := sys_now_ms w in
  let conn := new_client fd tls_ now addr (tls_ctx_ s) in
  match on_loop server_view (el_add (fd_ fd) Event.Read) (set_sv_world w s) with
  | (Err e, s) =>
      let s := logged Warn (str "event add failed") [kv "error" (error_to_string strerror e)] s in
      set_sv_world (fd_destroy fd (sv_world s)) s
  | (Ok _, s) =>
      (* emplace keeps an element that is already there *)
      match conns_ s !! fd_ fd with
      | None => put_conn (fd_ fd) conn s
      | Some _ => set_sv_world (fd_destroy fd (sv_world s)) s
      end
  end.

Fixpoint accept_loop (fuel : nat) (listen_fd : Z) (tls_ : bool) (s : ProxyServer) : ProxyServer :=
  let '(r, w) := sys (SysAccept listen_fd) (sv_world s) in
  let s := set_sv_world w s in
  let fd := mkUniquefd (sr_ret r) in
  if negb (fd_valid fd) then
    if would_block (sr_errno r) then s
    else logged Warn (str "accept failed") [kv "error" (strerror (sr_errno r))] s
  else
    let s := accepted fd tls_ (sr_data r) s in
    match fuel with O => s | S fuel' => accept_loop fuel' listen_fd tls_ s end.

Definition on_accept (listen_fd : Z) (tls_ : bool) (s : ProxyServer) : ProxyServer :=
  accept_loop (length (script (sv_world s))) listen_fd tls_ s.

(** ** Forwarding from the server *)

(** [forward_http1(req, body, upstream, pools_, *loop_)]. *)
Definition server_forward (req : HttpRequest) (body : bytes) (i : nat) : M ProxyServer bytes := fun s =>
  let '(r, f) := forward_http1 (B := B) inet_pton req body i (mkFwd (sv_world s) (lb_ s) (sv_pools s)) in
  (r, set_pools (fw_pools f) (set_lb (fw_lb f) (set_sv_world (fw_world f) s))).

Definition endpoint_of (i : nat) (s : ProxyServer) : UpstreamEndpoint := nth i (endpoints_ (lb_ s)) endpoint_default.

(** [upstream->failed_requests.fetch_add(1)] and the warning. *)
Definition upstream_failed (msg : bytes) (i : nat) (e : Error) (s : ProxyServer) : ProxyServer :=
  let s := set_lb (put_endpoint i (count_failure (endpoint_of i s)) (lb_ s)) s in
  logged Warn msg [kv "upstream" (name (endpoint_of i s)); kv "error" (error_to_string strerror e)] s.

(** ** HTTP/1.1 requests *)

Definition close_response (status : String.string) : bytes :=
  str "HTTP/1.1 " ++ str status ++ CRLF ++ str "Content-Length: 0" ++ CRLF ++ str "Connection: close" ++ CRLF ++ CRLF.
Arguments close_response status%_string_scope.

Definition unsupported : bytes := close_response "501 Not Implemented".
Definition unavailable : bytes := close_response "503 Service Unavailable".
Definition bad_gateway : bytes := close_response "502 Bad Gateway".

(** [(void)conn.wbuf.append(...)]. *)
Definition queue_output (d : bytes) (c : Client) : Client := set_wbuf (buf_append d (wbuf c)).2 c.

(** The answer to a complete request, from the choice of an upstream on. *)
Definition serve_request (req : HttpRequest) (body : bytes) (c : Client) (s : ProxyServer) : Client * ProxyServer :=
  let '(upstream, lb) := next (lb_ s) in
  let s := set_lb lb s in
  match upstream with
  | None => (set_keep_alive false (queue_output unavailable c), s)
  | Some i =>
      let c := set_upstream i c in
      match server_forward req body i s with
      | (Err e, s) =>
          (set_keep_alive false (queue_output bad_gateway c), upstream_failed (str "upstream request failed") i e s)
      | (Ok response, s) => (queue_output response c, s)
      end
  end.

(** What [on_client_event] does after a part of it: return, or go on. *)
Inductive Flow := Return (s : ProxyServer) | GoOn (s : ProxyServer).

Definition ReadWrite : Z := Z.lor Event.Read Event.Write.

(** The HTTP/1.1 path, from the parser on. *)
Definition on_h1_input (fd : Z) (c : Client) (s : ProxyServer) : Flow :=
  match parse_request (rbuf c) HttpRequest_default with
  | (PError, _) => Return (close_conn fd (str "bad request") s)
  | (Incomplete, _) => GoOn s
  | (Complete, req) =>
      if req_chunked req then
        let c := set_keep_alive false (queue_output unsupported c) in
        let c := set_rbuf (buf_commit_read (rbuf c) (req_header_bytes req)) c in
        Return (loop_do (el_modify fd ReadWrite) (put_conn fd c s))
      else
        let buffered_body := if req_header_bytes req <? buf_readable (rbuf c)
                             then buf_readable (rbuf c) - req_header_bytes req else 0 in
        if buffered_body <? req_content_length req then Return s
        else
          let c := set_rbuf (buf_commit_read (rbuf c) (req_header_bytes req)) c in
          let body := buf_peek (rbuf c) (req_content_length req) in
          let c := set_rbuf (buf_commit_read (rbuf c) (req_content_length req)) c in
          let c := set_keep_alive (req_keep_alive req) c in
          let '(c, s) := serve_request req body c s in
          let c := set_req_count (i32 (req_count c + 1)) c in
          GoOn (loop_do (el_modify fd ReadWrite) (put_conn fd c s))
  end.

(** ** HTTP/2 requests *)

(** The loop over the headers of a stream: the last [:method], [:path] and
    [:authority], and the regular headers. *)
Record H2Request := mkH2Request { h2_method : bytes; h2_path : bytes; h2_authority : bytes; h2_headers : list HttpHeader }.

Definition h2_header (r : H2Request) (h : HpackHeader) : H2Request :=
  if bool_decide (hp_name h = str ":method") then mkH2Request (hp_value h) (h2_path r) (h2_authority r) (h2_headers r)
  else if bool_decide (hp_name h = str ":path") then mkH2Request (h2_method r) (hp_value h) (h2_authority r) (h2_headers r)
  else if bool_decide (hp_name h = str ":authority") then mkH2Request (h2_method r) (h2_path r) (hp_value h) (h2_headers r)
  else match hp_name h with
       | [] => r
       | ch :: _ =>
           if Byte.eqb ch Byte.x3a then r
           else mkH2Request (h2_method r) (h2_path r) (h2_authority r) (h2_headers r ++ [mkHeader (hp_name h) (hp_value h)])
       end.

Definition h2_to_h1 (headers : list HpackHeader) (body : bytes) : HttpRequest :=
  let r := foldl h2_header (mkH2Request [] [] [] []) headers in
  mkRequest (h2_method r) (h2_path r) (str "HTTP/1.1") (h2_headers r) true (len body) false 0.

Definition plain_header (n v : bytes) : HpackHeader := mkHpack n v false.

Definition error_headers (status : String.string) : list HpackHeader :=
  [plain_header (str ":status") (str status); plain_header (str "content-length") (str "0")].
Arguments error_headers status%_string_scope.

Definition h2_hop_by_hop (n : bytes) : bool :=
  bool_decide (n = str "connection") || bool_decide (n = str "keep-alive")
  || bool_decide (n = str "transfer-encoding") || bool_decide (n = str "upgrade").

Definition h2_response_headers (resp : HttpResponse) : list HpackHeader :=
  plain_header (str ":status") (to_string (resp_status resp))
  :: map (fun h => plain_header (h_name h) (h_value h))
       (filter (fun h => h2_hop_by_hop (lower (h_name h)) = false) (resp_headers resp)).

(** The upstream's bytes as an HTTP/2 response: headers and body. *)
Definition h1_to_h2 (resp_bytes : bytes) : list HpackHeader * bytes :=
  let resp_buf := (buf_append resp_bytes (buf_new (len resp_bytes) : B)).2 in
  match parse_response resp_buf HttpResponse_default with
  | (Complete, resp) =>
      let body_offset := resp_header_bytes resp in
      let body_len := if body_offset <? len resp_bytes then len resp_bytes - body_offset else 0 in
      (h2_response_headers resp, take (Z.to_nat body_len) (drop (Z.to_nat body_offset) resp_bytes))
  | _ => (error_headers "502", [])
  end.

(** [(void)conn.h2conn->send_response(...)]. *)
Definition reply (id : Z) (headers : list HpackHeader) (body : bytes) (h : H2Conn B) : H2Conn B :=
  (send_response id headers body true h).2.

(** One ready stream.  The stream exists: [process] has just reported it. *)
Definition serve_stream (id : Z) (st : Client * H2Conn B * ProxyServer) : Client * H2Conn B * ProxyServer :=
  let '(c, h, s) := st in
  let headers := default [] (stream_headers id h) in
  let body := default [] (stream_body id h) in
  let req := h2_to_h1 headers body in
  let '(upstream, lb) := next (lb_ s) in
  let s := set_lb lb s in
  let '(c, h, s) :=
    match upstream with
    | None => (c, reply id (error_headers "503") [] h, s)
    | Some i =>
        let c := set_upstream i c in
        match server_forward req body i s with
        | (Err e, s) => (c, reply id (error_headers "502") [] h, upstream_failed (str "h2 upstream failed") i e s)
        | (Ok resp_bytes, s) =>
            let '(resp_headers, resp_body) := h1_to_h2 resp_bytes in (c, reply id resp_headers resp_body h, s)
        end
    end in
  (c, default h (consume_body id (len body) h), s).

Definition handle_h2_client (fd : Z) (c : Client) (s : ProxyServer) : ProxyServer :=
  let h := default (H2Conn_make true) (h2conn c) in
  (* feed *)
  let data := contents (rbuf c) in
  let '(fed, h, c) :=
    if 0 <? buf_readable (rbuf c) then
      match feed data h with
      | (Err e, h) => (Err e, h, c)
      | (Ok _, h) => (Ok tt, h, set_rbuf (buf_commit_read (rbuf c) (len data)) c)
      end
    else (Ok tt, h, c) in
  let s := put_conn fd (set_h2conn h c) s in
  match fed with
  | Err e => close_conn fd (str "h2 feed error: " ++ error_to_string strerror e) s
  | Ok _ =>
      let '(ready, h) := process h in
      let s := put_conn fd (set_h2conn h c) s in
      match ready with
      | Err e => close_conn fd (str "h2 process error: " ++ error_to_string strerror e) s
      | Ok ids =>
          let '(c, h, s) := foldl (fun st id => serve_stream id st) (c, h, s) ids in
          let output := pending_output h in
          let '(c, h, s) :=
            if bool_decide (output = []) then (c, h, put_conn fd (set_h2conn h c) s)
            else
              let c := queue_output output c in
              let h := consume_output (len output) h in
              (c, h, loop_do (el_modify fd ReadWrite) (put_conn fd (set_h2conn h c) s)) in
          if is_done h then close_conn fd (str "h2 done") s else s
      end
  end.

(** ** Events *)

(** The loop that feeds the handshake; the left result is the reason to
    close. *)
Fixpoint handshake_recv (fuel : nat) (fd : Z) (t : T) (w : World) : option bytes * T * World :=
  let '(n, errno, d, w) := sys_recv fd CLIENT_RECV w in
  if 0 <? n then
    let t := (tls_feed_encrypted d t).2 in
    match fuel with O => (Some [], t, w) | S fuel' => handshake_recv fuel' fd t w end
  else if n =? 0 then (Some (str "eof in handshake"), t, w)
  else if would_block errno then (None, t, w)
  else (Some (str "recv error in handshake"), t, w).

Definition on_handshake (fd events : Z) (c : Client) (t : T) (s : ProxyServer) : ProxyServer :=
  let '(stop, t, w) := if has events Event.Read
                       then handshake_recv (length (script (sv_world s))) fd t (sv_world s)
                       else (None, t, sv_world s) in
  let s := put_conn fd (set_tls_conn t c) (set_sv_world w s) in
  match stop with
  | Some reason => close_conn fd reason s
  | None =>
      let '(state_res, t) := tls_do_handshake t in
      match on_conn fd (set_tls_conn t c) (flush_tls_ciphertext fd) s with
      | (flushed, c, s) =>
          match unless_blocked (flushed, tt) with
          | (Err e, _) => close_conn fd (str "send error in handshake: " ++ error_to_string strerror e) s
          | (Ok _, _) =>
              match state_res with
              | Err e => close_conn fd (str "tls handshake error: " ++ error_to_string strerror e) s
              | Ok HandshakePending => s
              | Ok HandshakeDone =>
                  let alpn := match tls_conn c with Some t => tls_alpn_protocol t | None => [] end in
                  let c := set_ready (if bool_decide (alpn = str "h2") then ProtoHTTP2 else ProtoHTTP1) c in
                  loop_do (el_modify fd ReadWrite) (put_conn fd c s)
              end
          end
      end
  end.

(** The part under [has(events, Event::Read)]. *)
Definition on_readable (fd : Z) (c : Client) (s : ProxyServer) : Flow :=
  match on_conn fd c (read_client_input fd) s with
  | (Err e, _, s) => Return (close_conn fd (str "recv error: " ++ error_to_string strerror e) s)
  | (Ok true, _, s) => Return (close_conn fd (str "eof") s)
  | (Ok false, c, s) =>
      if bool_decide (cc_proto c = ProtoHTTP2) then Return (handle_h2_client fd c s)
      else on_h1_input fd c s
  end.

(** The part under [has(events, Event::Write)]. *)
Definition on_writable (fd : Z) (c : Client) (s : ProxyServer) : ProxyServer :=
  match on_conn fd c (write_client_output fd) s with
  | (Err e, c, s) =>
      if is_would_block e then s
      else close_conn fd (str "send error: " ++ error_to_string strerror e) s
  | (Ok _, c, s) =>
      if negb (keep_alive c) then close_conn fd (str "response complete") s
      else loop_do (el_modify fd Event.Read) s
  end.

Definition on_client_event (fd events : Z) (s : ProxyServer) : ProxyServer :=
  match conns_ s !! fd with
  | None => s
  | Some c =>
      if has events Event.HangUp || has events Event.Error then close_conn fd (str "peer closed") s
      else
        match bool_decide (cc_state c = TLSHandshake), tls_conn c with
        | true, Some t => on_handshake fd events c t s
        | true, None => s             (* a null tls_conn: not reachable *)
        | false, _ =>
            match (if has events Event.Read then on_readable fd c s else GoOn s) with
            | Return s => s
            | GoOn s =>
                match has events Event.Write, conns_ s !! fd with
                | true, Some c => on_writable fd c s
                | _, _ => s
                end
            end
        end
  end.

(** ** The loop *)

Definition on_tick (s : ProxyServer) : ProxyServer :=
  let '(now, w) := sys_now_ms (sv_world s) in
  let '(pools, w) := pool_tick now (sv_pools s) w in
  let '(stop, w) := load_shutdown w in
  let s := set_sv_world w (set_pools pools s) in
  if stop then s else loop_do (el_add_timer 1000 OnTick) s.

Definition run_timer (cb : TimerCB) (s : ProxyServer) : ProxyServer := match cb with OnTick => on_tick s end.

Definition on_event (fd events : Z) (s : ProxyServer) : ProxyServer :=
  if fd =? fd_get (listen_fd_ s) then on_accept fd false s
  else if fd =? fd_get (tls_listen_fd_ s) then on_accept fd true s
  else on_client_event fd events s.

Definition poll_once : M ProxyServer unit := fun s => el_poll ProxyServer server_view run_timer on_event 1000 s.

(** [while (!g_shutdown.load())].  The code may go on for ever; the model is
    bounded, and a bound that is reached is an error, so that [Ok] means that
    the flag was seen set. *)
Fixpoint serve_loop (fuel : nat) : M ProxyServer unit := fun s =>
  let '(stop, w) := load_shutdown (sv_world s) in
  let s := set_sv_world w s in
  if stop then (Ok tt, s)
  else
    match poll_once s with
    | (Err e, s) => (Err e, s)
    | (Ok _, s) => match fuel with O => (Err (from_errno EIO (str "epoll wait")), s) | S fuel' => serve_loop fuel' s end
    end.

(** The loop over [conns_] at the end; the order of an [unordered_map] is
    unspecified, here it is that of [map_to_list]. *)
Definition close_all (s : ProxyServer) : ProxyServer :=
  foldl (fun s fd => close_conn fd (str "shutdown") s) s (map_to_list (conns_ s)).*1.

Definition run : M ProxyServer unit := fun s =>
  let '(ctx, s) := if tls_enabled (tls (sv_cfg s))
                   then match ctx_server (tls (sv_cfg s)) with
                        | Err e => (Err e, s)
                        | Ok c => (Ok tt, set_tls_ctx c s)
                        end
                   else (Ok tt, s) in
  match ctx with
  | Err e => (Err e, s)
  | Ok _ =>
      match (setup_listeners ;;; on_loop server_view (el_add_timer 1000 OnTick)) s with
      | (Err e, s) => (Err e, s)
      | (Ok _, s) =>
          match serve_loop (length (script (sv_world s))) s with
          | (Err e, s) => (Err e, s)
          | (Ok _, s) => (Ok tt, close_all s)
          end
      end
  end.
End Server.
Arguments ProxyServer : clear implicits.
Arguments kv key%_string_scope value.
Arguments close_response status%_string_scope.
Arguments error_headers status%_string_scope.
