(* ===== verification/TlsProofs.v ===== *)
(** * Correctness of the TLS layer

    The protocol negotiation of the build with BoringSSL, and an
    implementation of the library's interface that shows that what is assumed
    of it can hold. *)

From stdpp Require Import prelude.
From S2P Require Import Prelude Result Config Tls TlsBoring.

(** ** Protocol negotiation *)

(** The list of protocols as a client sends it: each with its length. *)
Definition alpn_entry (p : bytes) : bytes := z2b (len p) :: p.
Definition alpn_wire (ps : list bytes) : bytes := concat (map alpn_entry ps).

(** What may follow: nothing, or an entry that is cut short. *)
Definition cut_entry (tail : bytes) : Prop :=
  match tail with [] => True | c :: rest => len rest < b2z c end.

Lemma b2z_len (p : bytes) : len p < 256 -> b2z (z2b (len p)) = len p.
Proof. intros Hp. rewrite b2z_z2b. apply Z.mod_small. pose proof (len_nonneg p). lia. Qed.

Lemma alpn_scan_wire tail : cut_entry tail -> forall ps fuel h2 h1,
  Forall (fun p : bytes => len p < 256) ps -> (length (alpn_wire ps ++ tail) <= fuel)%nat ->
  alpn_scan fuel (alpn_wire ps ++ tail) h2 h1 =
  (h2 || bool_decide (str "h2" ∈ ps), h1 || bool_decide (str "http/1.1" ∈ ps)).
Proof.
  intros Hc. induction ps as [|p ps IH]; intros fuel h2 h1 Hps Hf.
  - rewrite !bool_decide_eq_false_2, !orb_false_r by apply not_elem_of_nil. cbn [alpn_wire map concat app] in *.
    destruct fuel, tail as [|c tail]; try done. cbn in Hc. cbn [alpn_scan]. by destruct (Z.ltb_spec (len tail) (b2z c)); [|lia].
  - apply Forall_cons in Hps as [Hp Hps]. destruct fuel as [|fuel]; [cbn in Hf; lia|].
    unfold alpn_wire in *. cbn [map concat alpn_entry app] in *. rewrite <- app_assoc in *. cbn [alpn_scan].
    rewrite b2z_len by done. set (rest := concat _ ++ tail) in *.
    destruct (Z.ltb_spec (len (p ++ rest)) (len p)); [rewrite len_app in *; pose proof (len_nonneg rest); lia|].
    unfold len. rewrite Nat2Z.id, take_app_length, drop_app_length. unfold rest in *. rewrite IH; [|done|].
    2:{ cbn in Hf. rewrite length_app in Hf. lia. }
    f_equal; rewrite (bool_decide_ext _ _ (elem_of_cons ps _ p)), bool_decide_or;
      repeat case_bool_decide; subst; try done; by rewrite ?orb_true_r, ?orb_false_r.
Qed.

(** (C28) The protocol that is negotiated.  For every list of protocols a
    client can send, whatever their number and order and even when the last
    entry is cut short, HTTP/2 is chosen when it is in the list, otherwise
    HTTP/1.1 when that is in the list, and otherwise none; no entry is taken
    for another because of bytes that straddle two of them. *)
Theorem alpn_select_exact (ps : list bytes) (tail : bytes) :
  Forall (fun p : bytes => len p < 256) ps -> cut_entry tail ->
  alpn_select_cb (alpn_wire ps ++ tail) =
  if decide (str "h2" ∈ ps) then Some (str "h2")
  else if decide (str "http/1.1" ∈ ps) then Some (str "http/1.1") else None.
Proof.
  intros Hps Hc. unfold alpn_select_cb. rewrite alpn_scan_wire by done. cbn [orb].
  by repeat case_bool_decide; repeat case_decide.
Qed.

Lemma alpn_select_exact_witness :
  alpn_select_cb (alpn_wire [str "http/1.1"; str "spdy/3"; str "h2"] ++ [z2b 9; Byte.x68]) = Some (str "h2").
Proof.
  rewrite (alpn_select_exact [str "http/1.1"; str "spdy/3"; str "h2"] [z2b 9; Byte.x68]);
    [vm_compute; reflexivity|repeat constructor; vm_compute; reflexivity|vm_compute; reflexivity].
Defined.

(** ** The assumptions on the library can hold *)

(** A library without encryption: two queues, and a handshake that is done at
    once. *)
Record NullSsl := mkNull { null_in : bytes; null_out : bytes }.

#[local] Instance null_lib : SslLib unit NullSsl := {|
  SSL_CTX_new _ := Some tt;
  SSL_CTX_use_certificate_chain_file _ c := (1, c);
  SSL_CTX_use_PrivateKey_file _ c := (1, c);
  SSL_CTX_check_private_key _ := 1;
  SSL_CTX_set_alpn_select_cb _ c := c;
  SSL_new _ _ := mkNull [] [];
  SSL_do_handshake x := (1, x);
  SSL_get_error _ _ := SSL_ERROR_WANT_READ;
  SSL_get0_alpn_selected _ := [];
  BIO_write d x := (len d, mkNull (null_in x ++ d) (null_out x));
  BIO_read n x := if bool_decide (null_out x = []) then (-1, [], x)
                  else let d := take (Z.to_nat n) (null_out x) in (len d, d, mkNull (null_in x) (drop (Z.to_nat n) (null_out x)));
  BIO_should_retry _ := true;
  BIO_pending x := len (null_out x);
  SSL_read n x := if bool_decide (null_in x = []) then (-1, [], x)
                  else let d := take (Z.to_nat n) (null_in x) in (len d, d, mkNull (drop (Z.to_nat n) (null_in x)) (null_out x));
  SSL_write d x := (len d, mkNull (null_in x) (null_out x ++ d));
  SSL_shutdown x := x;
  ssl_buffered x := length (null_in x);
|}.

#[local] Instance null_spec : SslSpec unit NullSsl.
Proof.
  refine {| ssl_out := null_out |}.
  - intros n x k d x' Hn E. cbn in E. case_bool_decide as Hz; simplify_eq; [by split|]. cbn. split.
    + intros _. rewrite take_drop. split_and!; [done|len_lia|done].
    + intros Hk. destruct (null_out x); [done|]. len_simpl. cbn in Hk. lia.
  - intros d x k x' E. cbn in E. simplify_eq. cbn. split; [by eexists|done].
  - intros n x k d x' E. cbn in E. case_bool_decide as Hz; simplify_eq; cbn.
    + split; [exists []; by rewrite app_nil_r|done].
    + split; [exists []; by rewrite app_nil_r|]. intros Hk. split_and!; [done|len_lia|]. rewrite length_drop. len_simpl. lia.
  - intros d x k x' E. cbn in E. simplify_eq. cbn. exists []. by rewrite app_nil_r.
  - intros x k x' E. cbn in E. simplify_eq. exists []. by rewrite app_nil_r.
Qed.

(** The TLS contract holds for the build over this library. *)
Example boring_spec_instance : TlsSpec (Boring.TLSConn unit NullSsl) := _.
