(* ===== verification/Progress.v ===== *)
(** * Every operation only makes further calls

    From the calls of the operating system up to forwarding and client input
    and output: the trace grows, the answers are used up in order.  That
    the bound of the server's loop does not show, and what its calls were, is
    proved from these facts. *)

From stdpp Require Import prelude gmap.
From S2P Require Import Prelude Result CxxString Buffer Config LoadBalancer World Fd UpstreamPool Http1 Forward Tls Hpack Http2 Client.

#[global] Instance sys_now_calls : Calls sys_now_ms.
Proof. unfold sys_now_ms. calls_cases. Qed.

#[global] Instance load_shutdown_calls : Calls load_shutdown.
Proof. unfold load_shutdown. calls_cases. Qed.

#[global] Instance set_nonblocking_calls u : Calls (set_nonblocking u).
Proof. unfold set_nonblocking. calls_cases. Qed.

#[global] Instance set_reuse_calls u : Calls (set_reuse u).
Proof. unfold set_reuse. calls_cases. Qed.

#[global] Instance set_nodelay_calls u : Calls (set_nodelay u).
Proof. unfold set_nodelay. calls_cases. Qed.

#[global] Instance sys_send_calls fd d : Calls (sys_send fd d).
Proof. unfold sys_send. calls_cases. Qed.

#[global] Instance sys_recv_calls fd n : Calls (sys_recv fd n).
Proof. unfold sys_recv. calls_cases. Qed.

(** ** Descriptors *)

Lemma close_loop_quiet fuel fd : forall w, quiet w (close_loop fuel fd w).
Proof.
  induction fuel as [|fuel IH]; intros w; cbn [close_loop]; destruct (sys _ w) as [r w1] eqn:E; apply calls_eq in E; [|exact _| |exact _].
  - by destruct (_ && _).
  - destruct (_ && _); [by etrans|done].
Qed.

#[global] Instance fd_reset_calls fd u : Calls (fd_reset fd u).
Proof. intros w. unfold fd_reset. destruct (0 <=? fd_ u); [apply close_loop_quiet|done]. Qed.

Lemma fd_destroy_quiet u w : quiet w (fd_destroy u w).
Proof. apply (calls_quiet (m := fd_reset (-1) u)). Qed.

(** ** Pools *)

Section Pools.
Context (inet_pton : bytes -> bool).

#[global] Instance connect_socket_calls u a p t : Calls (connect_socket inet_pton u a p t).
Proof.
  unfold connect_socket. apply bind_calls; [exact _|intros _]. apply bind_calls; [|intros _].
  - intros w. cbn. apply (calls_quiet (m := set_nodelay u)).
  - destruct (negb _); [by intros w|]. intros w. unfold await_connect. repeat dmatch; cbn [fst snd aq_world]; calls_chain.
Qed.

#[global] Instance new_connection_calls ep cfg : Calls (new_connection inet_pton ep cfg).
Proof.
  intros w. unfold new_connection. repeat dmatch; cbn [fst snd aq_world]; calls_chain. apply fd_destroy_quiet.
Qed.

Lemma acquire_quiet others s : quiet (aq_world s) (aq_world (acquire inet_pton others s).2).
Proof. unfold acquire. repeat dmatch; cbn [fst snd aq_world]; calls_chain. Qed.

Lemma release_quiet c p w : quiet w (release c p w).2.
Proof. unfold release. repeat dmatch; cbn [fst snd aq_world]; calls_chain. apply fd_destroy_quiet. Qed.
End Pools.

Lemma evict_loop_quiet cfg ts cs : forall total w, quiet w (evict_loop cfg ts cs total w).2.
Proof.
  induction cs as [|c cs IH]; intros total w; cbn [evict_loop]; [done|].
  destruct (expired cfg ts c); [etrans; [apply fd_destroy_quiet|apply IH]|].
  specialize (IH total w). by destruct (evict_loop _ _ _ _ _) as [[kept total'] w'].
Qed.

Lemma pool_tick_quiet ts pm w : quiet w (pool_tick ts pm w).2.
Proof.
  unfold pool_tick. generalize (map_to_list (pools_ pm)) as l. intros l.
  change w with (pm, w).2 at 1. generalize (pm, w) as s. clear pm w.
  induction l as [|[k p] l IH]; intros [pm w]; cbn [foldl]; [done|].
  etrans; [|apply IH]. unfold evict_idle. pose proof (evict_loop_quiet (cfg_ p) ts (idle_ p) (total_ p) w) as H.
  by destruct (evict_loop _ _ _ _ _) as [[kept total'] w'].
Qed.

(** ** Forwarding *)

#[global] Instance wait_loop_calls fuel fd ev t op : Calls (wait_loop fuel fd ev t op).
Proof.
  induction fuel as [|fuel IH]; intros w; cbn [wait_loop]; destruct (sys _ w) as [r w1] eqn:E; repeat dmatch;
    cbn; calls_chain. apply IH.
Qed.

#[global] Instance wait_fd_calls fd ev t op : Calls (wait_fd fd ev t op).
Proof. intros w. apply (calls_quiet (m := wait_loop _ _ _ _ _)). Qed.

#[global] Instance write_loop_calls fuel fd : forall rest t, Calls (write_loop fuel fd rest t).
Proof.
  induction fuel as [|fuel IH]; intros rest t w; cbn [write_loop]; (destruct (len rest =? 0); [done|]);
    destruct (sys_send fd rest w) as [[n e] w1] eqn:E; cbv zeta; repeat dmatch; cbn [fst snd aq_world]; calls_chain; apply IH.
Qed.

#[global] Instance write_all_calls fd d t : Calls (write_all fd d t).
Proof. intros w. apply (calls_quiet (m := write_loop _ _ _ _)). Qed.

Section OnBuffer.
Context {B : Type} `{BufferOps B} (inet_pton : bytes -> bool).

#[global] Instance read_loop_calls fuel fd t : forall (b : B) p, Calls (read_loop fuel fd t b p).
Proof.
  induction fuel as [|fuel IH]; intros b p w; cbn [read_loop]; destruct (response_complete b p) as [[] p']; try done;
    (destruct (_ <=? _); [done|]);
    destruct (wait_fd fd POLLIN (i32 t) (str "read upstream") w) as [[[]|e] w1] eqn:E;
    [|destruct (_ && _); cbn [fst snd aq_world]; calls_chain| |destruct (_ && _); cbn [fst snd aq_world]; calls_chain];
    destruct (sys_recv fd RECV_SIZE w1) as [[[n e] d] w2] eqn:E2; cbv zeta; repeat dmatch; cbn [fst snd aq_world]; calls_chain; apply IH.
Qed.

#[global] Instance read_response_calls fd t : Calls (read_response (B := B) fd t).
Proof. intros w. apply (calls_quiet (m := read_loop _ _ _ _ _)). Qed.

Lemma fw_acquire_quiet key s : quiet (fw_world s) (fw_world (fw_acquire inet_pton key s).2).
Proof.
  unfold fw_acquire. pose proof (acquire_quiet inet_pton id (mkAcquire (fw_world s) (endpoint_at (endpoint_ (pool_at key s)) s) (pool_at key s))) as Hl.
  by destruct (acquire _ _ _) as [r a].
Qed.

Lemma fw_release_quiet key c s : quiet (fw_world s) (fw_world (fw_release key c s)).
Proof.
  unfold fw_release. pose proof (release_quiet c (pool_at key s) (fw_world s)) as Hl. by destruct (release _ _ _).
Qed.

Lemma forward_attempts_quiet key request n : forall s,
  quiet (fw_world s) (fw_world (forward_attempts (B := B) inet_pton n key request s).2).
Proof.
  induction n as [|n IH]; intros s; cbn [forward_attempts]; [done|].
  pose proof (fw_acquire_quiet key s) as Ha. destruct (fw_acquire _ key s) as [[conn|e] s1]; cbn [snd] in Ha; [|done].
  etrans; [exact Ha|]. cbv zeta.
  assert (Hfail : forall e w, quiet (fw_world s1) w -> quiet (fw_world s1)
    (fw_world (match n with
               | O => (Err e, drop_conn conn (fw_release key None (set_world w s1)))
               | S _ => forward_attempts (B := B) inet_pton n key request (drop_conn conn (fw_release key None (set_world w s1)))
               end).2)).
  { intros e w Hw.
    assert (Hd : quiet (fw_world s1) (fw_world (drop_conn conn (fw_release key None (set_world w s1)))))
      by (etrans; [exact Hw|]; apply fd_destroy_quiet).
    destruct n; [done|]. etrans; [exact Hd|apply IH]. }
  destruct (write_all _ _ _ _) as [[[]|e] w1] eqn:E1; [|apply Hfail; calls_chain].
  destruct (read_response _ _ w1) as [[resp|e] w2] eqn:E2; [|apply Hfail; calls_chain].
  cbn [snd]. etrans; [|apply fw_release_quiet]. cbn. calls_chain.
Qed.

Lemma forward_http1_quiet req body i s :
  quiet (fw_world s) (fw_world (forward_http1 (B := B) inet_pton req body i s).2).
Proof.
  unfold forward_http1. destruct (write_request _ _ _) as [[[]|e] b]; [|done].
  destruct (if len body =? 0 then _ else _) as [[[]|e] b1]; [|done].
  destruct (pool_get _ _ _) as [key pm]. etrans; [|apply forward_attempts_quiet]. done.
Qed.
End OnBuffer.

(** ** Clients *)

Section Client.
Context {B T : Type} `{BufferOps B} `{TlsOps T}.
Abbreviation Client := (ClientConn B T).

(** Everything of a connection but its buffers and its TLS object. *)
Definition identity (c : Client) :=
  (cc_fd c, cc_state c, cc_proto c, keep_alive c, req_count c, h2conn c, cc_upstream c, connected_at_ms c, remote_addr c,
   match tls_conn c with Some _ => true | None => false end).

(** Calls were made and bytes moved; the connection is still the same. *)
Definition moved (x y : Client * World) : Prop := identity y.1 = identity x.1 /\ quiet x.2 y.2.

#[global] Instance moved_preorder : PreOrder moved.
Proof.
  split; [by intros x|]. intros x y z [H1 H2] [H3 H4]. split; [congruence|by etrans].
Qed.

Class Moves {A} (m : M (Client * World) A) : Prop := moves : forall x, moved x (m x).2.

Lemma moved_calls {A} (m : World -> A * World) `{!Calls m} (c : Client) w r w' : m w = (r, w') -> moved (c, w) (c, w').
Proof. intros E. split; [done|]. by apply calls_eq in E. Qed.

Lemma moved_tls (c : Client) t t' w : tls_conn c = Some t -> moved (c, w) (set_tls_conn t' c, w).
Proof. intros E. split; [|done]. unfold identity. cbn. by rewrite E. Qed.

#[global] Instance flush_pending_moves fuel fd : Moves (flush_pending fuel fd).
Proof.
  induction fuel as [|fuel IH]; intros [c w]; cbn [flush_pending]; (destruct (_ <=? 0); [done|]);
    destruct (sys_send _ _ w) as [[n e] w1] eqn:E; eapply (moved_calls _ c) in E; cbv zeta;
    (etrans; [exact E|]); repeat dmatch; try done; (etrans; [|apply IH]); done.
Qed.

#[global] Instance send_chunk_moves fuel fd : forall rest, Moves (send_chunk fuel fd rest).
Proof.
  induction fuel as [|fuel IH]; intros rest [c w]; cbn [send_chunk]; (destruct (len rest =? 0); [done|]);
    destruct (sys_send _ _ w) as [[n e] w1] eqn:E; eapply (moved_calls _ c) in E; cbv zeta;
    (etrans; [exact E|]); repeat dmatch; try done; apply IH.
Qed.

#[global] Instance flush_fresh_moves fuel fd : Moves (flush_fresh fuel fd).
Proof.
  induction fuel as [|fuel IH]; intros [c w]; cbn [flush_fresh]; destruct (tls_conn c) as [t|] eqn:Et; try done;
    destruct (tls_take_encrypted TLS_CHUNK t) as [[d|e] t1]; try (by eapply moved_tls);
    (destruct (len d =? 0); [by eapply moved_tls|]);
    (etrans; [by eapply (moved_tls c t t1)|]);
    pose proof (moves (m := send_chunk (length (script w)) fd d) (set_tls_conn t1 c, w)) as Hs;
    destruct (send_chunk _ _ _ _) as [[[]|e] s]; try done.
  etrans; [exact Hs|apply IH].
Qed.

#[global] Instance flush_moves fd : Moves (flush_tls_ciphertext fd).
Proof.
  intros [c w]. unfold flush_tls_ciphertext. destruct (tls_conn c); [|done].
  pose proof (moves (m := flush_pending (length (script w)) fd) (c, w)) as Hs.
  destruct (flush_pending _ _ _) as [[[]|e] [c1 w1]]; [|done]. etrans; [exact Hs|].
  apply (moves (m := flush_fresh _ _)).
Qed.

Lemma unless_blocked_snd {S} (r : Result unit * S) : (unless_blocked r).2 = r.2.
Proof. destruct r as [[[]|e] s]; cbn; [done|]. by destruct (is_would_block e). Qed.

Lemma take_input_moves d (c : Client) w : moved (c, w) ((take_input d c).2, w).
Proof.
  unfold take_input, append_client_plaintext. destruct (tls_conn c) as [t|] eqn:E.
  - destruct (tls_feed_encrypted d t). by eapply moved_tls.
  - by destruct (buf_append _ _).
Qed.

#[global] Instance recv_loop_moves fuel fd : Moves (recv_loop fuel fd).
Proof.
  induction fuel as [|fuel IH]; intros [c w]; cbn [recv_loop];
    destruct (sys_recv _ _ w) as [[[n e] d] w1] eqn:E; eapply (moved_calls _ c) in E; cbv zeta;
    (etrans; [exact E|]); pose proof (take_input_moves d c w1) as Ht; destruct (take_input d c) as [[[]|e1] c1];
    repeat dmatch; try done; try apply IH; etrans; [exact Ht|apply IH].
Qed.

Lemma decrypt_loop_moves fuel w : forall (c : Client), moved (c, w) ((decrypt_loop fuel c).2, w).
Proof.
  induction fuel as [|fuel IH]; intros c; cbn [decrypt_loop]; destruct (tls_conn c) as [t|] eqn:Et; try done;
    destruct (tls_read CLIENT_RECV t) as [[d|e] t1]; try (destruct (is_would_block e); by eapply moved_tls);
    (etrans; [by eapply (moved_tls c t t1)|]); unfold append_client_plaintext;
    destruct (buf_append d _) as [[[]|e] b]; try done.
  etrans; [|apply IH]. done.
Qed.

#[global] Instance read_client_input_moves fd : Moves (read_client_input fd).
Proof.
  intros [c w]. unfold read_client_input. pose proof (moves (m := recv_loop (length (script w)) fd) (c, w)) as Hs.
  destruct (recv_loop _ _ _) as [[eof|e] [c1 w1]]; [|done]. destruct (tls_conn c1) as [t|]; [|done].
  etrans; [exact Hs|]. pose proof (decrypt_loop_moves (tls_readable_bound t) w1 c1) as Hd.
  destruct (decrypt_loop _ c1) as [[[]|e] c2]; [|done]. etrans; [exact Hd|].
  pose proof (moves (m := flush_tls_ciphertext fd) (c2, w1)) as Hf.
  destruct (flush_tls_ciphertext fd (c2, w1)) as [[[]|e] s]; cbn in *; [done|]. by destruct (is_would_block e).
Qed.

Lemma write_tls_moves fd t (c : Client) w : tls_conn c = Some t -> moved (c, w) (write_tls fd t (c, w)).2.
Proof.
  intros Et. unfold write_tls. destruct (tls_write _ t) as [[n|e] t1].
  - etrans; [|apply (moves (m := flush_tls_ciphertext fd))]. by eapply (moved_tls c t t1).
  - etrans; [by eapply (moved_tls c t t1)|]. destruct (is_would_block e); [|done].
    pose proof (moves (m := flush_tls_ciphertext fd) (set_tls_conn t1 c, w)) as Hf.
    destruct (flush_tls_ciphertext fd _) as [[[]|e1] s]; cbn in *; [done|]. by destruct (is_would_block e1).
Qed.

#[global] Instance write_client_loop_moves fuel fd : Moves (write_client_loop fuel fd).
Proof.
  induction fuel as [|fuel IH]; intros [c w]; cbn [write_client_loop]; (destruct (_ <=? 0); [done|]);
    (destruct (tls_conn c) as [t|] eqn:Et;
     [pose proof (write_tls_moves fd t c w Et) as Hw; destruct (write_tls fd t (c, w)) as [[[]|e] s]; try done;
      (etrans; [exact Hw|apply IH])|]);
    destruct (sys_send _ _ w) as [[n e] w1] eqn:E; eapply (moved_calls _ c) in E; cbv zeta;
    (etrans; [exact E|]); repeat dmatch; try done; (etrans; [|apply IH]); done.
Qed.

#[global] Instance write_client_output_moves fd : Moves (write_client_output fd).
Proof.
  intros [c w]. unfold write_client_output.
  pose proof (moves (m := write_client_loop (length (script w) + Z.to_nat (buf_readable (wbuf c))) fd) (c, w)) as Hs.
  destruct (write_client_loop _ _ _) as [[[]|e] [c1 w1]]; [|done]. destruct (tls_conn c1); [|done].
  etrans; [exact Hs|apply (moves (m := flush_tls_ciphertext fd))].
Qed.
End Client.
