(* ===== verification/LoopProofs.v ===== *)
(** * The event loops keep their contract

    Both loops satisfy [EventLoopSpec]; the timers of the epoll loop are
    consistent and fire once. *)

From stdpp Require Import prelude gmap.
From S2P Require Import Prelude Result World Fd EventLoop LoopEpoll LoopKqueue Progress.

Lemma foldl_rule {A S} (R : S -> S -> Prop) `{!PreOrder R} (f : S -> A -> S) :
  (forall s a, R s (f s a)) -> forall l s, R s (foldl f s l).
Proof. intros Hf l. induction l as [|a l IH]; intros s; cbn [foldl]; [done|]. etrans; [apply Hf|apply IH]. Qed.

Module EpollProofs.
Import Epoll.
Section Spec.
Context {CB : Type}.

Lemma erase_timer_quiet fd id (t : Timer CB) wl : quiet wl.1 (erase_timer fd id t wl).1.
Proof. destruct wl as [w l]. apply fd_destroy_quiet. Qed.

Lemma dispatch_quiet fd e (wl : World * EpollLoop CB) : quiet wl.1 (dispatch fd e wl).2.1.
Proof.
  destruct wl as [w l]. unfold dispatch. destruct (timer_fd_to_id_ l !! fd) as [id|]; [|done].
  destruct (sys _ w) as [r w1] eqn:E. destruct (timers_ l !! id) as [t|]; cbn [fst snd]; [|by calls_chain].
  apply (calls_eq (sys _)) in E. etrans; [exact E|]. apply (erase_timer_quiet fd id t (w1, l)).
Qed.

#[global] Instance epoll_spec : EventLoopSpec CB (EpollLoop CB).
Proof.
  split.
  - intros fd e [w l]. cbn. unfold add. destruct (sys _ w) as [r w1] eqn:E. destruct (_ <? 0); calls_chain.
  - intros fd e [w l]. cbn. unfold modify. repeat dmatch; cbn [fst snd]; calls_chain.
  - intros fd [w l]. cbn. unfold remove. repeat dmatch; cbn [fst snd]; calls_chain.
  - intros d c [w l]. cbn [el_add_timer epoll_loop fst]. unfold add_timer.
    repeat dmatch; cbn [fst snd]; calls_chain; apply fd_destroy_quiet.
  - intros S v run_cb callback R HR Hput Hrun Hcb t s. cbn. unfold poll.
    destruct (view_get v s) as [w l] eqn:Ev. destruct (sys _ w) as [r w1] eqn:E.
    assert (Hw : R s (view_put v (w1, l) s)) by (apply Hput; rewrite Ev; calls_chain).
    destruct (sr_ret r <? 0); [done|]. cbn [snd]. etrans; [exact Hw|]. apply foldl_rule; [done|].
    intros s1 [[fd k] e]. unfold poll_event.
    pose proof (dispatch_quiet fd e (view_get v s1)) as Hd. destruct (dispatch fd e (view_get v s1)) as [d [w2 l2]].
    etrans; [by apply (Hput s1 w2 l2)|]. by destruct d.
  - intros S v run_cb callback t s Hs. cbn. unfold poll. destruct (view_get v s) as [w l]. cbn in Hs.
    unfold sys. rewrite Hs. done.
Qed.

(** ** Timers *)

(** The two tables of timers describe each other: a descriptor leads to the
    timer that owns it, and every timer is found under its number and its
    descriptor; numbers are below the next one to be given. *)
Record timers_ok (l : EpollLoop CB) : Prop := {
  tm_fds fd id : timer_fd_to_id_ l !! fd = Some id <-> exists t, timers_ l !! id = Some t /\ fd_ (tfd t) = fd;
  tm_ids id t : timers_ l !! id = Some t -> t_id t = id /\ id < next_timer_id_ l /\ 0 <= fd_ (tfd t);
}.

Lemma timers_ok_create w : timers_ok (create (CB := CB) w).1.
Proof.
  unfold create. destruct (sys SysEpollCreate w). split; cbn.
  - intros fd id. rewrite lookup_empty. split; [done|]. intros (t & Ht & _). by rewrite lookup_empty in Ht.
  - intros id t Ht. by rewrite lookup_empty in Ht.
Qed.

(** Taking a timer out of both tables. *)
Lemma timers_ok_erase fd id (t : Timer CB) w l :
  timers_ok l -> timers_ l !! id = Some t -> fd_ (tfd t) = fd -> timers_ok (erase_timer fd id t (w, l)).2.
Proof.
  intros [Hf Hi] Et Efd. split; cbn.
  - intros f i. rewrite !lookup_delete_Some, Hf. split.
    + intros [Hne (t' & Ht' & Hfd')]. exists t'. rewrite lookup_delete_Some. split_and!; [|done|done].
      intros <-. simplify_eq.
    + intros (t' & [Hne Ht']%lookup_delete_Some & Hfd'). split; [|by exists t']. intros <-.
      assert (E1 : timer_fd_to_id_ l !! fd = Some i) by (apply Hf; by exists t').
      assert (E2 : timer_fd_to_id_ l !! fd = Some id) by (apply Hf; by exists t). congruence.
  - intros i t' [_ Ht']%lookup_delete_Some. by apply Hi.
Qed.

(** A new timer on a descriptor that no other timer has. *)
Lemma timers_ok_insert fd (c : CB) l :
  timers_ok l -> 0 <= fd -> (forall id t, timers_ l !! id = Some t -> fd_ (tfd t) <> fd) ->
  timers_ok (mkEpollLoop (epfd_ l) (<[fd := next_timer_id_ l]> (timer_fd_to_id_ l))
               (<[next_timer_id_ l := mkTimer (next_timer_id_ l) (mkUniquefd fd) c]> (timers_ l)) (next_timer_id_ l + 1)).
Proof.
  intros [Hf Hi] Hfd Hfresh. split; cbn.
  - intros f i. rewrite lookup_insert_Some. split.
    + intros [[<- <-]|[Hne (t & Ht & Hft)%Hf]]; [eexists; by rewrite lookup_insert_eq|].
      exists t. rewrite lookup_insert_ne; [done|]. intros <-. apply Hi in Ht. lia.
    + intros (t & [[<- <-]|[Hne Ht]]%lookup_insert_Some & Hft); [by left|]. right.
      split; [|apply Hf; by exists t]. intros <-. by apply Hfresh in Ht.
  - intros i t [[<- <-]|[Hne Ht]]%lookup_insert_Some; [cbn; split_and!; [done|lia|done]|]. apply Hi in Ht as (? & ? & ?). split_and!; [done|lia|done].
Qed.

(** A successful [add_timer]. *)
Lemma add_timer_ok d c w (l : EpollLoop CB) id w' l' :
  add_timer d c (w, l) = (Ok id, (w', l')) -> timers_ok l -> next_timer_id_ l + 1 < 2 ^ 64 -> 0 <= next_timer_id_ l ->
  exists fd, 0 <= fd /\ (exists r, head (script w) = Some r /\ fd = sr_ret r) /\ id = next_timer_id_ l /\
    l' = mkEpollLoop (epfd_ l) (<[fd := id]> (timer_fd_to_id_ l)) (<[id := mkTimer id (mkUniquefd fd) c]> (timers_ l)) (id + 1).
Proof.
  intros E [_ Hi] Hw Hn. unfold add_timer in E. destruct (sys SysTimerfdCreate w) as [r w1] eqn:E1.
  destruct (negb (fd_valid _)) eqn:Ev; [done|]. unfold fd_valid in Ev. cbn in Ev. apply negb_false_iff in Ev. zbool.
  destruct (sys _ w1) as [r2 w2]. destruct (sr_ret r2 <? 0); [done|]. destruct (sys _ w2) as [r3 w3]. destruct (sr_ret r3 <? 0); [done|].
  cbn [timers_ timer_fd_to_id_ epfd_ next_timer_id_ fd_] in E.
  destruct (timers_ l !! next_timer_id_ l) as [t|] eqn:Et; [apply Hi in Et; lia|]. simplify_eq.
  exists (sr_ret r). split_and!; [done| |done|].
  - exists r. split; [|done]. apply sys_ran in E1 as [_ [Hh|[_ ->]]]; [done|]. cbn in Ev. lia.
  - f_equal. unfold u64. rewrite Z.mod_small; lia.
Qed.

(** (C27) A timer fires once.  Adding a timer, on a descriptor that no other
    timer has, keeps the tables consistent.  The first readiness of its
    descriptor runs its callback and no other; the timer is then out of both
    tables, which are as before it was added, and its descriptor is closed.
    Any later event with that number, even one that was reported in the same
    batch, is not taken for the timer.  Cancelling it before it fires has the
    same effect without running the callback. *)
Theorem epoll_timer_once (d : Z) (c : CB) (w w' : World) (l l' : EpollLoop CB) (id : Z) :
  timers_ok l -> 0 <= next_timer_id_ l -> next_timer_id_ l + 1 < 2 ^ 64 ->
  (forall r i t, head (script w) = Some r -> timers_ l !! i = Some t -> fd_ (tfd t) <> sr_ret r) ->
  add_timer d c (w, l) = (Ok id, (w', l')) ->
  timers_ok l' /\
  exists fd, forall e w1,
    let '(fired, (w2, l2)) := dispatch fd e (w1, l') in
    let '(r, (w3, l3)) := cancel_timer id (w1, l') in
    fired = FireTimer c /\ r = Ok tt /\ l2 = l3 /\ timers_ok l2 /\
    timers_ l2 = timers_ l /\ timer_fd_to_id_ l2 = timer_fd_to_id_ l /\
    SysClose fd ∈ trace w2 /\ SysClose fd ∈ trace w3 /\
    (forall e', (dispatch fd e' (w2, l2)).1 = FireEvent fd (from_epoll e')).
Proof.
  intros Hok Hn Hw Hfresh E. destruct (add_timer_ok _ _ _ _ _ _ _ E Hok Hw Hn) as (fd & Hfd & (r & Hr & ->) & -> & ->).
  set (l' := mkEpollLoop _ _ _ _). set (fd := sr_ret r) in *. set (t := mkTimer (next_timer_id_ l) (mkUniquefd fd) c) in *.
  assert (Hf : forall i x, timers_ l !! i = Some x -> fd_ (tfd x) <> fd) by (intros i x; by apply (Hfresh r)).
  assert (Hok' : timers_ok l') by (by apply timers_ok_insert).
  assert (Hnofd : timer_fd_to_id_ l !! fd = None).
  { apply eq_None_not_Some. intros [i (x & Hx & Hxf)%(tm_fds _ Hok)]. by eapply Hf. }
  assert (Hnoid : timers_ l !! next_timer_id_ l = None).
  { apply eq_None_not_Some. intros [x Hx]. apply (tm_ids _ Hok) in Hx. lia. }
  assert (Hclose : forall w0, SysClose fd ∈ trace (fd_destroy (mkUniquefd fd) w0)).
  { intros w0. destruct (fd_destroy_trace (mkUniquefd fd) w0) as (cs & Ht & [[_ Hv]|(n & -> & _)]).
    - unfold fd_valid in Hv. cbn in Hv. zbool. lia.
    - unfold new_calls in Ht. rewrite Ht. apply elem_of_app. right. cbn. apply list_elem_of_here. }
  split; [done|]. exists fd. intros e w1. unfold dispatch, cancel_timer.
  assert (E1 : timer_fd_to_id_ l' !! fd = Some (next_timer_id_ l)) by apply lookup_insert_eq.
  assert (E2 : timers_ l' !! next_timer_id_ l = Some t) by apply lookup_insert_eq.
  rewrite E1, E2. destruct (sys (SysReadTimer fd) w1) as [r1 w2]. cbn [tfd t fd_]. destruct (sys _ w1) as [r3 w3].
  cbn [erase_timer]. split_and!; try done; try apply Hclose.
  - by apply (timers_ok_erase fd (next_timer_id_ l) t w2).
  - cbn. by rewrite delete_insert_id.
  - cbn. by rewrite delete_insert_id.
  - intros e'. cbn [timer_fd_to_id_]. by rewrite lookup_delete_eq.
Qed.
End Spec.

(** A tick timer is added to a loop that already has one. *)
Lemma epoll_timer_once_witness :
  let l := Epoll.mkEpollLoop (mkUniquefd 3) {[5 := 1]} {[1 := Epoll.mkTimer 1 (mkUniquefd 5) 0%nat]} 2 in
  let w := mkWorld [] [mkSys 9 0 0 []; mkSys 0 0 0 []; mkSys 0 0 0 []] in
  exists w' l', Epoll.add_timer 1000 7%nat (w, l) = (Ok 2, (w', l')) /\ timers_ok l'.
Proof.
  intros l w. destruct (Epoll.add_timer 1000 7%nat (w, l)) as [r [w' l']] eqn:E. exists w', l'.
  assert (Hr : r = Ok 2) by (change r with (fst (r, (w', l'))); rewrite <- E; vm_compute; reflexivity). subst r.
  split; [reflexivity|].
  refine (proj1 (epoll_timer_once 1000 7%nat w w' l l' 2 _ ltac:(vm_compute; discriminate) ltac:(vm_compute; reflexivity) _ E)).
  - split; cbn.
    + intros fd id. rewrite lookup_singleton_Some. split.
      * intros [<- <-]. eexists. split; [apply lookup_singleton_eq|reflexivity].
      * intros (t & [<- <-]%lookup_singleton_Some & <-). split; reflexivity.
    + intros id t [<- <-]%lookup_singleton_Some. cbn. split_and!; [reflexivity|lia|lia].
  - intros r i t Hh Ht. cbn in Ht. apply lookup_singleton_Some in Ht as [<- <-]. cbn in Hh. injection Hh as <-. cbn. discriminate.
Defined.
End EpollProofs.

Module KqueueProofs.
Import Kqueue.
Section Spec.
Context {CB : Type}.

Lemma apply_filter_quiet fd e flag filter bit flags op cur (l : KqueueLoop CB) w r w' :
  apply_filter fd e flag filter bit flags op cur l w = (r, w') -> quiet w w'.
Proof.
  unfold apply_filter, kevent. intros E. repeat (dmatch_in E); simplify_eq; calls_chain.
Qed.

Lemma apply_quiet fd e flags (wl : World * KqueueLoop CB) : quiet wl.1 (apply fd e flags wl).2.1.
Proof.
  destruct wl as [w l]. unfold apply. destruct (apply_filter _ _ _ _ _ _ _ _ _ w) as [[cur|x] w1] eqn:E1; apply apply_filter_quiet in E1; [|done].
  etrans; [exact E1|]. destruct (apply_filter _ _ _ _ _ _ _ _ _ w1) as [[cur2|x] w2] eqn:E2; by apply apply_filter_quiet in E2.
Qed.

#[global] Instance kqueue_spec : EventLoopSpec CB (KqueueLoop CB).
Proof.
  split.
  - intros fd e wl. apply apply_quiet.
  - intros fd e wl. apply apply_quiet.
  - intros fd [w l]. cbn. unfold remove, kevent. repeat dmatch; cbn [fst snd]; calls_chain.
  - intros d c [w l]. cbn. unfold add_timer, kevent. repeat dmatch; cbn [fst snd]; calls_chain.
  - intros S v run_cb callback R HR Hput Hrun Hcb t s. cbn. unfold poll.
    destruct (view_get v s) as [w l] eqn:Ev. destruct (sys _ w) as [r w1] eqn:E.
    assert (Hw : R s (view_put v (w1, l) s)) by (apply Hput; rewrite Ev; calls_chain).
    destruct (sr_ret r <? 0); [done|]. cbn [snd]. etrans; [exact Hw|]. apply foldl_rule; [done|].
    intros s1 [[i f] g]. unfold poll_event. destruct (f =? EVFILT_TIMER); [|apply Hcb].
    destruct (view_get v s1) as [w2 l2] eqn:Ev2. destruct (timers_ l2 !! i) as [c|]; [|done].
    etrans; [|apply Hrun]. apply Hput. by rewrite Ev2.
  - intros S v run_cb callback t s Hs. cbn. unfold poll. destruct (view_get v s) as [w l]. cbn in Hs.
    unfold sys. rewrite Hs. done.
Qed.
End Spec.
End KqueueProofs.
