(* ===== verification/ServerInv.v ===== *)
(** * Invariants of the server

    What every event may do to the server: it makes calls, touches one
    connection at most, and keeps the connections well formed.  The relations
    below are preorders, closed under the steps of the handlers; the theorems
    are in ServerProofs. *)

From stdpp Require Import prelude gmap.
From S2P Require Import Prelude Result CxxString Buffer BufferProofs Config LoadBalancer World Fd UpstreamPool Http1 Hpack Http2 Http2Proofs Forward EventLoop Tls Log Client Progress Server.

(** Some calls lead from one world to the other, and [c] is one of them. *)
Definition later_with (c : Syscall) (w w' : World) : Prop := exists cs, ran w w' cs /\ c ∈ cs.

Lemma later_with_l c w1 w2 w3 : later_with c w1 w2 -> quiet w2 w3 -> later_with c w1 w3.
Proof. intros (a & Ha & Hc) (b & Hb & _). exists (a ++ b). split; [by eapply ran_trans|]. apply elem_of_app. by left. Qed.

Lemma later_with_r c w1 w2 w3 : quiet w1 w2 -> later_with c w2 w3 -> later_with c w1 w3.
Proof. intros (a & Ha & _) (b & Hb & Hc). exists (a ++ b). split; [by eapply ran_trans|]. apply elem_of_app. by right. Qed.

Lemma fd_destroy_closes fd w : 0 <= fd -> later_with (SysClose fd) w (fd_destroy (mkUniquefd fd) w).
Proof.
  intros Hfd. destruct (fd_destroy_quiet (mkUniquefd fd) w) as (cs & Hr & _). exists cs. split; [done|].
  destruct (fd_destroy_trace (mkUniquefd fd) w) as (cs' & Hn & Hc). destruct Hr as [Ht _]. unfold new_calls in Hn.
  rewrite Hn in Ht. apply app_inv_head in Ht as ->. destruct Hc as [[_ Hv]|(n & -> & _)].
  - unfold fd_valid in Hv. cbn in Hv. lia.
  - cbn. apply list_elem_of_here.
Qed.

Section Inv.
Context {B T Ctx L : Type} `{BufferSpec B} `{TlsOps T} `{TlsContext Ctx T} `{EventLoopSpec TimerCB L}.
Context (inet_pton : bytes -> bool) (strerror : Z -> bytes).
Abbreviation Client := (ClientConn B T).
Abbreviation Server := (ProxyServer B T Ctx L).

(** ** Connections *)

(** A connection under its key: its descriptor is the key, it is in one of
    the two states the server uses, it has a TLS object whenever one is used,
    and its HTTP/2 side is consistent. *)
Record conn_ok (fd : Z) (c : Client) : Prop := {
  co_fd : fd_ (cc_fd c) = fd;
  co_valid : 0 <= fd;
  co_state : cc_state c = TLSHandshake \/ cc_state c = ReadRequest;
  co_tls : cc_state c = TLSHandshake \/ cc_proto c = ProtoHTTP2 -> is_Some (tls_conn c);
  co_h2 h : h2conn c = Some h -> exists served, conn_inv h served;
}.

(** [c'] is [c] later on: the descriptor is the same, and a connection that
    has been set up stays so, with its protocol. *)
Record kept (c c' : Client) : Prop := {
  kp_ok fd : conn_ok fd c -> conn_ok fd c';
  kp_fd : cc_fd c' = cc_fd c;
  kp_state : cc_state c = ReadRequest -> cc_state c' = ReadRequest /\ cc_proto c' = cc_proto c;
}.

#[global] Instance kept_preorder : PreOrder kept.
Proof.
  split; [by intros c; split|]. intros c1 c2 c3 [A1 A2 A3] [B1 B2 B3]. split; [auto|congruence|].
  intros Hs. destruct (A3 Hs) as [Hs2 Hp2]. destruct (B3 Hs2). split; congruence.
Qed.

Lemma kept_identity c c' : identity c' = identity c -> kept c c'.
Proof.
  unfold identity. intros E. injection E as E1 E2 E3 E4 E5 E6 E7 E8 E9 E10. split; [|done|intros Hs; split; congruence].
  intros fd [P1 P2 P3 P4 P5]. split; rewrite ?E1, ?E2, ?E3, ?E6; [done..| |done].
  intros Ht%P4. destruct (tls_conn c), (tls_conn c'); naive_solver.
Qed.

Lemma moved_kept (x y : Client * World) : moved x y -> kept x.1 y.1 /\ quiet x.2 y.2.
Proof. intros [Hi Hl]. split; [by apply kept_identity|done]. Qed.

Lemma kept_h2 c h : (forall served0 h0, h2conn c = Some h0 -> conn_inv h0 served0 -> exists served, conn_inv h served) ->
  (h2conn c = None -> exists served, conn_inv h served) -> kept c (set_h2conn h c).
Proof.
  intros H1' H2'. split; [|done|done]. intros fd [P1 P2 P3 P4 P5]. split; cbn; try done.
  intros h' [= <-]. destruct (h2conn c) as [h0|] eqn:E; [|by apply H2']. destruct (P5 h0 eq_refl) as [sv Hs]. by eapply H1'.
Qed.

Lemma kept_ready c p : cc_state c = TLSHandshake -> kept c (set_ready p c).
Proof.
  intros Hs. split; [|done|congruence]. intros fd [P1 P2 P3 P4 P5]. split; cbn; try done; [by right|].
  intros _. apply P4. by left.
Qed.

(** ** The server *)

Definition server_ok (s : Server) : Prop := map_Forall conn_ok (conns_ s).

(** What no event changes. *)
Definition setting (s : Server) := (sv_cfg s, listen_fd_ s, tls_listen_fd_ s, tls_ctx_ s).

(** No connection is touched. *)
Record calm (s s' : Server) : Prop := {
  cm_quiet : quiet (sv_world s) (sv_world s');
  cm_setting : setting s' = setting s;
  cm_conns : conns_ s' = conns_ s;
}.

#[global] Instance calm_preorder : PreOrder calm.
Proof. split; [by intros s; split|]. intros s1 s2 s3 [? ? ?] [? ? ?]. split; [by etrans|congruence..]. Qed.

(** Only the connection of [fd] is touched; it is kept or closed. *)
Record event_on (fd : Z) (s s' : Server) : Prop := {
  ev_quiet : quiet (sv_world s) (sv_world s');
  ev_setting : setting s' = setting s;
  ev_others fd' : fd' <> fd -> conns_ s' !! fd' = conns_ s !! fd';
  ev_none : conns_ s !! fd = None -> conns_ s' !! fd = None;
  ev_conn c : conns_ s !! fd = Some c -> conn_ok fd c ->
    match conns_ s' !! fd with
    | Some c' => kept c c'
    | None => later_with (SysClose fd) (sv_world s) (sv_world s')
    end;
}.

#[global] Instance event_on_preorder fd : PreOrder (event_on fd).
Proof.
  split.
  - intros s. split; try done. intros c E Hok. by rewrite E.
  - intros s1 s2 s3 [A1 A2 A3 A4 A5] [B1 B2 B3 B4 B5]. split; [by etrans|congruence| |auto|].
    + intros fd' Hne. by rewrite B3, A3.
    + intros c E Hok. specialize (A5 c E Hok). destruct (conns_ s2 !! fd) as [c2|].
      * specialize (B5 c2 eq_refl (kp_ok _ _ A5 _ Hok)). destruct (conns_ s3 !! fd); [by etrans|].
        by eapply later_with_r.
      * rewrite B4 by done. by eapply later_with_l.
Qed.

Lemma calm_event fd s s' : calm s s' -> event_on fd s s'.
Proof. intros [A1 A2 A3]. split; [done..|by rewrite A3| |]; rewrite A3; [done|]. intros c E _. by rewrite E. Qed.

Lemma event_ok fd s s' : event_on fd s s' -> server_ok s -> server_ok s'.
Proof.
  intros [A1 A2 A3 A4 A5] Hok i c E. destruct (decide (i = fd)) as [->|Hne].
  - destruct (conns_ s !! fd) as [c0|] eqn:E0; [|by rewrite A4 in E].
    pose proof (A5 c0 eq_refl (Hok fd c0 E0)) as Hk. rewrite E in Hk. by apply (kp_ok _ _ Hk), Hok.
  - rewrite A3 in E by done. by apply Hok.
Qed.

(** ** Steps of the handlers *)

Lemma calm_world s w : quiet (sv_world s) w -> calm s (set_sv_world w s).
Proof. by split. Qed.

Lemma calm_logged lv msg kvs s : calm s (logged lv msg kvs s).
Proof. by split. Qed.

Lemma calm_view s w l : quiet (sv_world s) w -> calm s (view_put server_view (w, l) s).
Proof. by split. Qed.

Lemma calm_on_loop {A} (m : M (World * L) A) s :
  (forall wl, quiet wl.1 (m wl).2.1) -> calm s (on_loop server_view m s).2.
Proof.
  intros Hm. unfold on_loop. pose proof (Hm (view_get server_view s)) as Hl.
  destruct (m (view_get server_view s)) as [r [w l]]. by apply calm_view.
Qed.

Lemma calm_modify fd e s : calm s (loop_do (el_modify fd e) s).
Proof. apply calm_on_loop, el_modify_quiet. Qed.

Lemma calm_remove fd s : calm s (loop_do (el_remove fd) s).
Proof. apply calm_on_loop, el_remove_quiet. Qed.

Lemma calm_forward req body i s : calm s (server_forward inet_pton req body i s).2.
Proof.
  unfold server_forward. pose proof (forward_http1_quiet (B := B) inet_pton req body i (mkFwd (sv_world s) (lb_ s) (sv_pools s))) as Hl.
  destruct (forward_http1 _ _ _ _ _) as [r f]. by split.
Qed.

Lemma calm_failed msg i e s : calm s (upstream_failed strerror msg i e s).
Proof. by split. Qed.

Lemma event_put fd c c' s : conns_ s !! fd = Some c -> kept c c' -> event_on fd s (put_conn fd c' s).
Proof.
  intros E Hk. split; try done; cbn.
  - intros fd' Hne. by rewrite lookup_insert_ne.
  - by rewrite E.
  - intros c0 E0 _. rewrite lookup_insert_eq. by simplify_eq.
Qed.

Lemma event_close fd reason s : event_on fd s (close_conn fd reason s).
Proof.
  unfold close_conn. etrans; [apply calm_event, (calm_remove fd)|]. generalize (loop_do (el_remove fd) s) as s1. intros s1.
  destruct (conns_ s1 !! fd) as [c|] eqn:E; [|done].
  cbv zeta. match goal with |- context [logged ?a ?b ?k s1] => etrans; [apply calm_event, (calm_logged a b k)|] end. split; cbn.
  - apply fd_destroy_quiet.
  - done.
  - intros fd' Hne. by rewrite lookup_delete_ne.
  - by rewrite E.
  - intros c0 E0 [Hfd Hv _ _ _]. rewrite lookup_delete_eq. simplify_eq. destruct (cc_fd c0) as [f]. cbn in *. by apply fd_destroy_closes.
Qed.

(** A function on the connection, run on its entry. *)
Lemma event_on_conn {A} (m : M (Client * World) A) `{!Moves m} fd c s r c' s' :
  on_conn fd c m s = (r, c', s') -> conns_ s !! fd = Some c ->
  event_on fd s s' /\ conns_ s' !! fd = Some c' /\ identity c' = identity c.
Proof.
  unfold on_conn. pose proof (moves (m := m) (c, sv_world s)) as Hm. destruct (m (c, sv_world s)) as [r1 [c1 w1]].
  intros [= <- <- <-] E. destruct Hm as [Hi Hl]. split_and!; [|apply lookup_insert_eq|done].
  etrans; [apply calm_event; by apply (calm_world s w1)|]. eapply event_put; [exact E|by apply kept_identity].
Qed.

(** ** HTTP/1.1 *)

Lemma kept_output c c' : identity c' = identity (set_keep_alive (keep_alive c') c) -> kept c c'.
Proof.
  intros E. etrans; [|by apply kept_identity]. split; [|done|done]. by intros fd [P1 P2 P3 P4 P5].
Qed.

Lemma kept_upstream (c : Client) i : kept c (set_upstream i c).
Proof. split; [|done|done]. by intros fd [P1 P2 P3 P4 P5]. Qed.

Lemma kept_count (c : Client) n : kept c (set_req_count n c).
Proof. split; [|done|done]. by intros fd [P1 P2 P3 P4 P5]. Qed.

Lemma kept_keep (c : Client) k : kept c (set_keep_alive k c).
Proof. by apply kept_output. Qed.

Lemma kept_queue d (c : Client) : kept c (queue_output d c).
Proof. by apply kept_identity. Qed.

Lemma kept_rbuf b (c : Client) : kept c (set_rbuf b c).
Proof. by apply kept_identity. Qed.

Lemma serve_request_steps req body c s c' s' :
  serve_request inet_pton strerror req body c s = (c', s') -> kept c c' /\ calm s s'.
Proof.
  unfold serve_request. destruct (next (lb_ s)) as [[i|] lb].
  - assert (H0' : calm s (set_lb lb s)) by done.
    pose proof (calm_forward req body i (set_lb lb s)) as Hf. destruct (server_forward _ _ _ _ _) as [[resp|e] s1]; intros [= <- <-].
    + split; [|by etrans]. etrans; [apply kept_upstream|apply kept_queue].
    + split; [|etrans; [exact H0'|]; etrans; [exact Hf|apply calm_failed]].
      etrans; [apply kept_upstream|]. etrans; [apply kept_queue|apply kept_keep].
  - intros [= <- <-]. split; [|done]. etrans; [apply kept_queue|apply kept_keep].
Qed.

Definition flow_state (f : Flow) : Server := match f with Return s | GoOn s => s end.

Lemma event_put_modify fd c c' s s1 :
  conns_ s !! fd = Some c -> kept c c' -> calm s s1 -> event_on fd s (loop_do (el_modify fd ReadWrite) (put_conn fd c' s1)).
Proof.
  intros E Hk Hs. etrans; [by apply calm_event|]. etrans; [|apply calm_event, calm_modify].
  apply (event_put fd c); [by rewrite (cm_conns _ _ Hs)|done].
Qed.

Lemma event_h1_input fd c s :
  conns_ s !! fd = Some c -> event_on fd s (flow_state (on_h1_input inet_pton strerror fd c s)).
Proof.
  intros E. unfold on_h1_input. destruct (parse_request (rbuf c) HttpRequest_default) as [[] req];
    [|done|apply event_close].
  destruct (req_chunked req).
  - apply (event_put_modify fd c); [done| |done]. etrans; [apply kept_queue|]. etrans; [apply kept_keep|apply kept_rbuf].
  - destruct (_ <? req_content_length req); [done|]. set (c1 := set_keep_alive _ _). cbv zeta.
    destruct (serve_request _ _ _ _ _ _) as [c2 s2] eqn:Es. apply serve_request_steps in Es as [Hk Hs].
    apply (event_put_modify fd c); [done| |done]. etrans; [|apply kept_count]. etrans; [|exact Hk].
    by apply kept_output.
Qed.

(** ** HTTP/2 *)

Lemma reply_inv id hs body (h : H2Conn B) served : conn_inv h served -> conn_inv (reply id hs body h) served.
Proof. apply send_response_inv. Qed.

(** Serving a stream: the connection and the server are kept, and so is the
    HTTP/2 side. *)
Lemma serve_stream_steps id c h s c' h' s' served :
  serve_stream inet_pton strerror id (c, h, s) = (c', h', s') -> conn_inv h served ->
  kept c c' /\ h2conn c' = h2conn c /\ calm s s' /\ conn_inv h' served.
Proof.
  intros E Hi. unfold serve_stream in E. destruct (next (lb_ s)) as [up lb].
  set (body := default [] (stream_body id h)) in *. set (req := h2_to_h1 _ _) in *.
  assert (Hcons : forall h1, conn_inv h1 served -> conn_inv (default h1 (consume_body id (len body) h1)) served).
  { intros h1 Hi1. destruct (consume_body _ _ h1) as [h2|] eqn:Ec; [by eapply consume_body_inv|done]. }
  destruct up as [i|].
  - assert (H0' : calm s (set_lb lb s)) by done.
    pose proof (calm_forward req body i (set_lb lb s)) as Hf. destruct (server_forward _ _ _ _ _) as [[resp|e] s1].
    + destruct (h1_to_h2 resp) as [hs b]. simplify_eq.
      split_and!; [apply kept_upstream|done|by etrans|by apply Hcons, reply_inv].
    + simplify_eq. split_and!; [apply kept_upstream|done| |by apply Hcons, reply_inv].
      etrans; [exact H0'|]. etrans; [exact Hf|apply calm_failed].
  - simplify_eq. split_and!; [done..|by apply Hcons, reply_inv].
Qed.

Lemma serve_streams_steps ids : forall c h s c' h' s' served,
  foldl (fun st id => serve_stream inet_pton strerror id st) (c, h, s) ids = (c', h', s') -> conn_inv h served ->
  kept c c' /\ h2conn c' = h2conn c /\ calm s s' /\ conn_inv h' served.
Proof.
  induction ids as [|id ids IH]; intros c h s c' h' s' served E Hi; cbn [foldl] in E; [by simplify_eq|].
  destruct (serve_stream inet_pton strerror id (c, h, s)) as [[c1 h1] s1] eqn:E1.
  apply (serve_stream_steps _ _ _ _ _ _ _ served) in E1 as (Hk & Hh & Hc & Hi1); [|done].
  apply (IH _ _ _ _ _ _ served) in E as (Hk' & Hh' & Hc' & Hi'); [|done]. split_and!; [by etrans|congruence|by etrans|done].
Qed.

(** The HTTP/2 side of a connection is replaced by a consistent one. *)
Lemma kept_set_h2 c h served : conn_inv h served -> kept c (set_h2conn h c).
Proof. intros Hi. apply kept_h2; eauto. Qed.

Lemma feed_inv d (h h' : H2Conn B) r served : feed d h = (r, h') -> conn_inv h served -> conn_inv h' served.
Proof. unfold feed. destruct (buf_append d _). intros [= <- <-]. by apply conn_inv_other. Qed.

Lemma h2_side_inv fd c : conn_ok fd c -> exists served, conn_inv (default (H2Conn_make true) (h2conn c)) served.
Proof.
  intros [_ _ _ _ Hh]. destruct (h2conn c) as [h|]; [by apply Hh|]. exists []. apply conn_inv_make.
Qed.

(** Whatever happened to the connection of [fd] in between is overwritten. *)
Record around (fd : Z) (s s' : Server) : Prop := {
  ar_quiet : quiet (sv_world s) (sv_world s');
  ar_setting : setting s' = setting s;
  ar_others fd' : fd' <> fd -> conns_ s' !! fd' = conns_ s !! fd';
}.

Lemma around_put fd c s s' : calm (put_conn fd c s) s' -> around fd s s'.
Proof.
  intros [A1 A2 A3]. split; [done..|]. intros fd' Hne. rewrite A3. cbn. by rewrite lookup_insert_ne.
Qed.

Lemma event_put_around fd c c' s s' :
  conns_ s !! fd = Some c -> kept c c' -> around fd s s' -> event_on fd s (put_conn fd c' s').
Proof.
  intros E Hk [A1 A2 A3]. split; cbn; try done.
  - intros fd' Hne. rewrite lookup_insert_ne by done. by apply A3.
  - by rewrite E.
  - intros c0 E0 _. rewrite lookup_insert_eq. by simplify_eq.
Qed.

(** The output is queued, and the connection is closed when it is done. *)
Lemma event_h2_output fd c c1 h s s1 served :
  conns_ s !! fd = Some c -> kept c c1 -> around fd s s1 -> conn_inv h served ->
  event_on fd s
    (let output := pending_output h in
     let '(c, h, s) :=
       if bool_decide (output = []) then (c1, h, put_conn fd (set_h2conn h c1) s1)
       else
         let c := queue_output output c1 in
         let h := consume_output (len output) h in
         (c, h, loop_do (el_modify fd ReadWrite) (put_conn fd (set_h2conn h c) s1)) in
     if is_done h then close_conn fd (str "h2 done") s else s).
Proof.
  intros E Hk Hs Hi. cbv zeta. destruct (bool_decide _).
  - transitivity (put_conn fd (set_h2conn h c1) s1); [|destruct (is_done _); [apply event_close|done]].
    eapply event_put_around; [done| |done]. etrans; [exact Hk|by eapply kept_set_h2].
  - set (h' := consume_output _ h). set (c2 := queue_output _ c1). set (s2 := loop_do _ _).
    assert (He : event_on fd s s2).
    { etrans; [|apply calm_event, calm_modify]. eapply event_put_around; [done| |done].
      etrans; [exact Hk|]. etrans; [apply (kept_queue (pending_output h))|].
      eapply kept_set_h2. by eapply (conn_inv_other h). }
    destruct (is_done h'); [|done]. etrans; [exact He|apply event_close].
Qed.

Lemma event_h2_client fd c s :
  conns_ s !! fd = Some c -> conn_ok fd c -> event_on fd s (handle_h2_client inet_pton strerror fd c s).
Proof.
  intros E Hok. destruct (h2_side_inv fd c Hok) as [served Hi]. unfold handle_h2_client.
  set (h := default _ _) in *. set (fedst := if 0 <? _ then _ else _).
  assert (Hfed : exists r h1 c1, fedst = (r, h1, c1) /\ kept c c1 /\ conn_inv h1 served).
  { unfold fedst. destruct (0 <? _); [|by exists (Ok tt), h, c].
    destruct (feed _ h) as [[[]|e] h1] eqn:Ef; eapply feed_inv in Ef; try done.
    - eexists (Ok tt), h1, _. split_and!; [reflexivity|apply kept_rbuf|done].
    - by exists (Err e), h1, c. }
  destruct Hfed as (r & h1 & c1 & -> & Hk1 & Hi1). cbv zeta.
  assert (Hput : forall h2 sv, conn_inv h2 sv -> event_on fd s (put_conn fd (set_h2conn h2 c1) s)).
  { intros h2 sv Hi2. apply (event_put fd c); [done|]. etrans; [exact Hk1|by eapply kept_set_h2]. }
  destruct r as [[]|e]; [|etrans; [by eapply Hput|apply event_close]].
  destruct (process h1) as [ready h2] eqn:Ep. destruct (process_inv _ _ _ _ Hi1 Ep) as (rd & Hi2 & _).
  assert (Hp2 : forall h', put_conn fd (set_h2conn h' c1) (put_conn fd (set_h2conn h1 c1) s) = put_conn fd (set_h2conn h' c1) s).
  { intros h'. unfold put_conn, set_conns. cbn. by rewrite insert_insert_eq. }
  rewrite Hp2. destruct ready as [ids|e]; [|etrans; [by eapply Hput|apply event_close]].
  destruct (foldl _ _ ids) as [[c3 h3] s3] eqn:Ef. eapply serve_streams_steps in Ef as (Hk3 & _ & Hs3 & Hi3); [|done].
  eapply event_h2_output; [done|by etrans|by eapply around_put|done].
Qed.

(** ** Handshake, input and output *)

Lemma handshake_recv_quiet fuel fd : forall t w, quiet w (handshake_recv fuel fd t w).2.
Proof.
  induction fuel as [|fuel IH]; intros t w; cbn [handshake_recv];
    destruct (sys_recv fd CLIENT_RECV w) as [[[n e] d] w1] eqn:E; eapply (calls_eq (sys_recv _ _)) in E;
    repeat dmatch; try done. etrans; [exact E|apply IH].
Qed.

Lemma kept_tls (c : Client) t t' : tls_conn c = Some t -> kept c (set_tls_conn t' c).
Proof. intros E. apply kept_identity. unfold identity. cbn. by rewrite E. Qed.

Lemma event_handshake fd e c t s :
  conns_ s !! fd = Some c -> cc_state c = TLSHandshake -> tls_conn c = Some t ->
  event_on fd s (on_handshake strerror fd e c t s).
Proof.
  intros E Hst Et. unfold on_handshake.
  assert (Hrecv : exists stop t1 w1, (if has e Event.Read then handshake_recv (length (script (sv_world s))) fd t (sv_world s)
                                      else (None, t, sv_world s)) = (stop, t1, w1) /\ quiet (sv_world s) w1).
  { destruct (has e Event.Read); [|by eexists _, _, _].
    pose proof (handshake_recv_quiet (length (script (sv_world s))) fd t (sv_world s)) as Hl.
    destruct (handshake_recv _ _ _ _) as [[stop t1] w1]. by eexists _, _, _. }
  destruct Hrecv as (stop & t1 & w1 & -> & Hl). cbv zeta.
  set (s1 := put_conn fd (set_tls_conn t1 c) (set_sv_world w1 s)).
  assert (He : event_on fd s s1).
  { etrans; [by apply calm_event, calm_world, Hl|]. by eapply event_put, kept_tls. }
  destruct stop as [reason|]; [etrans; [exact He|apply event_close]|].
  destruct (tls_do_handshake t1) as [st t2]. destruct (on_conn fd _ _ s1) as [[fl c2] s2] eqn:Eo.
  assert (Ho : event_on fd s s2 /\ conns_ s2 !! fd = Some c2 /\ identity c2 = identity c).
  { unfold on_conn in Eo. pose proof (moves (m := flush_tls_ciphertext fd) (set_tls_conn t2 c, sv_world s1)) as Hm.
    destruct (flush_tls_ciphertext fd _) as [r [c3 w3]]. simplify_eq. destruct Hm as [Hi Hw]. cbn [fst snd] in *.
    assert (Hid : identity c2 = identity c) by (rewrite Hi; unfold identity; cbn; by rewrite Et).
    split_and!; [|apply lookup_insert_eq|done]. eapply event_put_around; [done|by apply kept_identity|].
    split; cbn; [by etrans|done|]. intros fd' Hne. by rewrite lookup_insert_ne. }
  destruct Ho as (Ho & E2 & Hid).
  destruct (unless_blocked (fl, ())) as [[[]|x] []]; [|etrans; [exact Ho|apply event_close]].
  destruct st as [[]|x]; [done| |etrans; [exact Ho|apply event_close]].
  etrans; [exact Ho|]. eapply event_put_modify; [done| |done]. apply kept_ready. unfold identity in Hid. congruence.
Qed.

Lemma event_readable fd c s :
  conns_ s !! fd = Some c -> conn_ok fd c -> event_on fd s (flow_state (on_readable inet_pton strerror fd c s)).
Proof.
  intros E Hok. unfold on_readable. destruct (on_conn fd c _ s) as [[r c1] s1] eqn:Eo.
  eapply event_on_conn in Eo as (Ho & E1 & Hid); [|exact _|done].
  destruct r as [[]|x]; [etrans; [exact Ho|apply event_close]| |etrans; [exact Ho|apply event_close]].
  case_bool_decide; (etrans; [exact Ho|]); [|by apply event_h1_input].
  apply event_h2_client; [done|]. by apply (kp_ok _ _ (kept_identity _ _ Hid)).
Qed.

Lemma event_writable fd c s : conns_ s !! fd = Some c -> event_on fd s (on_writable strerror fd c s).
Proof.
  intros E. unfold on_writable. destruct (on_conn fd c _ s) as [[r c1] s1] eqn:Eo.
  eapply event_on_conn in Eo as (Ho & E1 & Hid); [|exact _|done]. destruct r as [[]|x].
  - destruct (negb _); (etrans; [exact Ho|]); [apply event_close|apply calm_event, calm_modify].
  - destruct (is_would_block x); [done|]. etrans; [exact Ho|apply event_close].
Qed.

Lemma event_client fd e s :
  (forall c, conns_ s !! fd = Some c -> conn_ok fd c) -> event_on fd s (on_client_event inet_pton strerror fd e s).
Proof.
  intros Hok. unfold on_client_event. destruct (conns_ s !! fd) as [c|] eqn:E; [|done]. specialize (Hok c eq_refl).
  destruct (_ || _); [apply event_close|].
  case_bool_decide as Hst; [destruct (tls_conn c) eqn:Et; [by apply event_handshake|done]|].
  set (f := if has e Event.Read then _ else _).
  assert (Hf : event_on fd s (flow_state f)) by (unfold f; destruct (has e Event.Read); [by apply event_readable|done]).
  destruct f as [s1|s1]; cbn [flow_state] in Hf; [done|].
  destruct (has e Event.Write); [|done]. destruct (conns_ s1 !! fd) as [c1|] eqn:E1; [|done].
  etrans; [exact Hf|by apply event_writable].
Qed.

End Inv.
