(* ===== verification/ServerProofs.v ===== *)
(** * Correctness of the server's event handling

    Over any buffer with the queue contract, any TLS implementation, any
    event loop that keeps [EventLoopSpec] and any behaviour of the system:
    connections are isolated from each other, none is lost or leaked, the
    state stays well formed, the serving loop is that of the code, and a clean
    stop has closed every descriptor that was accepted. *)

From stdpp Require Import prelude gmap.
From S2P Require Import Prelude Result CxxString Buffer BufferProofs Config ConfigLoad LoadBalancer World Fd UpstreamPool Http1 Hpack Http2 Http2Proofs Forward ForwardProofs EventLoop LoopEpoll LoopProofs Tls TlsFallback Log Client Progress Server ServerInv.

Section Server.
Context {B T Ctx L : Type} `{BufferSpec B} `{TlsOps T} `{TlsContext Ctx T} `{EventLoopSpec TimerCB L}.
Context (inet_pton : bytes -> bool) (strerror : Z -> bytes).
Abbreviation Client := (ClientConn B T).
Abbreviation Server := (ProxyServer B T Ctx L).

(** ** Accepting *)

(** New connections were added; those that were there are as they were. *)
Record accepts (s s' : Server) : Prop := {
  ac_later : later (sv_world s) (sv_world s');
  ac_setting : setting s' = setting s;
  ac_old fd c : conns_ s !! fd = Some c -> conns_ s' !! fd = Some c;
  ac_new fd c : conns_ s' !! fd = Some c -> conns_ s !! fd = Some c \/ conn_ok fd c;
}.

#[local] Instance accepts_preorder : PreOrder accepts.
Proof.
  split; [intros s; split; [done|done|done|by left]|]. intros s1 s2 s3 [A1 A2 A3 A4] [B1 B2 B3 B4].
  split; [by etrans|congruence|auto|]. intros fd c E. destruct (B4 fd c E) as [E'|]; auto.
Qed.

Lemma calm_accepts s s' : calm s s' -> accepts s s'.
Proof. intros [A1 A2 A3]. split; [by apply quiet_later|done| |]; rewrite A3; auto. Qed.

Lemma new_client_ok fd tls_ now addr (ctx : option Ctx) :
  0 <= fd -> conn_ok fd (new_client (B := B) (T := T) (mkUniquefd fd) tls_ now addr ctx).
Proof.
  intros Hfd. split; cbn; [done|done|destruct tls_; auto| |done]. intros [Ht|Ht]; [by destruct tls_|done].
Qed.

(** What becomes of an accepted socket: it is stored under its number as a
    fresh connection, or it is closed; no other socket is accepted. *)
Lemma accepted_spec fd tls_ addr s :
  0 <= fd ->
  let s' := accepted (B := B) strerror (mkUniquefd fd) tls_ addr s in
  accepts s s' /\ quiet (sv_world s) (sv_world s') /\
  ((exists now, conns_ s' !! fd = Some (new_client (mkUniquefd fd) tls_ now addr (tls_ctx_ s)))
   \/ later_with (SysClose fd) (sv_world s) (sv_world s')).
Proof.
  intros Hfd s'. unfold s', accepted.
  pose proof (calls_quiet (m := set_nonblocking (mkUniquefd fd)) (sv_world s)) as Hnb.
  destruct (sys_now_ms (set_nonblocking (mkUniquefd fd) (sv_world s)).2) as [now w1] eqn:En.
  apply (calls_eq sys_now_ms) in En. assert (Hw : quiet (sv_world s) w1) by (by etrans).
  set (conn := new_client _ _ _ _ _). set (s1 := set_sv_world w1 s).
  assert (Hs1 : calm s s1) by (by apply calm_world).
  pose proof (calm_on_loop (el_add fd Event.Read) s1 ltac:(intros wl; apply el_add_quiet)) as Ha.
  assert (Hq : quiet w1 (sv_world (on_loop server_view (el_add fd Event.Read) s1).2)).
  { unfold on_loop. pose proof (el_add_quiet fd Event.Read (view_get server_view s1)) as Hq.
    by destruct (el_add fd Event.Read (view_get server_view s1)) as [r [w l]]. }
  destruct (on_loop server_view (el_add fd Event.Read) s1) as [[[]|e] s2] eqn:Eo; cbn [fd_] in *; rewrite Eo; cbn [snd] in Ha, Hq;
    (assert (Hs2 : calm s s2) by (by etrans)); (assert (Hq2 : quiet (sv_world s) (sv_world s2)) by (by etrans)).
  - destruct (conns_ s2 !! fd) as [c0|] eqn:E.
    + split_and!; [|etrans; [exact Hq2|apply fd_destroy_quiet]|right; eapply later_with_r; [apply Hs2|by apply fd_destroy_closes]].
      etrans; [by apply calm_accepts|]. apply calm_accepts, calm_world, fd_destroy_quiet.
    + split_and!; [|exact Hq2|left; exists now; apply lookup_insert_eq]. etrans; [by apply calm_accepts|].
      split; cbn; [done|done| |].
      * intros f c Hc. rewrite lookup_insert_ne; [done|]. intros ->. congruence.
      * intros f c. destruct (decide (f = fd)) as [->|]; [|by rewrite lookup_insert_ne; [left|]].
        rewrite lookup_insert_eq. intros [= <-]. right. by apply new_client_ok.
  - set (s3 := logged _ _ _ s2). assert (Hs3 : calm s s3) by (etrans; [exact Hs2|apply calm_logged]).
    split_and!; [|etrans; [exact Hq2|apply fd_destroy_quiet]|right; eapply later_with_r; [apply Hs3|by apply fd_destroy_closes]].
    etrans; [by apply calm_accepts|]. apply calm_accepts, calm_world, fd_destroy_quiet.
Qed.

(** The descriptors a series of calls has accepted. *)
Definition accepted_by (c : Syscall) (r : SysResult) : list Z :=
  match c with SysAccept _ => if 0 <=? sr_ret r then [sr_ret r] else [] | _ => [] end.

Definition accepted_fds (cs : list Syscall) (rs : list SysResult) : list Z := concat (zip_with accepted_by cs rs).

(** The [i]th call has accepted [fd]. *)
Definition accepted_at (cs : list Syscall) (rs : list SysResult) (i : nat) (fd : Z) : Prop :=
  exists lfd r, cs !! i = Some (SysAccept lfd) /\ rs !! i = Some r /\ sr_ret r = fd /\ 0 <= fd.

Lemma accepted_fds_at cs rs fd : fd ∈ accepted_fds cs rs -> exists i, accepted_at cs rs i fd.
Proof.
  unfold accepted_fds. revert rs; induction cs as [|c cs IH]; intros rs Hin; [by apply elem_of_nil in Hin|].
  destruct rs as [|r rs]; [by apply elem_of_nil in Hin|]. cbn in Hin. apply elem_of_app in Hin as [Hin|Hin].
  - destruct c; try (by apply elem_of_nil in Hin). cbn in Hin. destruct (Z.leb_spec 0 (sr_ret r)); [|by apply elem_of_nil in Hin].
    apply list_elem_of_singleton in Hin as ->. by exists 0%nat, fd0, r.
  - destruct (IH rs Hin) as (i & l & r' & Hi). by exists (S i), l, r'.
Qed.

Lemma accepted_at_app a b rs i fd :
  accepted_at (a ++ b) rs i fd <->
  accepted_at a rs i fd \/ exists k, i = (length a + k)%nat /\ accepted_at b (drop (length a) rs) k fd.
Proof.
  split.
  - intros (l & r & Hc & Hr & Hfd). apply lookup_app_Some in Hc as [Hc|[Hi Hc]]; [left; by exists l, r|right].
    exists (i - length a)%nat. split; [lia|]. exists l, r. rewrite lookup_drop. split_and!; try done; try apply Hfd.
    by replace (length a + (i - length a))%nat with i by lia.
  - intros [(l & r & Hc & Hr & Hfd)|(k & -> & l & r & Hc & Hr & Hfd)]; exists l, r.
    + split; [by apply lookup_app_l_Some|done].
    + rewrite lookup_drop in Hr. split; [|done]. rewrite lookup_app_r by lia.
      by replace (length a + k - length a)%nat with k by lia.
Qed.

Lemma quiet_accepts_none cs rs i fd : (forall f, SysAccept f ∉ cs) -> ~ accepted_at cs rs i fd.
Proof. intros Hq (l & r & Hc & _). apply (Hq l). by eapply list_elem_of_lookup_2. Qed.

(** ** No descriptor is lost

    A connection that was there is still there or was closed, and a
    descriptor that was accepted is the key of a connection or was closed
    after that. *)
Definition tracked (s s' : Server) : Prop :=
  exists cs, ran (sv_world s) (sv_world s') cs /\
    (forall fd, is_Some (conns_ s !! fd) -> is_Some (conns_ s' !! fd) \/ SysClose fd ∈ cs) /\
    (forall i fd, accepted_at cs (script (sv_world s)) i fd ->
       is_Some (conns_ s' !! fd) \/ exists j, (i < j)%nat /\ cs !! j = Some (SysClose fd)).

#[global] Instance tracked_preorder : PreOrder tracked.
Proof.
  split.
  - intros s. exists []. split_and!; [apply ran_refl|by left|]. by intros i fd (l & r & Hc & _).
  - intros s1 s2 s3 (a & Ha & La & Aa) (b & Hb & Lb & Ab). exists (a ++ b).
    assert (Hb' : forall i fd, is_Some (conns_ s2 !! fd) -> (i < length a)%nat ->
      is_Some (conns_ s3 !! fd) \/ exists j, (i < j)%nat /\ (a ++ b) !! j = Some (SysClose fd)).
    { intros i fd Hfd Hi. destruct (Lb fd Hfd) as [|[k Hk]%list_elem_of_lookup_1]; [by left|right].
      exists (length a + k)%nat. split; [lia|]. rewrite lookup_app_r by lia. by replace (length a + k - length a)%nat with k by lia. }
    split_and!; [by eapply ran_trans| |].
    + intros fd Hfd. rewrite elem_of_app. destruct (La fd Hfd) as [Hfd2|]; [|auto]. destruct (Lb fd Hfd2); auto.
    + intros i fd [Hi|(k & -> & Hk)]%accepted_at_app.
      * destruct (Aa i fd Hi) as [Hfd|(j & Hij & Hj)]; [|right; exists j; split; [done|by apply lookup_app_l_Some]].
        apply Hb'; [done|]. destruct Hi as (l & r & Hc & _). by eapply lookup_lt_Some.
      * destruct Ha as [_ Hs]. rewrite <- Hs in Hk. destruct (Ab k fd Hk) as [|(j & Hkj & Hj)]; [by left|right].
        exists (length a + j)%nat. split; [lia|]. rewrite lookup_app_r by lia. by replace (length a + j - length a)%nat with j by lia.
Qed.

Lemma quiet_tracked s s' :
  quiet (sv_world s) (sv_world s') ->
  (forall fd, is_Some (conns_ s !! fd) -> is_Some (conns_ s' !! fd) \/ later_with (SysClose fd) (sv_world s) (sv_world s')) ->
  tracked s s'.
Proof.
  intros (cs & Hr & Hq) Hl. exists cs. split_and!; [done| |].
  - intros fd Hfd. destruct (Hl fd Hfd) as [|(cs' & Hr' & Hin)]; [by left|right]. by rewrite (ran_unique _ _ _ _ Hr Hr').
  - intros i fd Hi. by apply quiet_accepts_none in Hi.
Qed.

Lemma event_tracked fd s s' : event_on fd s s' -> server_ok s -> tracked s s'.
Proof.
  intros [A1 A2 A3 A4 A5] Hok. apply quiet_tracked; [done|]. intros fd' [c Hc].
  destruct (decide (fd' = fd)) as [->|Hne]; [|left; rewrite A3 by done; by exists c].
  specialize (A5 c Hc (Hok _ _ Hc)). destruct (conns_ s' !! fd); [left; by eexists|by right].
Qed.

(** One turn of the loop that got a socket. *)
Lemma accept_turn lfd tls_ (s : Server) r w :
  sys (SysAccept lfd) (sv_world s) = (r, w) -> 0 <= sr_ret r ->
  let s' := accepted (B := B) strerror (mkUniquefd (sr_ret r)) tls_ (sr_data r) (set_sv_world w s) in
  accepts s s' /\ tracked s s'.
Proof.
  intros E Hr s'. pose proof E as Hw%sys_later.
  destruct (accepted_spec (sr_ret r) tls_ (sr_data r) (set_sv_world w s) Hr) as ([A1 A2 A3 A4] & (cs & Hc & Hq) & Hst).
  fold s' in A1, A2, A3, A4, Hc, Hst. cbn in A1, A2, A3, A4. split; [split; [by etrans|done..]|].
  apply sys_ran in E as [Hran Hans]. exists ([SysAccept lfd] ++ cs). split_and!; [by eapply ran_trans| |].
  - intros fd [c Ec]. left. exists c. by apply A3.
  - intros i fd [(l & x & Hi & Hx & <- & Hfd)|(k & _ & Hk)]%accepted_at_app; [|by apply quiet_accepts_none in Hk].
    destruct i as [|i]; [|done]. assert (x = r) as -> by (destruct Hans as [Hh|[Hn _]]; [|by rewrite Hn in Hx];
      destruct (script (sv_world s)); cbn in *; congruence).
    destruct Hst as [(now & Hs)|(cs' & Hc' & Hin)]; [left; by eexists|right]. cbn in Hc'.
    rewrite <- (ran_unique _ _ _ _ Hc Hc') in Hin. apply list_elem_of_lookup_1 in Hin as [j Hj]. exists (S j). split; [lia|done].
Qed.

Lemma accept_refused lfd (s : Server) r w :
  sys (SysAccept lfd) (sv_world s) = (r, w) -> sr_ret r < 0 -> accepts s (set_sv_world w s) /\ tracked s (set_sv_world w s).
Proof.
  intros E Hr. split; [split; [by eapply sys_later|done|done|by left]|]. apply sys_ran in E as [Hran Hans].
  exists [SysAccept lfd]. split_and!; [done|by left|]. intros i fd (l & x & Hi & Hx & <- & Hfd). exfalso.
  destruct i as [|i]; [|done]. destruct (script (sv_world s)); [done|]. destruct Hans as [Hh|[Hn _]]; [|done].
  cbn in *. simplify_eq. lia.
Qed.

Lemma accept_loop_accepts fuel lfd tls_ : forall s,
  let s' := accept_loop (B := B) strerror fuel lfd tls_ s in accepts s s' /\ tracked s s'.
Proof.
  induction fuel as [|fuel IH]; intros s; cbn [accept_loop]; destruct (sys (SysAccept lfd) (sv_world s)) as [r w] eqn:E;
    cbv zeta; destruct (fd_valid _) eqn:Ev; cbn [negb]; unfold fd_valid in Ev; cbn [fd_] in Ev; zbool.
  - exact (accept_turn lfd tls_ s r w E Ev).
  - destruct (accept_refused lfd s r w E Ev) as [Ha Hc]. destruct (would_block _); [done|].
    split; [etrans; [exact Ha|apply calm_accepts, calm_logged]|exact Hc].
  - destruct (accept_turn lfd tls_ s r w E Ev) as [Ha Hc]. destruct (IH (accepted strerror (mkUniquefd (sr_ret r)) tls_ (sr_data r) (set_sv_world w s))) as [Ha' Hc'].
    split; by etrans.
  - destruct (accept_refused lfd s r w E Ev) as [Ha Hc]. destruct (would_block _); [done|].
    split; [etrans; [exact Ha|apply calm_accepts, calm_logged]|exact Hc].
Qed.

(** More turns than answers are never taken. *)
Lemma accept_loop_more fuel lfd tls_ : forall s,
  (length (script (sv_world s)) <= fuel)%nat ->
  accept_loop (B := B) strerror (S fuel) lfd tls_ s = accept_loop strerror fuel lfd tls_ s.
Proof.
  assert (Heq : forall n (s : Server), accept_loop (B := B) strerror n lfd tls_ s =
    (let '(r, w) := sys (SysAccept lfd) (sv_world s) in
     let s := set_sv_world w s in let fd := mkUniquefd (sr_ret r) in
     if negb (fd_valid fd) then if would_block (sr_errno r) then s else logged Warn (str "accept failed") [kv "error" (strerror (sr_errno r))] s
     else let s := accepted strerror fd tls_ (sr_data r) s in match n with O => s | S n' => accept_loop strerror n' lfd tls_ s end)) by (by intros []).
  induction fuel as [|fuel IH]; intros s Hf; rewrite Heq, (Heq _ s); destruct (sys (SysAccept lfd) (sv_world s)) as [r w] eqn:E;
    cbv zeta; destruct (fd_valid _) eqn:Ev; cbn [negb]; try done; unfold fd_valid in Ev; cbn [fd_] in Ev; zbool.
  - unfold sys in E. destruct (script (sv_world s)); [|cbn in Hf; lia]. simplify_eq. cbn in Ev. lia.
  - apply IH. destruct (accepted_spec (sr_ret r) tls_ (sr_data r) (set_sv_world w s) Ev) as ([Hl%later_script _ _ _] & _). cbn in Hl.
    unfold sys in E. destruct (script (sv_world s)); simplify_eq; cbn in *; lia.
Qed.

Lemma accepts_ok s s' : accepts s s' -> server_ok s -> server_ok s'.
Proof. intros [_ _ _ A4] Hok fd c E. destruct (A4 fd c E) as [E'|]; [by apply Hok|done]. Qed.

(** Likewise for the input of a handshake. *)
Lemma handshake_recv_more fuel fd : forall (t : T) w,
  (length (script w) <= fuel)%nat -> handshake_recv (S fuel) fd t w = handshake_recv fuel fd t w.
Proof.
  assert (Heq : forall n (t : T) w, handshake_recv n fd t w =
    (let '(n', errno, d, w) := sys_recv fd CLIENT_RECV w in
     if 0 <? n' then
       let t := (tls_feed_encrypted d t).2 in
       match n with O => (Some [], t, w) | S m => handshake_recv m fd t w end
     else if n' =? 0 then (Some (str "eof in handshake"), t, w)
     else if would_block errno then (None, t, w)
     else (Some (str "recv error in handshake"), t, w))) by (by intros []).
  induction fuel as [|fuel IH]; intros t w Hf; rewrite Heq, (Heq _ t w);
    destruct (sys_recv fd CLIENT_RECV w) as [[[n e] d] w1] eqn:E; apply sys_recv_ran in E as (_ & _ & _ & _ & Ha);
    (destruct (Z.ltb_spec 0 n); [|done]); (destruct Ha as [(_ & Hn & _)|Ha]; [lia|]); [lia|]. apply IH. lia.
Qed.

(** ** One event, one turn, the whole run *)

(** From a well-formed server to a well-formed later one, no descriptor being
    lost. *)
Definition serves (s s' : Server) : Prop :=
  server_ok s -> server_ok s' /\ tracked s s' /\ setting s' = setting s.

Lemma tracked_later s s' : tracked s s' -> later (sv_world s) (sv_world s').
Proof. intros (cs & Hr & _). by exists cs. Qed.

#[local] Instance serves_preorder : PreOrder serves.
Proof.
  split; [by intros s|]. intros s1 s2 s3 H1' H2' Hok. destruct (H1' Hok) as (Hok2 & Hl & Hs). destruct (H2' Hok2) as (? & ? & ?).
  split_and!; [done|by etrans|congruence].
Qed.

Lemma event_on_serves fd s s' : event_on fd s s' -> serves s s'.
Proof. intros He Hok. split_and!; [by eapply event_ok|by eapply event_tracked|apply He]. Qed.

Lemma calm_serves s s' : calm s s' -> serves s s'.
Proof. intros Hc. by eapply (event_on_serves 0), calm_event. Qed.

Lemma accept_serves lfd tls_ s : serves s (on_accept strerror lfd tls_ s).
Proof.
  intros Hok. destruct (accept_loop_accepts (length (script (sv_world s))) lfd tls_ s) as [Ha Ht].
  split_and!; [by eapply accepts_ok|exact Ht|apply Ha].
Qed.

Lemma event_serves fd e s : serves s (on_event inet_pton strerror fd e s).
Proof.
  unfold on_event. destruct (fd =? _); [apply accept_serves|]. destruct (fd =? _); [apply accept_serves|].
  intros Hok. eapply (event_on_serves fd); [|done]. by apply event_client, Hok.
Qed.

Lemma tick_calm (s : Server) : calm s (on_tick s).
Proof.
  unfold on_tick. destruct (sys_now_ms (sv_world s)) as [now w1] eqn:E1.
  pose proof (pool_tick_quiet now (sv_pools s) w1) as Ht. destruct (pool_tick now (sv_pools s) w1) as [pools w2].
  destruct (load_shutdown w2) as [stop w3] eqn:E3.
  assert (Hw : calm s (set_sv_world w3 (set_pools pools s))) by (split; [cbn; calls_chain|done|done]).
  destruct stop; [done|]. etrans; [exact Hw|]. apply calm_on_loop, el_add_timer_quiet.
Qed.

Lemma poll_serves s : serves s (poll_once inet_pton strerror s).2.
Proof.
  unfold poll_once. apply el_poll_rule; [exact _| | |].
  - intros s1 w l Hl. by apply calm_serves, calm_view.
  - intros [] s1. apply calm_serves, tick_calm.
  - intros fd e s1. apply event_serves.
Qed.

Lemma serve_loop_eq fuel s :
  serve_loop inet_pton strerror fuel s =
  (let '(stop, w) := load_shutdown (sv_world s) in
   let s := set_sv_world w s in
   if stop then (Ok tt, s)
   else
     match poll_once inet_pton strerror s with
     | (Err e, s) => (Err e, s)
     | (Ok _, s) => match fuel with O => (Err (from_errno EIO (str "epoll wait")), s) | S fuel' => serve_loop inet_pton strerror fuel' s end
     end).
Proof. by destruct fuel. Qed.

Lemma serve_loop_serves fuel : forall s, serves s (serve_loop inet_pton strerror fuel s).2.
Proof.
  induction fuel as [|fuel IH]; intros s; rewrite serve_loop_eq; destruct (load_shutdown (sv_world s)) as [stop w] eqn:E;
    (assert (Hw : serves s (set_sv_world w s)) by (apply calm_serves, calm_world; by eapply (calls_eq load_shutdown)));
    cbv zeta; (destruct stop; [done|]); (etrans; [exact Hw|]);
    pose proof (poll_serves (set_sv_world w s)) as Hp; destruct (poll_once _ _ _) as [[[]|e] s1]; try done.
  etrans; [exact Hp|apply IH].
Qed.

(** A load that sees the flag set was answered; one that does not has used
    up an answer, or there was none and none is left. *)
Lemma load_shutdown_ran w stop w' :
  load_shutdown w = (stop, w') ->
  ran w w' [LoadShutdown] /\
  if stop then exists a, head (script w) = Some a /\ 0 < sr_ret a
  else (length (script w') < length (script w))%nat \/ script w' = [].
Proof.
  unfold load_shutdown. destruct (sys LoadShutdown w) as [a w1] eqn:E. intros [= <- <-]. pose proof E as [Hr Ha]%sys_ran.
  split; [done|]. destruct (Z.ltb_spec 0 (sr_ret a)).
  - exists a. split; [|done]. destruct Ha as [|[_ ->]]; [done|]. cbn in *. lia.
  - destruct Hr as [_ ->]. destruct (script w); cbn; [by right|left; rewrite drop_0; lia].
Qed.

(** The loop as the code has it, without a bound: [serving s r s'] when a run
    of [while (!g_shutdown.load()) { poll; }] from [s] ends in [s'] with
    [r]. *)
Inductive serving : Server -> Result unit -> Server -> Prop :=
  | serving_stop s w : load_shutdown (sv_world s) = (true, w) -> serving s (Ok tt) (set_sv_world w s)
  | serving_error s w e s' :
      load_shutdown (sv_world s) = (false, w) -> poll_once inet_pton strerror (set_sv_world w s) = (Err e, s') ->
      serving s (Err e) s'
  | serving_turn s w s1 r s' :
      load_shutdown (sv_world s) = (false, w) -> poll_once inet_pton strerror (set_sv_world w s) = (Ok tt, s1) ->
      serving s1 r s' -> serving s r s'.

(** A poll that succeeds was answered, so that fewer answers are left after a
    turn. *)
Lemma turn_answers s w s1 :
  server_ok s -> load_shutdown (sv_world s) = (false, w) -> poll_once inet_pton strerror (set_sv_world w s) = (Ok tt, s1) ->
  server_ok s1 /\ (length (script (sv_world s1)) < length (script (sv_world s)))%nat.
Proof.
  intros Hok El Ep. pose proof (poll_serves (set_sv_world w s)) as Hp. rewrite Ep in Hp.
  destruct Hp as (Hok1 & Hl%tracked_later%later_script & _); [done|]. cbn in Hl. split; [done|].
  apply load_shutdown_ran in El as [_ [?|Hn]]; [lia|].
  pose proof (el_poll_fails _ server_view run_timer (on_event inet_pton strerror) 1000 (set_sv_world w s) Hn) as Hf.
  unfold poll_once in Ep. by rewrite Ep in Hf.
Qed.

Lemma serve_loop_serving fuel : forall s r s',
  server_ok s -> (length (script (sv_world s)) <= fuel)%nat -> serve_loop inet_pton strerror fuel s = (r, s') -> serving s r s'.
Proof.
  induction fuel as [|fuel IH]; intros s r s' Hok Hf; rewrite serve_loop_eq;
    destruct (load_shutdown (sv_world s)) as [[] w] eqn:El; cbv zeta; try (intros [= <- <-]; by constructor);
    destruct (poll_once _ _ _) as [[[]|e] s1] eqn:Ep; try (intros [= <- <-]; by eapply serving_error);
    destruct (turn_answers _ _ _ Hok El Ep); [lia|].
  intros Es. eapply serving_turn; [done..|]. apply (IH s1); [done|lia|done].
Qed.

Lemma serving_serve_loop s r s' :
  serving s r s' -> forall fuel, server_ok s -> (length (script (sv_world s)) <= fuel)%nat ->
  serve_loop inet_pton strerror fuel s = (r, s').
Proof.
  induction 1 as [s w El|s w e s' El Ep|s w s1 r s' El Ep _ IH]; intros fuel Hok Hf; rewrite serve_loop_eq, El; cbv zeta;
    rewrite ?Ep; [done..|].
  destruct (turn_answers _ _ _ Hok El Ep). destruct fuel as [|fuel]; [lia|]. apply IH; [done|lia].
Qed.

(** A run that ends without an error has just seen the flag set. *)
Lemma serving_stopped s r s' :
  serving s r s' -> server_ok s -> r = Ok tt ->
  exists cs a, ran (sv_world s) (sv_world s') (cs ++ [LoadShutdown]) /\ script (sv_world s) !! length cs = Some a /\ 0 < sr_ret a.
Proof.
  induction 1 as [s w El|s w e s' El Ep|s w s1 r s' El Ep _ IH]; intros Hok Hr; [|done|].
  - apply load_shutdown_ran in El as (Hran & a & Ha & Hpos). exists [], a. split_and!; [done| |done]. by destruct (script _).
  - destruct (turn_answers _ _ _ Hok El Ep) as [Hok1 _]. destruct (IH Hok1 Hr) as (cs & a & Hc & Ha & Hpos).
    pose proof (poll_serves (set_sv_world w s)) as Hp. rewrite Ep in Hp. destruct Hp as (_ & [b Hb]%tracked_later & _); [done|].
    cbn in Hb. apply load_shutdown_ran in El as [Hran _]. assert (Hb' := ran_trans _ _ _ _ _ Hran Hb).
    exists (([LoadShutdown] ++ b) ++ cs), a. rewrite <- app_assoc. split_and!; [by eapply ran_trans| |done].
    destruct Hb' as [_ Hs]. by rewrite Hs, lookup_drop, <- length_app in Ha.
Qed.

(** ** Setting up and shutting down *)

Definition sets_up (s s' : Server) : Prop := quiet (sv_world s) (sv_world s') /\ conns_ s' = conns_ s /\ sv_cfg s' = sv_cfg s.

#[local] Instance sets_up_preorder : PreOrder sets_up.
Proof. split; [by intros s|]. intros s1 s2 s3 (?&?&?) (?&?&?). split_and!; [by etrans|congruence..]. Qed.

Lemma calm_sets_up s s' : calm s s' -> sets_up s s'.
Proof. intros [A1 A2 A3]. unfold setting in A2. split_and!; [done..|congruence]. Qed.

Lemma bind_sets_up {A C} (m : M Server A) (k : A -> M Server C) s :
  (forall s, sets_up s (m s).2) -> (forall a s, sets_up s (k a s).2) -> sets_up s (bind m k s).2.
Proof.
  intros Hm Hk. unfold bind. pose proof (Hm s). destruct (m s) as [[a|e] s1]; [|done]. etrans; [done|apply Hk].
Qed.

Lemma on_world_sets_up {A} (m : M World A) `{!Calls m} s : sets_up s (on_world m s).2.
Proof. unfold on_world. pose proof (calls_quiet (m := m) (sv_world s)). by destruct (m (sv_world s)) as [r w]. Qed.

#[local] Instance checked_calls c op : Modest c -> Calls (checked c op).
Proof. intros Hc. unfold checked. calls_cases. Qed.

Lemma start_listener_sets_up fd port t s : sets_up s (start_listener (B := B) inet_pton fd port t s).2.
Proof.
  unfold start_listener. apply bind_sets_up; [intros; by apply on_world_sets_up, _|intros _ ?].
  apply bind_sets_up; [intros; by apply on_world_sets_up, _|intros _ ?].
  apply bind_sets_up; [intros ?; by destruct (inet_pton _)|intros _ ?].
  apply bind_sets_up; [intros; by apply on_world_sets_up, _|intros _ ?].
  apply bind_sets_up; [intros; by apply on_world_sets_up, _|intros _ ?].
  apply calm_sets_up, calm_on_loop. intros wl. apply el_add_quiet.
Qed.

Lemma reset_socket_quiet old w u e w' : reset_socket old w = (u, e, w') -> quiet w w'.
Proof.
  unfold reset_socket. destruct (sys SysSocket w) as [r w1] eqn:E. destruct (fd_reset _ _ w1) as [u1 w2] eqn:E2.
  intros [= <- <- <-]. calls_chain.
Qed.

Lemma setup_sets_up s : sets_up s (setup_listeners (B := B) inet_pton s).2.
Proof.
  unfold setup_listeners. apply bind_sets_up; intros.
  - unfold setup_plain. destruct (reset_socket _ _) as [[u e] w] eqn:E. apply reset_socket_quiet in E. cbv zeta.
    transitivity (set_listen_fd u (set_sv_world w s0)); [done|]. destruct (negb _); [done|apply start_listener_sets_up].
  - destruct (tls_enabled _); [|done]. unfold setup_tls.
    destruct (reset_socket _ _) as [[u e] w] eqn:E. apply reset_socket_quiet in E. cbv zeta.
    transitivity (set_tls_listen_fd u (set_sv_world w s0)); [done|]. destruct (negb _); [done|apply start_listener_sets_up].
Qed.

(** The listening socket [fd] was bound and put into listening mode, both with
    success. *)
Definition listening (fd : Z) (addr : bytes) (port : Z) (w w' : World) : Prop :=
  (exists r, answered (SysBind fd addr port) r w w' /\ 0 <= sr_ret r) /\
  (exists r, answered (SysListen fd) r w w' /\ 0 <= sr_ret r).

Lemma listening_r fd a p w1 w2 w3 : later w1 w2 -> listening fd a p w2 w3 -> listening fd a p w1 w3.
Proof. intros Hl [(r & Hr & ?) (r' & Hr' & ?)]. split; [exists r|exists r']; (split; [by eapply answered_r|done]). Qed.

Lemma listening_l fd a p w1 w2 w3 : listening fd a p w1 w2 -> later w2 w3 -> listening fd a p w1 w3.
Proof. intros [(r & Hr & ?) (r' & Hr' & ?)] Hl. split; [exists r|exists r']; (split; [by eapply answered_l|done]). Qed.

Lemma checked_ok c op (s : Server) s' :
  on_world (checked c op) s = (Ok tt, s') ->
  (exists r, answered c r (sv_world s) (sv_world s') /\ 0 <= sr_ret r) /\ conns_ s' = conns_ s /\ sv_cfg s' = sv_cfg s.
Proof.
  unfold on_world, checked. destruct (sys c (sv_world s)) as [r w] eqn:E. destruct (Z.ltb_spec (sr_ret r) 0); intros [= <-].
  split; [|done]. exists r. split; [|done]. apply sys_answered in E as [->|]; [cbn in *; lia|done].
Qed.

Lemma start_listener_ok fd port t (s s' : Server) :
  start_listener (B := B) inet_pton fd port t s = (Ok tt, s') ->
  sets_up s s' /\ listening (fd_ fd) (listen_addr (sv_cfg s)) port (sv_world s) (sv_world s').
Proof.
  intros E. pose proof (start_listener_sets_up fd port t s) as Hs. rewrite E in Hs. split; [done|].
  unfold start_listener in E. apply bind_inv_ok in E as ([] & s1 & E1 & E). pose proof (on_world_sets_up (set_reuse fd) s) as U1.
  rewrite E1 in U1. apply bind_inv_ok in E as ([] & s2 & E2 & E). pose proof (on_world_sets_up (set_nonblocking fd) s1) as U2.
  rewrite E2 in U2. apply bind_inv_ok in E as ([] & s3 & E3 & E). destruct (inet_pton _); [|done]. simplify_eq.
  apply bind_inv_ok in E as ([] & s4 & (B1 & _ & Hcfg)%checked_ok & E). apply bind_inv_ok in E as ([] & s5 & (B2 & _)%checked_ok & E).
  pose proof (calm_on_loop (el_add (fd_ fd) Event.Read) s5 ltac:(intros wl; apply el_add_quiet)) as Hc. rewrite E in Hc.
  destruct U1 as (Q1 & _ & C1), U2 as (Q2 & _ & C2), Hc as [Q5 _ _]. cbn [snd] in *. rewrite C2, C1 in B1.
  assert (Q12 : later (sv_world s) (sv_world s3)) by (apply quiet_later; by etrans).
  assert (Q3 : later (sv_world s3) (sv_world s4)) by (destruct B1 as (r & (cs & i & Hr & _) & _); by exists cs).
  assert (Q4 : later (sv_world s4) (sv_world s5)) by (destruct B2 as (r & (cs & i & Hr & _) & _); by exists cs).
  apply quiet_later in Q5. eapply listening_r; [exact Q12|]. destruct B1 as (r & Hr & ?), B2 as (r' & Hr' & ?). split.
  - exists r. split; [|done]. eapply answered_l; [exact Hr|]. by etrans.
  - exists r'. split; [|done]. eapply answered_r; [exact Q3|]. by eapply answered_l.
Qed.

(** Setting up succeeds only with every configured listener listening. *)
Definition listens (cfg : ProxyConfig) (w w' : World) : Prop :=
  (exists fd, 0 <= fd /\ listening fd (listen_addr cfg) (listen_port cfg) w w') /\
  (tls_enabled (tls cfg) = true -> exists fd, 0 <= fd /\ listening fd (listen_addr cfg) (tls_port cfg) w w').

Lemma setup_listener_ok (old : Server -> Uniquefd) (put : Uniquefd -> Server -> Server) port t (s s' : Server) :
  (forall u s1, sets_up s1 (put u s1)) ->
  (let '(u, errno, w) := reset_socket (old s) (sv_world s) in
   let s := put u (set_sv_world w s) in
   if negb (fd_valid u) then (Err (from_errno errno (lt_socket t)), s)
   else start_listener inet_pton u (port (sv_cfg s)) t s) = (Ok tt, s') ->
  sets_up s s' /\ exists fd, 0 <= fd /\ listening fd (listen_addr (sv_cfg s)) (port (sv_cfg s)) (sv_world s) (sv_world s').
Proof.
  intros Hput. destruct (reset_socket (old s) (sv_world s)) as [[u e] w] eqn:E. apply reset_socket_quiet in E. cbv zeta.
  destruct (fd_valid u) eqn:Ev; cbn [negb]; [|done]. unfold fd_valid in Ev. zbool. intros (U & Hli)%start_listener_ok.
  assert (U0 : sets_up s (put u (set_sv_world w s))) by (etrans; [|apply Hput]; done).
  split; [by etrans|]. destruct U0 as (Q0 & _ & C0). rewrite C0 in Hli. exists (fd_ u). split; [done|].
  eapply listening_r; [by apply quiet_later|done].
Qed.

Lemma setup_listeners_ok (s s' : Server) :
  setup_listeners (B := B) inet_pton s = (Ok tt, s') -> sets_up s s' /\ listens (sv_cfg s) (sv_world s) (sv_world s').
Proof.
  unfold setup_listeners. intros ([] & s1 & E1 & E2)%bind_inv_ok.
  apply (setup_listener_ok listen_fd_ set_listen_fd listen_port plain_texts) in E1 as [U1 (fd & Hfd & L1)]; [|done].
  destruct (tls_enabled (tls (sv_cfg s1))) eqn:Et.
  - apply (setup_listener_ok tls_listen_fd_ set_tls_listen_fd tls_port tls_texts) in E2 as [U2 (fd2 & Hfd2 & L2)]; [|done].
    split; [by etrans|]. destruct U1 as (Q1 & _ & C1), U2 as (Q2 & _ & _). rewrite C1 in L2. apply quiet_later in Q1, Q2. split.
    + exists fd. split; [done|]. by eapply listening_l.
    + intros _. exists fd2. split; [done|]. by eapply listening_r.
  - simplify_eq. split; [done|]. destruct U1 as (_ & _ & C1). rewrite C1 in Et. split; [by exists fd|congruence].
Qed.

(** Closing a list of connections. *)
Lemma close_list_spec l : forall s,
  let s' := foldl (fun s fd => close_conn fd (str "shutdown") s) s l in
  serves s s' /\ quiet (sv_world s) (sv_world s') /\
  (forall fd, fd ∈ l -> conns_ s' !! fd = None) /\ (forall fd, conns_ s !! fd = None -> conns_ s' !! fd = None).
Proof.
  induction l as [|fd l IH]; intros s; cbn [foldl].
  - split_and!; [done|done|by intros fd Hfd%elem_of_nil|done].
  - pose proof (event_close fd (str "shutdown") s) as He. set (s1 := close_conn _ _ s) in *.
    assert (Hgone : conns_ s1 !! fd = None).
    { unfold s1, close_conn. destruct (conns_ (loop_do (el_remove fd) s) !! fd) eqn:E; [|done]. cbn. apply lookup_delete_eq. }
    destruct (IH s1) as (I1 & I2 & I3 & I4). cbv zeta. split_and!.
    + etrans; [by eapply event_on_serves|exact I1].
    + etrans; [apply He|exact I2].
    + intros f [->|Hf]%elem_of_cons; [by apply I4|by apply I3].
    + intros f Hf. apply I4. destruct (decide (f = fd)) as [->|]; [done|]. by rewrite (ev_others _ _ _ He).
Qed.

Lemma close_all_spec (s : Server) :
  serves s (close_all s) /\ quiet (sv_world s) (sv_world (close_all s)) /\ conns_ (close_all s) = ∅.
Proof.
  destruct (close_list_spec (map_to_list (conns_ s)).*1 s) as (Hs & Hq & H1' & H2'). split_and!; [done|done|].
  apply map_empty. intros fd. destruct (conns_ s !! fd) as [c|] eqn:Ec; [|by apply H2']. apply H1'. apply list_elem_of_fmap.
  exists (fd, c). split; [done|]. by apply elem_of_map_to_list.
Qed.

(** ** Reachable states *)

(** One step of the server's thread: an event, a timer, or calls of the
    event loop in between. *)
Inductive server_step : Server -> Server -> Prop :=
  | step_event fd e s : server_step s (on_event inet_pton strerror fd e s)
  | step_timer cb s : server_step s (run_timer cb s)
  | step_loop w l s : later (sv_world s) w -> server_step s (view_put server_view (w, l) s).

(** From a well-formed server to a well-formed later one. *)
Definition keeps (s s' : Server) : Prop :=
  server_ok s -> server_ok s' /\ later (sv_world s) (sv_world s') /\ setting s' = setting s.

#[local] Instance keeps_preorder : PreOrder keeps.
Proof.
  split; [by intros s|]. intros s1 s2 s3 H1' H2' Hok. destruct (H1' Hok) as (Hok2 & Hl & Hs). destruct (H2' Hok2) as (? & ? & ?).
  split_and!; [done|by etrans|congruence].
Qed.

Lemma serves_keeps s s' : serves s s' -> keeps s s'.
Proof. intros Hs Hok. destruct (Hs Hok) as (? & ?%tracked_later & ?). done. Qed.

Lemma step_keeps s s' : server_step s s' -> keeps s s'.
Proof.
  intros [fd e s1|[] s1|w l s1 Hl]; [apply serves_keeps, event_serves|apply serves_keeps, calm_serves, tick_calm|done].
Qed.

Lemma steps_keep s s' : rtc server_step s s' -> keeps s s'.
Proof. induction 1 as [s|s1 s2 s3 Hs _ IH]; [done|]. etrans; [by apply step_keeps|done]. Qed.

Lemma poll_steps s : rtc server_step s (poll_once inet_pton strerror s).2.
Proof.
  unfold poll_once. apply (el_poll_rule _ _ _ _ (rtc server_step)); [exact _| | |].
  - intros s1 w l Hl. by apply rtc_once, step_loop, quiet_later.
  - intros cb s1. apply rtc_once, step_timer.
  - intros fd e s1. apply rtc_once, step_event.
Qed.

(** ** Properties *)

(** (C6) Well-formed connections, always.  Starting from a server without
    connections, after any sequence of events, timers and calls of the loop,
    and in particular after any number of polls: every connection is stored
    under its own valid descriptor, is in one of the two states the server
    knows, has a TLS object whenever it is in the handshake or speaks HTTP/2
    (the pointer the code follows there is never null), and its HTTP/2 side
    keeps the invariant of streams.  The configuration and the listening
    sockets never change, and the calls are never taken back. *)
Theorem server_invariant (s s' : Server) :
  conns_ s = ∅ ->
  (rtc server_step s s' -> server_ok s' /\ setting s' = setting s /\ later (sv_world s) (sv_world s')) /\
  rtc server_step s' (poll_once inet_pton strerror s').2.
Proof.
  intros He. split; [|apply poll_steps]. intros Hs%steps_keep. destruct Hs as (Hok & Hl & Hset); [|done].
  intros fd c E. by rewrite He, lookup_empty in E.
Qed.

(** (C2) Connections are isolated.  Handling an event of a client leaves
    every other connection exactly as it was.  The client's own connection
    stays under the same descriptor, and one that was set up is never put
    back into the handshake nor changes its protocol; or it is gone, and then
    its descriptor was closed.  An event for an unknown descriptor does
    nothing. *)
Theorem client_event_isolated (fd e : Z) (s : Server) :
  server_ok s ->
  let s' := on_client_event inet_pton strerror fd e s in
  exists cs, ran (sv_world s) (sv_world s') cs /\
    (forall fd', fd' <> fd -> conns_ s' !! fd' = conns_ s !! fd') /\
    match conns_ s !! fd, conns_ s' !! fd with
    | Some c, Some c' =>
        cc_fd c' = cc_fd c /\ (cc_state c = ReadRequest -> cc_state c' = ReadRequest /\ cc_proto c' = cc_proto c)
    | Some _, None => SysClose fd ∈ cs
    | None, _ => s' = s
    end.
Proof.
  intros Hok s'. pose proof (event_client inet_pton strerror fd e s (fun c E => Hok fd c E)) as He. fold s' in He.
  destruct (conns_ s !! fd) as [c|] eqn:E.
  - pose proof (ev_conn _ _ _ He c E (Hok _ _ E)) as Hc. destruct (conns_ s' !! fd) as [c'|].
    + destruct (ev_quiet _ _ _ He) as (cs & Hr & _). exists cs. split_and!; [done|apply He|apply Hc|apply Hc].
    + destruct Hc as (cs & Hr & Hin). exists cs. split_and!; [done|apply He|done].
  - destruct (ev_quiet _ _ _ He) as (cs & Hr & _). exists cs. split_and!; [done|apply He|].
    unfold s', on_client_event. by rewrite E.
Qed.

(** (C26) Accepting leaks no descriptor and disturbs nobody.  Whatever the
    system answers, a run of [on_accept] leaves every existing connection as
    it was and the server well formed; every descriptor that the system
    handed out in it is afterwards the key of a connection or was closed; and
    the loop stops on its own, not by the bound of the model. *)
Theorem accept_stores_or_closes (lfd : Z) (tls_ : bool) (s : Server) :
  let s' := on_accept strerror lfd tls_ s in
  (forall f c, conns_ s !! f = Some c -> conns_ s' !! f = Some c) /\
  (server_ok s -> server_ok s') /\
  (exists cs, ran (sv_world s) (sv_world s') cs /\
     forall fd, fd ∈ accepted_fds cs (script (sv_world s)) -> is_Some (conns_ s' !! fd) \/ SysClose fd ∈ cs) /\
  accept_loop strerror (S (length (script (sv_world s)))) lfd tls_ s = s'.
Proof.
  intros s'. destruct (accept_loop_accepts (length (script (sv_world s))) lfd tls_ s) as [Ha (cs & Hr & _ & Hc)].
  split_and!; [apply Ha|by apply accepts_ok| |by apply accept_loop_more]. exists cs. split; [done|].
  intros fd [i Hi]%accepted_fds_at. destruct (Hc i fd Hi) as [|(j & _ & Hj)]; [by left|right]. by eapply list_elem_of_lookup_2.
Qed.

(** (C24) The serving loop is the loop of the code.  The model bounds the
    number of turns by the number of answers of the system; that bound, and
    any larger one, never shows: the result is exactly that of a run of
    [while (!g_shutdown.load())], which polls as long as the flag is not set,
    stops at the first load that sees it set, and gives the error of the first
    poll that fails.  In particular the loop returns without an error only
    right after a load of the flag that the system answered with "set".
    (That the flag is set one day is up to the system: without an answer it is
    not set, and the poll that follows fails.) *)
Theorem serve_loop_exact (fuel : nat) (s : Server) :
  server_ok s -> (length (script (sv_world s)) <= fuel)%nat ->
  (forall r s', serve_loop inet_pton strerror fuel s = (r, s') <-> serving s r s') /\
  (forall s', serve_loop inet_pton strerror fuel s = (Ok tt, s') ->
     exists cs a, ran (sv_world s) (sv_world s') (cs ++ [LoadShutdown]) /\
       script (sv_world s) !! length cs = Some a /\ 0 < sr_ret a).
Proof.
  intros Hok Hf. split.
  - intros r s'. split; [by apply serve_loop_serving|intros Hs; by apply serving_serve_loop].
  - intros s' Hs%serve_loop_serving; [|done|done]. by eapply serving_stopped.
Qed.

(** The parts of [run]. *)
Lemma run_parts (s s' : Server) :
  run inet_pton strerror s = (Ok tt, s') -> conns_ s = ∅ ->
  exists s1 s2, (sets_up s s1 /\ listens (sv_cfg s) (sv_world s) (sv_world s1)) /\
    serve_loop inet_pton strerror (length (script (sv_world s1))) s1 = (Ok tt, s2) /\ s' = close_all s2.
Proof.
  intros E He. unfold run in E.
  set (c := if tls_enabled _ then _ else _) in E.
  assert (Hc : c = (Ok tt, c.2) /\ sets_up s c.2 \/ exists e, c = (Err e, s)).
  { unfold c. destruct (tls_enabled _); [|by left]. destruct (ctx_server _) as [x|e]; [by left|right; by eexists]. }
  clearbody c. destruct Hc as [[Ec Hs]|[e Ec]]; rewrite Ec in E; [|done]. set (s0 := c.2) in *. clearbody s0. cbn iota beta in E.
  match type of E with context [match ?m with _ => _ end] => destruct m as [[x|e] s1] eqn:Eb end; [|done].
  destruct (serve_loop _ _ _ s1) as [[[]|e] s2] eqn:El; [|done]. simplify_eq. exists s1, s2. split_and!; try done.
  - apply bind_inv_ok in Eb as ([] & s3 & [U3 _]%setup_listeners_ok & Et). etrans; [exact Hs|]. etrans; [exact U3|].
    pose proof (calm_on_loop (el_add_timer 1000 OnTick) s3 ltac:(intros; apply el_add_timer_quiet)) as Hc. rewrite Et in Hc.
    by apply calm_sets_up.
  - apply bind_inv_ok in Eb as ([] & s3 & [U3 Hli]%setup_listeners_ok & Et).
    pose proof (calm_on_loop (el_add_timer 1000 OnTick) s3 ltac:(intros; apply el_add_timer_quiet)) as Hc. rewrite Et in Hc.
    destruct Hs as (Hq & _ & Hcfg), Hc as [Hq3 _ _]. rewrite Hcfg in Hli. apply quiet_later in Hq, Hq3. destruct Hli as [(fd & ? & L1) L2]. split.
    + exists fd. split; [done|]. eapply listening_r; [done|]. by eapply listening_l.
    + intros Ht. destruct (L2 Ht) as (fd2 & ? & L3). exists fd2. split; [done|]. eapply listening_r; [done|]. by eapply listening_l.
Qed.

(** Every descriptor accepted between two worlds was closed after that. *)
Definition accepted_closed (w w' : World) : Prop :=
  exists cs, ran w w' cs /\
    forall i fd, accepted_at cs (script w) i fd -> exists j, (i < j)%nat /\ cs !! j = Some (SysClose fd).

(** The run of a server that was started without connections, up to a clean
    stop. *)
Lemma run_spec (s s' : Server) :
  conns_ s = ∅ -> run inet_pton strerror s = (Ok tt, s') ->
  exists s1 s2, sets_up s s1 /\ listens (sv_cfg s) (sv_world s) (sv_world s1) /\ serving s1 (Ok tt) s2 /\ server_ok s1 /\ serves s1 s2 /\ serves s2 s' /\
    quiet (sv_world s2) (sv_world s') /\ conns_ s' = ∅.
Proof.
  intros He E. destruct (run_parts s s' E He) as (s1 & s2 & [Hs Hli] & El & ->).
  assert (Hok1 : server_ok s1) by (destruct Hs as (_ & Hc & _); intros fd c Ec; by rewrite Hc, He, lookup_empty in Ec).
  pose proof (serve_loop_serves (length (script (sv_world s1))) s1) as Hl. rewrite El in Hl. destruct (close_all_spec s2) as (? & ? & ?).
  exists s1, s2. split_and!; try done. by eapply serve_loop_serving.
Qed.

Lemma sets_up_tracked s s' : sets_up s s' -> tracked s s'.
Proof. intros (Hq & Hc & _). apply quiet_tracked; [done|]. intros fd. rewrite Hc. by left. Qed.

Lemma tracked_closed s s' : tracked s s' -> conns_ s' = ∅ -> accepted_closed (sv_world s) (sv_world s').
Proof.
  intros (cs & Hr & _ & Ha) He. exists cs. split; [done|]. intros i fd Hi. destruct (Ha i fd Hi) as [[c Hc]|]; [|done].
  by rewrite He, lookup_empty in Hc.
Qed.

(** (C14) A clean stop leaves no client behind.  Take a whole run of a server
    that starts without connections: its calls and the answers to them.  When
    [run] returns without an error, every descriptor that [accept] returned in
    it, at whatever point, was closed by a later call of that run; no
    connection is left in the table; and the run has seen the shutdown flag
    set, after which nothing was accepted any more. *)
Theorem run_closes_clients (s s' : Server) :
  conns_ s = ∅ -> run inet_pton strerror s = (Ok tt, s') ->
  conns_ s' = ∅ /\
  exists before after a,
    let cs := before ++ LoadShutdown :: after in
    ran (sv_world s) (sv_world s') cs /\
    script (sv_world s) !! length before = Some a /\ 0 < sr_ret a /\ (forall lfd, SysAccept lfd ∉ after) /\
    (forall i lfd r, cs !! i = Some (SysAccept lfd) -> script (sv_world s) !! i = Some r -> 0 <= sr_ret r ->
       exists j, (i < j)%nat /\ cs !! j = Some (SysClose (sr_ret r))).
Proof.
  intros He E. destruct (run_spec s s' He E) as (s1 & s2 & Hs & _ & Hl & Hok & S1 & S2 & (after & Hafter & Hq) & Hc). split; [done|].
  destruct (S1 Hok) as (Hok2 & T1 & _). destruct (S2 Hok2) as (_ & T2 & _).
  destruct (tracked_closed s s') as (cs & Hcs & Hclose); [|done|]. { etrans; [by apply sets_up_tracked|]. by etrans. }
  destruct (serving_stopped _ _ _ Hl Hok eq_refl) as (b & a & Hb & Ha & Hpos). destruct Hs as ((c0 & Hc0 & _) & _ & _).
  exists (c0 ++ b), after, a. cbv zeta.
  assert (Hr : ran (sv_world s) (sv_world s') ((c0 ++ b) ++ LoadShutdown :: after)).
  { replace ((c0 ++ b) ++ LoadShutdown :: after) with (c0 ++ (b ++ [LoadShutdown]) ++ after) by (by rewrite <- !app_assoc).
    eapply ran_trans; [exact Hc0|]. by eapply ran_trans. }
  rewrite (ran_unique _ _ _ _ Hcs Hr) in Hclose. split_and!; [done| |done|done|].
  - rewrite length_app. destruct Hc0 as [_ Hs0]. by rewrite Hs0, lookup_drop in Ha.
  - intros i lfd r Hi Hr' Hpos'. apply Hclose. by exists lfd, r.
Qed.
End Server.

(** ** Witnesses: the server on lists of bytes, without TLS, over epoll *)

Abbreviation DemoServer := (ProxyServer bytes Fallback.TLSConn Fallback.TLSContextImpl (Epoll.EpollLoop TimerCB)).

Definition demo_config : ProxyConfig := set_tls (set_tls_enabled false TLSConfig_default) ProxyConfig_default.

Definition demo_conn (fd : Z) : ClientConn bytes Fallback.TLSConn :=
  new_client (Ctx := Fallback.TLSContextImpl) (mkUniquefd fd) false 0 [] None.

(** Two clients, on descriptors 6 and 7. *)
Definition demo_server (conns : gmap Z (ClientConn bytes Fallback.TLSConn)) (answers : list SysResult) : DemoServer :=
  mkServer demo_config (mkWorld [] answers) (Epoll.mkEpollLoop (mkUniquefd 3) ∅ ∅ 1) (mkUniquefd 4) fd_none None
    (WeightedRoundRobin_make []) (PoolManager_make PoolConfig_default) conns None.

Definition demo_two : gmap Z (ClientConn bytes Fallback.TLSConn) := <[6 := demo_conn 6]> {[7 := demo_conn 7]}.

Lemma demo_two_ok answers : server_ok (demo_server demo_two answers).
Proof.
  unfold server_ok. cbn [demo_server conns_]. apply map_Forall_insert_2; [by apply new_client_ok|].
  apply map_Forall_singleton. by apply new_client_ok.
Qed.

Lemma server_invariant_witness :
  let s := demo_server ∅ [] in
  let s' := on_event (fun _ => true) (fun _ => []) 4 Event.Read s in
  server_ok s' /\ setting s' = setting s.
Proof.
  intros s s'. destruct (server_invariant (fun _ => true) (fun _ => []) s s' eq_refl) as [H _].
  destruct H as (H1 & H2 & _); [apply rtc_once; constructor|]. by split.
Defined.

Lemma client_event_isolated_witness :
  let s := demo_server demo_two [] in
  let s' := on_client_event (fun _ => true) (fun _ => []) 6 Event.HangUp s in
  conns_ s' !! 6 = None /\ conns_ s' !! 7 = Some (demo_conn 7) /\ SysClose 6 ∈ trace (sv_world s').
Proof.
  intros s s'. destruct (client_event_isolated (fun _ => true) (fun _ => []) 6 Event.HangUp s (demo_two_ok [])) as (cs & Hr & Ho & Hc).
  fold s' in Hr, Ho, Hc. assert (E : conns_ s' !! 6 = None) by (vm_compute; reflexivity). split; [exact E|]. split.
  - rewrite Ho by discriminate. vm_compute. reflexivity.
  - rewrite E in Hc. destruct Hr as [-> _]. apply elem_of_app. right. exact Hc.
Defined.

(** A socket is accepted and stored, a second one cannot be added to the loop
    and is closed. *)
Definition demo_accepts : list SysResult :=
  [mkSys 8 0 0 (str "10.0.0.9"); mkSys 0 0 0 []; mkSys 0 0 0 []; mkSys 0 0 9 []; mkSys 0 0 0 [];
   mkSys 9 0 0 []; mkSys 0 0 0 []; mkSys 0 0 0 []; mkSys 0 0 9 []; mkSys (-1) EIO 0 []; mkSys 0 0 0 []; mkSys (-1) EAGAIN 0 []].

Example demo_accept :
  let s' := on_accept (fun _ => []) 4 false (demo_server demo_two demo_accepts) in
  remote_addr <$> conns_ s' !! 8 = Some (str "10.0.0.9") /\ conns_ s' !! 9 = None /\
  List.filter (fun c => match c with SysClose _ => true | _ => false end) (trace (sv_world s')) = [SysClose 9].
Proof. vm_compute. split_and!; reflexivity. Qed.

Lemma accept_stores_or_closes_witness :
  let s := demo_server demo_two demo_accepts in
  let s' := on_accept (fun _ => []) 4 false s in
  conns_ s' !! 7 = Some (demo_conn 7) /\ server_ok s' /\
  exists cs, ran (sv_world s) (sv_world s') cs /\
    forall fd, fd ∈ accepted_fds cs demo_accepts -> is_Some (conns_ s' !! fd) \/ SysClose fd ∈ cs.
Proof.
  intros s s'. destruct (accept_stores_or_closes (fun _ => []) 4 false s) as (H1 & H2 & H3 & _).
  split; [apply H1; vm_compute; reflexivity|]. split; [exact (H2 (demo_two_ok demo_accepts))|exact H3].
Defined.

Definition demo_stop : list SysResult := [mkSys 0 0 0 []; mkSysEvents 1 0 0 [] [(6, 0, 16)]; mkSys 0 0 0 []; mkSys 0 0 0 []; mkSys 1 0 0 []].

(** Two turns: a hang-up, then the flag; the first client was closed in the
    loop. *)
Lemma serve_loop_exact_witness :
  let s := demo_server demo_two demo_stop in
  exists s', serving (fun _ => true) (fun _ => []) s (Ok tt) s' /\ conns_ s' !! 6 = None /\
    exists cs a, ran (sv_world s) (sv_world s') (cs ++ [LoadShutdown]) /\ demo_stop !! length cs = Some a /\ 0 < sr_ret a.
Proof.
  intros s. destruct (serve_loop_exact (fun _ => true) (fun _ => []) 100 s (demo_two_ok demo_stop) ltac:(vm_compute; lia)) as [H1 H2].
  destruct (serve_loop (fun _ => true) (fun _ => []) 100 s) as [r s'] eqn:E. exists s'.
  assert (Hr : r = Ok tt) by (change r with (fst (r, s')); rewrite <- E; vm_compute; reflexivity). subst r.
  split; [apply H1; reflexivity|]. split; [|exact (H2 s' eq_refl)].
  change s' with (snd (Ok tt : Result unit, s')). rewrite <- E. vm_compute. reflexivity.
Defined.

(** Without a stop the loop does not end well: the answers run out. *)
Example demo_no_stop :
  is_err (serve_loop (fun _ => true) (fun _ => []) 100 (demo_server demo_two [mkSys 0 0 0 []; mkSys 0 0 0 []])).1 = true.
Proof. vm_compute. reflexivity. Qed.

(** A whole run: the listener, the timer, one client that is accepted, then
    the flag. *)
Definition demo_run : list SysResult :=
  [mkSys 4 0 0 []; mkSys 0 0 0 []; mkSys 0 0 0 []; mkSys 0 0 0 []; mkSys 0 0 0 []; mkSys 0 0 0 []; mkSys 0 0 0 []; mkSys 0 0 0 [];
   mkSys 5 0 0 []; mkSys 0 0 0 []; mkSys 0 0 0 [];
   mkSys 0 0 0 []; mkSysEvents 1 0 0 [] [(4, 0, 1)];
   mkSys 6 0 0 []; mkSys 0 0 0 []; mkSys 0 0 0 []; mkSys 0 0 9 []; mkSys 0 0 0 []; mkSys (-1) EAGAIN 0 [];
   mkSys 1 0 0 []].

Lemma run_closes_clients_witness :
  let s := ProxyServer_make (B := bytes) (T := Fallback.TLSConn) (Ctx := Fallback.TLSContextImpl)
             demo_config (Epoll.mkEpollLoop (mkUniquefd 3) ∅ ∅ 1) None (mkWorld [] demo_run) in
  exists s', run (fun _ => true) (fun _ => []) s = (Ok tt, s') /\ conns_ s' = ∅ /\
    trace (sv_world s') !! 13%nat = Some (SysAccept 4) /\
    exists j, (13 < j)%nat /\ trace (sv_world s') !! j = Some (SysClose 6).
Proof.
  intros s. destruct (run (fun _ => true) (fun _ => []) s) as [r s'] eqn:E. exists s'.
  assert (Hr : r = Ok tt) by (change r with (fst (r, s')); rewrite <- E; vm_compute; reflexivity). subst r.
  assert (Ha : trace (sv_world s') !! 13%nat = Some (SysAccept 4))
    by (change s' with (snd (Ok tt : Result unit, s')); rewrite <- E; vm_compute; reflexivity).
  split; [reflexivity|]. destruct (run_closes_clients (fun _ => true) (fun _ => []) s s' eq_refl E) as (H1 & b & c & a & [Ht _] & _ & _ & _ & H2).
  split; [exact H1|]. split; [exact Ha|]. change (trace (sv_world s)) with (@nil Syscall) in Ht. cbn [app] in Ht.
  rewrite Ht in Ha |- *. apply (H2 13%nat 4 (mkSys 6 0 0 []) Ha); [reflexivity|cbn; lia].
Defined.
