(* ===== verification/RequestProofs.v ===== *)
(** * From a request to its answer

    What the server does with the bytes of an HTTP/1.1 client, with a
    complete request and with an HTTP/2 request it turns into HTTP/1.1. *)

From stdpp Require Import prelude gmap.
From S2P Require Import Prelude Result CxxString Buffer BufferProofs Config ConfigLoad LoadBalancer World Fd UpstreamPool Http1 Http1Proofs Hpack Http2 Forward EventLoop LoopEpoll Tls TlsFallback Log Client Server ForwardProofs ClientProofs.

(** Sizes of an accepted request. *)
Lemma complete_sizes {B} `{BufferSpec B} (buf : B) r0 req :
  buf_ok buf -> parse_request buf r0 = (Complete, req) ->
  0 <= req_header_bytes req <= len (contents buf) /\ 0 <= req_content_length req.
Proof.
  intros Hok E. apply parse_request_headers in E; [|done]. rewrite parse_window_take in E by done.
  destruct (parse_request_ok _ _ _ E) as (Hr & t & Ht & Hl & _ & H4).
  apply request_ok_forwardable in Hr as [_ _ _ _ Hc]. apply (f_equal length) in Ht.
  rewrite length_app, length_take in Ht. unfold len in *. lia.
Qed.

Section Requests.
Context {B T Ctx L : Type} `{BufferSpec B} `{TlsOps T} `{TlsContext Ctx T} `{EventLoop TimerCB L}.
Context (inet_pton : bytes -> bool) (strerror : Z -> bytes).
Abbreviation Client := (ClientConn B T).
Abbreviation Server := (ProxyServer B T Ctx L).

(** What a client gets for a complete request: the upstream's response, or
    an error of the proxy's own; and whether it came from upstream. *)
Definition answer (req : HttpRequest) (body : bytes) (s : Server) : bytes * bool :=
  match next (lb_ s) with
  | (None, _) => (unavailable, false)
  | (Some i, lb) =>
      match (server_forward inet_pton req body i (set_lb lb s)).1 with
      | Ok response => (response, true)
      | Err _ => (bad_gateway, false)
      end
  end.

Lemma queue_output_spec d (c : Client) :
  buf_ok (wbuf c) -> len (contents (wbuf c)) + len d <= BUF_LIMIT ->
  contents (wbuf (queue_output d c)) = contents (wbuf c) ++ d.
Proof. intros Hb Hl. unfold queue_output. by destruct (append_app (wbuf c) d Hb Hl) as (b & -> & _ & Hc). Qed.

Lemma serve_request_spec req body (c : Client) (s : Server) c' s' :
  serve_request inet_pton strerror req body c s = (c', s') ->
  buf_ok (wbuf c) -> len (contents (wbuf c)) + len (answer req body s).1 <= BUF_LIMIT ->
  rbuf c' = rbuf c /\ contents (wbuf c') = contents (wbuf c) ++ (answer req body s).1 /\
  keep_alive c' = keep_alive c && (answer req body s).2 /\ req_count c' = req_count c.
Proof.
  unfold serve_request, answer. intros E Hb. destruct (next (lb_ s)) as [[i|] lb].
  - destruct (server_forward _ _ _ _ _) as [[resp|e] s1]; cbn [fst snd]; intros Hl; simplify_eq;
      (split_and!; [done| |cbn; by rewrite ?andb_true_r, ?andb_false_r|done]);
      by apply (queue_output_spec _ (set_upstream i c)).
  - cbn [fst snd]. intros Hl. simplify_eq. split_and!; [done|by apply queue_output_spec|cbn; by rewrite andb_false_r|done].
Qed.

Lemma loop_do_conns {A} (m : M (World * L) A) (s : Server) : conns_ (loop_do m s) = conns_ s.
Proof. unfold loop_do, on_loop. by destruct (m _) as [r [w l]]. Qed.

(** The connections have no part in the answer. *)
Lemma answer_put req body fd (c : Client) (s : Server) : answer req body (put_conn fd c s) = answer req body s.
Proof.
  unfold answer. cbn [put_conn set_conns lb_]. destruct (next (lb_ s)) as [[i|] lb]; [|done].
  unfold server_forward. cbn [sv_world lb_ sv_pools set_lb set_conns]. by destruct (forward_http1 _ _ _ _ _).
Qed.

(** A request that is there with its body. *)
Lemma h1_input_complete (fd : Z) (c : Client) (s : Server) (req : HttpRequest) :
  buf_ok (rbuf c) -> buf_ok (wbuf c) -> parse_request (rbuf c) HttpRequest_default = (Complete, req) ->
  let input := contents (rbuf c) in
  let head := Z.to_nat (req_header_bytes req) in
  let body := take (Z.to_nat (req_content_length req)) (drop head input) in
  req_chunked req = false -> req_header_bytes req + req_content_length req <= len input ->
  len (contents (wbuf c)) + len (answer req body s).1 <= BUF_LIMIT ->
  exists s', on_h1_input inet_pton strerror fd c s = GoOn s' /\
    exists c', conns_ s' !! fd = Some c' /\ contents (wbuf c') = contents (wbuf c) ++ (answer req body s).1 /\
      contents (rbuf c') = drop (head + Z.to_nat (req_content_length req)) input /\
      keep_alive c' = req_keep_alive req && (answer req body s).2 /\ req_count c' = i32 (req_count c + 1).
Proof.
  intros Hr Hw E input head body Ech Hs Hl. destruct (complete_sizes _ _ _ Hr E) as [Hh Hcl]. fold input in Hh.
  unfold on_h1_input. rewrite E, Ech, readable_len by done. fold input.
  assert (Hbb : (if req_header_bytes req <? len input then len input - req_header_bytes req else 0) = len input - req_header_bytes req)
    by (destruct (Z.ltb_spec (req_header_bytes req) (len input)); lia).
  rewrite Hbb. destruct (Z.ltb_spec (len input - req_header_bytes req) (req_content_length req)); [lia|]. cbv zeta.
  set (b1 := buf_commit_read (rbuf c) (req_header_bytes req)).
  assert (Hb1 : buf_ok b1) by (apply commit_read_ok; [done|lia]).
  assert (Hc1 : contents b1 = drop head input) by (apply commit_read_drop; [done|lia]).
  cbn [set_rbuf rbuf]. rewrite peek_take, Hc1 by (done || lia). fold body.
  set (c1 := set_keep_alive (req_keep_alive req) _). destruct (serve_request _ _ _ _ c1 s) as [c2 s2] eqn:Es.
  apply serve_request_spec in Es as (P1 & P2 & P3 & P4); [|done|done].
  eexists. split; [reflexivity|]. eexists. rewrite loop_do_conns. split; [apply lookup_insert_eq|]. split_and!.
  - exact P2.
  - cbn. rewrite P1. unfold c1. cbn. rewrite commit_read_drop, Hc1, drop_drop by (done || lia). done.
  - exact P3.
  - cbn. by rewrite P4.
Qed.

(** (C15) What happens to a complete HTTP/1.1 request.  A chunked one is
    refused with 501, its header block is consumed and the connection will be
    closed.  One whose body has not arrived yet changes nothing.  Otherwise
    exactly the header block and the body are taken from the input, whatever
    follows stays there, the body handed to the upstream is the announced
    number of bytes after the block, exactly one answer is appended to the
    output, and the connection is kept alive only when the request asks for
    it and the answer came from an upstream.  Nothing is answered twice: the
    count of requests goes up by one. *)
Theorem h1_request_answered (fd : Z) (c : Client) (s : Server) (req : HttpRequest) :
  buf_ok (rbuf c) -> buf_ok (wbuf c) -> parse_request (rbuf c) HttpRequest_default = (Complete, req) ->
  let input := contents (rbuf c) in
  let head := Z.to_nat (req_header_bytes req) in
  let body := take (Z.to_nat (req_content_length req)) (drop head input) in
  let answered (s' : Server) out rest alive n :=
    exists c', conns_ s' !! fd = Some c' /\ contents (wbuf c') = contents (wbuf c) ++ out /\
      contents (rbuf c') = rest /\ keep_alive c' = alive /\ req_count c' = n in
  if req_chunked req then
    len (contents (wbuf c)) + len unsupported <= BUF_LIMIT ->
    exists s', on_h1_input inet_pton strerror fd c s = Return s' /\
      answered s' unsupported (drop head input) false (req_count c)
  else if len input <? req_header_bytes req + req_content_length req then
    on_h1_input inet_pton strerror fd c s = Return s
  else
    len (contents (wbuf c)) + len (answer req body s).1 <= BUF_LIMIT ->
    exists s', on_h1_input inet_pton strerror fd c s = GoOn s' /\
      answered s' (answer req body s).1 (drop (head + Z.to_nat (req_content_length req)) input)
        (req_keep_alive req && (answer req body s).2) (i32 (req_count c + 1)).
Proof.
  intros Hr Hw E input head body answered. destruct (complete_sizes _ _ _ Hr E) as [Hh Hcl]. fold input in Hh.
  destruct (req_chunked req) eqn:Ech.
  - intros Hl. unfold on_h1_input. rewrite E, Ech. eexists. split; [reflexivity|]. eexists. rewrite loop_do_conns.
    split; [apply lookup_insert_eq|].
    split_and!; [|cbn; by rewrite commit_read_drop by (done || lia)|done|done]. by apply (queue_output_spec unsupported c).
  - destruct (Z.ltb_spec (len input) (req_header_bytes req + req_content_length req)) as [Hs|Hs].
    + unfold on_h1_input. rewrite E, Ech, readable_len by done. fold input.
      destruct (Z.ltb_spec (req_header_bytes req) (len input)); (match goal with |- context [?x <? req_content_length req] => destruct (Z.ltb_spec x (req_content_length req)) end; [done|lia]).
    + intros Hl. by apply h1_input_complete.
Qed.

(** ** A request that arrives in pieces *)

(** The system delivers the pieces and then has no more for now. *)
Definition arrivals (ds : list bytes) : list SysResult := map (mkSys 0 0 0) ds ++ [mkSys (-1) EAGAIN 0 []].

Definition receipts (fd : Z) (ds : list bytes) : list Syscall := replicate (S (length ds)) (SysRecv fd CLIENT_RECV).

Lemma recv_arrivals fd more : forall ds fuel (c : Client) tr,
  tls_conn c = None -> buf_ok (rbuf c) -> Forall (fun d => d <> [] /\ len d <= CLIENT_RECV) ds ->
  len (contents (rbuf c)) + len (concat ds) <= BUF_LIMIT -> (length ds <= fuel)%nat ->
  exists b, recv_loop fuel fd (c, mkWorld tr (arrivals ds ++ more)) =
    (Ok false, (set_rbuf b c, mkWorld (tr ++ receipts fd ds) more)) /\
    buf_ok b /\ contents b = contents (rbuf c) ++ concat ds.
Proof.
  induction ds as [|d ds IH]; intros fuel c tr Ht Hb Hds Hl Hf; rewrite recv_loop_eq.
  - exists (rbuf c). unfold sys_recv, sys. cbn. rewrite app_nil_r. by destruct c.
  - apply Forall_cons in Hds as [[Hd0 Hd] Hds]. cbn [concat] in Hl. rewrite len_app in Hl.
    pose proof (len_nonneg (concat ds)). destruct fuel as [|fuel]; [cbn in Hf; lia|].
    unfold sys_recv, sys. cbn [script trace arrivals map app sr_data sr_ret sr_errno mkSys].
    rewrite take_ge by (unfold len in Hd; lia). assert (Hpos : 0 < len d) by (destruct d; [done|rewrite len_cons; pose proof (len_nonneg d); lia]).
    destruct (Z.eqb_spec (len d) 0); [lia|]. destruct (Z.ltb_spec 0 (len d)); [|lia].
    unfold take_input, append_client_plaintext. rewrite Ht.
    destruct (append_app (rbuf c) d Hb ltac:(lia)) as (b & -> & Hbo & Hbc). cbv zeta.
    destruct (IH fuel (set_rbuf b c) (tr ++ [SysRecv fd CLIENT_RECV])) as (b' & E & Hb' & Hc');
      [done|done|done|cbn; rewrite Hbc, len_app; lia|cbn in Hf; lia|].
    exists b'. split_and!; [|done|cbn in Hc'; by rewrite Hc', Hbc, <- app_assoc]. unfold arrivals in E. cbn [app] in E. rewrite E.
    unfold receipts. cbn [length]. rewrite <- app_assoc. done.
Qed.

(** What one readable event reads. *)
Lemma event_reads (fd : Z) (c : Client) (s : Server) (ds : list bytes) (more : list SysResult) :
  conns_ s !! fd = Some c -> cc_state c = ReadRequest -> cc_proto c = ProtoHTTP1 -> tls_conn c = None -> buf_ok (rbuf c) ->
  script (sv_world s) = arrivals ds ++ more -> Forall (fun d => d <> [] /\ len d <= CLIENT_RECV) ds ->
  len (contents (rbuf c)) + len (concat ds) <= BUF_LIMIT ->
  let w := mkWorld (trace (sv_world s) ++ receipts fd ds) more in
  exists b, buf_ok b /\ contents b = contents (rbuf c) ++ concat ds /\
    let s1 := put_conn fd (set_rbuf b c) (set_sv_world w s) in
    on_client_event inet_pton strerror fd Event.Read s =
      match on_h1_input inet_pton strerror fd (set_rbuf b c) s1 with Return s' => s' | GoOn s' => s' end.
Proof.
  intros E Hst Hpr Ht Hrb Hsc Hds Hlen w.
  destruct (recv_arrivals fd more ds (length (script (sv_world s))) c (trace (sv_world s))) as (b & Er & Hb & Hbc); try done.
  { rewrite Hsc. unfold arrivals. rewrite !length_app, length_map. lia. }
  assert (Hread : on_conn fd c (read_client_input fd) s = (Ok false, set_rbuf b c, put_conn fd (set_rbuf b c) (set_sv_world w s))).
  { unfold on_conn, read_client_input. rewrite <- Hsc in Er. destruct (sv_world s) as [tr sc]. cbn [trace script] in *. rewrite Er.
    cbn [tls_conn set_rbuf]. by rewrite Ht. }
  exists b. split_and!; [done|done|]. cbv zeta.
  unfold on_client_event. rewrite E. rewrite bool_decide_eq_false_2 by congruence.
  change (has Event.Read Event.HangUp || has Event.Read Event.Error) with false. cbv iota.
  change (has Event.Read Event.Read) with true. cbv iota. unfold on_readable. rewrite Hread.
  rewrite bool_decide_eq_false_2 by (cbn; congruence).
  destruct (on_h1_input _ _ _ _ _); [done|]. by change (has Event.Read Event.Write) with false.
Qed.

(** The verdict depends on the bytes only. *)
Lemma parse_request_contents (b : B) : buf_ok b ->
  parse_request b HttpRequest_default = parse_request (contents b : bytes) HttpRequest_default.
Proof.
  intros Hb. assert (Hli : buf_ok (contents b : bytes)) by done. unfold parse_request.
  by rewrite (parse_window_take b Hb), (parse_window_take _ Hli), list_contents.
Qed.

(** Where the input may be cut between two events: before the end of the
    first line, or after the header block; and before the end of the body. *)
Definition cut_ok (input : bytes) (req : HttpRequest) (n : nat) : Prop :=
  ((LF ∉ take n input) \/ req_header_bytes req <= Z.of_nat n) /\
  Z.of_nat n < req_header_bytes req + req_content_length req.

(** At such a place the server waits for more. *)
Lemma h1_input_waits fd (c : Client) (s : Server) input req n :
  parse_request (input : bytes) HttpRequest_default = (Complete, req) -> req_chunked req = false -> cut_ok input req n ->
  req_header_bytes req + req_content_length req <= len input ->
  buf_ok (rbuf c) -> contents (rbuf c) = take n input ->
  match on_h1_input inet_pton strerror fd c s with Return s' => s' | GoOn s' => s' end = s.
Proof.
  intros E Hch [Hlf Hn] Hlen Hb Hc. assert (Hli : buf_ok (input : bytes)) by done.
  destruct (complete_sizes _ _ _ Hli E) as [[Hh0 Hh] Hcl]. rewrite list_contents in Hh.
  apply parse_request_headers in E; [|done]. rewrite parse_window_take, list_contents in E by done.
  destruct (parse_request_ok _ _ _ E) as (Hok & _). destruct Hok as [_ _ _ _ Hsz _ _ _ _]. set (W := Z.to_nat (HTTP1_MAX_HEADER_BYTES + 1)) in *.
  unfold on_h1_input, parse_request. rewrite parse_window_take, Hc by done. fold W.
  destruct (Z.ltb_spec (Z.of_nat n) (req_header_bytes req)) as [Hshort|Hlong].
  - assert (Hw : take W (take n input) = take n (take W input)) by (rewrite !take_take; f_equal; lia).
    rewrite Hw, (parse_prefix _ _ _ _ E Hshort). destruct Hlf as [Hlf|]; [|lia].
    rewrite bool_decide_eq_false_2; [done|]. rewrite <- Hw. intros Hin. apply Hlf.
    rewrite <- (take_drop W (take n input)). apply elem_of_app. by left.
  - rewrite (parse_same_block (take W input) (take W (take n input)) _ req E).
    2: { rewrite !take_take. f_equal. unfold W. lia. }
    rewrite Hch, readable_len, Hc by done.
    assert (Hln : len (take n input) = Z.of_nat n) by (unfold len in *; rewrite length_take; lia). rewrite Hln.
    assert (Hbb : (if req_header_bytes req <? Z.of_nat n then Z.of_nat n - req_header_bytes req else 0) = Z.of_nat n - req_header_bytes req)
      by (destruct (Z.ltb_spec (req_header_bytes req) (Z.of_nat n)); lia).
    rewrite Hbb. destruct (Z.ltb_spec (Z.of_nat n - req_header_bytes req) (req_content_length req)); [done|lia].
Qed.

(** The last event, which completes the request. *)
Lemma last_event (fd : Z) (c : Client) (s : Server) (ds : list bytes) (more : list SysResult) (req : HttpRequest) :
  conns_ s !! fd = Some c -> cc_state c = ReadRequest -> cc_proto c = ProtoHTTP1 -> tls_conn c = None ->
  buf_ok (rbuf c) -> buf_ok (wbuf c) ->
  script (sv_world s) = arrivals ds ++ more -> Forall (fun d => d <> [] /\ len d <= CLIENT_RECV) ds ->
  let input := contents (rbuf c) ++ concat ds in
  let w := mkWorld (trace (sv_world s) ++ receipts fd ds) more in
  parse_request (input : bytes) HttpRequest_default = (Complete, req) -> req_chunked req = false ->
  req_header_bytes req + req_content_length req <= len input <= BUF_LIMIT ->
  let body := take (Z.to_nat (req_content_length req)) (drop (Z.to_nat (req_header_bytes req)) input) in
  let out := answer req body (set_sv_world w s) in
  len (contents (wbuf c)) + len out.1 <= BUF_LIMIT ->
  exists c', conns_ (on_client_event inet_pton strerror fd Event.Read s) !! fd = Some c' /\
    contents (wbuf c') = contents (wbuf c) ++ out.1 /\
    contents (rbuf c') = drop (Z.to_nat (req_header_bytes req) + Z.to_nat (req_content_length req)) input /\
    keep_alive c' = req_keep_alive req && out.2 /\ req_count c' = i32 (req_count c + 1).
Proof.
  intros E Hst Hpr Ht Hrb Hwb Hsc Hds input w Ep Hch Hlen body out Hl.
  destruct (event_reads fd c s ds more) as (b & Hb & Hbc & ->); try done.
  { unfold input in Hlen. rewrite len_app in Hlen. lia. }
  fold w. fold input in Hbc. rewrite <- Hbc, <- (parse_request_contents b Hb) in Ep.
  pose proof (h1_input_complete fd (set_rbuf b c) (put_conn fd (set_rbuf b c) (set_sv_world w s)) req Hb Hwb Ep) as P.
  cbn [rbuf wbuf set_rbuf] in P. rewrite Hbc, answer_put in P.
  destruct (P Hch (proj1 Hlen) Hl) as (s' & -> & c' & H1' & H2' & H3' & H4' & H5'). by exists c'.
Qed.

(** One readable event for each batch of pieces. *)
Definition readable_events (fd : Z) (batches : list (list bytes)) (s : Server) : Server :=
  foldl (fun s _ => on_client_event inet_pton strerror fd Event.Read s) s batches.

(** (C1) A request is answered when it is complete, over however many events
    it arrives.  A connection without TLS, past the handshake and speaking
    HTTP/1.1, gets one readable event for each of the [batches]; in each, the
    system delivers the pieces of the batch, in any sizes up to what one
    receive takes, and then has no more for now.  What was in the input before
    and all the pieces together are a complete request of an announced length,
    not a chunked one, with its body and perhaps more bytes behind it.  The
    request may be cut between two events anywhere before the end of its first
    line and anywhere in its body (a cut in the rest of the header block is
    refused by the parser, as [parse_in_pieces] shows); within one event it may
    be cut anywhere.  Then after the last event exactly one answer has been
    appended to the output: the response of the upstream that the balancer
    chooses, or the proxy's own error.  Up to the exchange with the upstream
    only the receives were made; the request is counted once; what follows the
    request in the input is left there; and the connection is kept alive
    exactly when the request asks for it and the answer came from upstream. *)
Theorem request_event_answered (fd : Z) (c : Client) (s : Server) (batches : list (list bytes)) (more : list SysResult) (req : HttpRequest) :
  conns_ s !! fd = Some c -> cc_state c = ReadRequest -> cc_proto c = ProtoHTTP1 -> tls_conn c = None ->
  buf_ok (rbuf c) -> buf_ok (wbuf c) -> batches <> [] ->
  script (sv_world s) = concat (map arrivals batches) ++ more ->
  Forall (Forall (fun d => d <> [] /\ len d <= CLIENT_RECV)) batches ->
  let input := contents (rbuf c) ++ concat (concat batches) in
  let w := mkWorld (trace (sv_world s) ++ concat (map (receipts fd) batches)) more in
  parse_request (input : bytes) HttpRequest_default = (Complete, req) -> req_chunked req = false ->
  req_header_bytes req + req_content_length req <= len input <= BUF_LIMIT ->
  (forall k, (0 < k < length batches)%nat ->
     cut_ok input req (length (contents (rbuf c) ++ concat (concat (take k batches))))) ->
  let body := take (Z.to_nat (req_content_length req)) (drop (Z.to_nat (req_header_bytes req)) input) in
  let out := answer req body (set_sv_world w s) in
  len (contents (wbuf c)) + len out.1 <= BUF_LIMIT ->
  exists c', conns_ (readable_events fd batches s) !! fd = Some c' /\
    contents (wbuf c') = contents (wbuf c) ++ out.1 /\
    contents (rbuf c') = drop (Z.to_nat (req_header_bytes req) + Z.to_nat (req_content_length req)) input /\
    keep_alive c' = req_keep_alive req && out.2 /\ req_count c' = i32 (req_count c + 1).
Proof.
  intros E Hst Hpr Ht Hrb Hwb Hne. revert c s E Hst Hpr Ht Hrb Hwb.
  induction batches as [|ds batches IH]; intros c s E Hst Hpr Ht Hrb Hwb Hsc Hds input w Ep Hch Hlen Hcut body out Hl; [done|].
  apply Forall_cons in Hds as [Hd Hds]. cbn [map concat] in Hsc. rewrite <- app_assoc in Hsc.
  destruct batches as [|ds2 batches].
  { clear IH Hds Hcut. pose proof (last_event fd c s ds more req E Hst Hpr Ht Hrb Hwb Hsc Hd) as P. cbv zeta in P.
    assert (Hi : input = contents (rbuf c) ++ concat ds) by (unfold input; cbn [concat]; by rewrite app_nil_r).
    assert (Hw : w = mkWorld (trace (sv_world s) ++ receipts fd ds) more) by (unfold w; cbn [map concat]; by rewrite app_nil_r).
    rewrite <- Hi, <- Hw in P. fold body in P. fold out in P. by apply P. }
  set (rest := ds2 :: batches) in *.
  assert (Hin : input = (contents (rbuf c) ++ concat ds) ++ concat (concat rest))
    by (unfold input; cbn [concat]; by rewrite concat_app, app_assoc).
  destruct (event_reads fd c s ds (concat (map arrivals rest) ++ more)) as (b & Hb & Hbc & He); try done.
  { rewrite Hin, !len_app in Hlen. pose proof (len_nonneg (concat (concat rest))). lia. }
  set (w1 := mkWorld _ _) in He. set (s1 := put_conn fd (set_rbuf b c) (set_sv_world w1 s)) in He.
  assert (Hw1 : on_client_event inet_pton strerror fd Event.Read s = s1).
  { rewrite He. apply (h1_input_waits fd (set_rbuf b c) s1 input req (length (contents (rbuf c) ++ concat ds))); try done; [|lia|].
    - specialize (Hcut 1%nat ltac:(cbn; lia)). cbn [take concat app] in Hcut. by rewrite app_nil_r in Hcut.
    - cbn [rbuf set_rbuf]. rewrite Hbc, Hin. by rewrite take_app_length. }
  unfold readable_events. cbn [foldl]. rewrite Hw1. fold (readable_events fd rest s1).
  assert (Hout : answer req body (set_sv_world (mkWorld (trace (sv_world s1) ++ concat (map (receipts fd) rest)) more) s1) = out).
  { unfold out, w. cbn [map concat]. rewrite app_assoc.
    exact (answer_put req body fd (set_rbuf b c) (set_sv_world (mkWorld _ more) s)). }
  assert (Hin1 : contents (rbuf (set_rbuf b c)) ++ concat (concat rest) = input) by (cbn [rbuf set_rbuf]; by rewrite Hbc, Hin).
  specialize (IH ltac:(done) (set_rbuf b c) s1). cbv zeta in IH. rewrite Hin1 in IH. fold body in IH. rewrite Hout in IH.
  apply IH; try done; [apply lookup_insert_eq|].
  intros k Hk. specialize (Hcut (S k) ltac:(cbn in *; lia)). cbn [take concat rbuf set_rbuf] in *.
  by rewrite Hbc, <- app_assoc, <- concat_app.
Qed.
End Requests.

(** ** HTTP/2 requests sent on as HTTP/1.1 *)

Definition hp (n v : bytes) : HpackHeader := mkHpack n v false.

(** The header list of a request: pseudo-headers first, as clients send them. *)
Definition h2_headers_of (method scheme authority path : bytes) (hs : list HttpHeader) : list HpackHeader :=
  hp (str ":method") method :: hp (str ":scheme") scheme :: hp (str ":authority") authority :: hp (str ":path") path
  :: map (fun h => hp (h_name h) (h_value h)) hs.

Lemma token_not_colon c : is_token_char c = true -> Byte.eqb c Byte.x3a = false.
Proof.
  intros Hc. apply not_true_iff_false. intros E. apply byte_eqb_eq in E as ->. by vm_compute in Hc.
Qed.

(** A header that is not a pseudo-header is added to the list. *)
Lemma h2_header_regular r h :
  header_ok h -> h2_header r (hp (h_name h) (h_value h)) = mkH2Request (h2_method r) (h2_path r) (h2_authority r) (h2_headers r ++ [h]).
Proof.
  intros Hok. unfold h2_header. cbn [hp_name hp_value hp]. destruct Hok as [Hne _ Hn _ _ _ _].
  destruct h as [[|c n] v]; cbn [h_name h_value] in *; [done|]. cbn [forallb] in Hn. zbool.
  pose proof (token_not_colon c H) as Hc.
  assert (Hc' : c <> Byte.x3a) by (intros ->; done).
  rewrite !bool_decide_eq_false_2 by (intros E; by injection E). by rewrite Hc.
Qed.

Lemma h2_headers_regular hs : Forall header_ok hs -> forall r,
  foldl h2_header r (map (fun h => hp (h_name h) (h_value h)) hs) =
  mkH2Request (h2_method r) (h2_path r) (h2_authority r) (h2_headers r ++ hs).
Proof.
  induction 1 as [|h hs Hh _ IH]; intros r; cbn [map foldl]; [rewrite app_nil_r; by destruct r|].
  rewrite h2_header_regular by done. rewrite IH. cbn. by rewrite <- app_assoc.
Qed.

Lemma h2_to_h1_of method scheme authority path hs body :
  Forall header_ok hs ->
  h2_to_h1 (h2_headers_of method scheme authority path hs) body =
  mkRequest method path (str "HTTP/1.1") hs true (len body) false 0.
Proof.
  intros Hh. unfold h2_to_h1, h2_headers_of. cbn [foldl]. rewrite h2_headers_regular by done. done.
Qed.

(** (C18) A well-formed HTTP/2 request reaches the upstream as it is.  When
    the method is a token, the path has no space or line feed, the headers
    are well formed and any declared length is that of the body, then the
    HTTP/1.1 text that is sent, followed by the body, is read by the next hop
    as one request with that method, path and body length, and with the
    client's headers that are not hop-by-hop; exactly the body is left after
    its header block. *)
Theorem h2_request_forwarded (method scheme authority path body host : bytes) (hs : list HttpHeader) (q0 : HttpRequest) :
  request_line_ok method path (str "HTTP/1.1") -> LF ∉ path -> Forall header_ok hs ->
  (forall h, h ∈ hs -> is_content_length h -> cl_value h = Some (len body)) -> len body <= UINT64_MAX ->
  header_ok (host_header host) ->
  let req := h2_to_h1 (h2_headers_of method scheme authority path hs) body in
  exists text, request_text req host = Ok text /\
    (len (forwarded_headers req host) <= HTTP1_MAX_HEADER_COUNT -> len text <= HTTP1_MAX_HEADER_BYTES ->
     exists r, parse_headers (text ++ body) (MReq q0) = (Complete, MReq r) /\
       req_method r = method /\ req_target r = path /\ req_content_length r = len body /\ req_chunked r = false /\
       req_headers r = forwarded_headers req host /\ drop (Z.to_nat (req_header_bytes r)) (text ++ body) = body).
Proof.
  intros Hl Hp Hh Hcl Hb Hhost req. unfold req. rewrite h2_to_h1_of by done.
  set (q := mkRequest _ _ _ _ _ _ _ _). assert (Hf : forwardable q) by (split; cbn; [done..|pose proof (len_nonneg body); lia]).
  eexists. split; [apply request_text_lines, (Forall_impl _ _ _ Hh); intros h Hok; apply Hok|]. intros Hc Ht.
  eexists. split; [by apply read_back|]. split_and!; try done. cbn. unfold len. by rewrite Nat2Z.id, drop_app_length.
Qed.

(** The request line a path with a line break in it makes. *)
Definition cut_path (smuggled : bytes) : bytes := str "/ HTTP/1.1" ++ CRLF ++ str "Host: a" ++ CRLF ++ CRLF ++ smuggled.

Definition first_text : bytes := text_lines [str "GET / HTTP/1.1"; str "Host: a"].

(** (C19) What an HTTP/2 client can make the upstream see.  Paths are put into
    the request line without a check: with a blank line in the path, the
    upstream reads a complete request that ends there, and the client's own
    bytes follow as the next request on the shared connection.  A declared
    length is passed on without comparing it to the body: with a length of
    zero the upstream reads a complete request without a body, and all of the
    body is read as the next request. *)
Theorem h2_request_smuggled (smuggled body scheme authority host : bytes) (q0 : HttpRequest) :
  header_ok (host_header host) ->
  (exists rest, request_text (h2_to_h1 (h2_headers_of (str "GET") scheme authority (cut_path smuggled) []) []) host
                  = Ok (first_text ++ smuggled ++ rest) /\
     exists r, parse_headers (first_text ++ smuggled ++ rest) (MReq q0) = (Complete, MReq r) /\
       req_header_bytes r = len first_text /\ req_content_length r = 0) /\
  (let zero := [mkHeader (str "content-length") (str "0")] in
   exists text, request_text (h2_to_h1 (h2_headers_of (str "POST") scheme authority (str "/") zero) body) host = Ok text /\
     exists r, parse_headers (text ++ body) (MReq q0) = (Complete, MReq r) /\
       req_header_bytes r = len text /\ req_content_length r = 0).
Proof.
  intros Hhost. split.
  - rewrite h2_to_h1_of by constructor.
    exists ([SP] ++ str "HTTP/1.1" ++ CRLF ++ str "Host: " ++ host ++ CRLF ++ via_line ++ CRLF). split.
    + unfold request_text. cbn [write_headers_loop req_headers req_content_length req_method req_target req_version].
      change (0 <? len []) with false. cbn [andb]. f_equal. unfold cut_path. by rewrite <- !app_assoc.
    + rewrite parse_headers_extend by (vm_compute; discriminate). eexists. split; [vm_compute; reflexivity|]. done.
  - intros zero.
    assert (Hz : Forall header_ok zero) by (constructor; [split; vm_compute; congruence|constructor]).
    rewrite h2_to_h1_of by done. set (q' := mkRequest _ _ _ _ _ _ _ _).
    set (q := mkRequest (str "POST") (str "/") (str "HTTP/1.1") zero true 0 false 0).
    assert (Hf : forwardable q).
    { split; cbn; [split|by apply (bool_decide_unpack _); vm_compute|done| |unfold UINT64_MAX; lia].
      - split_and!; vm_compute; congruence.
      - split_and!; [vm_compute; congruence..|]. by apply (bool_decide_unpack _); vm_compute.
      - by left.
      - intros h ->%list_elem_of_singleton _. reflexivity. }
    assert (Hsame : forwarded_headers q' host = forwarded_headers q host).
    { unfold forwarded_headers. cbn [req_headers req_content_length q q']. change (has_length (Http1Proofs.kept dropped_request_header zero)) with true.
      by rewrite andb_false_r. }
    eexists. split; [apply request_text_lines, (Forall_impl _ _ _ Hz); intros h Hok; apply Hok|].
    rewrite Hsame. change (request_line q') with (request_line q). eexists. split; [apply read_back; try done|done].
    destruct Hhost as [_ _ _ Hv _ _ _]. cbn [h_value host_header] in Hv. unfold HTTP1_MAX_HEADER_VALUE in Hv.
    unfold text_lines. change (forwarded_headers q host) with [host_header host; mkHeader (str "content-length") (str "0"); via_header].
    cbn [map concat]. unfold hline. cbn [h_name h_value host_header via_header]. rewrite !len_app.
    change (len CRLF) with 2. unfold HTTP1_MAX_HEADER_BYTES. vm_compute (len (str _)). vm_compute (len (request_line q)). change (len (@nil byte)) with 0. lia.
Qed.

(** ** Witnesses *)

Abbreviation DemoServer := (ProxyServer bytes Fallback.TLSConn Fallback.TLSContextImpl (Epoll.EpollLoop TimerCB)).

(** A client on descriptor 6 that has sent [input]; one upstream or none. *)
Definition demo_h1 (input : bytes) : ClientConn bytes Fallback.TLSConn :=
  set_rbuf input (new_client (Ctx := Fallback.TLSContextImpl) (mkUniquefd 6) false 0 [] None).

Definition demo_one (ups : list UpstreamConfig) (input : bytes) (answers : list SysResult) : DemoServer :=
  put_conn 6 (demo_h1 input)
    (ProxyServer_make (set_upstreams ups ProxyConfig_default) (Epoll.mkEpollLoop (mkUniquefd 3) ∅ ∅ 1) None (mkWorld [] answers)).

(** The request of two body bytes is answered with 503 when there is no
    upstream, and the pipelined bytes after it stay. *)
Lemma h1_request_answered_witness :
  let input := demo_request ++ str "GET " in
  exists s' c', on_h1_input (fun _ => true) (fun _ => []) 6 (demo_h1 input) (demo_one [] input []) = GoOn s' /\
    conns_ s' !! 6 = Some c' /\ contents (wbuf c') = unavailable /\ contents (rbuf c') = str "GET " /\ keep_alive c' = false.
Proof.
  intros input.
  destruct (parse_request (rbuf (demo_h1 input)) HttpRequest_default) as [v req] eqn:E.
  assert (Hv : v = Complete) by (change v with (fst (v, req)); rewrite <- E; vm_compute; reflexivity). subst v.
  assert (Hq : req = mkRequest (str "POST") (str "/f") (str "HTTP/1.1")
    [mkHeader (str "Host") (str "a"); mkHeader (str "Content-Length") (str "2")] true 2 false 48)
    by (change req with (snd (Complete, req)); rewrite <- E; vm_compute; reflexivity). subst req.
  destruct (h1_request_answered (B := bytes) (fun _ => true) (fun _ => []) 6 (demo_h1 input) (demo_one [] input []) _ ltac:(exact I) ltac:(exact I) E
    ltac:(vm_compute; discriminate)) as (s' & H1 & c' & H2 & H3 & H4 & H5 & _).
  exists s', c'. split; [exact H1|]. split; [exact H2|]. split; [rewrite H3; vm_compute; reflexivity|].
  split; [rewrite H4; vm_compute; reflexivity|]. rewrite H5. vm_compute. reflexivity.
Defined.

Definition demo_upstream : UpstreamConfig := mkUpstreamConfig (str "b") (str "127.0.0.1") 3000 1 true HTTP1.
Definition demo_response : bytes := text_lines [str "HTTP/1.1 200 OK"; str "Content-Length: 2"] ++ str "ok".

(** The exchange with the upstream: connect, send, read the response. *)
Definition demo_exchange : list SysResult :=
  [mkSys 7 0 0 []; mkSys 0 0 0 []; mkSys 0 0 0 []; mkSys 0 0 0 []; mkSys 0 0 0 []; mkSys 0 0 1 [];
   mkSys 1000 0 0 []; mkSys 1 0 1 []; mkSys 0 0 0 demo_response; mkSys 0 0 2 []].

(** The request arrives over three events, cut in its first line and in its
    body; the client gets the upstream's bytes. *)
Lemma request_event_answered_witness :
  let batches := [[take 10 demo_request]; [take 20 (drop 10 demo_request); take 19 (drop 30 demo_request)]; [drop 49 demo_request]] in
  let s := demo_one [demo_upstream] [] (concat (map arrivals batches) ++ demo_exchange) in
  exists c', conns_ (readable_events (fun _ => true) (fun _ => []) 6 batches s) !! 6 = Some c' /\
    contents (wbuf c') = demo_response /\ contents (rbuf c') = [] /\ keep_alive c' = true /\ req_count c' = 1.
Proof.
  intros batches s.
  destruct (request_event_answered (B := bytes) (fun _ => true) (fun _ => []) 6 (demo_h1 []) s batches demo_exchange
    (mkRequest (str "POST") (str "/f") (str "HTTP/1.1")
      [mkHeader (str "Host") (str "a"); mkHeader (str "Content-Length") (str "2")] true 2 false 48)
    eq_refl eq_refl eq_refl eq_refl ltac:(exact I) ltac:(exact I) ltac:(discriminate) eq_refl
    ltac:(repeat constructor; vm_compute; discriminate) ltac:(vm_compute; reflexivity) eq_refl
    ltac:(vm_compute; split; discriminate)) as (c' & H1 & H2 & H3 & H4 & H5).
  - intros [|[|[|k]]] Hk; cbn in Hk; try lia.
    + split; [left; apply (bool_decide_unpack _); vm_compute; exact I|vm_compute; reflexivity].
    + split; [right; vm_compute; discriminate|vm_compute; reflexivity].
  - vm_compute. discriminate.
  - exists c'. split; [exact H1|]. split; [rewrite H2; vm_compute; reflexivity|].
    split; [rewrite H3; vm_compute; reflexivity|]. split; [rewrite H4; vm_compute; reflexivity|]. rewrite H5. vm_compute. reflexivity.
Defined.

Lemma h2_request_forwarded_witness :
  let req := h2_to_h1 (h2_headers_of (str "POST") (str "https") (str "a") (str "/f") [mkHeader (str "x") (str "1")]) (str "hi") in
  exists text r, request_text req (str "10.0.0.1:80") = Ok text /\
    parse_headers (text ++ str "hi") (MReq HttpRequest_default) = (Complete, MReq r) /\ req_content_length r = 2.
Proof.
  intros req.
  destruct (h2_request_forwarded (str "POST") (str "https") (str "a") (str "/f") (str "hi") (str "10.0.0.1:80")
    [mkHeader (str "x") (str "1")] HttpRequest_default) as (text & H1 & H2).
  - split; [split; [discriminate|split; [vm_compute; discriminate|vm_compute; reflexivity]]| |left; reflexivity].
    split; [discriminate|split; [vm_compute; discriminate|]]. apply (bool_decide_unpack _). vm_compute. exact I.
  - apply (bool_decide_unpack _). vm_compute. exact I.
  - repeat constructor; vm_compute; congruence.
  - intros h ->%list_elem_of_singleton Hh. vm_compute in Hh. discriminate Hh.
  - vm_compute. discriminate.
  - exact demo_host_ok.
  - assert (Ht : len text <= HTTP1_MAX_HEADER_BYTES).
    { vm_compute in H1. injection H1 as <-. vm_compute. discriminate. }
    destruct (H2 ltac:(vm_compute; discriminate) Ht) as (r & H3 & _ & _ & H4 & _).
    exists text, r. split; [exact H1|]. split; [exact H3|exact H4].
Defined.

Lemma h2_request_smuggled_witness :
  exists rest, request_text (h2_to_h1 (h2_headers_of (str "GET") [] [] (cut_path (str "DELETE /x HTTP/1.1")) []) []) (str "10.0.0.1:80")
    = Ok (first_text ++ str "DELETE /x HTTP/1.1" ++ rest).
Proof.
  destruct (h2_request_smuggled (str "DELETE /x HTTP/1.1") [] [] [] (str "10.0.0.1:80") HttpRequest_default demo_host_ok) as [(rest & H & _) _].
  exists rest. exact H.
Defined.
