(* ===== verification/Main.v ===== *)
(** * The program (src/src/main.cpp)

    From the command line to the exit status.  The result has the status,
    what [main] itself prints on standard error, and the server as it was when
    it stopped, with the log and the calls made.  Signal handlers are the
    answers to the loads of [g_shutdown] (see World); the destructors that run
    when the process ends are not part of the model. *)

From stdpp Require Import prelude gmap.
From S2P Require Import Prelude Result CxxString Buffer Config ConfigLoad LoadBalancer World Fd EventLoop Tls Log Client Server.

Section Main.
Context {B T Ctx L : Type} `{BufferOps B} `{TlsOps T} `{TlsContext Ctx T} `{EventLoop TimerCB L}.
Context (inet_pton : bytes -> bool) (strerror : Z -> bytes) (create : World -> L * World).

Record Exit := mkExit { status : Z; stderr_text : bytes; ended : option (ProxyServer B T Ctx L); end_world : World }.

(** [0600]. *)
Definition LOG_MODE : Z := 384.

(** The stream of the log: [None] is standard error, [Some fd] the file. *)
Definition open_log (file : bytes) (w : World) : (bytes + option Z) * World :=
  if bool_decide (file = []) then (inr None, w)
  else
    let '(r, w) := sys (SysOpen (c_str file) (Z.lor (Z.lor O_WRONLY O_CREAT) O_APPEND) LOG_MODE) w in
    if sr_ret r <? 0 then (inl (str "Log error: cannot open " ++ c_str file ++ [LF]), w)
    else
      let log_fd := sr_ret r in
      let '(r, w) := sys (SysFdopen log_fd) w in
      if sr_ret r <? 0 then
        let '(_, w) := sys (SysClose log_fd) w in
        (inl (str "Log error: fdopen failed for " ++ c_str file ++ [LF]), w)
      else (inr (Some log_fd), w).

(** The logger with its first line. *)
Definition start_log (cfg : ProxyConfig) : Logger :=
  let logger := mkLogger (parse_log_level (log_level (Config.log cfg)))
                  (bool_decide (log_format (Config.log cfg) = str "json")) [] in
  Log.log Info (str "uproxy starting")
    [(VCStr (Some (str "listen")), VInt (listen_port cfg)); (VCStr (Some (str "upstreams")), VInt (len (upstreams cfg)))] logger.

Definition main (fs : Files) (args : list bytes) (w : World) : Exit :=
  match and_then (config_apply_cli fs ProxyConfig_default args) (config_validate fs) with
  | Err e => mkExit 1 (str "Config error: " ++ c_str (error_to_string strerror e) ++ [LF]) None w
  | Ok cfg =>
      match open_log (log_file (Config.log cfg)) w with
      | (inl text, w) => mkExit 1 text None w
      | (inr out, w) =>
          let '(loop, w) := create w in
          match run inet_pton strerror (ProxyServer_make cfg loop (Some (start_log cfg)) w) with
          | (Err e, s) =>
              let s := logged LError (str "fatal error") [kv "msg" (error_to_string strerror e)] s in
              mkExit 1 [] (Some s) (sv_world s)
          | (Ok _, s) =>
              let s := logged Info (str "uproxy stopped cleanly") [] s in
              let w := match out with
                       | Some fd => (sys (SysClose fd) (sv_world s)).2      (* fclose *)
                       | None => sv_world s
                       end in
              mkExit 0 [] (Some s) w
          end
      end
  end.
End Main.
