(* ===== verification/MainProofs.v ===== *)
(** * Correctness of the program as a whole

    The exit status of [main], and a complete execution from the command
    line to a served request and a clean stop. *)

From stdpp Require Import prelude gmap.
From S2P Require Import Prelude Result CxxString Buffer BufferProofs Config ConfigLoad ConfigProofs LoadBalancer World Fd UpstreamPool Http1 Forward EventLoop LoopEpoll LoopProofs Tls TlsFallback Log Client Progress Server ServerInv ServerProofs Main.

Section Main.
Context {B T Ctx L : Type} `{BufferSpec B} `{TlsOps T} `{TlsContext Ctx T} `{EventLoopSpec TimerCB L}.
Context (inet_pton : bytes -> bool) (strerror : Z -> bytes) (create : World -> L * World).

Hypothesis create_quiet : forall w, quiet w (create w).2.

(** The descriptors accepted between two worlds are still closed when the
    stretch is made longer by calls that accept none. *)
Lemma accepted_closed_around w0 w1 w2 w3 :
  quiet w0 w1 -> accepted_closed w1 w2 -> quiet w2 w3 -> accepted_closed w0 w3.
Proof.
  intros (a & Ha & Qa) (b & Hb & Hcl) (c & Hc & Qc). exists (a ++ b ++ c). split.
  - eapply ran_trans; [exact Ha|]. by eapply ran_trans.
  - intros i fd [Hi|(k & -> & Hk)]%accepted_at_app; [by apply quiet_accepts_none in Hi|].
    apply accepted_at_app in Hk as [Hk|(k' & -> & Hk)]; [|by apply quiet_accepts_none in Hk].
    destruct Ha as [_ Hs]. rewrite <- Hs in Hk. destruct (Hcl k fd Hk) as (j & Hj & E). exists (length a + j)%nat. split; [lia|].
    rewrite lookup_app_r by lia. replace (length a + j - length a)%nat with j by lia. by apply lookup_app_l_Some.
Qed.

Lemma listens_around cfg w0 w1 w2 w3 : quiet w0 w1 -> listens cfg w1 w2 -> later w2 w3 -> listens cfg w0 w3.
Proof.
  intros Hq%quiet_later [(fd & ? & L1) L2] Hl.
  assert (Hall : forall f a p, listening f a p w1 w2 -> listening f a p w0 w3)
    by (intros f a p Hf; eapply listening_r; [done|]; by eapply listening_l).
  split; [exists fd; split; [done|by apply Hall]|]. intros (fd2 & ? & L3)%L2. exists fd2. split; [done|by apply Hall].
Qed.

Lemma open_log_quiet file w : quiet w (open_log file w).2.
Proof. unfold open_log. repeat dmatch; cbn [snd]; calls_chain. Qed.

(** What a clean run shows: the configuration is kept, the listeners were set
    up, the flag was set, and no connection is left. *)
Lemma run_clean (s s' : ProxyServer B T Ctx L) :
  conns_ s = ∅ -> run inet_pton strerror s = (Ok tt, s') ->
  sv_cfg s' = sv_cfg s /\ conns_ s' = ∅ /\ listens (sv_cfg s) (sv_world s) (sv_world s') /\
  (exists flag, answered LoadShutdown flag (sv_world s) (sv_world s') /\ 0 < sr_ret flag) /\
  accepted_closed (sv_world s) (sv_world s').
Proof.
  intros He E. destruct (run_spec inet_pton strerror s s' He E) as (s1 & s2 & Hs & Hli & Hl & Hok & S1 & S2 & Hq & Hc).
  destruct (S1 Hok) as (Hok2 & T1 & G1). destruct (S2 Hok2) as (_ & T2 & G2).
  assert (L1 : later (sv_world s1) (sv_world s')) by (etrans; [by apply tracked_later|by apply quiet_later]).
  split_and!; [|done| | |].
  - destruct Hs as (_ & _ & Hcfg). unfold setting in G1, G2. congruence.
  - eapply listens_around; [reflexivity|done|done].
  - destruct (serving_stopped _ _ _ _ _ Hl Hok eq_refl) as (cs & a & Hr & Ha & Hpos). exists a. split; [|done].
    destruct Hs as (Q%quiet_later & _). eapply answered_r; [exact Q|]. eapply answered_l; [|by apply quiet_later].
    exists (cs ++ [LoadShutdown]), (length cs). split_and!; [done| |done]. by apply list_lookup_middle.
  - apply tracked_closed; [|done]. etrans; [by apply sets_up_tracked|]. by etrans.
Qed.

(** (C38) What the exit status says.  The status is 0 or 1.  With a
    configuration that is not accepted nothing is done at all: no call is
    made and no server is started.  The status is 0 exactly when the
    configuration is accepted, the log is opened and [run] ends without an
    error; whatever fails on the way, in opening the log, in setting up or in
    polling, gives 1.  And a status of 0 means, in terms of the calls made
    between start and exit and the answers to them: the configured address
    and port, and the TLS port where TLS is enabled, were bound and put into
    listening mode with success; the shutdown flag was seen set; every
    descriptor that was accepted was closed later; and the server has ended
    without connections, with that configuration, which is a valid one. *)
Theorem main_exit (fs : Files) (args : list bytes) (w : World) :
  let e := main (B := B) (T := T) (Ctx := Ctx) inet_pton strerror create fs args w in
  let cfg := and_then (config_apply_cli fs ProxyConfig_default args) (config_validate fs) in
  (status e = 0 \/ status e = 1) /\
  (is_err cfg = true -> status e = 1 /\ end_world e = w /\ ended e = None) /\
  (status e = 0 <->
     exists c out w1 s, cfg = Ok c /\ open_log (log_file (Config.log c)) w = (inr out, w1) /\
       run inet_pton strerror (ProxyServer_make c (create w1).1 (Some (start_log c)) (create w1).2) = (Ok tt, s)) /\
  (status e = 0 ->
     exists c s flag, cfg = Ok c /\ config_valid fs c /\ ended e = Some s /\ sv_cfg s = c /\ conns_ s = ∅ /\
       listens c w (end_world e) /\ answered LoadShutdown flag w (end_world e) /\ 0 < sr_ret flag /\
       accepted_closed w (end_world e)).
Proof.
  intros e cfg. unfold e, main. fold cfg. destruct cfg as [c|x] eqn:Ec.
  2: { cbn. split_and!; [by right|done|split; [done|by intros (?&?&?&?&?&?)]|done]. }
  pose proof (open_log_quiet (log_file (Config.log c)) w) as Hq1.
  destruct (open_log _ w) as [[text|out] w1] eqn:Eo.
  { cbn. split_and!; [by right|done|split; [done|]|done]. intros (c' & ? & ? & ? & [= <-] & Eo' & _). by rewrite Eo in Eo'. }
  pose proof (create_quiet w1) as Hq2. destruct (create w1) as [loop w2] eqn:Ecr. cbn [fst snd] in *. set (s0 := ProxyServer_make _ _ _ _).
  destruct (run inet_pton strerror s0) as [[[]|x] s1] eqn:Er.
  2: { cbn. split_and!; [by right|done|split; [done|]|done]. intros (c' & ? & w' & s' & [= <-] & Eo' & Er').
       rewrite Eo in Eo'. injection Eo' as <- <-. rewrite Ecr in Er'. cbn [fst snd] in Er'. fold s0 in Er'. congruence. }
  cbn [status end_world]. split_and!; [by left|done| |].
  - split; [|done]. intros _. exists c, out, w1, s1. rewrite Ecr. done.
  - intros _. destruct (run_clean s0 s1 eq_refl Er) as (Hcfg & Hconns & Hli & (flag & Hflag & Hpos) & Hcl).
    assert (Hq0 : quiet w (sv_world s0)) by (cbn; by etrans). set (wend := match out with Some _ => _ | None => _ end).
    assert (Hqe : quiet (sv_world s1) wend) by (unfold wend; destruct out as [fd|]; [apply (calls_quiet (m := sys (SysClose fd)))|done]).
    exists c, (logged Info (str "uproxy stopped cleanly") [] s1), flag. split_and!; [done| |done|exact Hcfg|done| | |done|].
    + unfold cfg in Ec. destruct (config_apply_cli _ _ _) as [c0|x]; [|done]. cbn in Ec.
      assert (c = c0) as -> by (unfold config_validate in Ec; repeat (dmatch_in Ec; [done|]); by injection Ec).
      by apply config_validate_spec.
    + eapply listens_around; [done..|by apply quiet_later].
    + eapply answered_r; [by apply quiet_later|]. eapply answered_l; [done|by apply quiet_later].
    + by eapply accepted_closed_around.
Qed.
End Main.

(** ** A complete execution *)

Definition ok (n : Z) : SysResult := mkSys n 0 0 [].

Definition session_args : list bytes := [str "--no-tls"; str "--upstream"; str "127.0.0.1:3000"].
Definition session_request : bytes := text_lines [str "GET / HTTP/1.1"; str "Host: a"].
Definition session_response : bytes := text_lines [str "HTTP/1.1 200 OK"; str "Content-Length: 2"] ++ str "hi".

(** What the system answers: setting up the loop, the listener and the timer;
    accepting a client; its request; the exchange with the upstream; sending
    the response; and the shutdown flag. *)
Definition session_answers : list SysResult :=
  [ok 3; ok 4; ok 0; ok 0; ok 0; ok 0; ok 0; ok 0; ok 0; ok 5; ok 0; ok 0]
  ++ [ok 0; mkSysEvents 1 0 0 [] [(4, 0, EPOLLIN)]; ok 6; ok 0; ok 0; ok 0; ok 0; mkSys (-1) EAGAIN 0 []]
  ++ [ok 0; mkSysEvents 1 0 0 [] [(6, 0, EPOLLIN)]; mkSys 0 0 0 session_request; mkSys (-1) EAGAIN 0 []]
  ++ [ok 7; ok 0; ok 0; ok 0; ok 0; ok 0; ok 1000; mkSys 1 0 POLLIN []; mkSys 0 0 0 session_response; ok 0; ok 0]
  ++ [ok 0; mkSysEvents 1 0 0 [] [(6, 0, EPOLLOUT)]; ok 1000; ok 0]
  ++ [ok 1].

Definition session : Exit :=
  main (B := bytes) (T := Fallback.TLSConn) (Ctx := Fallback.TLSContextImpl) (L := Epoll.EpollLoop TimerCB)
    (fun _ => true) (fun _ => []) Epoll.create (mkFiles (fun _ => None) (fun _ => false)) session_args (mkWorld [] session_answers).

(** The client's socket gets exactly the upstream's bytes, the upstream's
    gets the request with the proxy's headers, every answer is used, and the
    client's socket, and no other, is closed. *)
Example session_runs :
  status session = 0 /\ script (end_world session) = [] /\
  sent 6 (trace (end_world session)) session_answers = session_response /\
  sent 7 (trace (end_world session)) session_answers =
    text_lines [str "GET / HTTP/1.1"; str "Host: 127.0.0.1:3000"; str "Via: 1.1 uproxy"] /\
  List.filter (fun c => match c with SysClose _ => true | _ => false end) (trace (end_world session)) = [SysClose 6].
Proof. vm_compute. split_and!; reflexivity. Qed.

Lemma epoll_create_quiet w : quiet w (Epoll.create (CB := TimerCB) w).2.
Proof. unfold Epoll.create. destruct (sys SysEpollCreate w) as [r w1] eqn:E. calls_chain. Qed.

Lemma main_exit_witness :
  exists c s, ended session = Some s /\ conns_ s = ∅ /\ listens c (mkWorld [] session_answers) (end_world session) /\
    accepted_closed (mkWorld [] session_answers) (end_world session).
Proof.
  destruct (main_exit (B := bytes) (T := Fallback.TLSConn) (Ctx := Fallback.TLSContextImpl) (L := Epoll.EpollLoop TimerCB)
    (fun _ => true) (fun _ => []) Epoll.create epoll_create_quiet (mkFiles (fun _ => None) (fun _ => false)) session_args (mkWorld [] session_answers))
    as (_ & _ & _ & H).
  destruct H as (c & s & flag & _ & _ & H1 & _ & H2 & H3 & _ & _ & H4); [vm_compute; reflexivity|]. exists c, s.
  split; [exact H1|]. split; [exact H2|]. split; [exact H3|exact H4].
Defined.

(** A listener that cannot be bound: the status is 1. *)
Example session_bind_fails :
  status (main (B := bytes) (T := Fallback.TLSConn) (Ctx := Fallback.TLSContextImpl) (L := Epoll.EpollLoop TimerCB)
    (fun _ => true) (fun _ => []) Epoll.create (mkFiles (fun _ => None) (fun _ => false)) session_args
    (mkWorld [] [ok 3; ok 4; ok 0; ok 0; ok 0; ok 0; mkSys (-1) EIO 0 []])) = 1.
Proof. vm_compute. reflexivity. Qed.
